(* ===== verification/_CoqProject ===== *)
-Q . S2P
Prelude.v
GoStrings.v
GoRegexp.v
Usr.v
Cgraph.v
GccDumps.v
OptRecord.v
Paths.v
NinjaDeps.v
LinkPlane.v
Exec.v
Store.v
IndexFile.v
Meson.v
Ingest.v
Link.v
Sources.v
CallGraph.v
SourceTools.v
Inlining.v
Reload.v
Dwarf.v
Signature.v
DwarfRead.v
CallTarget.v
DwarfIngest.v
SymbolTools.v
LinkageTools.v
Preflight.v
SqlTool.v
Collect.v
EndToEnd.v
Report.v
Schema.v
Tools.v
Command.v
ServedSources.v
LinkedCalls.v
TakenFunctions.v
DumpCalls.v
Session.v
