(* ===== verification/Prelude.v ===== *)
(** * Herbarium: a verification library

    Herbarium ([src/]) reads what GCC, ninja, Meson and binutils wrote about a C
    build into one SQLite index ([herbarium collect]) and answers questions about
    the code over that index ([herbarium serve]).  This library models the
    readers, the ingest passes and the query handlers as Rocq functions and
    proves what they promise.

    ** How the program's parts interact

    [collect] ([Collect]) loads Meson's introspection ([Meson]), crawls the build
    directory ([Paths.BuildDir]), checks that the build can be indexed
    ([Preflight]), and builds a scratch index beside the destination: it parses the
    compiler's dumps per translation unit ([Cgraph], [GccDumps], [OptRecord]) and
    aggregates them into rows ([Ingest]), enriches these from the objects' debug
    information ([DwarfRead], [Signature], [CallTarget], [DwarfIngest]), writes the
    targets ([Meson.Targets]), reads nm, objdump and linker maps ([LinkPlane]) into
    link resolutions and linked edges ([Link]), and packs the sources named by
    Meson and by ninja's deps log ([NinjaDeps]) into the blob store ([Sources],
    [Store]).  The external tools are run by [Exec], the index file is opened, initialised and
    sealed by [IndexFile], and the finished index is renamed into place.  [serve] opens
    it ([Reload]) and answers from its tables ([CallGraph], [SourceTools], [Inlining],
    [SymbolTools], [LinkageTools], [SqlTool], [Schema]) the calls that the registered
    tools take ([Tools]), while [reload_index] can replace the open handle between
    calls.  [Command] is the command line in front of both.  A symbol is named
    everywhere by its USR ([Usr]).

    ** Files

    - [Prelude]: results, outcomes, error loops, fold invariants, sorting; this
      header.
    - [GoStrings], [GoRegexp]: the parts of Go's [strings], [strconv], [bufio] and
      [regexp] the code uses; strings are byte strings, regular expressions are
      parsed from the source's own literals and matched leftmost-first.
    - [Usr] — [internal/usr]: the USR constructors, [Clone] and [itoa] with its
      fixed buffer.
    - [Cgraph] — [internal/gccdump/cgraph.go]; [GccDumps] — [inline.go], [icf.go],
      [ci.go]; [OptRecord] — [optrecord.go]: each parser is a fold of a step
      over the scanned lines (or the decoded JSON value).
    - [Paths] — [internal/ingest/paths.go], [externalglob.go] and
      [internal/builddir], over Go's [filepath].
    - [NinjaDeps] — [internal/ninjadeps], on bytes.
    - [LinkPlane] — [internal/linkplane]: the parsers of maps, nm and objdump;
      [Exec] — [exec.go] and the [Run...] functions: a tool is run, its output
      buffered or streamed to a parser, its failure worded.
    - [Store] — the rows of [internal/store/schema.sql] and [internal/blobstore];
      [IndexFile] — [internal/store/store.go]: the calls made of the SQLite driver, as
      a monad over their trace.
    - [Meson] — [internal/mesonintrospect] and [internal/ingest/targets.go].
    - [Ingest] — [internal/ingest/ingest.go]; [Link] — [link.go]; [Sources] —
      [sources.go].  A transaction is the state it would commit; [Rollback] is the
      state before.
    - [Dwarf] — what the code uses of Go's [debug/dwarf]: entries, attributes and a
      reader over them; [Signature] — [internal/dwarfingest/signature.go], with the
      memo table as state; [DwarfRead] — [reader.go]; [CallTarget] —
      [calltarget.go] and the whole of [Read]; [DwarfIngest] —
      [internal/ingest/dwarf.go].
    - [CallGraph], [SourceTools], [Inlining], [SymbolTools], [LinkageTools],
      [SqlTool] — the handlers of [internal/mcp] over the index's tables.  A
      handler's early returns are the constructors of an error type.
    - [Reload] — [internal/mcp/mcp.go], [reload_tool.go] and the start of
      [cmd/herbarium/serve.go]: tool calls and reloads as threads that take one
      atomic step at a time over the two locks and the open handles.
    - [Preflight] — [internal/preflight]; [Collect] —
      [cmd/herbarium/collect.go]: the command as the sequence of states it takes
      the file system through, what the machine answers being a parameter.
    - [Schema] — [internal/mcp/schema_tool.go], glossary and recipes verbatim; [Tools] —
      the registrations of [internal/mcp]: every tool with its texts, arguments and
      handler, and a call by name; [Command] — [cmd/herbarium]: Go's [flag] parser, the
      two flag sets and [main].
    - [EndToEnd], [ServedSources], [LinkedCalls], [TakenFunctions], [DumpCalls] — the
      passes and the tools together: what the tools answer on an index [collect] made, in
      terms of the dumps, the objects, the sources and the binaries it read; [Report] —
      what the summary that [collect] prints counts; [Session] — a collect followed by a
      serve of the same destination.

    ** Interfaces

    [RoundTrip] is what a printer promises its parser (zstd, path escapes, command
    lines); [Keyed] is what a collected index promises the query handlers (rows
    numbered and named uniquely); [Arguments] is what the MCP library gives a handler of
    a call.  Clients are proved against the class; the instances are where the
    implementation is.

    ** What the theorems show

    - Identity and addressing: USRs are injective; a project-relative path and its
      file determine each other; patterns match what they say.
    - Readers: each dump format that GCC or objdump writes is printed by a
      function of this library, and parsing gives back what was printed; a ninja
      log cut anywhere gives its whole records; no amount of further input loses
      information.
    - Ingest: the order of translation units is irrelevant to the merged symbols;
      ids, edges and decisions are unique; pruning loses no reference; link rows
      refer to existing symbols and targets; packing stores current contents or
      leaves the tables as they were.
    - Debug information: the reader's single pass is the traversal of the entry
      trees and fails only where the entries do not decode; rendering with the memo
      table is rendering without one; the ingest fills what was empty, keeps what
      was there and makes one row per type.
    - Queries: path enumeration, search, drift, snippets, the inlining verdicts,
      linkage and symbol listings are characterised by the rows they are about,
      truncation flags included.
    - Concurrency: a tool call sees one open index from its first query to its last
      whatever reloads run beside it; no handle leaks; every call can finish.
    - The whole: a collect changes the destination in one step or not at all; the
      index it makes is one [serve] takes, all its references find their rows, its
      documented vocabularies hold, and [list_callees], [list_linked_callees],
      [describe_link_resolution], [describe_type] and [read_source] on it answer exactly
      what the dumps, the binaries, the debug information and the sources say; the paths
      [list_call_paths] gives are the simple paths of the dumps' calls and [explain_call]
      shows the decisions the units' dumps hold; a search finds what the files hold, and
      no function whose address the dumps take is lost.  The summary printed counts the
      rows of the index, and a [serve] of the destination after the command answers from
      the index just made.
    - The edges of the program: a command line is parsed back to the options it was
      printed from; a call depends on its declared arguments only; streaming a tool's
      output is buffering it; sealing succeeds only on a file left in delete mode.

    Each property of the manifest has its claim id in its doc comment; the
    lemma named after it with [_witness] applies it to concrete data.

    ** Bounds and fuel

    [itoa]'s buffer is the code's twelve bytes.  Scanners have the code's line
    limits and report a longer line as the code does.  Fuel is used where a loop
    consumes its input: [NinjaDeps.Read] and [Paths.glob] take the length of the
    input as fuel, which each step shortens; the regexp matcher's star consumes at
    least a byte per round.  [CallGraph.dfs] recurses on the depth limit of the
    request, as the code does.  [Signature.type_fuel] exceeds the number of entries:
    the memo table marks a type before its inside is rendered, so the recursion ends
    on cyclic types too ([Signature.render_terminates]).
    [CallTarget.decodeRegExpr] takes the length of the expression.
    [Collect.format36] writes the thirteen base-36 digits a 64-bit word can have, and
    [Collect.reserve] retries as often as the code.  Integers are [Z] with the
    machine width written where it matters ([wrap64], [NinjaDeps.u32],
    [OptRecord.decode_int]).

    ** Not modelled

    SQLite itself, zstd, SHA-256, gunzip, the JSON text decoder, ELF parsing, Go's
    regexp compiler for user patterns, FTS5 matching (which may refuse an expression),
    the MCP library with its transports, and the external tools are parameters.  Queries are written as list
    operations; where SQL leaves an order open the rows keep theirs.  Left out are the
    DDL text, usage texts, the encoding of answers as JSON and the texts written to the
    standard error: input and output without a decision of the program's
    own. *)

From stdpp Require Export base tactics numbers list gmap fin_maps sets strings sorting.
From Stdlib Require Export Ascii.
From Stdlib Require Import ZArith Lia.

#[export] Set Default Goal Selector "!".

Create HintDb herb.
Create Rewrite HintDb herb.

(** ** Results of fallible Go code

    A Go function returning [(T, error)] is a [result]; the error side is an
    inductive type with one constructor per [return ..., err] of the code.
    [outcome] is for code that can panic (an index or slice expression out of
    range). *)

Inductive result (E A : Type) : Type :=
| Ok (a : A)
| Err (e : E).
Arguments Ok {E A} a.
Arguments Err {E A} e.

Inductive outcome (A : Type) : Type :=
| Val (a : A)
| Panic.
Arguments Val {A} a.
Arguments Panic {A}.

#[export] Instance result_ret {E} : MRet (result E) := λ A a, Ok a.
#[export] Instance result_bind {E} : MBind (result E) := λ A B f r,
  match r with Ok a => f a | Err e => Err e end.
#[export] Instance result_fmap {E} : FMap (result E) := λ A B f r,
  match r with Ok a => Ok (f a) | Err e => Err e end.
#[export] Instance outcome_bind : MBind outcome := λ A B f r,
  match r with Val a => f a | Panic => Panic end.
#[export] Instance outcome_fmap : FMap outcome := λ A B f r,
  match r with Val a => Val (f a) | Panic => Panic end.

#[export] Instance result_eq_dec {E A} `{EqDecision E, EqDecision A} :
  EqDecision (result E A).
Proof. solve_decision. Defined.
#[export] Instance outcome_eq_dec {A} `{EqDecision A} : EqDecision (outcome A).
Proof. solve_decision. Defined.

Definition from_ok {E A} (d : A) (r : result E A) : A :=
  match r with Ok a => a | Err _ => d end.

(** What the writer of a format promises its reader: decoding gives back what was
    encoded. *)
Class RoundTrip {A B : Type} (encode : A → B) (decode : B → option A) : Prop :=
  decode_encode a : decode (encode a) = Some a.

Lemma encode_inj {A B} (encode : A → B) (decode : B → option A) `{!RoundTrip encode decode} : Inj (=) (=) encode.
Proof. intros a b H. pose proof (decode_encode a) as Ha. rewrite H, decode_encode in Ha. congruence. Qed.

(** The first error of a loop that returns on error ([for … { if err != nil
    { return err } }]), threading an accumulator. *)
Fixpoint foldM {E A S} (f : S → A → result E S) (l : list A) (s : S) : result E S :=
  match l with
  | [] => Ok s
  | x :: l => match f s x with Ok s' => foldM f l s' | Err e => Err e end
  end.

Fixpoint mapM_result {E A B} (f : A → result E B) (l : list A) : result E (list B) :=
  match l with
  | [] => Ok []
  | x :: l => match f x with
              | Ok y => match mapM_result f l with
                        | Ok ys => Ok (y :: ys)
                        | Err e => Err e
                        end
              | Err e => Err e
              end
  end.

(** ** Machine integers *)

(** Two's complement of a 64-bit int. *)
Definition wrap64 (n : Z) : Z := ((n + 2 ^ 63) mod 2 ^ 64 - 2 ^ 63)%Z.

(** The 64-bit word an integer is cut to. *)
Definition word64 (z : Z) : Z := (z mod 2 ^ 64)%Z.

(** ** Tactics *)

(** Case analysis on every match scrutinee of the goal and hypotheses, with the
    contradictory branches closed. *)
Ltac go_cases :=
  repeat (case_match; simplify_eq/=; try done).

(** Close a decidable fact about concrete data by evaluation. *)
Ltac by_decide := apply (bool_decide_unpack _); vm_compute; exact I.

(** Split a conjunction of facts and close each by [eauto with herb]. *)
Ltac go_auto := repeat split; eauto with herb.

(** ** Fold invariants

    Loops over a slice are [foldl] over a state; these two rules are how their
    theorems are proved. *)

Section fold.
Context {A S : Type}.

Lemma foldl_inv (I : S → Prop) (f : S → A → S) (l : list A) (s : S) :
  I s → (∀ s x, x ∈ l → I s → I (f s x)) → I (foldl f s l).
Proof.
  revert s; induction l as [|x l IH]; intros s Hs Hstep; simpl; [done|].
  apply IH; [apply Hstep; [set_solver|done]|].
  intros s' y Hy; apply Hstep; set_solver.
Qed.

(** The invariant may also talk about the elements already processed. *)
Lemma foldl_inv_pre (I : list A → S → Prop) (f : S → A → S) (l : list A) (s : S) :
  I [] s →
  (∀ pre x s, (∃ post, l = pre ++ x :: post) → I pre s → I (pre ++ [x]) (f s x)) →
  I l (foldl f s l).
Proof.
  intros H0 Hstep.
  enough (∀ done todo s, l = done ++ todo → I done s → I l (foldl f s todo)) as H
    by exact (H [] l s eq_refl H0).
  intros done todo; revert done; induction todo as [|x todo IH]; intros done s' Hl Hs; simpl.
  - by rewrite Hl, app_nil_r.
  - apply (IH (done ++ [x])); [by rewrite <-app_assoc|]. apply Hstep; eauto.
Qed.

Lemma foldl_ext_in (f g : S → A → S) (l : list A) (s : S) :
  (∀ s x, x ∈ l → f s x = g s x) → foldl f s l = foldl g s l.
Proof.
  revert s; induction l as [|x l IH]; intros s Hfg; simpl; [done|].
  rewrite Hfg by set_solver. apply IH. intros; apply Hfg; set_solver.
Qed.
End fold.

Lemma foldM_app {E A S} (f : S → A → result E S) l1 l2 s :
  foldM f (l1 ++ l2) s = foldM f l1 s ≫= foldM f l2.
Proof. revert s; induction l1 as [|x l1 IH]; intros s; simpl; [done|]. by destruct (f s x). Qed.

(** The loops that return on error have the same rules. *)
Lemma foldM_inv_pre {E A S} (I : list A → S → Prop) (f : S → A → result E S) l s s' :
  I [] s →
  (∀ pre x post s s', l = pre ++ x :: post → I pre s → f s x = Ok s' → I (pre ++ [x]) s') →
  foldM f l s = Ok s' → I l s'.
Proof.
  intros H0 Hstep.
  enough (∀ todo done s, l = done ++ todo → I done s → foldM f todo s = Ok s' → I l s') as H
    by exact (H l [] s eq_refl H0).
  induction todo as [|x todo IH]; intros done s1 Hl Hs; cbn.
  - intros [= <-]. by rewrite Hl, app_nil_r.
  - destruct (f s1 x) as [s2|] eqn:Ef; [|done]. apply (IH (done ++ [x])); [by rewrite <-app_assoc|]. eauto.
Qed.

Lemma foldM_inv {E A S} (I : S → Prop) (f : S → A → result E S) l s s' :
  I s → (∀ x s s', x ∈ l → I s → f s x = Ok s' → I s') → foldM f l s = Ok s' → I s'.
Proof.
  intros H0 Hstep. apply (foldM_inv_pre (λ _, I)); [done|]. intros pre x post s1 s2 ->. apply Hstep. set_solver.
Qed.

(** Every element was processed without an error. *)
Lemma foldM_elem {E A S} (f : S → A → result E S) l s s' x :
  x ∈ l → foldM f l s = Ok s' → ∃ s1 s2, f s1 x = Ok s2.
Proof.
  revert s; induction l as [|y l IH]; intros s Hx; cbn; [set_solver|].
  destruct (f s y) as [s1|] eqn:E1; [|done]. apply elem_of_cons in Hx as [->|Hx]; [by eauto|by apply IH].
Qed.

(** Loops whose body can panic. *)
Fixpoint foldO {A S} (f : S → A → outcome S) (l : list A) (s : S) : outcome S :=
  match l with
  | [] => Val s
  | x :: l => match f s x with Val s' => foldO f l s' | Panic => Panic end
  end.

Lemma foldO_inv_pre {A S} (I : list A → S → Prop) (f : S → A → outcome S) l s s' :
  I [] s →
  (∀ pre x post s s', l = pre ++ x :: post → I pre s → f s x = Val s' → I (pre ++ [x]) s') →
  foldO f l s = Val s' → I l s'.
Proof.
  intros H0 Hstep.
  enough (∀ todo done s, l = done ++ todo → I done s → foldO f todo s = Val s' → I l s') as H
    by exact (H l [] s eq_refl H0).
  induction todo as [|x todo IH]; intros done s1 Hl Hs; cbn.
  - intros [= <-]. by rewrite Hl, app_nil_r.
  - destruct (f s1 x) as [s2|] eqn:Ef; [|done]. apply (IH (done ++ [x])); [by rewrite <-app_assoc|]. eauto.
Qed.

Lemma foldO_inv {A S} (I : S → Prop) (f : S → A → outcome S) l s s' :
  I s → (∀ x s s', x ∈ l → I s → f s x = Val s' → I s') → foldO f l s = Val s' → I s'.
Proof.
  intros H0 Hstep. apply (foldO_inv_pre (λ _, I)); [done|]. intros pre x post s1 s2 ->. apply Hstep. set_solver.
Qed.

(** ** Sorting: [sort.Strings] and [sort.Slice]

    [merge_sort] of stdpp over the byte order [String.le] of Go strings. *)

Definition sort_strings (l : list string) : list string := merge_sort String.le l.

Lemma sort_strings_perm l : sort_strings l ≡ₚ l.
Proof. apply merge_sort_Permutation. Qed.

Lemma sort_strings_sorted l : StronglySorted String.le (sort_strings l).
Proof. apply (StronglySorted_merge_sort String.le). Qed.

Lemma elem_of_sort_strings x l : x ∈ sort_strings l ↔ x ∈ l.
Proof. by rewrite sort_strings_perm. Qed.

Lemma StronglySorted_take {A} (R : relation A) n l : StronglySorted R l → StronglySorted R (take n l).
Proof. intros H. rewrite <-(take_drop n l) in H. by apply StronglySorted_app_1_l in H. Qed.

Lemma NoDup_sort_strings l : NoDup (sort_strings l) ↔ NoDup l.
Proof. by rewrite sort_strings_perm. Qed.

Lemma length_sort_strings l : length (sort_strings l) = length l.
Proof. by rewrite sort_strings_perm. Qed.

(** Two lists with the same elements sort to the same list: a map or a set may
    be enumerated in any order before [sort.Strings]. *)
Lemma sort_strings_proper l1 l2 : l1 ≡ₚ l2 → sort_strings l1 = sort_strings l2.
Proof.
  intros Hp. apply (StronglySorted_unique String.le); try apply sort_strings_sorted.
  by rewrite !sort_strings_perm.
Qed.

#[export] Instance sort_strings_perm_proper : Proper ((≡ₚ) ==> (=)) sort_strings.
Proof. intros l1 l2; apply sort_strings_proper. Qed.

#[export] Hint Resolve sort_strings_sorted : herb.
#[export] Hint Rewrite elem_of_sort_strings NoDup_sort_strings length_sort_strings : herb.

(** [sort.Slice] by a string field ([return xs[i].F < xs[j].F]). *)
Section sort_by.
Context {A : Type} (key : A → string).

Definition key_le (a b : A) : Prop := String.le (key a) (key b).
#[export] Instance key_le_dec : RelDecision key_le.
Proof. intros a b. unfold key_le. apply _. Defined.
#[export] Instance key_le_total : Total key_le.
Proof. intros a b. unfold key_le. apply (total String.le). Qed.
#[export] Instance key_le_trans : Transitive key_le.
Proof. intros a b c. unfold key_le. apply (transitivity (R := String.le)). Qed.

Definition sort_by (l : list A) : list A := merge_sort key_le l.

Lemma sort_by_perm l : sort_by l ≡ₚ l.
Proof. apply merge_sort_Permutation. Qed.

(** The keys come out as [sort.Strings] would order them. *)
Lemma sort_by_keys l : key <$> sort_by l = sort_strings (key <$> l).
Proof.
  apply (StronglySorted_unique String.le); [|apply sort_strings_sorted|].
  - assert (StronglySorted key_le (sort_by l)) as H by apply (StronglySorted_merge_sort key_le).
    induction H as [|a k _ IH Ha]; cbn; constructor; [done|]. by rewrite Forall_fmap.
  - by rewrite sort_by_perm, sort_strings_perm.
Qed.
End sort_by.

(** ** Go maps *)

(** The keys of a map in sorted order: the [keys := …; sort.Strings(keys)] idiom. *)
Definition sorted_keys {V} (m : gmap string V) : list string :=
  sort_strings (map_to_list m).*1.

Lemma elem_of_sorted_keys {V} (m : gmap string V) k :
  k ∈ sorted_keys m ↔ is_Some (m !! k).
Proof.
  unfold sorted_keys. rewrite elem_of_sort_strings, list_elem_of_fmap. split.
  - intros ([k' v] & -> & Hin). apply elem_of_map_to_list in Hin. eauto.
  - intros [v Hv]. exists (k, v). by rewrite elem_of_map_to_list.
Qed.

Lemma NoDup_sorted_keys {V} (m : gmap string V) : NoDup (sorted_keys m).
Proof. unfold sorted_keys. rewrite NoDup_sort_strings. apply NoDup_fst_map_to_list. Qed.

#[export] Hint Resolve NoDup_sorted_keys : herb.

(** Elements are told apart by a key that is unique. *)
Lemma NoDup_fmap_inj_on {A B} (f : A → B) l x y : NoDup (f <$> l) → x ∈ l → y ∈ l → f x = f y → x = y.
Proof.
  intros Hnd [n Hn]%list_elem_of_lookup [k Hk]%list_elem_of_lookup E.
  assert (n = k) as ->; [|congruence]. apply (NoDup_lookup _ _ _ (f x) Hnd); rewrite list_lookup_fmap; [by rewrite Hn|].
  by rewrite Hk, E.
Qed.
