(* ===== verification/GoStrings.v ===== *)
(** * Go strings: the functions of [strings], [strconv] and [bufio] the sources use

    A Go string is a [string] of bytes.  White space is ASCII white space
    ([unicode.IsSpace] restricted to one-byte runes): every text the program
    parses is the ASCII output of a tool. *)

From S2P Require Import Prelude.
From Stdlib Require Import ZArith Lia.

Definition NL : ascii := "010"%char.
Definition CR : ascii := "013"%char.
Definition DQ : ascii := "034"%char.
Definition str1 (a : ascii) : string := String a "".

(** ** Append and length *)

Lemma sapp_nil_l s : "" +:+ s = s.
Proof. done. Qed.
Lemma sapp_nil_r s : s +:+ "" = s.
Proof. induction s as [|a s IH]; [done|]. change (String a (s +:+ "") = String a s). by f_equal. Qed.
Lemma sapp_cons a s t : String a s +:+ t = String a (s +:+ t).
Proof. done. Qed.
Lemma sapp_assoc s t u : (s +:+ t) +:+ u = s +:+ (t +:+ u).
Proof. induction s as [|a s IH]; [done|]. rewrite !sapp_cons. by f_equal. Qed.
Lemma slen_app s t : String.length (s +:+ t) = String.length s + String.length t.
Proof. induction s as [|a s IH]; [done|]. rewrite sapp_cons. simpl. by rewrite IH. Qed.
Lemma sapp_inj_r s t1 t2 : t1 +:+ s = t2 +:+ s → t1 = t2.
Proof.
  revert t2; induction t1 as [|a t1 IH]; intros [|b t2] H; rewrite ?sapp_nil_l, ?sapp_cons in H;
    [done|apply (f_equal String.length) in H; simpl in H; rewrite slen_app in H; lia..|].
  injection H as -> H. f_equal. by apply IH.
Qed.
Lemma sapp_split s t u v : s +:+ t = u +:+ v → (∃ w, s = u +:+ w ∧ v = w +:+ t) ∨ (∃ w, u = s +:+ w ∧ t = w +:+ v).
Proof.
  revert u; induction s as [|a s IH]; intros u H; [right; by exists u|].
  destruct u as [|b u]; [left; by exists (String a s)|]. rewrite !sapp_cons in H. injection H as -> H.
  destruct (IH u H) as [(w & -> & ->)|(w & -> & ->)]; [left|right]; by exists w.
Qed.
Lemma sapp_eq_nil s t : s +:+ t = "" ↔ s = "" ∧ t = "".
Proof. destruct s; rewrite ?sapp_nil_l, ?sapp_cons; naive_solver. Qed.

#[export] Hint Rewrite sapp_nil_r sapp_cons sapp_assoc slen_app : herb.

(** ** Bytes of a string *)

Fixpoint schars (s : string) : list ascii :=
  match s with "" => [] | String a s => a :: schars s end.

Fixpoint of_chars (l : list ascii) : string :=
  match l with [] => "" | a :: l => String a (of_chars l) end.

Lemma of_chars_schars s : of_chars (schars s) = s.
Proof. induction s; simpl; congruence. Qed.
Lemma schars_of_chars l : schars (of_chars l) = l.
Proof. induction l; simpl; congruence. Qed.
Lemma schars_app s t : schars (s +:+ t) = schars s ++ schars t.
Proof. induction s as [|a s IH]; [done|]. rewrite sapp_cons. simpl. by rewrite IH. Qed.
Lemma length_schars s : length (schars s) = String.length s.
Proof. induction s; simpl; congruence. Qed.
Lemma schars_inj s t : schars s = schars t → s = t.
Proof. intros H. by rewrite <-(of_chars_schars s), H, of_chars_schars. Qed.

(** Every byte of the string satisfies [p]. *)
Definition all_chars (p : ascii → bool) (s : string) : bool := forallb p (schars s).

Lemma all_chars_cons p a s : all_chars p (String a s) = p a && all_chars p s.
Proof. done. Qed.
Lemma all_chars_app p s t : all_chars p (s +:+ t) = all_chars p s && all_chars p t.
Proof. unfold all_chars. by rewrite schars_app, forallb_app. Qed.
Lemma all_chars_impl (p q : ascii → bool) s :
  (∀ a, p a = true → q a = true) → all_chars p s = true → all_chars q s = true.
Proof.
  intros Hpq. induction s as [|a s IH]; [done|]. rewrite !all_chars_cons, !andb_true_iff.
  intros [??]; auto.
Qed.

(** ** Slices [s[i:]] and [s[:i]] *)

Fixpoint sdrop (n : nat) (s : string) : string :=
  match n, s with
  | 0, _ => s
  | S n, "" => ""
  | S n, String _ s => sdrop n s
  end.

Fixpoint stake (n : nat) (s : string) : string :=
  match n, s with
  | 0, _ => ""
  | S n, "" => ""
  | S n, String a s => String a (stake n s)
  end.

Lemma stake_sdrop n s : stake n s +:+ sdrop n s = s.
Proof. revert s; induction n as [|n IH]; intros [|a s]; simpl; try done. rewrite sapp_cons. by f_equal. Qed.
Lemma sdrop_app s t : sdrop (String.length s) (s +:+ t) = t.
Proof. induction s as [|a s IH]; [done|]. by rewrite sapp_cons. Qed.
Lemma stake_app s t : stake (String.length s) (s +:+ t) = s.
Proof. induction s as [|a s IH]; [by destruct t|]. rewrite sapp_cons. simpl. by f_equal. Qed.
Lemma slen_sdrop n s : String.length (sdrop n s) = String.length s - n.
Proof. revert s; induction n as [|n IH]; intros [|a s]; simpl; auto with lia. Qed.

Lemma sdrop_sdrop m n s : sdrop m (sdrop n s) = sdrop (n + m) s.
Proof. revert s; induction n as [|n IH]; intros [|a s]; simpl; [done|done|by destruct m|apply IH]. Qed.

(** ** Prefixes and suffixes *)

Fixpoint strip_prefix (p s : string) : option string :=
  match p, s with
  | "", _ => Some s
  | String _ _, "" => None
  | String a p, String b s => if Ascii.eqb a b then strip_prefix p s else None
  end.

Fixpoint strip_suffix (suf s : string) : option string :=
  if String.eqb s suf then Some ""
  else match s with
       | "" => None
       | String a s => String a <$> strip_suffix suf s
       end.

Definition is_some {A} (o : option A) : bool := match o with Some _ => true | None => false end.

Definition HasPrefix (s p : string) : bool := is_some (strip_prefix p s).
Definition HasSuffix (s p : string) : bool := is_some (strip_suffix p s).
Definition TrimPrefix (s p : string) : string := default s (strip_prefix p s).
Definition TrimSuffix (s p : string) : string := default s (strip_suffix p s).

Lemma strip_prefix_Some p s r : strip_prefix p s = Some r ↔ s = p +:+ r.
Proof.
  revert s; induction p as [|a p IH]; intros s; simpl; [rewrite sapp_nil_l; naive_solver|].
  destruct s as [|b s]; rewrite sapp_cons; [naive_solver|].
  destruct (Ascii.eqb_spec a b) as [->|]; [rewrite IH; naive_solver|naive_solver].
Qed.

Lemma strip_suffix_Some p s r : strip_suffix p s = Some r ↔ s = r +:+ p.
Proof.
  revert r; induction s as [|a s IH]; intros r; cbn [strip_suffix];
    match goal with |- context [String.eqb ?t p] => destruct (String.eqb_spec t p) as [<-|Hne] end.
  - split; [naive_solver|]. intros H; symmetry in H; apply sapp_eq_nil in H; naive_solver.
  - split; [done|]. intros H; symmetry in H; apply sapp_eq_nil in H; naive_solver.
  - split; [naive_solver|]. intros H. f_equal. apply (sapp_inj_r (String a s)). by rewrite sapp_nil_l.
  - rewrite fmap_Some. setoid_rewrite IH. split.
    + intros (r' & -> & ->). done.
    + destruct r as [|b r]; rewrite ?sapp_nil_l, ?sapp_cons; [naive_solver|].
      intros [= -> ->]. eauto.
Qed.

Lemma strip_prefix_app p s : strip_prefix p (p +:+ s) = Some s.
Proof. by apply strip_prefix_Some. Qed.
Lemma strip_suffix_app p s : strip_suffix p (s +:+ p) = Some s.
Proof. by apply strip_suffix_Some. Qed.
Lemma HasPrefix_true s p : HasPrefix s p = true ↔ ∃ r, s = p +:+ r.
Proof.
  unfold HasPrefix. destruct (strip_prefix p s) as [r|] eqn:E; simpl.
  - apply strip_prefix_Some in E. naive_solver.
  - split; [done|]. intros [r ->]. by rewrite strip_prefix_app in E.
Qed.
Lemma HasSuffix_true s p : HasSuffix s p = true ↔ ∃ r, s = r +:+ p.
Proof.
  unfold HasSuffix. destruct (strip_suffix p s) as [r|] eqn:E; simpl.
  - apply strip_suffix_Some in E. naive_solver.
  - split; [done|]. intros [r ->]. by rewrite strip_suffix_app in E.
Qed.
Lemma HasPrefix_app p s : HasPrefix (p +:+ s) p = true.
Proof. apply HasPrefix_true; eauto. Qed.

#[export] Hint Rewrite strip_prefix_app strip_suffix_app HasPrefix_app : herb.

(** ** Searching *)

Fixpoint Index (s sub : string) : option nat :=
  if HasPrefix s sub then Some 0
  else match s with
       | "" => None
       | String _ s => S <$> Index s sub
       end.

Definition Contains (s sub : string) : bool := is_some (Index s sub).

Fixpoint LastIndex (s sub : string) : option nat :=
  match s with
  | "" => if HasPrefix "" sub then Some 0 else None
  | String _ s' => match LastIndex s' sub with
                   | Some i => Some (S i)
                   | None => if HasPrefix s sub then Some 0 else None
                   end
  end.

Fixpoint IndexByte (s : string) (c : ascii) : option nat :=
  match s with
  | "" => None
  | String a s => if Ascii.eqb a c then Some 0 else S <$> IndexByte s c
  end.

Lemma Index_Some s sub i :
  Index s sub = Some i → ∃ r, s = stake i s +:+ sub +:+ r ∧ i ≤ String.length s.
Proof.
  revert i; induction s as [|a s IH]; intros i; simpl; destruct (HasPrefix _ sub) eqn:E.
  1,3: intros [= <-]; apply HasPrefix_true in E as [r Hr]; exists r; rewrite Hr; simpl; split; [done|lia].
  1: done.
  rewrite fmap_Some. intros (j & Hj & ->). apply IH in Hj as (r & Hr & Hl).
  exists r. simpl. split; [|lia]. rewrite sapp_cons. by f_equal.
Qed.

(** [Index] finds the first place where [sub] is, if there is one. *)
Lemma Index_first s sub i :
  Index s sub = Some i → HasPrefix (sdrop i s) sub = true ∧ ∀ j, j < i → HasPrefix (sdrop j s) sub = false.
Proof.
  revert i; induction s as [|a s IH]; intros i; simpl; destruct (HasPrefix _ sub) eqn:E.
  1,3: intros [= <-]; split; [done|lia].
  1: done.
  rewrite fmap_Some. intros (k & Hk & ->). apply IH in Hk as [H1 H2]. split; [done|].
  intros [|j] Hj; [done|]. apply H2. lia.
Qed.

Lemma Index_None s sub : Index s sub = None → ∀ j, HasPrefix (sdrop j s) sub = false.
Proof.
  induction s as [|a s IH]; simpl; destruct (HasPrefix _ sub) eqn:E; try done.
  - intros _ j. by destruct j.
  - rewrite fmap_None. intros H [|j]; [done|]. by apply IH.
Qed.

Lemma Contains_true s sub : Contains s sub = true ↔ ∃ l r, s = l +:+ sub +:+ r.
Proof.
  unfold Contains. split.
  - destruct (Index s sub) as [i|] eqn:E; [|done]. intros _.
    apply Index_Some in E as (r & Hr & _). eauto.
  - intros (l & r & ->). induction l as [|a l IH].
    + rewrite sapp_nil_l. destruct (sub +:+ r) as [|c t] eqn:E; simpl; by rewrite <-?E, HasPrefix_app.
    + rewrite sapp_cons. simpl. destruct (HasPrefix _ _); [done|].
      destruct (Index (l +:+ _) sub); done.
Qed.

Lemma IndexByte_Some s c i :
  IndexByte s c = Some i →
  s = stake i s +:+ String c (sdrop (S i) s) ∧ all_chars (λ a, negb (Ascii.eqb a c)) (stake i s) = true.
Proof.
  revert i; induction s as [|a s IH]; intros i; simpl; [done|].
  destruct (Ascii.eqb_spec a c) as [->|Hne]; [by intros [= <-]|].
  rewrite fmap_Some. intros (j & Hj & ->). apply IH in Hj as [H1 H2]. simpl.
  rewrite sapp_cons, all_chars_cons, H2. split; [by f_equal|].
  destruct (Ascii.eqb_spec a c); [done|done].
Qed.

Lemma IndexByte_None s c :
  IndexByte s c = None ↔ all_chars (λ a, negb (Ascii.eqb a c)) s = true.
Proof.
  induction s as [|a s IH]; simpl; [done|]. rewrite all_chars_cons.
  destruct (Ascii.eqb a c); simpl; [naive_solver|]. rewrite fmap_None. done.
Qed.

(** ** Splitting and joining *)

(** [strings.Split(s, sep)] for a one-byte separator. *)
Fixpoint SplitByte (c : ascii) (s : string) : list string :=
  match s with
  | "" => [""]
  | String a s =>
    if Ascii.eqb a c then "" :: SplitByte c s
    else match SplitByte c s with
         | [] => [str1 a]
         | w :: ws => String a w :: ws
         end
  end.

Fixpoint Join (l : list string) (sep : string) : string :=
  match l with
  | [] => ""
  | [w] => w
  | w :: l => w +:+ sep +:+ Join l sep
  end.

Lemma SplitByte_nonempty c s : SplitByte c s ≠ [].
Proof. destruct s as [|a s]; simpl; [done|]. destruct (Ascii.eqb a c); [done|]. by destruct (SplitByte c s). Qed.

Lemma Join_cons w l sep : l ≠ [] → Join (w :: l) sep = w +:+ sep +:+ Join l sep.
Proof. by destruct l. Qed.

Lemma Join_SplitByte c s : Join (SplitByte c s) (str1 c) = s.
Proof.
  induction s as [|a s IH]; simpl; [done|].
  pose proof (SplitByte_nonempty c s) as Hne.
  destruct (Ascii.eqb_spec a c) as [->|].
  - rewrite Join_cons by done. rewrite IH. done.
  - destruct (SplitByte c s) as [|w [|w' ws]]; [done| |]; simpl in *; by rewrite ?sapp_cons, IH.
Qed.

Lemma SplitByte_no_sep c s w :
  w ∈ SplitByte c s → all_chars (λ a, negb (Ascii.eqb a c)) w = true.
Proof.
  revert w; induction s as [|a s IH]; intros w; simpl; [by rewrite list_elem_of_singleton; intros ->|].
  destruct (Ascii.eqb a c) eqn:E.
  - rewrite elem_of_cons. intros [->|Hw]; [done|auto].
  - destruct (SplitByte c s) as [|w' ws]; [|].
    + rewrite list_elem_of_singleton. intros ->. unfold all_chars; simpl. by rewrite E.
    + rewrite elem_of_cons. intros [->|Hw]; [|apply IH; set_solver].
      rewrite all_chars_cons, E. simpl. apply IH. set_solver.
Qed.

(** Splitting a separator-free word gives that word alone, and splitting a joined
    list of separator-free words gives the list back. *)
Lemma SplitByte_word c w :
  all_chars (λ a, negb (Ascii.eqb a c)) w = true → SplitByte c w = [w].
Proof.
  induction w as [|a w IH]; [done|]. rewrite all_chars_cons, andb_true_iff. intros [Ha Hw].
  simpl. destruct (Ascii.eqb a c); [done|]. by rewrite IH.
Qed.

Lemma SplitByte_app c w s :
  all_chars (λ a, negb (Ascii.eqb a c)) w = true →
  SplitByte c (w +:+ String c s) = w :: SplitByte c s.
Proof.
  induction w as [|a w IH]; intros Hw.
  - rewrite sapp_nil_l. simpl. by rewrite Ascii.eqb_refl.
  - rewrite all_chars_cons, andb_true_iff in Hw. destruct Hw as [Ha Hw].
    rewrite sapp_cons. simpl. destruct (Ascii.eqb a c); [done|]. by rewrite IH.
Qed.

Lemma SplitByte_Join c l :
  l ≠ [] → Forall (λ w, all_chars (λ a, negb (Ascii.eqb a c)) w = true) l →
  SplitByte c (Join l (str1 c)) = l.
Proof.
  intros Hne Hl. induction Hl as [|w l Hw Hl IH]; [done|].
  destruct (decide (l = [])) as [->|Hl'].
  - simpl. by apply SplitByte_word.
  - rewrite Join_cons by done. change (str1 c +:+ Join l (str1 c)) with (String c (Join l (str1 c))).
    rewrite SplitByte_app by done. by rewrite IH.
Qed.

(** [strings.Cut(s, sep)] for a one-byte separator: the part before it. *)
Definition CutByteBefore (c : ascii) (s : string) : string :=
  match IndexByte s c with Some i => stake i s | None => s end.

(** ** Character classes *)

Definition in_range (lo hi : N) (a : ascii) : bool :=
  (lo <=? N_of_ascii a)%N && (N_of_ascii a <=? hi)%N.

Definition is_digit : ascii → bool := in_range 48 57.
Definition is_lower : ascii → bool := in_range 97 122.
Definition is_upper : ascii → bool := in_range 65 90.
Definition is_alnum (a : ascii) : bool := is_digit a || is_lower a || is_upper a.
Definition is_word (a : ascii) : bool := is_alnum a || Ascii.eqb a "_".

(** ASCII [unicode.IsSpace]: tab, newline, vertical tab, form feed, return, space. *)
Definition is_space (a : ascii) : bool := in_range 9 13 a || Ascii.eqb a " ".

(** ** Trimming and fields *)

Fixpoint TrimLeft (s : string) : string :=
  match s with
  | "" => ""
  | String a s' => if is_space a then TrimLeft s' else s
  end.

Fixpoint TrimRight (s : string) : string :=
  match s with
  | "" => ""
  | String a s' => match TrimRight s' with
                   | "" => if is_space a then "" else str1 a
                   | r => String a r
                   end
  end.

Definition TrimSpace (s : string) : string := TrimRight (TrimLeft s).

(** The word in progress and the words after it. *)
Fixpoint fields_aux (s : string) : string * list string :=
  match s with
  | "" => ("", [])
  | String a s =>
    let '(w, ws) := fields_aux s in
    let rest := if String.eqb w "" then ws else w :: ws in
    if is_space a then ("", rest) else (String a w, ws)
  end.

Definition Fields (s : string) : list string :=
  let '(w, ws) := fields_aux s in if String.eqb w "" then ws else w :: ws.

(** [strings.ReplaceAll] for a non-empty [old]; the fuel is the length of [s]. *)
Fixpoint replace_go (fuel : nat) (old new s : string) : string :=
  match fuel with
  | 0 => s
  | S fuel =>
    match s with
    | "" => ""
    | String a s' => match strip_prefix old s with
                     | Some rest => new +:+ replace_go fuel old new rest
                     | None => String a (replace_go fuel old new s')
                     end
    end
  end.

Definition ReplaceAll (s old new : string) : string :=
  replace_go (S (String.length s)) old new s.

(** ASCII [strings.ToLower] and [strings.EqualFold]. *)
Definition lower (a : ascii) : ascii :=
  if is_upper a then ascii_of_N (N_of_ascii a + 32) else a.

Definition ToLower (s : string) : string := of_chars (lower <$> schars s).
Definition EqualFold (s t : string) : bool := String.eqb (ToLower s) (ToLower t).

(** ** Lemmas on trimming and fields *)

Definition no_space (s : string) : Prop := all_chars (λ a, negb (is_space a)) s = true.

Lemma TrimLeft_word s : no_space s → TrimLeft s = s.
Proof. destruct s as [|a s]; [done|]. unfold no_space. rewrite all_chars_cons. simpl. by destruct (is_space a). Qed.

Lemma TrimRight_nonempty s a : TrimRight (s +:+ str1 a) = s +:+ str1 a ↔ is_space a = false.
Proof.
  induction s as [|b s IH].
  - rewrite sapp_nil_l. simpl. by destruct (is_space a).
  - rewrite sapp_cons. simpl. split.
    + intros H. apply IH. destruct (TrimRight (s +:+ str1 a)) as [|c r].
      * destruct (is_space b); [done|]. injection H. intros H'. symmetry in H'.
        apply sapp_eq_nil in H' as [_ ?]. done.
      * by injection H.
    + intros H. apply IH in H. rewrite H.
      destruct (s +:+ str1 a) as [|c r] eqn:E; [|done]. apply sapp_eq_nil in E as [_ ?]. done.
Qed.

Lemma TrimRight_word s : no_space s → TrimRight s = s.
Proof.
  induction s as [|a s IH]; [done|]. unfold no_space in *. rewrite all_chars_cons, andb_true_iff.
  intros [Ha Hs]. simpl. rewrite IH by done. destruct s; [|done]. by destruct (is_space a).
Qed.

Lemma TrimSpace_word s : no_space s → TrimSpace s = s.
Proof. intros H. unfold TrimSpace. rewrite TrimLeft_word by done. by apply TrimRight_word. Qed.

Lemma fields_aux_word w s :
  no_space w →
  fields_aux (w +:+ s) = (w +:+ (fields_aux s).1, (fields_aux s).2).
Proof.
  induction w as [|a w IH]; unfold no_space in *; intros Hw.
  - rewrite !sapp_nil_l. by destruct (fields_aux s).
  - rewrite all_chars_cons, andb_true_iff in Hw. destruct Hw as [Ha Hw].
    rewrite !sapp_cons. simpl. rewrite IH by done. by destruct (is_space a).
Qed.

Lemma fields_aux_Join w ws :
  no_space w → Forall (λ w, w ≠ "" ∧ no_space w) ws →
  fields_aux (Join (w :: ws) " ") = (w, ws).
Proof.
  intros Hns Hws. revert w Hns. induction Hws as [|w' ws' [Hw' Hns'] Hws' IH]; intros w Hns.
  - simpl. rewrite <-(sapp_nil_r w), fields_aux_word by done. simpl. by rewrite !sapp_nil_r.
  - rewrite Join_cons by done. rewrite fields_aux_word by done.
    change (" " +:+ Join (w' :: ws') " ") with (String " " (Join (w' :: ws') " ")).
    cbn [fields_aux]. rewrite IH by done. simpl.
    destruct (String.eqb_spec w' ""); [done|]. by rewrite sapp_nil_r.
Qed.

(** The fields of words joined by single spaces are the words. *)
Lemma Fields_Join ws :
  Forall (λ w, w ≠ "" ∧ no_space w) ws → Fields (Join ws " ") = ws.
Proof.
  intros Hws. destruct Hws as [|w ws' [Hw Hns] Hws']; [done|].
  unfold Fields. rewrite fields_aux_Join by done. by destruct (String.eqb_spec w "").
Qed.

(** ** Numbers: [strconv] *)

Definition digit_val (a : ascii) : option Z :=
  let n := Z.of_N (N_of_ascii a) in
  if is_digit a then Some (n - 48)%Z
  else if is_lower a then Some (n - 87)%Z
  else if is_upper a then Some (n - 55)%Z
  else None.

Inductive num_error := ErrSyntax | ErrRange.

(** The loop of [strconv.ParseUint]: [max] is the largest value of the type. *)
Fixpoint parse_uint_go (base max acc : Z) (s : string) : Z * option num_error :=
  match s with
  | "" => (acc, None)
  | String a s =>
    match digit_val a with
    | Some d => if (d <? base)%Z
                then let acc' := (acc * base + d)%Z in
                     if (max <? acc')%Z then (max, Some ErrRange)
                     else parse_uint_go base max acc' s
                else (0%Z, Some ErrSyntax)
    | None => (0%Z, Some ErrSyntax)
    end
  end.

Definition max_int64 : Z := (2 ^ 63 - 1)%Z.
Definition max_uint64 : Z := (2 ^ 64 - 1)%Z.

(** [strconv.ParseUint(s, base, 64)] for base 10 or 16. *)
Definition ParseUint (base : Z) (s : string) : Z * option num_error :=
  if String.eqb s "" then (0%Z, Some ErrSyntax) else parse_uint_go base max_uint64 0 s.

(** [strconv.ParseInt(s, base, 64)]: an optional sign, then the magnitude, with
    the value clamped to the int64 range on [ErrRange]. *)
Definition ParseInt (base : Z) (s : string) : Z * option num_error :=
  let '(neg, t) := match s with
                   | String "+" t => (false, t)
                   | String "-" t => (true, t)
                   | _ => (false, s)
                   end in
  match ParseUint base t with
  | (_, Some ErrSyntax) => (0%Z, Some ErrSyntax)
  | (un, _) =>
    if neg then if (2 ^ 63 <? un)%Z then ((- 2 ^ 63)%Z, Some ErrRange) else ((- un)%Z, None)
    else if (max_int64 <? un)%Z then (max_int64, Some ErrRange) else (un, None)
  end.

(** [n, _ := strconv.Atoi(s)]: the value with the error dropped. *)
Definition Atoi (s : string) : Z * option num_error := ParseInt 10 s.
Definition Atoi_ (s : string) : Z := (Atoi s).1.

(** [%d] and [strconv.Itoa] on a non-negative number, least digit last. *)
Fixpoint dec_go (fuel : nat) (n : Z) (acc : string) : string :=
  match fuel with
  | 0 => acc
  | S fuel =>
    let acc' := String (ascii_of_N (Z.to_N (48 + n mod 10))) acc in
    if (n <? 10)%Z then acc' else dec_go fuel (n / 10) acc'
  end.

Definition dec (n : Z) : string :=
  if (n <? 0)%Z then String "-" (dec_go 64 (- n) "") else dec_go 64 n "".

(** ** Lines: [bufio.Scanner] with [ScanLines]

    A line ends at a newline or at the end of the text, one trailing carriage
    return is dropped, and the last line is not delivered when it is empty.  A
    raw line of [max] bytes or more does not fit the scanner's buffer: the
    scan stops there with [bufio.ErrTooLong]. *)

Definition drop_cr (s : string) : string :=
  match strip_suffix (str1 CR) s with Some r => r | None => s end.

Fixpoint scan_go (max : Z) (raw : list string) : list string * bool :=
  match raw with
  | [] => ([], false)
  | [w] => if (max <=? Z.of_nat (String.length w))%Z then ([], true)
           else if String.eqb w "" then ([], false) else ([drop_cr w], false)
  | w :: raw => if (max <=? Z.of_nat (String.length w))%Z then ([], true)
                else let '(ls, e) := scan_go max raw in (drop_cr w :: ls, e)
  end.

(** The lines delivered, and whether [sc.Err()] is [ErrTooLong]. *)
Definition ScanLines (max : Z) (s : string) : list string * bool := scan_go max (SplitByte NL s).

(** A dump file, opened and parsed; the parser says whether a line was too long. *)
Inductive parse_error := ErrOpen (path : string) | ErrTooLong (path : string).

Definition parse_file {A} (parse : string → A * bool) (fs : string → option string) (path : string) :
    result parse_error A :=
  match fs path with
  | None => Err (ErrOpen path)
  | Some text => let '(a, too_long) := parse text in if too_long then Err (ErrTooLong path) else Ok a
  end.

Lemma parse_file_Ok {A} (parse : string → A * bool) fs path a :
  parse_file parse fs path = Ok a ↔ ∃ text, fs path = Some text ∧ parse text = (a, false).
Proof.
  unfold parse_file. destruct (fs path) as [text|]; [destruct (parse text) as [b []] eqn:E|].
  - split; [done|]. intros (t & [= <-] & Ht). congruence.
  - split; [intros [= ->]; eauto|]. intros (t & [= <-] & Ht). congruence.
  - split; [done|]. by intros (t & ? & _).
Qed.

(** The text of a list of lines, each ended by a newline. *)
Definition unlines (ls : list string) : string :=
  foldr (λ l acc, l +:+ String NL acc) "" ls.

(** A line the scanner hands back as it is written. *)
Definition plain_line (max : Z) (l : string) : Prop :=
  all_chars (λ a, negb (Ascii.eqb a NL) && negb (Ascii.eqb a CR)) l = true ∧
  (Z.of_nat (String.length l) < max)%Z.

#[export] Instance plain_line_dec max l : Decision (plain_line max l).
Proof. unfold plain_line. apply _. Defined.

Lemma drop_cr_plain max l : plain_line max l → drop_cr l = l.
Proof.
  intros [Hl _]. unfold drop_cr. destruct (strip_suffix _ l) as [r|] eqn:E; [|done].
  apply strip_suffix_Some in E. subst. rewrite all_chars_app, andb_true_iff in Hl.
  destruct Hl as [_ Hl]. done.
Qed.

Lemma ScanLines_unlines max ls :
  (0 < max)%Z → Forall (plain_line max) ls → ScanLines max (unlines ls) = (ls, false).
Proof.
  intros Hmax Hls. unfold ScanLines. induction Hls as [|l ls Hl Hls IH].
  - simpl. change (Z.of_nat 0) with 0%Z. by destruct (Z.leb_spec max 0); [lia|].
  - change (unlines (l :: ls)) with (l +:+ String NL (unlines ls)).
    rewrite SplitByte_app.
    2: { destruct Hl as [Hl _]. revert Hl. apply all_chars_impl. intros a [H _]%andb_true_iff.
         exact H. }
    pose proof (SplitByte_nonempty NL (unlines ls)) as Hne.
    destruct (SplitByte NL (unlines ls)) as [|w ws] eqn:E; [done|].
    change (scan_go max (l :: w :: ws)) with
      (if (max <=? Z.of_nat (String.length l))%Z then ([], true)
       else let '(ls, e) := scan_go max (w :: ws) in (drop_cr l :: ls, e)).
    rewrite IH. destruct (Z.leb_spec max (Z.of_nat (String.length l))) as [?|_].
    { destruct Hl; lia. }
    by rewrite (drop_cr_plain max l).
Qed.

(** ** Decimal round trip *)

Definition digit_of (d : Z) : ascii := ascii_of_N (Z.to_N (48 + d)).

Lemma digit_of_spec d :
  (0 ≤ d < 10)%Z → is_digit (digit_of d) = true ∧ digit_val (digit_of d) = Some d.
Proof.
  intros Hd.
  assert (d = 0 ∨ d = 1 ∨ d = 2 ∨ d = 3 ∨ d = 4 ∨ d = 5 ∨ d = 6 ∨ d = 7 ∨ d = 8 ∨ d = 9)%Z as H by lia.
  by destruct_or! H; subst.
Qed.

Lemma dec_go_digits fuel n s :
  (0 ≤ n)%Z → all_chars is_digit s = true → all_chars is_digit (dec_go fuel n s) = true.
Proof.
  revert n s; induction fuel as [|fuel IH]; intros n s Hn Hs; simpl; [done|].
  assert (all_chars is_digit (String (digit_of (n mod 10)) s) = true) as Hs'.
  { rewrite all_chars_cons, Hs.
    by destruct (digit_of_spec (n mod 10)) as [-> _]; [apply Z.mod_pos_bound; lia|]. }
  destruct (n <? 10)%Z; [done|]. apply IH; [|done]. by apply Z.div_pos.
Qed.

Lemma dec_go_nonempty fuel n s : 0 < fuel → dec_go fuel n s ≠ "".
Proof.
  destruct fuel as [|fuel]; [lia|]. intros _.
  enough (∀ s, s ≠ "" → dec_go fuel (n / 10) s ≠ "") by (simpl; destruct (n <? 10)%Z; auto).
  generalize (n / 10)%Z. induction fuel as [|fuel IH]; intros m t Ht; simpl; [done|].
  destruct (m <? 10)%Z; [done|]. by apply IH.
Qed.

Lemma dec_go_parse fuel max n s :
  (0 ≤ n < 10 ^ Z.of_nat fuel)%Z → (n ≤ max)%Z →
  parse_uint_go 10 max 0 (dec_go fuel n s) = parse_uint_go 10 max n s.
Proof.
  revert n s; induction fuel as [|fuel IH]; intros n s Hn Hmax.
  { simpl in *. by replace n with 0%Z by lia. }
  assert (0 ≤ n mod 10 < 10)%Z as Hd by (apply Z.mod_pos_bound; lia).
  pose proof (Z.div_mod n 10) as Hdm.
  cbn [dec_go]. fold (digit_of (n mod 10)).
  destruct (digit_of_spec _ Hd) as [_ Hv].
  destruct (Z.ltb_spec n 10) as [Hlt|Hge].
  - cbn [parse_uint_go]. rewrite Hv, Z.mod_small by lia. rewrite (proj2 (Z.ltb_lt n 10)) by lia.
    rewrite Z.mul_0_l, Z.add_0_l. by rewrite (proj2 (Z.ltb_ge max n)).
  - rewrite IH; [|rewrite Nat2Z.inj_succ, Z.pow_succ_r in Hn by lia; lia|lia].
    cbn [parse_uint_go]. rewrite Hv, (proj2 (Z.ltb_lt _ 10)) by lia.
    replace (n / 10 * 10 + n mod 10)%Z with n by lia.
    by rewrite (proj2 (Z.ltb_ge max n)).
Qed.

Lemma dec_digits n : (0 ≤ n)%Z → all_chars is_digit (dec n) = true.
Proof.
  intros Hn. unfold dec. rewrite (proj2 (Z.ltb_ge n 0)) by lia. by apply dec_go_digits.
Qed.

Lemma dec_nonempty n : dec n ≠ "".
Proof. unfold dec. destruct (n <? 0)%Z; [done|]. apply dec_go_nonempty. lia. Qed.

Lemma ParseUint_dec n : (0 ≤ n ≤ max_uint64)%Z → ParseUint 10 (dec n) = (n, None).
Proof.
  intros Hn. unfold ParseUint. destruct (String.eqb_spec (dec n) "") as [H|_].
  { by destruct (dec_nonempty n). }
  unfold dec. rewrite (proj2 (Z.ltb_ge n 0)) by lia. rewrite dec_go_parse; [done| |lia].
  unfold max_uint64 in Hn. split; [lia|]. eapply Z.le_lt_trans; [apply Hn|]. done.
Qed.

Lemma Atoi_dec n : (0 ≤ n ≤ max_int64)%Z → Atoi (dec n) = (n, None).
Proof.
  intros Hn. unfold Atoi, ParseInt.
  pose proof (dec_digits n ltac:(lia)) as Hd. pose proof (dec_nonempty n) as Hne.
  assert (ParseUint 10 (dec n) = (n, None)) as Hp.
  { apply ParseUint_dec. unfold max_int64, max_uint64 in *. lia. }
  destruct (dec n) as [|a t]; [done|].
  rewrite all_chars_cons, andb_true_iff in Hd. destruct Hd as [Ha _].
  assert (match String a t with
          | String "+" t => (false, t) | String "-" t => (true, t) | _ => (false, String a t)
          end = (false, String a t)) as ->.
  { by destruct a as [[] [] [] [] [] [] [] []]. }
  rewrite Hp. by rewrite (proj2 (Z.ltb_ge max_int64 n)) by lia.
Qed.

Lemma Atoi__dec n : (0 ≤ n ≤ max_int64)%Z → Atoi_ (dec n) = n.
Proof. intros Hn. unfold Atoi_. by rewrite Atoi_dec. Qed.

#[export] Hint Resolve dec_nonempty dec_digits : herb.

(** ** Trimming text whose last word is known *)

Lemma TrimRight_app s t : TrimRight t ≠ "" → TrimRight (s +:+ t) = s +:+ TrimRight t.
Proof.
  intros Ht. induction s as [|a s IH]; [done|]. rewrite !sapp_cons. cbn [TrimRight]. rewrite IH.
  destruct (s +:+ TrimRight t) as [|b r] eqn:E; [|done]. by apply sapp_eq_nil in E as [_ ?].
Qed.

(** A text that starts and ends with a byte that is not a space. *)
Lemma TrimSpace_ends s t :
  s ≠ "" → TrimLeft s = s → TrimRight t = t → t ≠ "" → TrimSpace (s +:+ t) = s +:+ t.
Proof.
  intros Hne Hs Ht Htne. unfold TrimSpace.
  assert (TrimLeft (s +:+ t) = s +:+ t) as ->.
  { destruct s as [|a s]; [done|]. rewrite sapp_cons. simpl in *.
    destruct (is_space a); [|done]. exfalso.
    assert (∀ s, String.length (TrimLeft s) ≤ String.length s) as Hl.
    { clear. induction s as [|b s IH]; simpl; [done|]. destruct (is_space b); simpl; lia. }
    specialize (Hl s). apply (f_equal String.length) in Hs. simpl in Hs. lia. }
  rewrite TrimRight_app; by rewrite Ht.
Qed.

Definition lacks (c : ascii) (s : string) : bool := all_chars (λ a, negb (Ascii.eqb a c)) s.

Lemma lacks_app c s t : lacks c (s +:+ t) = lacks c s && lacks c t.
Proof. apply all_chars_app. Qed.

Lemma stake_app_le n s t : n ≤ String.length s → stake n (s +:+ t) = stake n s.
Proof.
  revert s; induction n as [|n IH]; intros [|a s] Hl; simpl in *; try done; [lia|]. by rewrite IH by lia.
Qed.

Lemma stake_app_l n s t : String.length s ≤ n → stake n (s +:+ t) = s +:+ stake (n - String.length s) t.
Proof.
  revert s; induction n as [|n IH]; intros [|a s] Hl; simpl in *; try done; [lia|]. rewrite sapp_cons. simpl.
  by rewrite IH by lia.
Qed.

Lemma IndexByte_app c s t : lacks c s = true → IndexByte (s +:+ t) c = (λ n, String.length s + n)%nat <$> IndexByte t c.
Proof.
  unfold lacks. induction s as [|a s IH]; [intros _; rewrite sapp_nil_l; by destruct (IndexByte t c)|].
  rewrite all_chars_cons. intros [Ha Hs]%andb_true_iff. rewrite sapp_cons. cbn [IndexByte].
  destruct (Ascii.eqb a c); [done|]. rewrite IH by done. by destruct (IndexByte t c).
Qed.

Lemma HasSuffix_app_tail u1 u2 c :
  HasSuffix (u1 +:+ u2) (str1 c) = true → u2 ≠ "" → HasSuffix u2 (str1 c) = true.
Proof.
  intros H Hne. induction u1 as [|b u1 IH]; [done|]. apply IH.
  rewrite sapp_cons in H. apply HasSuffix_true in H as [r H]. apply HasSuffix_true.
  destruct r as [|b' r]; rewrite ?sapp_nil_l, ?sapp_cons in H.
  - injection H as _ H. by apply sapp_eq_nil in H as [_ ->].
  - injection H as _ H. by exists r.
Qed.

(** A text whose last part lacks the last byte of [p] does not end in [p]. *)
Lemma HasSuffix_lacks s t p c :
  t ≠ "" → lacks c t = true → HasSuffix (s +:+ t) (p +:+ str1 c) = false.
Proof.
  intros Hne Hl. destruct (HasSuffix _ _) eqn:E; [|done]. exfalso.
  apply HasSuffix_true in E as [r Hr].
  assert (HasSuffix (s +:+ t) (str1 c) = true) as E.
  { apply HasSuffix_true. exists (r +:+ p). by rewrite Hr, sapp_assoc. }
  apply HasSuffix_app_tail, HasSuffix_true in E as [q ->]; [|done].
  unfold lacks in Hl. rewrite all_chars_app, andb_true_iff in Hl. destruct Hl as [_ Hl].
  unfold all_chars in Hl. simpl in Hl. by rewrite Ascii.eqb_refl in Hl.
Qed.

(** ** Lists of words *)

(** A word of a printed line. *)
Definition word_ok (w : string) : Prop := w ≠ "" ∧ no_space w ∧ lacks ":" w = true.

(** Words written with a leading space each. *)
Definition print_words (ws : list string) : string := foldr (λ w acc, " " +:+ w +:+ acc) "" ws.

Lemma print_words_Join w ws : print_words (w :: ws) = " " +:+ Join (w :: ws) " ".
Proof.
  revert w; induction ws as [|w' ws IH]; intros w.
  - simpl. by rewrite !sapp_cons, !sapp_nil_l, sapp_nil_r.
  - rewrite Join_cons by done. rewrite <-IH. done.
Qed.

Lemma print_words_last w ws :
  ∃ s w', w' ∈ w :: ws ∧ print_words (w :: ws) = s +:+ w'.
Proof.
  revert w; induction ws as [|w2 ws IH]; intros w.
  - exists " ", w. split; [set_solver|]. simpl. by rewrite sapp_nil_r.
  - destruct (IH w2) as (s & w' & Hw & Hs). exists (" " +:+ w +:+ s), w'.
    split; [set_solver|]. change (print_words (w :: w2 :: ws)) with (" " +:+ w +:+ print_words (w2 :: ws)).
    by rewrite Hs, !sapp_assoc.
Qed.

Lemma TrimLeft_print_words w ws :
  no_space w → w ≠ "" → TrimLeft (print_words (w :: ws)) = Join (w :: ws) " ".
Proof.
  intros Hs Hne. rewrite print_words_Join. 
  change (TrimLeft (" " +:+ Join (w :: ws) " ")) with (TrimLeft (Join (w :: ws) " ")).
  destruct w as [|a w]; [done|]. unfold no_space in Hs. rewrite all_chars_cons, andb_true_iff in Hs.
  destruct Hs as [Ha _]. destruct ws; [|rewrite Join_cons, sapp_cons by done]; simpl; by destruct (is_space a).
Qed.

Lemma Fields_print_words ws :
  Forall (λ w, w ≠ "" ∧ no_space w) ws → Fields (TrimSpace (print_words ws)) = ws.
Proof.
  intros Hws. destruct ws as [|w ws]; [done|]. unfold TrimSpace.
  rewrite TrimLeft_print_words by (inversion Hws; naive_solver).
  destruct (print_words_last w ws) as (s & w' & Hin & Hs).
  rewrite print_words_Join in Hs.
  assert (w' ≠ "" ∧ no_space w') as [Hne Hsp] by (rewrite Forall_forall in Hws; auto).
  destruct s as [|c s].
  - exfalso. rewrite sapp_nil_l in Hs. subst w'. unfold no_space in Hsp.
    rewrite all_chars_app, andb_true_iff in Hsp. by destruct Hsp.
  - rewrite !sapp_cons, sapp_nil_l in Hs.
    assert (Join (w :: ws) " " = s +:+ w') as HJ by (injection Hs; done).
    rewrite HJ, TrimRight_app by (rewrite TrimRight_word; done).
    rewrite TrimRight_word, <-HJ by done. by apply Fields_Join.
Qed.

(** ** [strings.LastIndex] of one byte *)

Lemma HasPrefix_str1 a s c : HasPrefix (String a s) (str1 c) = Ascii.eqb a c.
Proof.
  unfold HasPrefix, str1. cbn [strip_prefix].
  destruct (Ascii.eqb_spec c a) as [->|Hne]; [by rewrite Ascii.eqb_refl|].
  by destruct (Ascii.eqb_spec a c); [subst|].
Qed.

Lemma LastIndex_lacks c t : lacks c t = true → LastIndex t (str1 c) = None.
Proof.
  induction t as [|a t IH]; [done|]. unfold lacks. rewrite all_chars_cons, andb_true_iff.
  intros [Ha Ht]. cbn [LastIndex]. rewrite IH by done. rewrite HasPrefix_str1. by destruct (Ascii.eqb a c).
Qed.

Lemma LastIndex_last s c t :
  lacks c t = true → LastIndex (s +:+ String c t) (str1 c) = Some (String.length s).
Proof.
  intros Ht. induction s as [|a s IH].
  - rewrite sapp_nil_l. cbn [LastIndex]. rewrite LastIndex_lacks by done.
    by rewrite HasPrefix_str1, Ascii.eqb_refl.
  - rewrite sapp_cons. cbn [LastIndex]. by rewrite IH.
Qed.

Lemma sdrop_all_but s c t : sdrop (String.length s + 1) (s +:+ String c t) = t.
Proof.
  replace (String.length s + 1) with (String.length (s +:+ str1 c)) by (by rewrite slen_app).
  change (String c t) with (str1 c +:+ t). rewrite <-sapp_assoc. apply sdrop_app.
Qed.
