(* ===== verification/GoRegexp.v ===== *)
(** * Go regular expressions: the part of [regexp] the parsers use

    Every regular expression of the sources is kept as its source text and
    compiled by [MustCompile] below; matching is leftmost-first (Perl order, as
    RE2 gives for submatches): [run] lists the ways to match at a position in
    order of preference, and the first one is the match.  Texts are ASCII, so a
    byte is a rune. *)

From S2P Require Import Prelude GoStrings.
From Stdlib Require Import Lia.

(** ** Syntax *)

Inductive re :=
| RE_empty
| RE_class (neg : bool) (ranges : list (N * N))
| RE_cat (r1 r2 : re)
| RE_alt (r1 r2 : re)
| RE_star (greedy : bool) (r : re)
| RE_opt (greedy : bool) (r : re)
| RE_group (n : nat) (r : re)
| RE_begin
| RE_end
| RE_wordb.

Definition in_ranges (rs : list (N * N)) (a : ascii) : bool :=
  existsb (λ r, in_range r.1 r.2 a) rs.

Definition in_class (neg : bool) (rs : list (N * N)) (a : ascii) : bool :=
  xorb neg (in_ranges rs a).

(** ** Parsing the RE2 syntax the sources use *)

Definition digit_ranges : list (N * N) := [(48, 57)]%N.
Definition word_ranges : list (N * N) := [(48, 57); (65, 90); (95, 95); (97, 122)]%N.
Definition space_ranges : list (N * N) := [(9, 10); (12, 13); (32, 32)]%N.
Definition lit_range (a : ascii) : list (N * N) := [(N_of_ascii a, N_of_ascii a)].

(** The character class an escape stands for inside or outside brackets. *)
Definition escape_ranges (a : ascii) : bool * list (N * N) :=
  if Ascii.eqb a "d" then (false, digit_ranges)
  else if Ascii.eqb a "w" then (false, word_ranges)
  else if Ascii.eqb a "s" then (false, space_ranges)
  else if Ascii.eqb a "S" then (true, space_ranges)
  else (false, lit_range a).

(** The items of a bracket expression up to the closing bracket. *)
Fixpoint parse_class (fuel : nat) (s : string) (acc : list (N * N)) :
    option (list (N * N) * string) :=
  match fuel with
  | 0 => None
  | S fuel =>
    match s with
    | String "]" s => Some (acc, s)
    | String "\" (String e s) => parse_class fuel s (acc ++ (escape_ranges e).2)
    | String lo (String "-" (String "]" s)) => Some (acc ++ lit_range lo ++ lit_range "-", s)
    | String lo (String "-" (String hi s)) =>
      parse_class fuel s (acc ++ [(N_of_ascii lo, N_of_ascii hi)])
    | String a s => parse_class fuel s (acc ++ lit_range a)
    | "" => None
    end
  end.

(** A quantifier after an atom. *)
Definition parse_quant (r : re) (s : string) : re * string :=
  match s with
  | String "*" (String "?" s) => (RE_star false r, s)
  | String "*" s => (RE_star true r, s)
  | String "+" (String "?" s) => (RE_cat r (RE_star false r), s)
  | String "+" s => (RE_cat r (RE_star true r), s)
  | String "?" (String "?" s) => (RE_opt false r, s)
  | String "?" s => (RE_opt true r, s)
  | _ => (r, s)
  end.

(** Alternation, with [ng] groups opened so far. *)
Fixpoint parse_alt (fuel : nat) (s : string) (ng : nat) : option (re * string * nat) :=
  match fuel with
  | 0 => None
  | S fuel =>
    '(r, s, ng) ← parse_cat fuel s ng;
    match s with
    | String "|" s => '(r', s, ng) ← parse_alt fuel s ng; Some (RE_alt r r', s, ng)
    | _ => Some (r, s, ng)
    end
  end
with parse_cat (fuel : nat) (s : string) (ng : nat) : option (re * string * nat) :=
  match fuel with
  | 0 => None
  | S fuel =>
    match s with
    | "" | String "|" _ | String ")" _ => Some (RE_empty, s, ng)
    | _ =>
      '(r, s, ng) ← parse_atom fuel s ng;
      let '(r, s) := parse_quant r s in
      '(r', s, ng) ← parse_cat fuel s ng;
      Some (match r' with RE_empty => r | _ => RE_cat r r' end, s, ng)
    end
  end
with parse_atom (fuel : nat) (s : string) (ng : nat) : option (re * string * nat) :=
  match fuel with
  | 0 => None
  | S fuel =>
    match s with
    | String "(" (String "?" (String ":" s)) =>
      '(r, s, ng) ← parse_alt fuel s ng;
      match s with String ")" s => Some (r, s, ng) | _ => None end
    | String "(" s =>
      '(r, s, ng') ← parse_alt fuel s (S ng);
      match s with String ")" s => Some (RE_group (S ng) r, s, ng') | _ => None end
    | String "[" (String "^" s) =>
      '(rs, s) ← parse_class fuel s []; Some (RE_class true rs, s, ng)
    | String "[" s => '(rs, s) ← parse_class fuel s []; Some (RE_class false rs, s, ng)
    | String "." s => Some (RE_class true (lit_range NL), s, ng)
    | String "^" s => Some (RE_begin, s, ng)
    | String "$" s => Some (RE_end, s, ng)
    | String "\" (String "b" s) => Some (RE_wordb, s, ng)
    | String "\" (String e s) =>
      let '(neg, rs) := escape_ranges e in Some (RE_class neg rs, s, ng)
    | String a s => Some (RE_class false (lit_range a), s, ng)
    | "" => None
    end
  end.

(** [regexp.MustCompile]; a text outside the syntax gives the expression that
    never matches. *)
Definition MustCompile (s : string) : re :=
  match parse_alt (4 * String.length s + 4) s 0 with
  | Some (r, "", _) => r
  | _ => RE_class false []
  end.

(** ** Matching *)

Record rstate := RSt {
  rs_pos : nat;
  rs_prev : option ascii;
  rs_rest : string;
  rs_caps : list (nat * string);
}.

Definition init_state (s : string) : rstate := RSt 0 None s [].

Definition step_char (st : rstate) : rstate :=
  match rs_rest st with
  | "" => st
  | String a s => RSt (S (rs_pos st)) (Some a) s (rs_caps st)
  end.

Definition set_cap (n : nat) (st st' : rstate) : rstate :=
  RSt (rs_pos st') (rs_prev st') (rs_rest st')
      ((n, stake (rs_pos st' - rs_pos st) (rs_rest st)) :: rs_caps st').

Definition word_before (st : rstate) : bool :=
  match rs_prev st with Some a => is_word a | None => false end.
Definition word_after (st : rstate) : bool :=
  match rs_rest st with String a _ => is_word a | "" => false end.

(** Iterations of a body that consumes something, the preferred ones first. *)
Fixpoint star_loop (greedy : bool) (f : rstate → list rstate) (fuel : nat) (st : rstate) :
    list rstate :=
  match fuel with
  | 0 => [st]
  | S fuel =>
    let again := st' ← f st;
                 if rs_pos st' =? rs_pos st then [] else star_loop greedy f fuel st' in
    if greedy then again ++ [st] else st :: again
  end.

Fixpoint run (r : re) (st : rstate) : list rstate :=
  match r with
  | RE_empty => [st]
  | RE_class neg rs =>
    match rs_rest st with
    | String a _ => if in_class neg rs a then [step_char st] else []
    | "" => []
    end
  | RE_cat r1 r2 => run r1 st ≫= run r2
  | RE_alt r1 r2 => run r1 st ++ run r2 st
  | RE_star greedy r => star_loop greedy (run r) (String.length (rs_rest st)) st
  | RE_opt greedy r => if greedy then run r st ++ [st] else st :: run r st
  | RE_group n r => set_cap n st <$> run r st
  | RE_begin => if rs_pos st =? 0 then [st] else []
  | RE_end => if String.eqb (rs_rest st) "" then [st] else []
  | RE_wordb => if xorb (word_before st) (word_after st) then [st] else []
  end.

Record rmatch := RMatch {
  m_start : nat;
  m_end : nat;
  m_text : string;
  m_caps : list (nat * string);
}.

Definition mk_match (st st' : rstate) : rmatch :=
  RMatch (rs_pos st) (rs_pos st') (stake (rs_pos st' - rs_pos st) (rs_rest st)) (rs_caps st').

(** The text of submatch [n]; an absent group is the empty string. *)
Definition group (n : nat) (m : rmatch) : string :=
  default "" (snd <$> List.find (λ c, c.1 =? n) (m_caps m)).

(** The leftmost match at or after a state, with the state after it. *)
Fixpoint find_from (fuel : nat) (r : re) (st : rstate) : option (rmatch * rstate) :=
  match run r st with
  | st' :: _ => Some (mk_match st st', RSt (rs_pos st') (rs_prev st') (rs_rest st') [])
  | [] => match fuel with
          | 0 => None
          | S fuel => find_from fuel r (step_char st)
          end
  end.

Definition FindStringSubmatch (r : re) (s : string) : option rmatch :=
  fst <$> find_from (String.length s) r (init_state s).

Definition MatchString (r : re) (s : string) : bool := is_some (FindStringSubmatch r s).

(** Successive non-overlapping matches; an empty match moves on by one byte. *)
Fixpoint find_all (fuel : nat) (r : re) (st : rstate) : list rmatch :=
  match fuel with
  | 0 => []
  | S fuel =>
    match find_from (String.length (rs_rest st)) r st with
    | None => []
    | Some (m, st') =>
      m :: (if m_start m =? m_end m
            then match rs_rest st' with "" => [] | _ => find_all fuel r (step_char st') end
            else find_all fuel r st')
    end
  end.

Definition FindAllStringSubmatch (r : re) (s : string) : list rmatch :=
  find_all (S (String.length s)) r (init_state s).

(** ** Lemmas

    Most expressions of the sources are deterministic: a starred class is
    followed by something that cannot start with a byte of the class, so the
    only way to go on is from the end of the longest run. *)

Definition starts_in (p : ascii → bool) (s : string) : bool :=
  match s with String a _ => p a | "" => false end.

(** The state after reading [w], with [s] left. *)
Definition adv (st : rstate) (w s : string) : rstate :=
  RSt (rs_pos st + String.length w) (foldl (λ _ a, Some a) (rs_prev st) (schars w)) s (rs_caps st).

Lemma adv_nil st s : rs_rest st = s → adv st "" s = st.
Proof. destruct st; unfold adv; simpl. intros ->. by rewrite Nat.add_0_r. Qed.

Lemma adv_cons st a w s t :
  rs_rest st = String a t → adv (step_char st) w s = adv st (String a w) s.
Proof. intros H. unfold adv, step_char. rewrite H. simpl. f_equal. lia. Qed.

Lemma adv_app st w1 w2 s t : adv (adv st w1 t) w2 s = adv st (w1 +:+ w2) s.
Proof. unfold adv; simpl. by rewrite slen_app, schars_app, foldl_app, Nat.add_assoc. Qed.

Lemma step_char_adv st a s : rs_rest st = String a s → step_char st = adv st (str1 a) s.
Proof. intros H. unfold step_char, adv. rewrite H. simpl. f_equal. lia. Qed.

(** The split of [s] after its longest prefix of bytes in [p]. *)
Fixpoint span (p : ascii → bool) (s : string) : string * string :=
  match s with
  | "" => ("", "")
  | String a s' => if p a then let '(w, t) := span p s' in (String a w, t) else ("", s)
  end.

Lemma span_app p w s : all_chars p w = true → starts_in p s = false → span p (w +:+ s) = (w, s).
Proof.
  intros Hw Hs. induction w as [|a w IH].
  - rewrite sapp_nil_l. destruct s as [|a s]; simpl in *; [done|]. by rewrite Hs.
  - rewrite all_chars_cons, andb_true_iff in Hw. destruct Hw as [Ha Hw].
    rewrite sapp_cons. simpl. by rewrite Ha, IH.
Qed.

Lemma span_spec p s w t :
  span p s = (w, t) → s = w +:+ t ∧ all_chars p w = true ∧ starts_in p t = false.
Proof.
  revert w t; induction s as [|a s IH]; intros w t; simpl; [by intros [= <- <-]|].
  destruct (p a) eqn:Ha; [|intros [= <- <-]; simpl; by rewrite Ha].
  destruct (span p s) as [w' t'] eqn:E. intros [= <- <-].
  destruct (IH _ _ eq_refl) as (-> & Hw & Ht).
  rewrite sapp_cons, all_chars_cons, Ha, Hw. auto.
Qed.

Lemma run_class neg rs st :
  run (RE_class neg rs) st =
  match rs_rest st with
  | String a _ => if in_class neg rs a then [step_char st] else []
  | "" => []
  end.
Proof. done. Qed.

Lemma run_class_hit neg rs st a s :
  rs_rest st = String a s → in_class neg rs a = true →
  run (RE_class neg rs) st = [adv st (str1 a) s].
Proof. intros H Ha. simpl. rewrite H, Ha. by rewrite (step_char_adv _ a s). Qed.

Lemma run_class_miss neg rs st :
  starts_in (in_class neg rs) (rs_rest st) = false → run (RE_class neg rs) st = [].
Proof. simpl. destruct (rs_rest st); [done|]. simpl. by intros ->. Qed.

(** A greedy star of a class followed by something that fails before every byte of
    the class takes the longest run. *)
Lemma bind_star {B} neg rs (f : rstate → list B) st w s :
  (∀ st', starts_in (in_class neg rs) (rs_rest st') = true → f st' = []) →
  span (in_class neg rs) (rs_rest st) = (w, s) →
  run (RE_star true (RE_class neg rs)) st ≫= f = f (adv st w s).
Proof.
  intros Hf.
  change (run (RE_star true (RE_class neg rs)) st) with
    (star_loop true (run (RE_class neg rs)) (String.length (rs_rest st)) st).
  remember (String.length (rs_rest st)) as fuel eqn:Hfuel.
  revert st w Hfuel; induction fuel as [|fuel IH]; intros st w Hfuel Hspan.
  - destruct (rs_rest st) eqn:E; [|done]. injection Hspan as <- <-.
    simpl. by rewrite adv_nil, app_nil_r.
  - cbn [star_loop]. rewrite run_class.
    destruct (rs_rest st) as [|a t] eqn:E; [done|]. simpl in Hspan.
    destruct (in_class neg rs a) eqn:Ha.
    + destruct (span (in_class neg rs) t) as [w' s'] eqn:Es. injection Hspan as <- <-.
      pose proof (step_char_adv _ _ _ E) as Hstep.
      cbn [mbind list_bind]. rewrite app_nil_r.
      replace (rs_pos (step_char st) =? rs_pos st) with false.
      2: { symmetry. apply Nat.eqb_neq. rewrite Hstep. simpl. lia. }
      rewrite bind_app. rewrite (IH (step_char st) w').
      * cbn [mbind list_bind]. rewrite (Hf st), !app_nil_r; [by rewrite (adv_cons _ a _ _ t)|].
        rewrite E. simpl. by rewrite Ha.
      * rewrite Hstep. simpl in *. lia.
      * by rewrite Hstep.
    + injection Hspan as <- <-. simpl. rewrite app_nil_r. by rewrite adv_nil.
Qed.

Lemma run_cat r1 r2 st : run (RE_cat r1 r2) st = run r1 st ≫= run r2.
Proof. done. Qed.

Lemma run_group_bind {B} n r st (f : rstate → list B) :
  run (RE_group n r) st ≫= f = run r st ≫= (λ st', f (set_cap n st st')).
Proof.
  cbn [run]. induction (run r st) as [|x l IH]; [done|].
  cbn [fmap list_fmap mbind list_bind] in *. by f_equal.
Qed.

Lemma run_cat_bind {B} r1 r2 st (f : rstate → list B) :
  run (RE_cat r1 r2) st ≫= f = run r1 st ≫= (λ st', run r2 st' ≫= f).
Proof.
  cbn [run]. induction (run r1 st) as [|x l IH]; [done|].
  change ((x :: l) ≫= run r2) with (run r2 x ++ (l ≫= run r2)). rewrite bind_app, IH. done.
Qed.

Lemma set_cap_adv n st w s :
  rs_rest st = w +:+ s →
  set_cap n st (adv st w s) =
  RSt (rs_pos st + String.length w) (foldl (λ _ a, Some a) (rs_prev st) (schars w)) s
      ((n, w) :: rs_caps st).
Proof.
  intros H. unfold set_cap, adv; simpl. rewrite H.
  replace (rs_pos st + String.length w - rs_pos st) with (String.length w) by lia.
  by rewrite stake_app.
Qed.

(** Searching: a failing position is skipped. *)
Lemma find_from_hit fuel r st st' l :
  run r st = st' :: l →
  find_from fuel r st = Some (mk_match st st', RSt (rs_pos st') (rs_prev st') (rs_rest st') []).
Proof. intros H. destruct fuel; simpl; by rewrite H. Qed.

Lemma find_from_miss fuel r st :
  run r st = [] → find_from (S fuel) r st = find_from fuel r (step_char st).
Proof. intros H. simpl. by rewrite H. Qed.

(** An expression that starts with [^] matches only at the start of the text. *)
Lemma find_from_begin_later fuel r st :
  rs_pos st ≠ 0 → find_from fuel (RE_cat RE_begin r) st = None.
Proof.
  revert st; induction fuel as [|fuel IH]; intros st Hpos; cbn [find_from run];
    rewrite (proj2 (Nat.eqb_neq _ _) Hpos); [done|].
  apply IH. unfold step_char. by destruct (rs_rest st).
Qed.

Lemma FindStringSubmatch_begin_hit r s st' l :
  run r (init_state s) = st' :: l →
  FindStringSubmatch (RE_cat RE_begin r) s = Some (mk_match (init_state s) st').
Proof.
  intros H. unfold FindStringSubmatch.
  erewrite find_from_hit; [done|]. cbn [run]. cbn [init_state rs_pos Nat.eqb mbind list_bind].
  rewrite app_nil_r. exact H.
Qed.

Lemma FindStringSubmatch_begin_miss r s :
  s ≠ "" → run r (init_state s) = [] → FindStringSubmatch (RE_cat RE_begin r) s = None.
Proof.
  intros Hs H. unfold FindStringSubmatch. destruct s as [|a s]; [done|].
  cbn [String.length]. rewrite find_from_miss.
  - by rewrite find_from_begin_later.
  - cbn [run]. cbn [init_state rs_pos Nat.eqb mbind list_bind]. rewrite app_nil_r. exact H.
Qed.

(** *** Soundness: a match reads a part of the text *)

Fixpoint groups (r : re) : list nat :=
  match r with
  | RE_cat r1 r2 | RE_alt r1 r2 => groups r1 ++ groups r2
  | RE_star _ r | RE_opt _ r => groups r
  | RE_group n r => n :: groups r
  | _ => []
  end.

(** [st'] is [st] with [w] read, and captures of the groups [gs] added. *)
Record reads (gs : list nat) (st st' : rstate) (w : string) : Prop := {
  reads_rest : rs_rest st = w +:+ rs_rest st';
  reads_pos : rs_pos st' = rs_pos st + String.length w;
  reads_caps : ∃ l, rs_caps st' = l ++ rs_caps st ∧ Forall (λ c, c.1 ∈ gs) l;
}.

Lemma reads_refl gs st : reads gs st st "".
Proof. split; [done|simpl; lia|by exists []]. Qed.

Lemma reads_trans gs1 gs2 gs st1 st2 st3 w1 w2 :
  reads gs1 st1 st2 w1 → reads gs2 st2 st3 w2 → gs1 ⊆ gs → gs2 ⊆ gs →
  reads gs st1 st3 (w1 +:+ w2).
Proof.
  intros [H1 H2 (l1 & Hl1 & Hf1)] [H3 H4 (l2 & Hl2 & Hf2)] Hs1 Hs2. split.
  - by rewrite H1, H3, sapp_assoc.
  - rewrite H4, H2, slen_app. lia.
  - exists (l2 ++ l1). rewrite Hl2, Hl1, app_assoc. split; [done|].
    apply Forall_app. split; eapply Forall_impl; eauto; simpl; set_solver.
Qed.

Lemma reads_mono gs gs' st st' w : reads gs st st' w → gs ⊆ gs' → reads gs' st st' w.
Proof.
  intros [H1 H2 (l & Hl & Hf)] Hs. split; [done..|]. exists l; split; [done|].
  eapply Forall_impl; eauto.
Qed.

Lemma star_loop_sound gs (f : rstate → list rstate) greedy :
  (∀ st st', st' ∈ f st → ∃ w, reads gs st st' w) →
  ∀ fuel st st', st' ∈ star_loop greedy f fuel st → ∃ w, reads gs st st' w.
Proof.
  intros Hf. induction fuel as [|fuel IH]; intros st st'; cbn [star_loop].
  { rewrite list_elem_of_singleton. intros ->. eauto using reads_refl. }
  set (again := st1 ← f st; if rs_pos st1 =? rs_pos st then [] else star_loop greedy f fuel st1).
  assert (st' ∈ again → ∃ w, reads gs st st' w) as Hagain.
  { subst again. rewrite list_elem_of_bind. intros (st1 & H2 & H1).
    destruct (rs_pos st1 =? rs_pos st); [set_solver|].
    apply Hf in H1 as [w1 H1]. apply IH in H2 as [w2 H2].
    exists (w1 +:+ w2). by eapply reads_trans. }
  clearbody again. pose proof (reads_refl gs st).
  destruct greedy; rewrite ?elem_of_app, ?list_elem_of_singleton, ?elem_of_cons;
    intros [H'|H']; subst; eauto.
Qed.

Lemma run_sound r st st' : st' ∈ run r st → ∃ w, reads (groups r) st st' w.
Proof.
  revert st st'; induction r as [|neg rs|r1 IH1 r2 IH2|r1 IH1 r2 IH2|g r IH|g r IH|n r IH| | |];
    intros st st'; cbn [run groups].
  - rewrite list_elem_of_singleton. intros ->. eauto using reads_refl.
  - destruct (rs_rest st) as [|a s] eqn:E; [set_solver|].
    destruct (in_class neg rs a); [|set_solver]. rewrite list_elem_of_singleton. intros ->.
    rewrite (step_char_adv _ _ _ E). exists (str1 a). split; [by rewrite E|done|by exists []].
  - rewrite list_elem_of_bind. intros (st1 & H2 & H1).
    apply IH1 in H1 as [w1 H1]. apply IH2 in H2 as [w2 H2].
    exists (w1 +:+ w2). eapply reads_trans; eauto; set_solver.
  - rewrite elem_of_app. intros [H|H]; [apply IH1 in H as [w H]|apply IH2 in H as [w H]];
      exists w; eapply reads_mono; eauto; set_solver.
  - by apply star_loop_sound.
  - pose proof (reads_refl (groups r) st).
    destruct g; rewrite ?elem_of_app, ?list_elem_of_singleton, ?elem_of_cons;
      intros [H'|H']; subst; eauto.
  - rewrite list_elem_of_fmap. intros (st1 & -> & H). apply IH in H as [w [H1 H2 (l & Hl & Hf)]].
    exists w. split; simpl; [done..|].
    exists ((n, stake (rs_pos st1 - rs_pos st) (rs_rest st)) :: l). rewrite Hl. split; [done|].
    constructor; [set_solver|]. eapply Forall_impl; [done|]. set_solver.
  - destruct (rs_pos st =? 0); [|set_solver]. rewrite list_elem_of_singleton. intros ->.
    eauto using reads_refl.
  - destruct (String.eqb (rs_rest st) ""); [|set_solver]. rewrite list_elem_of_singleton. intros ->.
    eauto using reads_refl.
  - destruct (xorb _ _); [|set_solver]. rewrite list_elem_of_singleton. intros ->.
    eauto using reads_refl.
Qed.

Lemma run_group_sound n r st st' :
  st' ∈ run (RE_group n r) st →
  ∃ w l, rs_rest st = w +:+ rs_rest st' ∧
         rs_caps st' = (n, w) :: l ++ rs_caps st ∧ Forall (λ c, c.1 ∈ groups r) l.
Proof.
  cbn [run]. rewrite list_elem_of_fmap. intros (st1 & -> & H).
  apply run_sound in H as [w [H1 H2 (l & Hl & Hf)]].
  exists w, l. simpl. rewrite H1, H2, Hl. split; [done|]. split; [|done].
  replace (rs_pos st + String.length w - rs_pos st) with (String.length w) by lia.
  by rewrite stake_app.
Qed.

Lemma FindStringSubmatch_begin_sound r s m :
  FindStringSubmatch (RE_cat RE_begin r) s = Some m →
  ∃ st', st' ∈ run r (init_state s) ∧ m = mk_match (init_state s) st'.
Proof.
  destruct (run r (init_state s)) as [|st' l] eqn:E.
  - destruct s as [|a s]; [|by rewrite FindStringSubmatch_begin_miss].
    unfold FindStringSubmatch. cbn [String.length find_from run]. simpl. by rewrite E.
  - rewrite (FindStringSubmatch_begin_hit _ _ _ _ E). intros [= <-]. eexists. split; [|done]. set_solver.
Qed.

(** The text of a group is the first capture of it. *)
Lemma group_head n w l st st' :
  rs_caps st' = (n, w) :: l → group n (mk_match st st') = w.
Proof. intros H. unfold group. simpl. rewrite H. simpl. by rewrite Nat.eqb_refl. Qed.

Lemma group_skip n l l' st st' :
  rs_caps st' = l ++ l' → Forall (λ c, c.1 ≠ n) l →
  group n (mk_match st st') = default "" (snd <$> List.find (λ c, c.1 =? n) l').
Proof.
  intros H Hl. unfold group. simpl. rewrite H. do 2 f_equal. clear H.
  induction Hl as [|[k t] l Hk _ IH]; [done|]. simpl in *. by rewrite (proj2 (Nat.eqb_neq _ _) Hk).
Qed.

(** *** Computing a match by its parts

    [picks r w s caps]: at a position where the text goes on with [w] and then
    [s], the preferred match of [r] reads [w] and captures [caps].  [fails r s]:
    [r] has no match where the text goes on with [s]. *)

Definition picks (r : re) (w s : string) (caps : list (nat * string)) : Prop :=
  ∀ st, rs_rest st = w +:+ s →
  ∃ st' l, run r st = st' :: l ∧ rs_rest st' = s ∧
           rs_pos st' = rs_pos st + String.length w ∧ rs_caps st' = caps ++ rs_caps st.

Definition fails (r : re) (s : string) : Prop := ∀ st, rs_rest st = s → run r st = [].

Lemma picks_empty s : picks RE_empty "" s [].
Proof. intros st H. exists st, []. simpl. rewrite Nat.add_0_r. done. Qed.

Lemma picks_end : picks RE_end "" "" [].
Proof. intros st H. exists st, []. simpl. rewrite H, Nat.add_0_r. done. Qed.

Lemma picks_class neg rs a s : in_class neg rs a = true → picks (RE_class neg rs) (str1 a) s [].
Proof.
  intros Ha st H. exists (adv st (str1 a) s), [].
  split; [by apply run_class_hit|]. done.
Qed.

Lemma picks_cat r1 r2 w1 w2 s c1 c2 :
  picks r1 w1 (w2 +:+ s) c1 → picks r2 w2 s c2 → picks (RE_cat r1 r2) (w1 +:+ w2) s (c2 ++ c1).
Proof.
  intros H1 H2 st H. rewrite sapp_assoc in H.
  destruct (H1 st H) as (st1 & l1 & E1 & Hr1 & Hp1 & Hc1).
  destruct (H2 st1 Hr1) as (st2 & l2 & E2 & Hr2 & Hp2 & Hc2).
  exists st2, (l2 ++ (l1 ≫= run r2)). rewrite run_cat, E1.
  change ((st1 :: l1) ≫= run r2) with (run r2 st1 ++ (l1 ≫= run r2)). rewrite E2.
  split; [done|]. split; [done|]. rewrite Hp2, Hp1, Hc2, Hc1, slen_app, app_assoc. split; [lia|done].
Qed.

Lemma picks_cat_end r w c : picks r w "" c → picks (RE_cat r RE_end) w "" c.
Proof.
  intros H. rewrite <-(sapp_nil_r w). apply (picks_cat _ _ w "" "" c []); [|apply picks_end].
  exact H.
Qed.

Lemma picks_alt_l r1 r2 w s c : picks r1 w s c → picks (RE_alt r1 r2) w s c.
Proof.
  intros H st Hst. destruct (H st Hst) as (st' & l & E & ?). exists st', (l ++ run r2 st).
  cbn [run]. by rewrite E.
Qed.

Lemma picks_alt_r r1 r2 w s c : fails r1 (w +:+ s) → picks r2 w s c → picks (RE_alt r1 r2) w s c.
Proof.
  intros Hf H st Hst. destruct (H st Hst) as (st' & l & E & ?). exists st', l.
  cbn [run]. by rewrite Hf, E.
Qed.

Lemma lit_range_eqb a c : in_class false (lit_range a) c = Ascii.eqb c a.
Proof.
  unfold in_class, in_ranges, lit_range, in_range. simpl. rewrite orb_false_r.
  destruct (Ascii.eqb_spec c a) as [->|Hne]; [by rewrite !N.leb_refl|].
  apply andb_false_iff. rewrite !N.leb_gt.
  destruct (decide (N_of_ascii a < N_of_ascii c)%N); [by right|].
  left. assert (N_of_ascii a ≠ N_of_ascii c) as H; [|lia].
  intros H. apply Hne. rewrite <-(ascii_N_embedding c), <-(ascii_N_embedding a). congruence.
Qed.

(** A literal: a chain of one-byte classes. *)
Fixpoint literal (l : string) (r : re) : re :=
  match l with
  | "" => r
  | String a l => RE_cat (RE_class false (lit_range a)) (literal l r)
  end.

Lemma picks_literal l r w s c : picks r w s c → picks (literal l r) (l +:+ w) s c.
Proof.
  intros H. induction l as [|a l IH]; [done|]. rewrite <-(app_nil_r c).
  apply (picks_cat _ _ (str1 a) (l +:+ w) s [] c); [|exact IH].
  apply picks_class. by rewrite lit_range_eqb, Ascii.eqb_refl.
Qed.

Lemma picks_group n r w s c : picks r w s c → picks (RE_group n r) w s ((n, w) :: c).
Proof.
  intros H st Hst. destruct (H st Hst) as (st' & l & E & Hr & Hp & Hc).
  exists (set_cap n st st'), (set_cap n st <$> l). cbn [run]. rewrite E.
  split; [done|]. split; [done|]. split; [done|]. simpl. rewrite Hc, Hp, Hst.
  replace (rs_pos st + String.length w - rs_pos st) with (String.length w) by lia.
  by rewrite stake_app.
Qed.

Lemma picks_star neg rs w s :
  all_chars (in_class neg rs) w = true → starts_in (in_class neg rs) s = false →
  picks (RE_star true (RE_class neg rs)) w s [].
Proof.
  intros Hw Hs st H.
  change (run (RE_star true (RE_class neg rs)) st) with
    (star_loop true (run (RE_class neg rs)) (String.length (rs_rest st)) st).
  assert (∀ fuel st w, rs_rest st = w +:+ s → String.length w ≤ fuel →
    all_chars (in_class neg rs) w = true →
    ∃ st' l, star_loop true (run (RE_class neg rs)) fuel st = st' :: l ∧ rs_rest st' = s ∧
             rs_pos st' = rs_pos st + String.length w ∧ rs_caps st' = rs_caps st) as Hloop.
  { clear st w Hw H. induction fuel as [|fuel IH]; intros st w H Hlen Hw.
    { destruct w; [|simpl in Hlen; lia]. exists st, []. simpl. by rewrite Nat.add_0_r. }
    cbn [star_loop]. destruct w as [|a w].
    - rewrite run_class_miss by (by rewrite H). exists st, []. simpl. by rewrite Nat.add_0_r.
    - rewrite all_chars_cons, andb_true_iff in Hw. destruct Hw as [Ha Hw].
      rewrite sapp_cons in H. rewrite (run_class_hit _ _ _ _ _ H Ha).
      cbn [mbind list_bind]. rewrite app_nil_r.
      replace (rs_pos (adv st (str1 a) (w +:+ s)) =? rs_pos st) with false
        by (symmetry; apply Nat.eqb_neq; simpl; lia).
      destruct (IH (adv st (str1 a) (w +:+ s)) w) as (st' & l & E & Hr & Hp & Hc);
        [done|simpl in Hlen; lia|done|].
      exists st', (l ++ [st]). rewrite E. simpl in *. split; [done|]. split; [done|].
      split; [lia|done]. }
  apply Hloop; [done| |done]. rewrite H, slen_app. lia.
Qed.

Lemma picks_plus neg rs w s :
  w ≠ "" → all_chars (in_class neg rs) w = true → starts_in (in_class neg rs) s = false →
  picks (RE_cat (RE_class neg rs) (RE_star true (RE_class neg rs))) w s [].
Proof.
  destruct w as [|a w]; [done|]. rewrite all_chars_cons, andb_true_iff. intros _ [Ha Hw] Hs.
  change (String a w) with (str1 a +:+ w). change (@nil (nat * string)) with (@nil (nat * string) ++ []).
  apply picks_cat; [by apply picks_class|by apply picks_star].
Qed.

Lemma fails_class neg rs s : starts_in (in_class neg rs) s = false → fails (RE_class neg rs) s.
Proof. intros H st <-. by apply run_class_miss. Qed.

Lemma fails_cat r1 r2 s : fails r1 s → fails (RE_cat r1 r2) s.
Proof. intros H st Hst. by rewrite run_cat, H. Qed.

Lemma FindStringSubmatch_begin_picks r w caps :
  picks r w "" caps →
  FindStringSubmatch (RE_cat RE_begin r) w = Some (RMatch 0 (String.length w) w caps).
Proof.
  intros H. destruct (H (init_state w)) as (st' & l & E & Hr & Hp & Hc); [by rewrite sapp_nil_r|].
  rewrite (FindStringSubmatch_begin_hit _ _ _ _ E). unfold mk_match. rewrite Hp, Hc. simpl.
  rewrite Nat.sub_0_r, app_nil_r. do 2 f_equal. pose proof (stake_app w "") as Hs.
  by rewrite sapp_nil_r in Hs.
Qed.

Lemma FindStringSubmatch_begin_picks_app r w s caps :
  picks r w s caps →
  FindStringSubmatch (RE_cat RE_begin r) (w +:+ s) = Some (RMatch 0 (String.length w) w caps).
Proof.
  intros H. destruct (H (init_state (w +:+ s))) as (st' & l & E & Hr & Hp & Hc); [done|].
  rewrite (FindStringSubmatch_begin_hit _ _ _ _ E). unfold mk_match. rewrite Hp, Hc. cbn [init_state rs_pos rs_rest rs_caps].
  rewrite app_nil_r, Nat.add_0_l, Nat.sub_0_r. by rewrite stake_app.
Qed.

Lemma find_from_picks fuel r st w s caps :
  picks r w s caps → rs_rest st = w +:+ s → rs_caps st = [] →
  ∃ st', find_from fuel r st =
           Some (RMatch (rs_pos st) (rs_pos st + String.length w) w caps, st') ∧
         rs_rest st' = s ∧ rs_pos st' = rs_pos st + String.length w ∧ rs_caps st' = [].
Proof.
  intros H Hr Hcaps. destruct (H st Hr) as (st1 & l & E & Hr1 & Hp & Hc).
  rewrite (find_from_hit _ _ _ _ _ E).
  exists (RSt (rs_pos st1) (rs_prev st1) (rs_rest st1) []). split; [|done].
  unfold mk_match. rewrite Hp, Hc, Hcaps, Hr, app_nil_r.
  replace (rs_pos st + String.length w - rs_pos st) with (String.length w) by lia.
  by rewrite stake_app.
Qed.

(** Positions where the expression fails are skipped. *)
Lemma find_from_skip fuel r st u s :
  (∀ u1 u2, u = u1 +:+ u2 → u2 ≠ "" → fails r (u2 +:+ s)) →
  rs_rest st = u +:+ s → String.length (u +:+ s) ≤ fuel →
  find_from fuel r st = find_from (fuel - String.length u) r (adv st u s).
Proof.
  revert fuel st; induction u as [|a u IH]; intros fuel st Hf Hr Hfuel.
  - rewrite sapp_nil_l in Hr. rewrite (adv_nil _ _ Hr). simpl. by rewrite Nat.sub_0_r.
  - rewrite sapp_cons in Hr. rewrite sapp_cons in Hfuel. simpl in Hfuel.
    destruct fuel as [|fuel]; [lia|].
    rewrite find_from_miss by (apply (Hf "" (String a u)); done).
    rewrite (IH fuel (step_char st)).
    + simpl. by rewrite (adv_cons _ a _ _ (u +:+ s)).
    + intros u1 u2 -> Hu2. by apply (Hf (String a u1) u2).
    + rewrite (step_char_adv _ _ _ Hr). done.
    + lia.
Qed.

(** No match anywhere. *)
Lemma find_from_none fuel r st :
  (∀ u1 u2, rs_rest st = u1 +:+ u2 → fails r u2) → find_from fuel r st = None.
Proof.
  revert st; induction fuel as [|fuel IH]; intros st Hf; cbn [find_from];
    rewrite (Hf "" (rs_rest st) eq_refl st eq_refl); [done|].
  apply IH. intros u1 u2 Hu. unfold step_char in Hu. destruct (rs_rest st) as [|a s] eqn:E.
  - simpl in Hu. rewrite E in Hu. by apply (Hf u1).
  - simpl in Hu. apply (Hf (String a u1)). by rewrite sapp_cons, <-Hu.
Qed.

Lemma MatchString_none r s : (∀ u1 u2, s = u1 +:+ u2 → fails r u2) → MatchString r s = false.
Proof.
  intros Hf. unfold MatchString, FindStringSubmatch. by rewrite find_from_none.
Qed.

(** *** Failing by parts *)

(** [r] has no match where the next byte is in [p]. *)
Definition rejects (p : ascii → bool) (r : re) : Prop :=
  ∀ st, starts_in p (rs_rest st) = true → run r st = [].

Lemma rejects_class p neg rs :
  (∀ a, p a = true → in_class neg rs a = false) → rejects p (RE_class neg rs).
Proof.
  intros H st Hst. apply run_class_miss. destruct (rs_rest st) as [|a s]; [done|]. by apply H.
Qed.

Lemma rejects_cat p r1 r2 : rejects p r1 → rejects p (RE_cat r1 r2).
Proof. intros H st Hst. by rewrite run_cat, H. Qed.

Lemma rejects_group p n r : rejects p r → rejects p (RE_group n r).
Proof. intros H st Hst. cbn [run]. by rewrite H. Qed.

Lemma fails_cat_class neg rs r a s :
  fails r s → fails (RE_cat (RE_class neg rs) r) (String a s).
Proof.
  intros H st Hst. rewrite run_cat, run_class, Hst. destruct (in_class neg rs a); [|done].
  cbn [mbind list_bind]. rewrite H; [done|]. unfold step_char. by rewrite Hst.
Qed.

Lemma fails_cat_star neg rs r w s :
  all_chars (in_class neg rs) w = true → starts_in (in_class neg rs) s = false →
  rejects (in_class neg rs) r → fails r s →
  fails (RE_cat (RE_star true (RE_class neg rs)) r) (w +:+ s).
Proof.
  intros Hw Hs Hrej Hf st Hst. rewrite run_cat.
  rewrite (bind_star _ _ _ _ w s); [by apply Hf|exact Hrej|]. rewrite Hst. by apply span_app.
Qed.

Lemma fails_cat_plus neg rs r w s :
  all_chars (in_class neg rs) w = true → starts_in (in_class neg rs) s = false →
  rejects (in_class neg rs) r → fails r s →
  fails (RE_cat (RE_cat (RE_class neg rs) (RE_star true (RE_class neg rs))) r) (w +:+ s).
Proof.
  intros Hw Hs Hrej Hf st Hst. rewrite run_cat, run_cat_bind.
  destruct w as [|a w].
  - rewrite sapp_nil_l in Hst. by rewrite run_class_miss by by rewrite Hst.
  - rewrite all_chars_cons, andb_true_iff in Hw. destruct Hw as [Ha Hw]. rewrite sapp_cons in Hst.
    rewrite (run_class_hit _ _ _ _ _ Hst Ha). cbn [mbind list_bind]. rewrite app_nil_r.
    change (list_bind rstate rstate (run r)) with (mbind (M := list) (run r)).
    rewrite (bind_star _ _ _ _ w s); [by apply Hf|exact Hrej|]. by apply span_app.
Qed.

Lemma fails_literal l a s :
  HasPrefix s (l +:+ str1 a) = false → fails (literal l (RE_class false (lit_range a))) s.
Proof.
  revert s; induction l as [|b l IH]; intros s Hs.
  - apply fails_class. destruct s as [|c s]; [done|].
    change (in_class false (lit_range a) c = false). rewrite lit_range_eqb.
    rewrite sapp_nil_l, HasPrefix_str1 in Hs. done.
  - cbn [literal]. destruct s as [|c s]; [by apply fails_cat, fails_class|].
    rewrite sapp_cons in Hs. unfold HasPrefix in Hs. cbn [strip_prefix] in Hs.
    destruct (Ascii.eqb_spec b c) as [->|Hne].
    + apply fails_cat_class, IH. exact Hs.
    + apply fails_cat, fails_class. change (in_class false (lit_range b) c = false).
      rewrite lit_range_eqb. by apply Ascii.eqb_neq.
Qed.

Lemma fails_literal_prefix l r s : HasPrefix s l = false → fails (literal l r) s.
Proof.
  revert s; induction l as [|b l IH]; intros s Hs; [done|]. cbn [literal].
  destruct s as [|c s]; [by apply fails_cat, fails_class|].
  unfold HasPrefix in Hs. cbn [strip_prefix] in Hs.
  destruct (Ascii.eqb_spec b c) as [->|Hne].
  - apply fails_cat_class, IH. exact Hs.
  - apply fails_cat, fails_class. change (in_class false (lit_range b) c = false).
    rewrite lit_range_eqb. by apply Ascii.eqb_neq.
Qed.

(** No match without the text every match begins with. *)
Lemma literal_search_none l r s : Contains s l = false → FindStringSubmatch (literal l r) s = None.
Proof.
  intros Hs. assert (MatchString (literal l r) s = false) as H.
  { apply MatchString_none. intros u1 u2 ->. apply fails_literal_prefix.
    destruct (HasPrefix u2 l) eqn:E; [|done]. apply HasPrefix_true in E as [w ->].
    assert (Contains (u1 +:+ l +:+ w) l = true) as H by (apply Contains_true; eauto). by rewrite H in Hs. }
  unfold MatchString in H. by destruct (FindStringSubmatch _ _).
Qed.

Lemma fails_alt r1 r2 s : fails r1 s → fails r2 s → fails (RE_alt r1 r2) s.
Proof. intros H1 H2 st Hst. cbn [run]. by rewrite H1, H2. Qed.

(** Fixed text before [r]: [r] has to match what follows it. *)
Lemma fails_cat_literal l a r s :
  (∀ t, s = l +:+ String a t → fails r t) → fails (RE_cat (literal l (RE_class false (lit_range a))) r) s.
Proof.
  intros H st Hst. rewrite run_cat. revert st s Hst H; induction l as [|b l IH]; intros st s Hst H; cbn [literal].
  - destruct s as [|c s]; [by rewrite run_class, Hst|]. rewrite run_class, Hst.
    destruct (in_class _ _ c) eqn:Hc; [|done]. rewrite lit_range_eqb in Hc. apply Ascii.eqb_eq in Hc as ->.
    cbn [mbind list_bind]. rewrite app_nil_r. apply (H s); [done|]. unfold step_char. by rewrite Hst.
  - rewrite run_cat_bind. destruct s as [|c s]; [by rewrite run_class, Hst|]. rewrite run_class, Hst.
    destruct (in_class _ _ c) eqn:Hc; [|done]. rewrite lit_range_eqb in Hc. apply Ascii.eqb_eq in Hc as ->.
    cbn [mbind list_bind]. rewrite app_nil_r.
    apply (IH _ s); [unfold step_char; by rewrite Hst|]. intros t ->. by apply H.
Qed.

Lemma fails_cat_alt r1 r2 r s : fails (RE_cat r1 r) s → fails (RE_cat r2 r) s → fails (RE_cat (RE_alt r1 r2) r) s.
Proof.
  intros H1 H2 st Hst. specialize (H1 st Hst). specialize (H2 st Hst). rewrite run_cat in *. cbn [run].
  by rewrite bind_app, H1, H2.
Qed.

Lemma fails_begin_search r s : fails r s → s ≠ "" → FindStringSubmatch (RE_cat RE_begin r) s = None.
Proof. intros Hf Hs. apply FindStringSubmatch_begin_miss; [done|]. by apply Hf. Qed.

(** *** Symbol tokens: [name/order] *)

Definition ident_start : ascii → bool :=
  in_class false [(65%N, 90%N); (97%N, 122%N); (95%N, 95%N)].
Definition ident_char : ascii → bool :=
  in_class false
    [(48%N, 57%N); (65%N, 90%N); (95%N, 95%N); (97%N, 122%N); (46%N, 46%N); (36%N, 36%N)].

(** A symbol name as the expressions read it, and an order number. *)
Definition is_ident (s : string) : bool :=
  match s with "" => false | String a w => ident_start a && all_chars ident_char w end.
Definition is_number (s : string) : bool := negb (String.eqb s "") && all_chars is_digit s.

Lemma is_number_digits s :
  is_number s = true →
  s ≠ "" ∧ all_chars (in_class false [(48%N, 57%N)]) s = true.
Proof.
  unfold is_number. rewrite andb_true_iff, negb_true_iff. intros [H1 H2].
  split; [by apply String.eqb_neq|]. revert H2. apply all_chars_impl.
  intros a. unfold in_class, in_ranges. simpl. by rewrite orb_false_r.
Qed.

Lemma ident_chars name : is_ident name = true → all_chars ident_char name = true.
Proof.
  destruct name as [|a w]; [done|]. cbn [is_ident]. rewrite andb_true_iff, all_chars_cons. intros [Ha Hw].
  rewrite Hw, andb_true_r. revert Ha. clear. by destruct a as [[] [] [] [] [] [] [] []].
Qed.

Lemma picks_number id s :
  is_number id = true → starts_in is_digit s = false →
  picks (RE_cat (RE_class false [(48%N, 57%N)]) (RE_star true (RE_class false [(48%N, 57%N)]))) id s [].
Proof.
  intros Hid Hs. apply is_number_digits in Hid as [Hne Hd]. apply picks_plus; [done..|].
  destruct s as [|a s]; [done|]. simpl in *. unfold in_class, in_ranges. simpl. by rewrite orb_false_r.
Qed.

Lemma picks_ident name s :
  is_ident name = true → starts_in ident_char s = false →
  picks (RE_cat (RE_class false [(65%N, 90%N); (97%N, 122%N); (95%N, 95%N)])
    (RE_star true (RE_class false
      [(48%N, 57%N); (65%N, 90%N); (95%N, 95%N); (97%N, 122%N); (46%N, 46%N); (36%N, 36%N)])))
    name s [].
Proof.
  destruct name as [|a w]; [done|]. cbn [is_ident]. rewrite andb_true_iff. intros [Ha Hw] Hs.
  apply (picks_cat _ _ (str1 a) w s [] []); [by apply picks_class|by apply picks_star].
Qed.

Lemma ident_trim name rest :
  is_ident name = true → rest ≠ "" ∧ TrimRight rest = rest → TrimSpace (name +:+ rest) = name +:+ rest.
Proof.
  intros Hn [Hne Hr]. destruct name as [|a w]; [done|]. apply TrimSpace_ends; [done| |done..].
  simpl in Hn. apply andb_true_iff in Hn as [Ha _]. simpl.
  assert (is_space a = false) as ->; [|done]. revert Ha. clear. by destruct a as [[] [] [] [] [] [] [] []].
Qed.
