(* ===== verification/Usr.v ===== *)
(** * Identity strings of C entities ([internal/usr/usr.go])

    [Function] … [Field] build the identity (USR) of an entity; [itoa] is the
    package's own integer formatter, with its twelve-byte buffer; [Clone]
    strips GCC's clone suffixes.  The theorems: identities of entities of any
    two kinds differ unless kind, path and names agree; [itoa] prints exactly
    the integers its buffer holds and panics on the others; [Clone] splits a
    name into base and suffix. *)

From S2P Require Import Prelude GoStrings GoRegexp.
From Stdlib Require Import ZArith Lia.

(** ** [itoa] *)

(** The loop [for n > 0]: [i] bytes of the buffer are still free, [acc] is
    [buf[i:]]. *)
Fixpoint itoa_loop (fuel i : nat) (n : Z) (acc : string) : outcome (nat * string) :=
  match fuel with
  | 0 => Val (i, acc)
  | S fuel =>
    if (0 <? n)%Z
    then match i with
         | 0 => Panic
         | S i => itoa_loop fuel i (n / 10) (String (digit_of (n mod 10)) acc)
         end
    else Val (i, acc)
  end.

(** A 64-bit int has at most 19 digits: 20 rounds leave the loop. *)
Definition itoa (n : Z) : outcome string :=
  if (n =? 0)%Z then Val "0"
  else
    let neg := (n <? 0)%Z in
    let n := if neg then wrap64 (- n) else n in
    '(i, acc) ← itoa_loop 20 12 n "";
    if neg
    then match i with 0 => Panic | S _ => Val (String "-" acc) end
    else Val acc.

(** ** Identities *)

Definition Function (path name : string) : string :=
  if String.eqb path "" then "c:@F@" +:+ name else "c:" +:+ path +:+ "@F@" +:+ name.

Definition Variable_ (path name : string) : string :=
  if String.eqb path "" then "c:@V@" +:+ name else "c:" +:+ path +:+ "@V@" +:+ name.

Definition Typedef (path name : string) : string := "c:" +:+ path +:+ "@T@" +:+ name.

Definition resolveTagName (name : string) (line col : Z) : outcome string :=
  if String.eqb name ""
  then l ← itoa line; c ← itoa col; Val ("__anon_" +:+ l +:+ "_" +:+ c)
  else Val name.

Definition Struct (path name : string) (line col : Z) : outcome string :=
  t ← resolveTagName name line col; Val ("c:" +:+ path +:+ "@S@" +:+ t).

Definition Union (path name : string) (line col : Z) : outcome string :=
  t ← resolveTagName name line col; Val ("c:" +:+ path +:+ "@U@" +:+ t).

Definition Enum (path name : string) (line col : Z) : outcome string :=
  t ← resolveTagName name line col; Val ("c:" +:+ path +:+ "@E@" +:+ t).

Definition EnumMember (path enumName : string) (line col : Z) (member : string) : outcome string :=
  t ← resolveTagName enumName line col; Val ("c:" +:+ path +:+ "@E@" +:+ t +:+ "@" +:+ member).

Definition Field (containerUSR fieldName : string) : string := containerUSR +:+ "@F@" +:+ fieldName.

(** ** Clones and paths *)

Definition cloneSuffix : re := Eval vm_compute in
  MustCompile "^(.*?)(\.(constprop|isra|part|localalias|cold|hot|resolver)(\.\d+)?)$".

(** [base, suffix, ok]. *)
Definition Clone (name : string) : string * string * bool :=
  match FindStringSubmatch cloneSuffix name with
  | None => (name, "", false)
  | Some m => (group 1 m, group 2 m, true)
  end.

Definition NormalizeProjectPath (p : string) : string :=
  TrimSuffix (TrimPrefix (ReplaceAll p "\" "/") "./") "/".

(** ** [itoa] lemmas *)

Lemma itoa_loop_spec k fuel i n acc :
  (10 ^ Z.of_nat k ≤ n < 10 ^ Z.of_nat (S k))%Z → k < fuel → fuel ≤ 64 →
  itoa_loop fuel i n acc = if S k <=? i then Val (i - S k, dec_go 64 n acc) else Panic.
Proof.
  assert (∀ f1 f2 n acc, (0 ≤ n < 10 ^ Z.of_nat f1)%Z → f1 ≤ f2 → 0 < f1 →
            dec_go f1 n acc = dec_go f2 n acc) as Hdec.
  { clear. induction f1 as [|f1 IH]; intros [|f2] n acc Hn Hle Hpos; try lia. cbn [dec_go].
    destruct (Z.ltb_spec n 10) as [|Hge]; [done|]. 
    assert (0 < f1) by (destruct f1; simpl in Hn; lia).
    apply IH; [|lia|done].
    rewrite Nat2Z.inj_succ, Z.pow_succ_r in Hn by lia.
    split; [apply Z.div_pos; lia|apply Z.div_lt_upper_bound; lia]. }
  revert fuel i n acc; induction k as [|k IH]; intros fuel i n acc Hn Hk Hf;
    destruct fuel as [|fuel]; try lia; cbn [itoa_loop].
  - simpl in Hn. rewrite (proj2 (Z.ltb_lt 0 n)) by lia.
    destruct i as [|i]; [done|]. simpl (S i - 1). rewrite Nat.sub_0_r. simpl (1 <=? S i).
    cbn [dec_go]. rewrite (proj2 (Z.ltb_lt n 10)) by lia.
    rewrite Z.div_small, Z.mod_small by lia. destruct fuel; done.
  - rewrite !Nat2Z.inj_succ, !Z.pow_succ_r in Hn by lia.
    assert (0 < 10 ^ Z.of_nat k)%Z by (apply Z.pow_pos_nonneg; lia).
    rewrite (proj2 (Z.ltb_lt 0 n)) by lia.
    destruct i as [|i]; [done|]. rewrite (IH _ i); [|split| lia..].
    + change (S (S k) <=? S i) with (S k <=? i). destruct (S k <=? i); [|done].
      f_equal. f_equal. transitivity (dec_go 63 (n / 10) (String (digit_of (n mod 10)) acc)).
      * symmetry. apply Hdec; [|lia..]. split; [apply Z.div_pos; lia|].
        apply Z.div_lt_upper_bound; [lia|].
        eapply Z.lt_le_trans; [apply Hn|]. rewrite <-!Z.pow_succ_r by lia.
        apply Z.pow_le_mono_r; lia.
      * change (dec_go 64 n acc) with
          (if (n <? 10)%Z then String (digit_of (n mod 10)) acc
           else dec_go 63 (n / 10) (String (digit_of (n mod 10)) acc)).
        by rewrite (proj2 (Z.ltb_ge n 10)) by lia.
    + apply Z.div_le_lower_bound; lia.
    + rewrite Nat2Z.inj_succ, Z.pow_succ_r by lia. apply Z.div_lt_upper_bound; lia.
Qed.

Lemma digits_of m n :
  (0 < n < 10 ^ Z.of_nat m)%Z → ∃ k, k < m ∧ (10 ^ Z.of_nat k ≤ n < 10 ^ Z.of_nat (S k))%Z.
Proof.
  induction m as [|m IH]; intros Hn; [simpl in Hn; lia|].
  destruct (decide (n < 10 ^ Z.of_nat m)%Z) as [Hlt|Hge].
  - destruct IH as (k & ? & ?); [lia|]. exists k. lia.
  - exists m. lia.
Qed.

Lemma pow10_le a b : a ≤ b → (10 ^ Z.of_nat a ≤ 10 ^ Z.of_nat b)%Z.
Proof. intros. apply Z.pow_le_mono_r; lia. Qed.

Lemma itoa_loop_val n i :
  (0 < n < 2 ^ 63)%Z →
  itoa_loop 20 i n "" =
    if decide (n < 10 ^ Z.of_nat i)%Z
    then itoa_loop 20 i n "" else Panic.
Proof.
  intros Hn. destruct (digits_of 19 n) as (k & Hk & Hd); [split; [lia|]; etransitivity; [apply Hn|done]|].
  case_decide as Hi; [done|].
  rewrite (itoa_loop_spec k) by lia. destruct (Nat.leb_spec (S k) i); [|done].
  pose proof (pow10_le (S k) i). lia.
Qed.

Lemma itoa_loop_fits n i :
  (0 < n < 2 ^ 63)%Z → (n < 10 ^ Z.of_nat i)%Z →
  ∃ j, itoa_loop 20 i n "" = Val (j, dec n) ∧ (n < 10 ^ Z.of_nat (pred i) ↔ (0 < j)%nat)%Z.
Proof.
  intros Hn Hi. destruct (digits_of 19 n) as (k & Hk & Hd); [split; [lia|]; etransitivity; [apply Hn|done]|].
  rewrite (itoa_loop_spec k) by lia.
  assert (S k ≤ i) as Hki.
  { destruct (decide (S k ≤ i)); [done|]. pose proof (pow10_le i k). lia. }
  rewrite (proj2 (Nat.leb_le _ _)) by done. exists (i - S k). unfold dec.
  rewrite (proj2 (Z.ltb_ge n 0)) by lia. split; [done|]. split; intros H.
  - destruct (decide (S k = i)); [subst; simpl in *; lia|lia].
  - pose proof (pow10_le (S k) (pred i)). lia.
Qed.

(** C36: [itoa] on every 64-bit int: the decimal text when the digits (and the
    sign) fit the twelve-byte buffer, an index-out-of-range panic when they do
    not, and a bare minus sign for the one int that has no negation. *)
Theorem itoa_correct n :
  (- 2 ^ 63 ≤ n < 2 ^ 63)%Z →
  itoa n = if decide (n = - 2 ^ 63)%Z then Val "-"
           else if decide (- 10 ^ 11 < n < 10 ^ 12)%Z then Val (dec n) else Panic.
Proof.
  intros Hn. unfold itoa.
  destruct (Z.eqb_spec n 0) as [->|Hn0]; [done|].
  case_decide as Hmin; [by subst|].
  destruct (Z.ltb_spec n 0) as [Hneg|Hpos].
  - replace (wrap64 (- n)) with (- n)%Z.
    2: { unfold wrap64. rewrite Z.mod_small; lia. }
    destruct (decide (- n < 10 ^ Z.of_nat 12)%Z) as [Hfit|Hbig].
    + destruct (itoa_loop_fits (- n) 12) as (j & -> & Hj); [lia|done|]. cbn [mbind outcome_bind].
      destruct j as [|j]; case_decide as Hd; try done; simpl in Hj; try lia.
      unfold dec. rewrite (proj2 (Z.ltb_lt n 0)), (proj2 (Z.ltb_ge (- n) 0)) by lia. done.
    + rewrite itoa_loop_val by lia. rewrite decide_False by lia. simpl.
      rewrite decide_False; [done|]. simpl in Hbig. lia.
  - destruct (decide (n < 10 ^ Z.of_nat 12)%Z) as [Hfit|Hbig].
    + destruct (itoa_loop_fits n 12) as (j & -> & Hj); [lia|done|].
      simpl in *. by rewrite decide_True by lia.
    + rewrite itoa_loop_val by lia. rewrite decide_False by lia. simpl.
      rewrite decide_False; [done|]. simpl in Hbig. lia.
Qed.

Lemma itoa_correct_witness : (- 2 ^ 63 ≤ -70 < 2 ^ 63)%Z ∧ itoa (-70) = Val "-70".
Proof. split; [lia|]. rewrite (itoa_correct (-70)) by lia. reflexivity. Defined.

Lemma itoa_small n : (0 ≤ n < 10 ^ 12)%Z → itoa n = Val (dec n).
Proof.
  intros Hn. unfold itoa. destruct (Z.eqb_spec n 0) as [->|]; [done|].
  rewrite (proj2 (Z.ltb_ge n 0)) by lia.
  destruct (itoa_loop_fits n 12) as (j & -> & _); [lia|simpl; lia|done].
Qed.

(** ** Identities are injective *)

(** What a USR identifies.  Line and column of a tag matter only when it is
    anonymous. *)
Inductive entity :=
| EFunction (path name : string)
| EVariable (path name : string)
| ETypedef (path name : string)
| EStruct (path name : string) (line col : Z)
| EUnion (path name : string) (line col : Z)
| EEnum (path name : string) (line col : Z)
| EMember (path enumName : string) (line col : Z) (member : string)
| EField (in_union : bool) (path name : string) (line col : Z) (field : string).

Definition usr_of (e : entity) : outcome string :=
  match e with
  | EFunction p n => Val (Function p n)
  | EVariable p n => Val (Variable_ p n)
  | ETypedef p n => Val (Typedef p n)
  | EStruct p n l c => Struct p n l c
  | EUnion p n l c => Union p n l c
  | EEnum p n l c => Enum p n l c
  | EMember p n l c m => EnumMember p n l c m
  | EField u p n l c f =>
    container ← (if u then Union p n l c else Struct p n l c); Val (Field container f)
  end.

Definition no_at (s : string) : Prop := all_chars (λ a, negb (Ascii.eqb a "@")) s = true.

Definition tag_ok (name : string) (line col : Z) : Prop :=
  if String.eqb name "" then (0 ≤ line < 10 ^ 12 ∧ 0 ≤ col < 10 ^ 12)%Z
  else no_at name ∧ HasPrefix name "__anon_" = false ∧ line = 0%Z ∧ col = 0%Z.

(** Paths and C identifiers have no [@]; a named tag is not spelled like an
    anonymous one and carries no position; an anonymous one has a real
    position. *)
Definition entity_ok (e : entity) : Prop :=
  match e with
  | EFunction p n | EVariable p n | ETypedef p n => no_at p ∧ no_at n
  | EStruct p n l c | EUnion p n l c | EEnum p n l c => no_at p ∧ tag_ok n l c
  | EMember p n l c m | EField _ p n l c m => no_at p ∧ tag_ok n l c ∧ no_at m
  end.

Definition tag_text (name : string) (line col : Z) : string :=
  if String.eqb name "" then "__anon_" +:+ dec line +:+ "_" +:+ dec col else name.

(** The parts of a USR between its [@] signs. *)
Definition usr_parts (e : entity) : list string :=
  match e with
  | EFunction p n => ["c:" +:+ p; "F"; n]
  | EVariable p n => ["c:" +:+ p; "V"; n]
  | ETypedef p n => ["c:" +:+ p; "T"; n]
  | EStruct p n l c => ["c:" +:+ p; "S"; tag_text n l c]
  | EUnion p n l c => ["c:" +:+ p; "U"; tag_text n l c]
  | EEnum p n l c => ["c:" +:+ p; "E"; tag_text n l c]
  | EMember p n l c m => ["c:" +:+ p; "E"; tag_text n l c; m]
  | EField u p n l c f => ["c:" +:+ p; if u then "U" else "S"; tag_text n l c; "F"; f]
  end.

Lemma tag_text_spec name line col :
  tag_ok name line col → resolveTagName name line col = Val (tag_text name line col).
Proof.
  unfold tag_ok, resolveTagName, tag_text. destruct (String.eqb name ""); [|done].
  intros [Hl Hc]. by rewrite (itoa_small line), (itoa_small col).
Qed.

Lemma no_at_digits s : all_chars is_digit s = true → no_at s.
Proof.
  apply all_chars_impl. intros a. destruct (Ascii.eqb_spec a "@") as [->|]; [done|done].
Qed.

Lemma no_at_app s t : no_at (s +:+ t) ↔ no_at s ∧ no_at t.
Proof. unfold no_at. by rewrite all_chars_app, andb_true_iff. Qed.

Lemma no_at_tag_text name line col : tag_ok name line col → no_at (tag_text name line col).
Proof.
  unfold tag_ok, tag_text. destruct (String.eqb name ""); [|naive_solver].
  intros [Hl Hc]. rewrite !no_at_app.
  repeat split; try done; apply no_at_digits; apply dec_digits; lia.
Qed.

Lemma usr_of_parts e : entity_ok e → usr_of e = Val (Join (usr_parts e) "@").
Proof.
  destruct e as [p n|p n|p n|p n l c|p n l c|p n l c|p n l c m|u p n l c f];
    cbn [entity_ok usr_of usr_parts Join].
  1,2: intros _; unfold Function, Variable_; destruct (String.eqb_spec p "") as [->|];
    by rewrite ?sapp_assoc.
  1: by intros _.
  all: intros (Hp & Ht); try destruct Ht as [Ht _]; unfold Struct, Union, Enum, EnumMember;
    try destruct u; rewrite (tag_text_spec _ _ _ Ht); cbn [mbind outcome_bind];
    unfold Field; by rewrite ?sapp_assoc.
Qed.

Lemma usr_parts_ok e : entity_ok e → Forall no_at (usr_parts e).
Proof.
  pose proof no_at_tag_text as Htt.
  assert (∀ p, no_at p → no_at ("c:" +:+ p)) as Hc by (intros; by apply no_at_app).
  destruct e as [p n|p n|p n|p n l c|p n l c|p n l c|p n l c m|u p n l c f]; cbn [entity_ok usr_parts].
  1-3: intros [??]; repeat constructor; auto.
  1-3: intros [??]; repeat constructor; auto.
  all: intros (? & ? & ?); repeat constructor; auto; by destruct u.
Qed.

Lemma dec_inj a b : (0 ≤ a < 10 ^ 12)%Z → (0 ≤ b < 10 ^ 12)%Z → dec a = dec b → a = b.
Proof.
  intros Ha Hb H. assert (10 ^ 12 < max_uint64)%Z by done.
  pose proof (ParseUint_dec a ltac:(lia)) as H1. pose proof (ParseUint_dec b ltac:(lia)) as H2.
  rewrite H in H1. congruence.
Qed.

Lemma tag_text_inj n1 l1 c1 n2 l2 c2 :
  tag_ok n1 l1 c1 → tag_ok n2 l2 c2 → tag_text n1 l1 c1 = tag_text n2 l2 c2 →
  n1 = n2 ∧ l1 = l2 ∧ c1 = c2.
Proof.
  unfold tag_ok, tag_text.
  destruct (String.eqb_spec n1 "") as [->|], (String.eqb_spec n2 "") as [->|].
  - intros [Hl1 Hc1] [Hl2 Hc2] H. apply (f_equal (sdrop 7)) in H.
    assert (∀ x, sdrop 7 ("__anon_" +:+ x) = x) as Hd by (intros; by apply (sdrop_app "__anon_")).
    rewrite !Hd in H.
    assert (∀ a b, (0 ≤ a < 10 ^ 12)%Z → SplitByte "_" (dec a +:+ "_" +:+ dec b) = dec a :: SplitByte "_" (dec b)) as Hs.
    { intros a b Ha. apply SplitByte_app. eapply all_chars_impl; [|apply dec_digits; lia].
      intros x. destruct (Ascii.eqb_spec x "_") as [->|]; done. }
    apply (f_equal (SplitByte "_")) in H. rewrite !Hs in H by done.
    injection H as H1 H2. apply (f_equal (λ l, Join l (str1 "_"))) in H2.
    rewrite !Join_SplitByte in H2. auto using dec_inj.
  - intros _ (_ & Hp & _) <-. by rewrite HasPrefix_app in Hp.
  - intros (_ & Hp & _) _ ->. by rewrite HasPrefix_app in Hp.
  - naive_solver.
Qed.

(** C35: Two entities with the same identity are the same entity: the kind, the
    path, the names and, for anonymous tags, the position are all recovered
    from the USR. *)
Theorem usr_injective e1 e2 :
  entity_ok e1 → entity_ok e2 → usr_of e1 = usr_of e2 → e1 = e2.
Proof.
  intros H1 H2 Heq. rewrite !usr_of_parts in Heq by done. injection Heq as Heq.
  apply (f_equal (SplitByte "@")) in Heq. change "@" with (str1 "@") in Heq.
  rewrite !SplitByte_Join in Heq by (try apply usr_parts_ok; try done; by destruct e1, e2).
  destruct e1, e2; simpl in *; try discriminate Heq; simplify_eq; destruct_and?;
    try done; repeat match goal with b : bool |- _ => destruct b end; try discriminate Heq;
    simplify_eq/=;
    match goal with
    | H : tag_text _ _ _ = tag_text _ _ _ |- _ => apply tag_text_inj in H; naive_solver
    end.
Qed.

Definition ex_entity (dir : string) (line : Z) : entity := EField true (dir +:+ "/a.c") "" line 3 "len".

Lemma usr_injective_witness :
  entity_ok (ex_entity "src" 12) ∧ entity_ok (ex_entity "src" (4 * 3)) ∧
  usr_of (ex_entity "src" 12) = Val "c:src/a.c@U@__anon_12_3@F@len" ∧
  ex_entity "src" 12 = ex_entity "src" (4 * 3).
Proof.
  assert (entity_ok (ex_entity "src" 12)) as Hok by (repeat split; lia).
  split; [exact Hok|]. split; [exact Hok|]. split; [reflexivity|].
  apply usr_injective; [exact Hok|exact Hok|reflexivity].
Defined.

(** When [Clone] recognises a suffix, base and suffix are exactly the two
    parts of the name. *)
Theorem Clone_split name base suffix :
  Clone name = (base, suffix, true) → name = base +:+ suffix.
Proof.
  unfold Clone. destruct (FindStringSubmatch cloneSuffix name) as [m|] eqn:E; [|done].
  intros [= <- <-]. apply FindStringSubmatch_begin_sound in E as (st' & H & ->).
  rewrite run_cat, list_elem_of_bind in H. destruct H as (st1 & H & H1).
  apply run_group_sound in H1 as (w1 & l1 & Hr1 & Hc1 & Hl1).
  rewrite run_cat, list_elem_of_bind in H. destruct H as (st2 & Hend & H2).
  apply run_group_sound in H2 as (w2 & l2 & Hr2 & Hc2 & Hl2).
  assert (st' = st2 ∧ rs_rest st2 = "") as [-> Hrest].
  { cbn [run] in Hend. destruct (String.eqb_spec (rs_rest st2) ""); set_solver. }
  rewrite Hc1 in Hc2. simpl in Hl1, Hl2.
  assert (l1 = []) as ->.
  { destruct Hl1; [done|]. set_solver. }
  rewrite (group_head 2 _ _ _ _ Hc2).
  rewrite (group_skip 1 ((2, w2) :: l2) [(1, w1)]).
  3: { constructor; [done|]. eapply Forall_impl; [exact Hl2|].
       intros [k t]; simpl. rewrite !elem_of_cons, elem_of_nil. lia. }
  2: { by rewrite Hc2. }
  simpl in *. by rewrite Hr1, Hr2, Hrest, sapp_nil_r.
Qed.

Example Clone_ex1 : Clone "use_dispatch.constprop.0" = ("use_dispatch", ".constprop.0", true).
Proof. reflexivity. Qed.
Example Clone_ex2 : Clone "f.isra.0.part.12" = ("f.isra.0", ".part.12", true).
Proof. reflexivity. Qed.
Example Clone_ex3 : Clone "f.partial" = ("f.partial", "", false).
Proof. reflexivity. Qed.
