(* ===== verification/Cgraph.v ===== *)
(** * The [.cgraph] parser ([internal/gccdump/cgraph.go], [types.go])

    [ParseCgraph] reads GCC's post-IPA symbol tables line by line: a header
    line opens a block, the indented lines fill the block's fields, anything
    else ends it, and each finished block is merged into the record kept for
    its id by [mergeSymbol].  [parse_line] is one iteration of that loop on the
    parser's state; [print_cgraph] is the format GCC writes, used to state that
    parsing gives back what was printed. *)

From S2P Require Import Prelude GoStrings GoRegexp.
From Stdlib Require Import ZArith Lia.

(** ** Data ([types.go]) *)

Record Ref := MkRef { ref_TargetLocalID : string; ref_Kind : string }.
Record Call := MkCall { call_TargetLocalID : string; call_Inlined : bool }.
Record IndirectSite := MkIndirectSite {
  SpeculativeCount : Z;
  SpeculativeTargets : list string;
}.

Record Function := MkFunction {
  LocalID : string;
  Name : string;
  LinkageName : string;
  Kind : string;
  Analyzed : bool;
  BodyRemoved : bool;
  VisibilityFlags : list string;
  AddressTaken : bool;
  FunctionFlags : list string;
  CloneOfID : string;
  Refs : list Ref;
  Called : list Call;
  IndirectSites : list IndirectSite;
}.

#[export] Instance Ref_eq_dec : EqDecision Ref.
Proof. solve_decision. Defined.
#[export] Instance Call_eq_dec : EqDecision Call.
Proof. solve_decision. Defined.
#[export] Instance IndirectSite_eq_dec : EqDecision IndirectSite.
Proof. solve_decision. Defined.
#[export] Instance Function_eq_dec : EqDecision Function.
Proof. solve_decision. Defined.

Record Cgraph := MkCgraph {
  TrivialNeeded : list string;
  Symbols : gmap string Function;
}.

(** The fresh [&Function{LocalID: …, Name: …, LinkageName: …}] of a header. *)
Definition new_function (id name linkage : string) : Function :=
  MkFunction id name linkage "" false false [] false [] "" [] [] [].

(** Assignments to one field of [cur]. *)
Definition set_Type (f : Function) (k : option string) (a : bool) : Function :=
  MkFunction (LocalID f) (Name f) (LinkageName f) (default (Kind f) k) a (BodyRemoved f)
    (VisibilityFlags f) (AddressTaken f) (FunctionFlags f) (CloneOfID f) (Refs f) (Called f)
    (IndirectSites f).
Definition set_BodyRemoved (f : Function) : Function :=
  MkFunction (LocalID f) (Name f) (LinkageName f) (Kind f) (Analyzed f) true
    (VisibilityFlags f) (AddressTaken f) (FunctionFlags f) (CloneOfID f) (Refs f) (Called f)
    (IndirectSites f).
Definition set_VisibilityFlags (f : Function) (v : list string) : Function :=
  MkFunction (LocalID f) (Name f) (LinkageName f) (Kind f) (Analyzed f) (BodyRemoved f)
    v (AddressTaken f) (FunctionFlags f) (CloneOfID f) (Refs f) (Called f) (IndirectSites f).
Definition set_AddressTaken (f : Function) : Function :=
  MkFunction (LocalID f) (Name f) (LinkageName f) (Kind f) (Analyzed f) (BodyRemoved f)
    (VisibilityFlags f) true (FunctionFlags f) (CloneOfID f) (Refs f) (Called f) (IndirectSites f).
Definition set_FunctionFlags (f : Function) (v : list string) : Function :=
  MkFunction (LocalID f) (Name f) (LinkageName f) (Kind f) (Analyzed f) (BodyRemoved f)
    (VisibilityFlags f) (AddressTaken f) v (CloneOfID f) (Refs f) (Called f) (IndirectSites f).
Definition set_CloneOfID (f : Function) (v : string) : Function :=
  MkFunction (LocalID f) (Name f) (LinkageName f) (Kind f) (Analyzed f) (BodyRemoved f)
    (VisibilityFlags f) (AddressTaken f) (FunctionFlags f) v (Refs f) (Called f) (IndirectSites f).
Definition set_Refs (f : Function) (v : list Ref) : Function :=
  MkFunction (LocalID f) (Name f) (LinkageName f) (Kind f) (Analyzed f) (BodyRemoved f)
    (VisibilityFlags f) (AddressTaken f) (FunctionFlags f) (CloneOfID f) v (Called f) (IndirectSites f).
Definition set_Called (f : Function) (v : list Call) : Function :=
  MkFunction (LocalID f) (Name f) (LinkageName f) (Kind f) (Analyzed f) (BodyRemoved f)
    (VisibilityFlags f) (AddressTaken f) (FunctionFlags f) (CloneOfID f) (Refs f) v (IndirectSites f).
Definition set_IndirectSites (f : Function) (v : list IndirectSite) : Function :=
  MkFunction (LocalID f) (Name f) (LinkageName f) (Kind f) (Analyzed f) (BodyRemoved f)
    (VisibilityFlags f) (AddressTaken f) (FunctionFlags f) (CloneOfID f) (Refs f) (Called f) v.

(** ** Expressions *)

Definition cgSymbolHeader : re := Eval vm_compute in
  MustCompile "^([A-Za-z_][\w.$]*)/(\d+)\s+\(([^)]*)\)\s*$".
Definition cgTargetTok : re := Eval vm_compute in MustCompile "([A-Za-z_][\w.$]*)/(\d+)".
Definition cgIndirect : re := Eval vm_compute in
  MustCompile "indirect .+ callsite,.*num speculative call targets:\s*(\d+)".
Definition cgCloneOf : re := Eval vm_compute in
  MustCompile "^Clone of ([A-Za-z_][\w.$]*)/(\d+)$".
Definition cgCountTok : re := Eval vm_compute in MustCompile "^count:\d+".

(** ** Operations *)

(** Each match with the text up to the next match or the end. *)
Fixpoint with_tails (s : string) (ms : list rmatch) : list (rmatch * string) :=
  match ms with
  | [] => []
  | m :: rest =>
    let end_ := match rest with m' :: _ => m_start m' | [] => String.length s end in
    (m, stake (end_ - m_end m) (sdrop (m_end m) s)) :: with_tails s rest
  end.

(** The text between the first parenthesis and the first closing one after it. *)
Definition paren_text (tail : string) : string :=
  match Index tail "(" with
  | None => ""
  | Some lp => match Index (sdrop lp tail) ")" with
               | None => ""
               | Some rp => if 0 <? rp then stake (rp - 1) (sdrop (lp + 1) tail) else ""
               end
  end.

Definition parseRefList (s : string) : list Ref :=
  (λ mt, MkRef (group 2 mt.1) (paren_text mt.2)) <$>
    with_tails s (FindAllStringSubmatch cgTargetTok s).

Definition parseCallList (s : string) : list Call :=
  (λ mt, MkCall (group 2 mt.1) (Contains mt.2 "(inlined)")) <$>
    with_tails s (FindAllStringSubmatch cgTargetTok s).

(** [if obs != "" { prev = obs }] *)
Definition newer (prev obs : string) : string := if String.eqb obs "" then prev else obs.

(** [if len(obs) >= len(prev) && len(obs) > 0 { prev = obs }] *)
Definition longer {A} (prev obs : list A) : list A :=
  if (length prev <=? length obs) && (0 <? length obs) then obs else prev.

Definition merge_into (prev obs : Function) : Function :=
  MkFunction (LocalID prev)
    (newer (Name prev) (Name obs))
    (newer (LinkageName prev) (LinkageName obs))
    (newer (Kind prev) (Kind obs))
    (Analyzed prev || Analyzed obs)
    (BodyRemoved prev || BodyRemoved obs)
    (longer (VisibilityFlags prev) (VisibilityFlags obs))
    (AddressTaken prev || AddressTaken obs)
    (longer (FunctionFlags prev) (FunctionFlags obs))
    (newer (CloneOfID prev) (CloneOfID obs))
    (longer (Refs prev) (Refs obs))
    (longer (Called prev) (Called obs))
    (longer (IndirectSites prev) (IndirectSites obs)).

Definition mergeSymbol (dst : gmap string Function) (obs : Function) : gmap string Function :=
  match dst !! LocalID obs with
  | None => <[LocalID obs := obs]> dst
  | Some prev => <[LocalID obs := merge_into prev obs]> dst
  end.

(** The parser's variables: the block in flight, the records, the trivial ids. *)
Record cg_state := CgState {
  cg_cur : option Function;
  cg_syms : gmap string Function;
  cg_trivial : list string;
}.

Definition cg_init : cg_state := CgState None ∅ [].

Definition flush (st : cg_state) : cg_state :=
  match cg_cur st with
  | None => st
  | Some cur => CgState None (mergeSymbol (cg_syms st) cur) (cg_trivial st)
  end.

(** A token of a "Function flags:" line that is kept. *)
Definition flag_token (tok : string) : bool :=
  negb (MatchString cgCountTok tok) && negb (HasPrefix tok "(" || HasSuffix tok ")").

(** The [switch] on an indented line of the block in flight. *)
Definition parse_field (trimmed : string) (cur : Function) : Function :=
  if HasPrefix trimmed "Type:" then
    let t := TrimSpace (TrimPrefix trimmed "Type:") in
    set_Type cur (head (Fields t)) (Contains t "definition analyzed")
  else if HasPrefix trimmed "Body removed" then set_BodyRemoved cur
  else if HasPrefix trimmed "Visibility:" then
    set_VisibilityFlags cur (Fields (TrimSpace (TrimPrefix trimmed "Visibility:")))
  else if String.eqb trimmed "Address is taken." then set_AddressTaken cur
  else if HasPrefix trimmed "Function flags:" then
    set_FunctionFlags cur
      (FunctionFlags cur ++
       filter (λ tok, flag_token tok = true)
         (Fields (TrimSpace (TrimPrefix trimmed "Function flags:"))))
  else match FindStringSubmatch cgCloneOf trimmed with
  | Some m => set_CloneOfID cur (group 2 m)
  | None =>
    if HasPrefix trimmed "References:" then
      set_Refs cur (Refs cur ++ parseRefList (TrimPrefix trimmed "References:"))
    else if HasPrefix trimmed "Referring:" then
      if existsb (λ r, String.eqb (ref_Kind r) "addr")
           (parseRefList (TrimPrefix trimmed "Referring:"))
      then set_AddressTaken cur else cur
    else if HasPrefix trimmed "Calls:" then
      set_Called cur (Called cur ++ parseCallList (TrimPrefix trimmed "Calls:"))
    else if HasPrefix trimmed "Called by:" then cur
    else match FindStringSubmatch cgIndirect trimmed with
    | Some m =>
      set_IndirectSites cur (IndirectSites cur ++ [MkIndirectSite (Atoi_ (group 1 m)) []])
    | None => cur
    end
  end.

(** A line that ends the block in flight and is otherwise skipped. *)
Definition cg_separator (trimmed : string) : bool :=
  HasSuffix trimmed "Symbol table:" || String.eqb trimmed "" ||
  HasPrefix trimmed "Removing " || HasPrefix trimmed "Reclaiming " ||
  HasPrefix trimmed "Clearing ".

Definition parse_line (st : cg_state) (raw : string) : cg_state :=
  let trimmed := TrimSpace raw in
  if HasPrefix trimmed "Trivially needed" then
    let st := flush st in
    CgState (cg_cur st) (cg_syms st)
      (cg_trivial st ++ (group 2 <$> FindAllStringSubmatch cgTargetTok trimmed))
  else if cg_separator trimmed then flush st
  else if negb (HasPrefix raw " ") then
    match FindStringSubmatch cgSymbolHeader raw with
    | Some m =>
      let st := flush st in
      CgState (Some (new_function (group 2 m) (group 1 m) (group 3 m))) (cg_syms st) (cg_trivial st)
    | None => flush st
    end
  else match cg_cur st with
  | None => st
  | Some cur => CgState (Some (parse_field trimmed cur)) (cg_syms st) (cg_trivial st)
  end.

Definition cg_max_line : Z := 4 * 1024 * 1024.

(** The result and [sc.Err()]: whether a line was too long for the scanner. *)
Definition ParseCgraph (text : string) : Cgraph * bool :=
  let '(lines, too_long) := ScanLines cg_max_line text in
  let st := flush (foldl parse_line cg_init lines) in
  (MkCgraph (cg_trivial st) (cg_syms st), too_long).

(** [ParseCgraphFile]: the file as the file system gives it. *)
Definition ParseCgraphFile : (string → option string) → string → result parse_error Cgraph := parse_file ParseCgraph.

(** ** Lists of targets *)

Definition no_slash (s : string) : bool := all_chars (λ a, negb (Ascii.eqb a "/")) s.

Record target := MkTarget { tg_name : string; tg_id : string; tg_tail : string }.

Definition tg_token (t : target) : string := tg_name t +:+ "/" +:+ tg_id t.

Definition tg_ok (t : target) : Prop :=
  is_ident (tg_name t) = true ∧ is_number (tg_id t) = true ∧
  no_slash (tg_tail t) = true ∧ starts_in is_digit (tg_tail t) = false.

(** Every target but the last is followed by text that ends in a space. *)
Fixpoint targets_ok (l : list target) : Prop :=
  match l with
  | [] => True
  | t :: l => tg_ok t ∧ (l ≠ [] → HasSuffix (tg_tail t) " " = true) ∧ targets_ok l
  end.

Definition targets_text (l : list target) : string :=
  foldr (λ t acc, tg_token t +:+ tg_tail t +:+ acc) "" l.

Fixpoint target_matches (off : nat) (l : list target) : list rmatch :=
  match l with
  | [] => []
  | t :: l =>
    let e := off + String.length (tg_token t) in
    RMatch off e (tg_token t) [(2, tg_id t); (1, tg_name t)]
      :: target_matches (e + String.length (tg_tail t)) l
  end.

Lemma picks_target t s :
  is_ident (tg_name t) = true → is_number (tg_id t) = true → starts_in is_digit s = false →
  picks cgTargetTok (tg_token t) s [(2, tg_id t); (1, tg_name t)].
Proof.
  intros Hn Hi Hs. unfold cgTargetTok, tg_token.
  apply (picks_cat _ _ (tg_name t) ("/" +:+ tg_id t) s [(1, tg_name t)] [(2, tg_id t)]).
  { apply picks_group. by apply picks_ident. }
  apply (picks_cat _ _ "/" (tg_id t) s [] [(2, tg_id t)]); [by apply (picks_class _ _ "/")|].
  apply picks_group. by apply picks_number.
Qed.

Definition is_slash (a : ascii) : bool := in_class false [(47%N, 47%N)] a.

Lemma is_slash_eqb a : is_slash a = Ascii.eqb a "/".
Proof. by destruct a as [[] [] [] [] [] [] [] []]. Qed.

Lemma HasSuffix_space_tail b u :
  HasSuffix (String b u) " " = true → b ≠ " "%char → HasSuffix u " " = true.
Proof.
  rewrite !HasSuffix_true. intros [[|c r] H] Hb; rewrite ?sapp_nil_l, ?sapp_cons in H; simplify_eq.
  by exists r.
Qed.

(** A run of identifier bytes inside text without a slash does not stop at one. *)
Lemma span_no_slash u s :
  no_slash u = true → s = "" ∨ HasSuffix u " " = true →
  starts_in is_slash (span ident_char (u +:+ s)).2 = false.
Proof.
  induction u as [|b u IH]; intros Hslash Hend.
  { destruct Hend as [->|]; done. }
  unfold no_slash in *. rewrite all_chars_cons, andb_true_iff in Hslash.
  destruct Hslash as [Hb Hu]. rewrite sapp_cons. cbn [span].
  destruct (ident_char b) eqn:Eb.
  - destruct (span ident_char (u +:+ s)) as [w r]. apply IH; [done|].
    destruct Hend as [?|Hend]; [by left|right]. apply HasSuffix_space_tail in Hend; [done|].
    by intros ->.
  - simpl. rewrite is_slash_eqb. by destruct (Ascii.eqb b "/").
Qed.

(** No target starts inside text without a slash that ends in a space or ends the
    line. *)
Lemma fails_target_gap u s :
  no_slash u = true → s = "" ∨ HasSuffix u " " = true → u ≠ "" → fails cgTargetTok (u +:+ s).
Proof.
  intros Hslash Hend Hne st Hst. unfold cgTargetTok.
  rewrite run_cat, run_group_bind, run_cat_bind.
  destruct u as [|a u]; [done|]. rewrite sapp_cons in Hst.
  rewrite run_class, Hst. destruct (in_class _ _ a) eqn:Ha; [|done].
  cbn [mbind list_bind]. rewrite app_nil_r.
  pose proof (step_char_adv _ _ _ Hst) as Hstep.
  destruct (span ident_char (u +:+ s)) as [w r] eqn:Hspan.
  rewrite (bind_star _ _ _ _ w r).
  - rewrite run_cat, run_class_miss; [done|]. cbn [set_cap adv rs_rest].
    change r with ((w, r).2). rewrite <-Hspan. apply span_no_slash.
    + unfold no_slash in *. rewrite all_chars_cons, andb_true_iff in Hslash. apply Hslash.
    + destruct Hend as [?|Hend]; [by left|right]. apply HasSuffix_space_tail in Hend; [done|].
      by intros ->.
  - intros st' H'. rewrite run_cat, run_class_miss; [done|]. cbn [set_cap rs_rest].
    destruct (rs_rest st') as [|b r']; [done|]. simpl in *. change (is_slash b = false).
    rewrite is_slash_eqb. destruct (Ascii.eqb_spec b "/"); [by subst|done].
  - by rewrite Hstep.
Qed.

Lemma fails_target_nil : fails cgTargetTok "".
Proof. intros st Hst. unfold cgTargetTok. cbn [run]. by rewrite Hst. Qed.

(** [FindAll] on a gap followed by targets finds exactly the targets. *)
Lemma find_all_targets l gap fuel st :
  targets_ok l → no_slash gap = true → (l ≠ [] → gap = "" ∨ HasSuffix gap " " = true) →
  rs_rest st = gap +:+ targets_text l → rs_caps st = [] → length l < fuel →
  find_all fuel cgTargetTok st = target_matches (rs_pos st + String.length gap) l.
Proof.
  revert gap fuel st; induction l as [|t l IH]; intros gap fuel st Hl Hgap Hend Hrest Hcaps Hfuel;
    (destruct fuel as [|fuel]; [simpl in Hfuel; lia|]); cbn [find_all].
  - rewrite find_from_none; [done|]. intros u1 u2 Hu. simpl in Hrest. rewrite sapp_nil_r in Hrest.
    rewrite Hrest in Hu. destruct (decide (u2 = "")) as [->|Hu2]; [apply fails_target_nil|].
    rewrite <-(sapp_nil_r u2). apply fails_target_gap; [|by left|done].
    unfold no_slash in *. rewrite Hu, all_chars_app, andb_true_iff in Hgap. apply Hgap.
  - destruct Hl as ((Hn & Hi & Hs & Hd) & Hsp & Hl). simpl in Hfuel.
    change (targets_text (t :: l)) with (tg_token t +:+ tg_tail t +:+ targets_text l) in Hrest.
    rewrite (find_from_skip _ _ st gap (tg_token t +:+ tg_tail t +:+ targets_text l)); [|..|by rewrite Hrest].
    2: { intros u1 u2 -> Hu2. unfold no_slash in *.
         rewrite all_chars_app, andb_true_iff in Hgap. apply fails_target_gap; [apply Hgap| |done].
         right. destruct (Hend ltac:(done)) as [H|H].
         - by apply sapp_eq_nil in H as [_ ->].
         - by apply HasSuffix_app_tail in H. }
    2: { done. }
    assert (starts_in is_digit (tg_tail t +:+ targets_text l) = false) as Hd'.
    { destruct (tg_tail t) as [|c tl] eqn:Et; [|done]. destruct l as [|t' l]; [done|].
      by specialize (Hsp ltac:(done)). }
    destruct (find_from_picks (String.length (rs_rest st) - String.length gap) cgTargetTok
      (adv st gap (tg_token t +:+ tg_tail t +:+ targets_text l)) (tg_token t)
      (tg_tail t +:+ targets_text l) _ (picks_target _ _ Hn Hi Hd') eq_refl Hcaps)
      as (st' & -> & Hr' & Hp' & Hc').
    cbn [m_start m_end adv rs_pos] in *.
    assert (0 < String.length (tg_token t)).
    { unfold tg_token. destruct (tg_name t); [done|]. rewrite sapp_cons. simpl. lia. }
    replace (_ =? _) with false by (symmetry; apply Nat.eqb_neq; lia).
    cbn [target_matches]. rewrite (IH (tg_tail t) fuel st'); [|done|done| |done|done|lia].
    + by rewrite Hp'.
    + intros Hne. right. auto.
Qed.

(** Each of those matches with the text up to the next. *)
Lemma with_tails_targets l pre s :
  s = pre +:+ targets_text l →
  (λ mt, MkTarget (group 1 mt.1) (group 2 mt.1) mt.2) <$>
    with_tails s (target_matches (String.length pre) l) = l.
Proof.
  revert pre; induction l as [|t l IH]; intros pre ->; [done|].
  cbn [target_matches with_tails]. rewrite fmap_cons.
  change (targets_text (t :: l)) with (tg_token t +:+ tg_tail t +:+ targets_text l).
  set (s := pre +:+ _). set (off := String.length pre + String.length (tg_token t)).
  assert (sdrop off s = tg_tail t +:+ targets_text l) as Hdrop.
  { subst s off. rewrite <-slen_app, <-(sapp_assoc pre). apply sdrop_app. }
  assert (String.length s = off + String.length (tg_tail t) + String.length (targets_text l)) as Hlen.
  { subst s off. rewrite !slen_app. lia. }
  f_equal.
  - destruct t as [n i tl]. cbn [m_end fst snd]. f_equal. rewrite Hdrop. cbn [tg_tail] in *.
    assert (∀ k, k = String.length tl + off → stake (k - off) (tl +:+ targets_text l) = tl) as Htake.
    { intros k ->. replace (_ + off - off) with (String.length tl) by lia. apply stake_app. }
    destruct l as [|t' l]; cbn [target_matches m_start]; apply Htake; [|lia].
    simpl in Hlen. lia.
  - specialize (IH (pre +:+ tg_token t +:+ tg_tail t)).
    rewrite !slen_app, Nat.add_assoc in IH. apply IH. subst s. by rewrite !sapp_assoc.
Qed.

Lemma targets_of_text gap l :
  targets_ok l → no_slash gap = true → (l ≠ [] → gap = "" ∨ HasSuffix gap " " = true) →
  (λ mt, MkTarget (group 1 mt.1) (group 2 mt.1) mt.2) <$>
    with_tails (gap +:+ targets_text l)
      (FindAllStringSubmatch cgTargetTok (gap +:+ targets_text l)) = l.
Proof.
  intros Hl Hgap Hend. unfold FindAllStringSubmatch.
  rewrite (find_all_targets l gap); try done.
  - by apply with_tails_targets.
  - rewrite slen_app. clear. induction l as [|t l IH]; simpl; [lia|].
    rewrite !slen_app. unfold tg_token. rewrite !slen_app. simpl. lia.
Qed.

(** ** The dump format

    A target is written with a leading space; [note] is what GCC writes after
    the token: the kind of a reference, the inline tag and the count of a
    call. *)

Definition note_ok (note : string) : Prop :=
  no_slash note = true ∧ starts_in is_digit note = false ∧ lacks ":" note = true ∧
  TrimRight note = note.

Fixpoint mk_targets (l : list (string * string * string)) : list target :=
  match l with
  | [] => []
  | (name, id, note) :: l =>
    MkTarget name id (note +:+ match l with [] => "" | _ => " " end) :: mk_targets l
  end.

Definition print_targets (l : list (string * string * string)) : string :=
  match l with [] => "" | _ => " " +:+ targets_text (mk_targets l) end.

Definition entry_ok (e : string * string * string) : Prop :=
  is_ident e.1.1 = true ∧ is_number e.1.2 = true ∧ note_ok e.2.

Lemma mk_targets_ok l : Forall entry_ok l → targets_ok (mk_targets l).
Proof.
  induction 1 as [|[[name id] note] l (Hn & Hi & Hs & Hd & _ & _) Hl IH]; [done|].
  cbn [mk_targets targets_ok]. split; [|split; [|done]].
  - split; [done|]. split; [done|]. cbn [tg_tail]. unfold no_slash in *. simpl in Hs, Hd.
    split; [rewrite all_chars_app, Hs; by destruct l|].
    destruct note; [by destruct l|done].
  - intros Hne. destruct l; [done|]. cbn [tg_tail]. apply HasSuffix_true. eauto.
Qed.

Lemma print_targets_parse l :
  Forall entry_ok l →
  (λ mt, MkTarget (group 1 mt.1) (group 2 mt.1) mt.2) <$>
    with_tails (print_targets l) (FindAllStringSubmatch cgTargetTok (print_targets l)) = mk_targets l.
Proof.
  intros Hl. destruct l as [|e l]; [done|].
  apply (targets_of_text " "); [by apply mk_targets_ok|done|by right].
Qed.

(** The end of a line of targets: a last part without a colon or a trailing space. *)
Lemma print_targets_end l :
  Forall entry_ok l → l ≠ [] →
  ∃ s t, print_targets l = s +:+ t ∧ t ≠ "" ∧ TrimRight t = t ∧ lacks ":" t = true.
Proof.
  intros Hl Hne.
  assert (∃ s t, targets_text (mk_targets l) = s +:+ t ∧ t ≠ "" ∧ TrimRight t = t ∧ lacks ":" t = true)
    as (s & t & Ht & ?).
  { induction Hl as [|[[name id] note] l (Hn & Hi & Hs & Hd & Hc & Htr) Hl IH]; [done|].
    cbn [mk_targets]. destruct l as [|e l].
    - simpl in Hi, Hc, Htr. exists (name +:+ "/"), (id +:+ note). cbn [targets_text foldr].
      unfold tg_token. cbn [tg_name tg_id tg_tail]. rewrite !sapp_nil_r, !sapp_assoc.
      split; [done|]. apply is_number_digits in Hi as [Hi1 Hi2].
      assert (no_space id ∧ lacks ":" id = true) as [Hsp Hcol].
      { unfold no_space, lacks. split; (eapply all_chars_impl; [|exact Hi2]); intros a.
        - by destruct a as [[] [] [] [] [] [] [] []].
        - by destruct a as [[] [] [] [] [] [] [] []]. }
      split; [intros H; by apply sapp_eq_nil in H as [??]|].
      split; [|unfold lacks in *; by rewrite all_chars_app, Hcol].
      destruct note as [|b note]; [rewrite sapp_nil_r; by apply TrimRight_word|].
      rewrite TrimRight_app; by rewrite Htr.
    - destruct IH as (s & t & Ht & ?); [done|].
      exists (name +:+ "/" +:+ id +:+ note +:+ " " +:+ s), t. split; [|done].
      cbn [targets_text foldr]. fold (targets_text (mk_targets (e :: l))). rewrite Ht.
      unfold tg_token. cbn [tg_name tg_id tg_tail]. by rewrite !sapp_assoc. }
  exists (" " +:+ s), t. split; [|done]. destruct l; [done|]. unfold print_targets.
  by rewrite Ht, sapp_assoc.
Qed.

(** The fields of a symbol list their targets with a space after each. *)
Definition print_listing (l : list (string * string * string)) : string := print_targets l +:+ " ".

Definition ref_note (r : Ref) : string := " (" +:+ ref_Kind r +:+ ")".
Definition call_note (c : Call) (profile : string) : string :=
  (if call_Inlined c then " (inlined)" else "") +:+ profile.

(** The observation of a symbol that a block writes, and what else the block holds:
    the profile of each call, a line that says the address is taken, the references
    to the symbol, the count of the body, the calls to it and what the parser skips. *)
Record block := MkBlock {
  bk_symbol : Function;
  bk_profiles : list string;
  bk_address : bool;
  bk_aux : option string;
  bk_referring : list Ref;
  bk_copy : option (string * string * string * string);
  bk_availability : option string;
  bk_count : option string;
  bk_callers : list (Call * string);
  bk_varpool : list string;
}.

Definition print_option {A} (o : option A) (line : A → string) : list string :=
  match o with Some x => [line x] | None => [] end.

Definition clone_of (f : Function) : option string :=
  if String.eqb (CloneOfID f) "" then None else Some (CloneOfID f).

(** [count:1073741824 (estimated locally)] *)
Definition count_words (o : option string) : list string :=
  match o with Some n => ["count:" +:+ n; "(estimated"; "locally)"] | None => [] end.

Definition is_variable (f : Function) : bool := String.eqb (Kind f) "variable".

Definition indirect_text (n : Z) : string :=
  "indirect simple callsite, not calling a known parameter, flags 0, num speculative call targets: " +:+ dec n.
Definition availability_text (w : string) : string := "Availability: " +:+ w.
Definition aux_text (w : string) : string := "Aux: @" +:+ w.
Definition copy_text (c : string * string * string * string) : string :=
  let '(n, i, n', i') := c in "Function " +:+ n +:+ "/" +:+ i +:+ " is inline copy in " +:+ n' +:+ "/" +:+ i'.

Section print_block.
Context (nm : string → string).

Definition ref_entry (r : Ref) : string * string * string :=
  (nm (ref_TargetLocalID r), ref_TargetLocalID r, ref_note r).
Definition call_entry (cp : Call * string) : string * string * string :=
  (nm (call_TargetLocalID cp.1), call_TargetLocalID cp.1, call_note cp.1 cp.2).

(** The lines under a header, in GCC's order; [nm] gives the name of the symbol with
    an id.  A variable has flags of its own where a function has its body and calls. *)
Definition block_body (b : block) : list string :=
  let f := bk_symbol b in
  ["Type: " +:+ Kind f +:+ if Analyzed f then " definition analyzed" else ""] ++
  (if BodyRemoved f then ["Body removed by symtab_remove_unreachable_nodes"] else []) ++
  ["Visibility:" +:+ print_words (VisibilityFlags f)] ++
  (if bk_address b then ["Address is taken."] else []) ++
  print_option (bk_aux b) aux_text ++
  ["References:" +:+ print_listing (ref_entry <$> Refs f)] ++
  ["Referring:" +:+ print_listing (ref_entry <$> bk_referring b)] ++
  print_option (bk_copy b) copy_text ++
  print_option (clone_of f) (λ id, "Clone of " +:+ nm id +:+ "/" +:+ id) ++
  print_option (bk_availability b) availability_text ++
  if is_variable f then ["Varpool flags:" +:+ print_words (bk_varpool b)]
  else
    ["Function flags:" +:+ print_words (count_words (bk_count b) ++ FunctionFlags f)] ++
    ["Called by:" +:+ print_listing (call_entry <$> bk_callers b)] ++
    ["Calls:" +:+ print_listing (call_entry <$> zip (Called f) (bk_profiles b))] ++
    ((λ s, "     " +:+ indirect_text (SpeculativeCount s)) <$> IndirectSites f).

Definition print_block (b : block) : list string :=
  let f := bk_symbol b in
  (Name f +:+ "/" +:+ LocalID f +:+ " (" +:+ LinkageName f +:+ ")") :: ((λ l, "  " +:+ l) <$> block_body b).
End print_block.

(** Flags GCC can write: words that do not look like a count or a parenthesis. *)
#[export] Instance note_ok_dec note : Decision (note_ok note).
Proof. unfold note_ok. apply _. Defined.
#[export] Instance word_ok_dec w : Decision (word_ok w).
Proof. unfold word_ok, no_space. apply _. Defined.

Definition flag_ok (w : string) : Prop := word_ok w ∧ flag_token w = true.

(** A profile does not read as the tag of an inlined call. *)
Definition profile_ok (p : string) : Prop := note_ok p ∧ Contains (p +:+ " ") "(inlined)" = false.

(** A line the parser skips: it does not tell of an indirect call. *)
Definition skipped_ok (line : string) : Prop := Contains line "indirect " = false.

Definition opt_ok {A} (P : A → Prop) (o : option A) : Prop := match o with Some x => P x | None => True end.

Definition ref_ok (nm : string → string) (r : Ref) : Prop :=
  is_ident (nm (ref_TargetLocalID r)) = true ∧ is_number (ref_TargetLocalID r) = true ∧
  lacks ")" (ref_Kind r) = true ∧ lacks ":" (ref_Kind r) = true ∧ no_slash (ref_Kind r) = true.
Definition call_ok (nm : string → string) (cp : Call * string) : Prop :=
  is_ident (nm (call_TargetLocalID cp.1)) = true ∧ is_number (call_TargetLocalID cp.1) = true ∧ profile_ok cp.2.

Record block_ok (nm : string → string) (b : block) : Prop := {
  ok_LocalID : is_number (LocalID (bk_symbol b)) = true;
  ok_Name : is_ident (Name (bk_symbol b)) = true;
  ok_LinkageName : lacks ")" (LinkageName (bk_symbol b)) = true ∧ lacks ":" (LinkageName (bk_symbol b)) = true;
  ok_Kind : word_ok (Kind (bk_symbol b));
  ok_Visibility : Forall word_ok (VisibilityFlags (bk_symbol b));
  ok_Flags : Forall flag_ok (FunctionFlags (bk_symbol b));
  ok_Clone : opt_ok (λ id, is_number id = true ∧ is_ident (nm id) = true) (clone_of (bk_symbol b));
  ok_Refs : Forall (ref_ok nm) (Refs (bk_symbol b) ++ bk_referring b);
  ok_profiles : length (bk_profiles b) = length (Called (bk_symbol b));
  ok_Calls : Forall (call_ok nm) (zip (Called (bk_symbol b)) (bk_profiles b) ++ bk_callers b);
  ok_Indirect : Forall (λ s, (0 ≤ SpeculativeCount s < 100)%Z ∧ SpeculativeTargets s = [])
                  (IndirectSites (bk_symbol b));
  ok_AddressTaken : AddressTaken (bk_symbol b) =
    bk_address b || existsb (λ r, String.eqb (ref_Kind r) "addr") (bk_referring b);
  ok_variable : is_variable (bk_symbol b) = true →
    FunctionFlags (bk_symbol b) = [] ∧ Called (bk_symbol b) = [] ∧ IndirectSites (bk_symbol b) = [];
  ok_aux : opt_ok (λ w, word_ok w ∧ skipped_ok (aux_text w)) (bk_aux b);
  ok_copy : opt_ok (λ c, is_ident c.1.1.1 = true ∧ is_number c.2 = true ∧ skipped_ok (copy_text c)) (bk_copy b);
  ok_availability : opt_ok (λ w, word_ok w ∧ skipped_ok (availability_text w)) (bk_availability b);
  ok_count : opt_ok (λ n, is_number n = true) (bk_count b);
  ok_varpool : Forall word_ok (bk_varpool b) ∧ skipped_ok ("Varpool flags:" +:+ print_words (bk_varpool b));
}.

(** The parts of a dump: lists of needed symbols, blocks — one after the other, with
    nothing between them — and everything else: the titles of tables, empty lines,
    notices and the bodies GCC prints, each a line at the margin with the indented
    lines under it. *)
Inductive part :=
| Needed (what : string) (ids : list string)
| Block (b : block)
| Aside (line : string) (inner : list string).

Definition print_part (nm : string → string) (p : part) : list string :=
  match p with
  | Needed what ids => ["Trivially needed " +:+ what +:+ ":" +:+ print_targets ((λ id, (nm id, id, "")) <$> ids)]
  | Block b => print_block nm b
  | Aside line inner => line :: inner
  end.

Definition print_cgraph (nm : string → string) (parts : list part) : list string := parts ≫= print_part nm.

Definition needed_of (p : part) : list string := match p with Needed _ ids => ids | _ => [] end.
Definition symbols_of (p : part) : list Function := match p with Block b => [bk_symbol b] | _ => [] end.

(** At the margin, no list of needed symbols and no name with a slash behind it. *)
Definition aside_ok (line : string) : Prop :=
  HasPrefix line " " = false ∧ HasPrefix (TrimSpace line) "Trivially needed" = false ∧
  starts_in (λ a, Ascii.eqb a "/") (span ident_char line).2 = false.
Definition inner_ok (line : string) : Prop :=
  HasPrefix line " " = true ∧ HasPrefix (TrimSpace line) "Trivially needed" = false.

Definition part_ok (nm : string → string) (p : part) : Prop :=
  match p with
  | Needed what ids => (what = "symbols" ∨ what = "variables") ∧
                       Forall (λ id, is_ident (nm id) = true ∧ is_number id = true) ids
  | Block b => block_ok nm b
  | Aside line inner => aside_ok line ∧ Forall inner_ok inner
  end.

(** ** Each line of a block *)

(** The indented line [body] sets the fields of the block in flight by [g]. *)
Definition field_line (body : string) (g : Function → Function) : Prop :=
  ∀ cur m tr, parse_line (CgState (Some cur) m tr) ("  " +:+ body) = CgState (Some (g cur)) m tr.

Lemma field_line_trim body t g :
  TrimSpace body = t → HasPrefix t "Trivially needed" = false →
  cg_separator t = false → (∀ cur, parse_field t cur = g cur) → field_line body g.
Proof.
  intros Ht Hp Hs Hg cur m tr. unfold parse_line.
  assert (TrimSpace ("  " +:+ body) = t) as -> by exact Ht.
  rewrite Hp, Hs. cbn [cg_cur cg_syms cg_trivial].
  assert (negb (HasPrefix ("  " +:+ body) " ") = false) as -> by done. by rewrite Hg.
Qed.

Lemma field_line_intro body g :
  TrimSpace body = body → HasPrefix body "Trivially needed" = false →
  cg_separator body = false → (∀ cur, parse_field body cur = g cur) → field_line body g.
Proof. apply field_line_trim. Qed.

(** [body] is a fixed heading followed by text; the end of the line lacks a colon
    and trailing spaces. *)
Definition line_end (s : string) : Prop :=
  ∃ u t, s = u +:+ t ∧ t ≠ "" ∧ TrimRight t = t ∧ lacks ":" t = true.

Lemma line_end_app h s : line_end s → line_end (h +:+ s).
Proof. intros (u & t & -> & H). exists (h +:+ u), t. by rewrite sapp_assoc. Qed.

Lemma line_end_word w : word_ok w → line_end w.
Proof. intros (H & Hs & Hl). exists "", w. split; [done|]. split; [done|]. by rewrite TrimRight_word. Qed.

Lemma line_end_TrimSpace h s : TrimLeft h = h → h ≠ "" → line_end s → TrimSpace (h +:+ s) = h +:+ s.
Proof.
  intros Hh Hne (u & t & -> & Ht & Htr & _). rewrite <-sapp_assoc.
  apply TrimSpace_ends; [..|done|done].
  - intros H. by apply sapp_eq_nil in H as [??].
  - destruct h as [|a h]; [done|]. rewrite sapp_cons. simpl in *.
    destruct (is_space a); [|done]. exfalso.
    assert (∀ s, String.length (TrimLeft s) ≤ String.length s) as Hl.
    { clear. induction s as [|b s IH]; simpl; [done|]. destruct (is_space b); simpl; lia. }
    specialize (Hl h). apply (f_equal String.length) in Hh. simpl in Hh. lia.
Qed.

Lemma line_end_no_table s : line_end s → HasSuffix s "Symbol table:" = false.
Proof. intros (u & t & -> & Ht & _ & Hl). by apply (HasSuffix_lacks u t "Symbol table" ":"). Qed.

Lemma print_words_line_end ws :
  ws ≠ [] → Forall word_ok ws → line_end (print_words ws).
Proof.
  destruct ws as [|w ws]; [done|]. intros _ Hws.
  destruct (print_words_last w ws) as (s & w' & Hin & ->). apply line_end_app, line_end_word.
  rewrite Forall_forall in Hws. auto.
Qed.

Lemma print_targets_line_end l : l ≠ [] → Forall entry_ok l → line_end (print_targets l).
Proof. intros Hne Hl. apply print_targets_end in Hl; [|done]. exact Hl. Qed.

(** A line with a concrete heading is no separator: its end is not. *)
Ltac no_separator :=
  unfold cg_separator; rewrite line_end_no_table; [reflexivity|apply line_end_app].

(** Go past the cases of [parse_field] with other headings than that of [b]. *)
Ltac past_headings b :=
  repeat match goal with
  | |- context [if HasPrefix b ?p then _ else _] => assert (HasPrefix b p = false) as -> by done
  | |- context [String.eqb b ?p] => assert (String.eqb b p = false) as -> by done
  | |- context [FindStringSubmatch cgCloneOf b] =>
    assert (FindStringSubmatch cgCloneOf b = None) as -> by (unfold cgCloneOf; by apply FindStringSubmatch_begin_miss)
  end.

Lemma lacks_word (k u l r : string) : no_space k → k = l +:+ u +:+ r → no_space u.
Proof.
  unfold no_space. intros Hk ->. rewrite !all_chars_app, !andb_true_iff in Hk. apply Hk.
Qed.

Lemma type_line (k : string) (a : bool) :
  word_ok k →
  field_line ("Type: " +:+ k +:+ if a then " definition analyzed" else "")
    (λ cur, set_Type cur (Some k) a).
Proof.
  intros Hk. destruct (Hk) as (Hne & Hs & Hl).
  set (s := k +:+ if a then " definition analyzed" else "").
  assert (line_end s) as He.
  { subst s. destruct a.
    - exists (k +:+ " definition "), "analyzed". by rewrite sapp_assoc.
    - rewrite sapp_nil_r. by apply line_end_word. }
  assert (TrimSpace (" " +:+ s) = s) as Htrim.
  { change (TrimSpace (" " +:+ s)) with (TrimSpace s). subst s. destruct a.
    - apply TrimSpace_ends; [done|by apply TrimLeft_word|done..].
    - rewrite sapp_nil_r. by apply TrimSpace_word. }
  apply field_line_intro; [by apply (line_end_TrimSpace "Type: ")|done|
    by no_separator|].
  intros cur. unfold parse_field.
  assert (HasPrefix ("Type: " +:+ s) "Type:" = true) as -> by done.
  assert (TrimPrefix ("Type: " +:+ s) "Type:" = " " +:+ s) as -> by done. rewrite Htrim.
  f_equal; subst s.
  - destruct a.
    + assert (Fields (k +:+ " definition analyzed") = [k; "definition"; "analyzed"]) as -> by
        (apply (Fields_Join [k; "definition"; "analyzed"]); repeat constructor; done).
      done.
    + rewrite sapp_nil_r.
      assert (Fields k = [k]) as -> by (apply (Fields_Join [k]); by repeat constructor). done.
  - destruct a.
    + apply Contains_true. exists (k +:+ " "), "". by rewrite sapp_nil_r, sapp_assoc.
    + rewrite sapp_nil_r. destruct (Contains k _) eqn:E; [|done].
      apply Contains_true in E as (l & r & E). by apply lacks_word in E.
Qed.

(** A heading followed by flags. *)
Lemma TrimSpace_words h ws :
  TrimLeft h = h → TrimRight h = h → h ≠ "" → Forall word_ok ws →
  TrimSpace (h +:+ print_words ws) = h +:+ print_words ws.
Proof.
  intros Hl Hr Hne Hws. destruct ws as [|w ws].
  - simpl. rewrite sapp_nil_r. unfold TrimSpace. by rewrite Hl, Hr.
  - apply line_end_TrimSpace; [done..|]. by apply print_words_line_end.
Qed.

Lemma word_ok_weaken ws : Forall word_ok ws → Forall (λ w, w ≠ "" ∧ no_space w) ws.
Proof. intros H. eapply Forall_impl; [exact H|]. intros w (? & ? & ?). done. Qed.

Lemma visibility_line ws :
  Forall word_ok ws →
  field_line ("Visibility:" +:+ print_words ws) (λ cur, set_VisibilityFlags cur ws).
Proof.
  intros Hws. apply field_line_intro.
  - by apply TrimSpace_words.
  - done.
  - destruct ws as [|w ws]; [done|]. no_separator.
    by apply print_words_line_end.
  - intros cur. unfold parse_field.
    assert (HasPrefix ("Visibility:" +:+ print_words ws) "Type:" = false) as -> by done.
    assert (HasPrefix ("Visibility:" +:+ print_words ws) "Body removed" = false) as -> by done.
    assert (HasPrefix ("Visibility:" +:+ print_words ws) "Visibility:" = true) as -> by done.
    assert (TrimPrefix ("Visibility:" +:+ print_words ws) "Visibility:" = print_words ws) as -> by done.
    by rewrite Fields_print_words by by apply word_ok_weaken.
Qed.

Lemma number_word n : is_number n = true → word_ok n.
Proof.
  intros Hn. apply is_number_digits in Hn as [Hne Hd]. split; [done|].
  split; (eapply all_chars_impl; [|exact Hd]); intros a; by destruct a as [[] [] [] [] [] [] [] []].
Qed.

Lemma count_token n : is_number n = true → flag_token ("count:" +:+ n) = false.
Proof.
  intros Hn. unfold flag_token. assert (MatchString cgCountTok ("count:" +:+ n) = true) as ->; [|done].
  unfold MatchString, cgCountTok.
  erewrite FindStringSubmatch_begin_picks; [done|]. apply (picks_literal "count:"). by apply picks_number.
Qed.

Lemma print_words_app ws vs : print_words (ws ++ vs) = print_words ws +:+ print_words vs.
Proof. induction ws as [|w ws IH]; [done|]. cbn. fold (print_words (ws ++ vs)) (print_words ws). by rewrite IH, !sapp_assoc. Qed.

Lemma count_words_spec o :
  opt_ok (λ n, is_number n = true) o →
  Forall (λ w, w ≠ "" ∧ no_space w) (count_words o) ∧ filter (λ w, flag_token w = true) (count_words o) = [] ∧
  (count_words o ≠ [] → line_end (print_words (count_words o))).
Proof.
  destruct o as [n|]; cbn [opt_ok count_words]; [|done]. intros Hn.
  destruct (number_word n Hn) as (Hne & Hs & _). repeat split.
  - constructor; [|repeat constructor; by_decide]. split; [done|]. unfold no_space in *. by rewrite all_chars_app.
  - rewrite filter_cons_False by by rewrite count_token. done.
  - intros _. change (line_end (" count:" +:+ n +:+ " (estimated locally)" +:+ "")).
    exists (" count:" +:+ n +:+ " (estimated "), "locally)". by rewrite !sapp_assoc.
Qed.

Lemma flags_line o ws :
  opt_ok (λ n, is_number n = true) o → Forall flag_ok ws →
  field_line ("Function flags:" +:+ print_words (count_words o ++ ws))
    (λ cur, set_FunctionFlags cur (FunctionFlags cur ++ ws)).
Proof.
  intros Ho Hws. destruct (count_words_spec o Ho) as (Hc & Hf & He).
  assert (Forall word_ok ws) as Hw by (eapply Forall_impl; [exact Hws|]; by intros ? [? _]).
  assert (count_words o ++ ws ≠ [] → line_end (print_words (count_words o ++ ws))) as Hend.
  { rewrite print_words_app. intros Hne. destruct ws as [|w ws].
    - rewrite app_nil_r in Hne. cbn [print_words foldr]. rewrite sapp_nil_r. auto.
    - by apply line_end_app, print_words_line_end. }
  apply field_line_intro.
  - destruct (decide (count_words o ++ ws = [])) as [->|Hne]; [done|]. apply line_end_TrimSpace; auto.
  - done.
  - destruct (decide (count_words o ++ ws = [])) as [->|Hne]; [done|]. no_separator. auto.
  - intros cur. unfold parse_field. set (b := "Function flags:" +:+ print_words _).
    past_headings b.
    assert (HasPrefix b "Function flags:" = true) as -> by done.
    assert (TrimPrefix b "Function flags:" = print_words (count_words o ++ ws)) as -> by done.
    rewrite Fields_print_words by (apply Forall_app; split; [done|by apply word_ok_weaken]).
    rewrite filter_app, Hf, app_nil_l. f_equal. f_equal. clear -Hws.
    induction Hws as [|w ws [_ Hw] _ IH]; [done|]. by rewrite filter_cons_True, IH.
Qed.

Lemma body_removed_line :
  field_line "Body removed by symtab_remove_unreachable_nodes" set_BodyRemoved.
Proof. by apply field_line_intro. Qed.

Lemma address_taken_line : field_line "Address is taken." set_AddressTaken.
Proof. by apply field_line_intro. Qed.

Lemma number_line_end id : is_number id = true → line_end id.
Proof. intros Hid. by apply line_end_word, number_word. Qed.

Lemma clone_line name id :
  is_ident name = true → is_number id = true →
  field_line ("Clone of " +:+ name +:+ "/" +:+ id) (λ cur, set_CloneOfID cur id).
Proof.
  intros Hn Hi.
  assert (line_end (name +:+ "/" +:+ id)) as He by (do 2 apply line_end_app; by apply number_line_end).
  apply field_line_intro; [by apply (line_end_TrimSpace "Clone of ")|done|by no_separator|].
  intros cur. unfold parse_field. set (b := "Clone of " +:+ _).
  past_headings b.
  assert (FindStringSubmatch cgCloneOf b = Some (RMatch 0 (String.length b) b [(2, id); (1, name)])) as ->;
    [|done].
  unfold cgCloneOf. apply FindStringSubmatch_begin_picks. subst b.
  change ("Clone of " +:+ name +:+ "/" +:+ id) with
    ("C" +:+ "l" +:+ "o" +:+ "n" +:+ "e" +:+ " " +:+ "o" +:+ "f" +:+ " " +:+ name +:+ "/" +:+ id).
  do 9 (apply (picks_cat _ _ _ _ _ [] [(2, id); (1, name)]);
        [apply (picks_class _ _ _ _); reflexivity|]).
  apply (picks_cat _ _ name _ _ [(1, name)] [(2, id)]); [by apply picks_group, picks_ident|].
  apply (picks_cat _ _ "/" _ _ [] [(2, id)]); [by apply (picks_class _ _ "/")|].
  apply picks_cat_end. by apply picks_group, picks_number.
Qed.

(** *** Lines of targets *)

Lemma targets_line_trim h l :
  TrimLeft h = h → TrimRight h = h → h ≠ "" → Forall entry_ok l →
  TrimSpace (h +:+ print_targets l) = h +:+ print_targets l.
Proof.
  intros Hl Hr Hne Hok. destruct (decide (l = [])) as [->|Hl'].
  - simpl. rewrite sapp_nil_r. unfold TrimSpace. by rewrite Hl, Hr.
  - apply line_end_TrimSpace; [done..|]. by apply print_targets_line_end.
Qed.

Lemma parse_targets {B} (g : string → string → B) l :
  Forall entry_ok l →
  (λ mt, g (group 2 mt.1) mt.2) <$>
    with_tails (print_targets l) (FindAllStringSubmatch cgTargetTok (print_targets l)) =
  (λ t, g (tg_id t) (tg_tail t)) <$> mk_targets l.
Proof. intros Hl. rewrite <-(print_targets_parse l Hl), <-list_fmap_compose. done. Qed.

Lemma IndexByte_Index s c : Index s (str1 c) = IndexByte s c.
Proof.
  induction s as [|a s IH]; [done|]. cbn [Index IndexByte]. rewrite IH.
  unfold HasPrefix, str1. cbn [strip_prefix].
  destruct (Ascii.eqb_spec c a) as [->|Hne]; [by rewrite Ascii.eqb_refl|].
  by destruct (Ascii.eqb_spec a c); [subst|].
Qed.

Lemma IndexByte_lacks w c s : lacks c w = true → IndexByte (w +:+ String c s) c = Some (String.length w).
Proof.
  induction w as [|a w IH]; intros Hw.
  - rewrite sapp_nil_l. simpl. by rewrite Ascii.eqb_refl.
  - unfold lacks in *. rewrite all_chars_cons, andb_true_iff in Hw. destruct Hw as [Ha Hw].
    rewrite sapp_cons. simpl. rewrite IH by done. by destruct (Ascii.eqb a c).
Qed.

(** The text of a parenthesis at the start of a tail. *)
Lemma paren_text_spec k rest : lacks ")" k = true → paren_text (" (" +:+ k +:+ ")" +:+ rest) = k.
Proof.
  intros Hk. unfold paren_text.
  assert (Index (" (" +:+ k +:+ ")" +:+ rest) "(" = Some 1) as -> by done.
  assert (sdrop 1 (" (" +:+ k +:+ ")" +:+ rest) = "(" +:+ k +:+ ")" +:+ rest) as -> by done.
  rewrite (IndexByte_Index _ ")").
  assert (IndexByte ("(" +:+ k +:+ ")" +:+ rest) ")" = Some (S (String.length k))) as ->.
  { rewrite <-sapp_assoc. apply (IndexByte_lacks ("(" +:+ k)). exact Hk. }
  cbn [Nat.ltb Nat.leb]. rewrite Nat.sub_succ, Nat.sub_0_r.
  change (sdrop (1 + 1) (" (" +:+ k +:+ ")" +:+ rest)) with (k +:+ (")" +:+ rest)).
  apply stake_app.
Qed.

Lemma TrimRight_space s : TrimRight (s +:+ " ") = TrimRight s.
Proof. induction s as [|a s IH]; [done|]. rewrite sapp_cons. cbn [TrimRight]. by rewrite IH. Qed.

Lemma listing_line_trim h l :
  TrimLeft h = h → TrimRight h = h → h ≠ "" → Forall entry_ok l →
  TrimSpace (h +:+ print_listing l) = h +:+ print_targets l.
Proof.
  intros Hl Hr Hne Hok. transitivity (TrimSpace (h +:+ print_targets l)); [|by apply targets_line_trim].
  unfold print_listing, TrimSpace. rewrite <-sapp_assoc. set (b := h +:+ print_targets l).
  assert (∃ a w, b = String a w ∧ is_space a = false) as (a & w & -> & Ha).
  { subst b. destruct h as [|a h]; [done|]. exists a, (h +:+ print_targets l). split; [done|].
    simpl in Hl. destruct (is_space a) eqn:E; [|done]. exfalso.
    assert (∀ s, String.length (TrimLeft s) ≤ String.length s) as Hlen.
    { clear. induction s as [|c s IH]; simpl; [done|]. destruct (is_space c); simpl; lia. }
    specialize (Hlen h). apply (f_equal String.length) in Hl. simpl in Hl. lia. }
  rewrite sapp_cons. cbn [TrimLeft]. rewrite Ha. apply (TrimRight_space (String a w)).
Qed.

Section targets_lines.
Context (nm : string → string).

Lemma ref_entries_ok l : Forall (ref_ok nm) l → Forall entry_ok (ref_entry nm <$> l).
Proof.
  intros Hl. apply Forall_fmap. eapply Forall_impl; [exact Hl|].
  intros r (Hn & Hi & Hp & Hc & Hs). split; [done|split; [done|]]. cbn [ref_entry snd].
  unfold note_ok, no_slash, ref_note in *. rewrite all_chars_app, all_chars_app, Hs.
  split; [done|]. split; [done|]. rewrite !lacks_app, Hc. split; [done|].
  rewrite <-sapp_assoc. by apply TrimRight_nonempty.
Qed.

Lemma call_entries_ok l : Forall (call_ok nm) l → Forall entry_ok (call_entry nm <$> l).
Proof.
  intros Hl. apply Forall_fmap. eapply Forall_impl; [exact Hl|].
  intros [c p] (Hn & Hi & (Hs & Hd & Hc & Ht) & _). cbn [fst snd] in *. split; [done|split; [done|]].
  cbn [call_entry snd fst]. unfold call_note. destruct (call_Inlined c); [|by rewrite sapp_nil_l].
  unfold note_ok, no_slash in *. rewrite all_chars_app, Hs, lacks_app, Hc. repeat split.
  destruct p as [|a p]; [done|]. rewrite TrimRight_app; by rewrite Ht.
Qed.

Lemma parseRefList_print l :
  Forall (ref_ok nm) l → parseRefList (print_targets (ref_entry nm <$> l)) = l.
Proof.
  intros Hl. unfold parseRefList.
  rewrite (parse_targets (λ i t, MkRef i (paren_text t))) by by apply ref_entries_ok.
  induction Hl as [|[i k] l (_ & _ & Hp & _) _ IH]; [done|].
  cbn [fmap list_fmap ref_entry mk_targets] in *. rewrite IH. cbn [tg_id tg_tail ref_Kind ref_TargetLocalID].
  f_equal. f_equal. unfold ref_note. cbn [ref_Kind]. rewrite !sapp_assoc. by apply paren_text_spec.
Qed.

(** The tag is found in the note of an inlined call, and in no profile. *)
Lemma inlined_tag c p rest :
  profile_ok p → rest = "" ∨ rest = " " → Contains (call_note c p +:+ rest) "(inlined)" = call_Inlined c.
Proof.
  intros [_ Hp] Hrest. unfold call_note. destruct (call_Inlined c).
  - apply Contains_true. exists " ", (p +:+ rest). by rewrite !sapp_assoc.
  - rewrite sapp_nil_l. destruct (Contains (p +:+ rest) _) eqn:E; [|done].
    apply Contains_true in E as (l & r & E). rewrite <-Hp. symmetry. apply Contains_true.
    destruct Hrest as [->| ->]; [|by eauto]. rewrite sapp_nil_r in E. exists l, (r +:+ " "). by rewrite E, !sapp_assoc.
Qed.

Lemma parseCallList_print l :
  Forall (call_ok nm) l → parseCallList (print_targets (call_entry nm <$> l)) = l.*1.
Proof.
  intros Hl. unfold parseCallList.
  rewrite (parse_targets (λ i t, MkCall i (Contains t "(inlined)"))) by by apply call_entries_ok.
  induction Hl as [|[[i inl] p] l (_ & _ & Hp) _ IH]; [done|].
  cbn [fmap list_fmap call_entry mk_targets] in *. rewrite IH. cbn [tg_id tg_tail fst snd call_TargetLocalID].
  f_equal. f_equal. apply (inlined_tag (MkCall i inl)); [done|]. destruct l; [by left|by right].
Qed.

(** A heading, none of those that are tried before it, followed by a listing. *)
Ltac listing_line :=
  match goal with Hok : Forall entry_ok ?l |- _ =>
    eapply field_line_trim;
    [by apply listing_line_trim|done|
     destruct l as [|e k] eqn:E; [done|rewrite <-E in *; no_separator; apply print_targets_line_end; [by rewrite E|done]]|]
  end.

Lemma refs_line l :
  Forall (ref_ok nm) l →
  field_line ("References:" +:+ print_listing (ref_entry nm <$> l)) (λ cur, set_Refs cur (Refs cur ++ l)).
Proof.
  intros Hl. pose proof (ref_entries_ok l Hl) as Hok. set (es := ref_entry nm <$> l) in *. listing_line.
  intros cur. unfold parse_field. set (b := "References:" +:+ print_targets es).
  past_headings b.
  assert (HasPrefix b "References:" = true) as -> by done.
  assert (TrimPrefix b "References:" = print_targets es) as -> by done.
  subst es. by rewrite parseRefList_print.
Qed.

Lemma referring_line l :
  Forall (ref_ok nm) l →
  field_line ("Referring:" +:+ print_listing (ref_entry nm <$> l))
    (λ cur, if existsb (λ r, String.eqb (ref_Kind r) "addr") l then set_AddressTaken cur else cur).
Proof.
  intros Hl. pose proof (ref_entries_ok l Hl) as Hok. set (es := ref_entry nm <$> l) in *. listing_line.
  intros cur. unfold parse_field. set (b := "Referring:" +:+ print_targets es).
  past_headings b.
  assert (HasPrefix b "Referring:" = true) as -> by done.
  assert (TrimPrefix b "Referring:" = print_targets es) as -> by done.
  subst es. by rewrite parseRefList_print.
Qed.

Lemma calls_line l :
  Forall (call_ok nm) l →
  field_line ("Calls:" +:+ print_listing (call_entry nm <$> l)) (λ cur, set_Called cur (Called cur ++ l.*1)).
Proof.
  intros Hl. pose proof (call_entries_ok l Hl) as Hok. set (es := call_entry nm <$> l) in *. listing_line.
  intros cur. unfold parse_field. set (b := "Calls:" +:+ print_targets es).
  past_headings b.
  assert (HasPrefix b "Calls:" = true) as -> by done.
  assert (TrimPrefix b "Calls:" = print_targets es) as -> by done.
  subst es. by rewrite parseCallList_print.
Qed.

Lemma callers_line l :
  Forall (call_ok nm) l → field_line ("Called by:" +:+ print_listing (call_entry nm <$> l)) id.
Proof.
  intros Hl. pose proof (call_entries_ok l Hl) as Hok. set (es := call_entry nm <$> l) in *. listing_line.
  intros cur. unfold parse_field. set (b := "Called by:" +:+ print_targets es).
  past_headings b.
  by assert (HasPrefix b "Called by:" = true) as -> by done.
Qed.
End targets_lines.

(** *** Header and indirect-call lines, and whole blocks *)

Lemma ident_not_prefix name r p1 p2 :
  is_ident name = true → all_chars ident_char p1 = true →
  HasPrefix (name +:+ "/" +:+ r) (p1 +:+ " " +:+ p2) = false.
Proof.
  intros Hn Hp. destruct (HasPrefix _ _) eqn:E; [|done]. exfalso.
  apply HasPrefix_true in E as [q E]. apply (f_equal (span ident_char)) in E.
  rewrite !sapp_assoc in E. rewrite (span_app _ p1) in E by done.
  rewrite (span_app _ name) in E; [done| |done].
  destruct name as [|a w]; [done|]. simpl in Hn. rewrite andb_true_iff in Hn. destruct Hn as [Ha Hw].
  rewrite all_chars_cons, Hw, andb_true_r.
  revert Ha. clear. by destruct a as [[] [] [] [] [] [] [] []].
Qed.

Lemma picks_header name id linkage :
  is_ident name = true → is_number id = true → lacks ")" linkage = true →
  FindStringSubmatch cgSymbolHeader (name +:+ "/" +:+ id +:+ " (" +:+ linkage +:+ ")") =
    Some (RMatch 0 (String.length (name +:+ "/" +:+ id +:+ " (" +:+ linkage +:+ ")"))
            (name +:+ "/" +:+ id +:+ " (" +:+ linkage +:+ ")")
            [(3, linkage); (2, id); (1, name)]).
Proof.
  intros Hn Hi Hl. unfold cgSymbolHeader. apply FindStringSubmatch_begin_picks.
  change (" (" +:+ linkage +:+ ")") with (" " +:+ "(" +:+ linkage +:+ ")").
  apply (picks_cat _ _ name _ _ [(1, name)] [(3, linkage); (2, id)]); [by apply picks_group, picks_ident|].
  apply (picks_cat _ _ "/" _ _ [] [(3, linkage); (2, id)]); [by apply (picks_class _ _ "/")|].
  apply (picks_cat _ _ id _ _ [(2, id)] [(3, linkage)]); [by apply picks_group, picks_number|].
  apply (picks_cat _ _ " " _ _ [] [(3, linkage)]); [by apply picks_plus|].
  apply (picks_cat _ _ "(" _ _ [] [(3, linkage)]); [by apply (picks_class _ _ "(")|].
  apply (picks_cat _ _ linkage _ _ [(3, linkage)] []).
  - apply picks_group, picks_star; [|done]. revert Hl. apply all_chars_impl.
    intros a. by destruct a as [[] [] [] [] [] [] [] []].
  - apply (picks_cat _ _ ")" "" "" [] []); [by apply (picks_class _ _ ")")|].
    apply picks_cat_end. by apply picks_star.
Qed.

Lemma header_line name id linkage st :
  is_ident name = true → is_number id = true → lacks ")" linkage = true →
  parse_line st (name +:+ "/" +:+ id +:+ " (" +:+ linkage +:+ ")") =
    CgState (Some (new_function id name linkage)) (cg_syms (flush st)) (cg_trivial (flush st)).
Proof.
  intros Hn Hi Hl. unfold parse_line.
  set (raw := name +:+ "/" +:+ id +:+ " (" +:+ linkage +:+ ")").
  assert (∃ a w, name = String a w ∧ is_space a = false ∧ Ascii.eqb " " a = false)
    as (a & w & Ename & Hsp & Hsp').
  { destruct name as [|a w]; [done|]. exists a, w. split; [done|].
    simpl in Hn. apply andb_true_iff in Hn as [Ha _].
    revert Ha. clear. by destruct a as [[] [] [] [] [] [] [] []]. }
  assert (TrimSpace raw = raw) as ->.
  { subst raw. rewrite <-!sapp_assoc. apply TrimSpace_ends; [by rewrite Ename| |done..].
    rewrite !sapp_assoc, Ename, sapp_cons. simpl. by rewrite Hsp. }
  assert (HasPrefix raw "Trivially needed" = false) as -> by
    (by apply (ident_not_prefix name _ "Trivially" "needed")).
  assert (cg_separator raw = false) as ->.
  { unfold cg_separator.
    assert (HasPrefix raw "Removing " = false) as -> by (by apply (ident_not_prefix name _ "Removing" "")).
    assert (HasPrefix raw "Reclaiming " = false) as -> by (by apply (ident_not_prefix name _ "Reclaiming" "")).
    assert (HasPrefix raw "Clearing " = false) as -> by (by apply (ident_not_prefix name _ "Clearing" "")).
    assert (HasSuffix raw "Symbol table:" = false) as ->.
    { subst raw. rewrite <-!sapp_assoc. by apply (HasSuffix_lacks _ ")" "Symbol table" ":"). }
    subst raw. by rewrite Ename. }
  assert (negb (HasPrefix raw " ") = true) as ->.
  { subst raw. rewrite Ename, sapp_cons. unfold HasPrefix. cbn [strip_prefix]. by rewrite Hsp'. }
  subst raw. by rewrite picks_header.
Qed.

Lemma indirect_match n :
  (0 ≤ n < 100)%Z →
  ∃ m, FindStringSubmatch cgIndirect (indirect_text n) = Some m ∧ Atoi_ (group 1 m) = n.
Proof.
  intros Hn.
  assert (forallb (λ k, match FindStringSubmatch cgIndirect (indirect_text (Z.of_nat k)) with
                        | Some m => (Atoi_ (group 1 m) =? Z.of_nat k)%Z
                        | None => false
                        end) (seq 0 100) = true) as H by (vm_compute; reflexivity).
  rewrite forallb_forall in H. specialize (H (Z.to_nat n)).
  rewrite Z2Nat.id in H by lia. destruct (FindStringSubmatch _ _) as [m|].
  - exists m. split; [done|]. apply Z.eqb_eq, H, in_seq. lia.
  - discriminate H. apply in_seq. lia.
Qed.

Lemma indirect_line n :
  (0 ≤ n < 100)%Z →
  field_line ("     " +:+ indirect_text n) (λ cur, set_IndirectSites cur (IndirectSites cur ++ [MkIndirectSite n []])).
Proof.
  intros Hn. assert (line_end (dec n)) as He.
  { apply number_line_end. unfold is_number. rewrite dec_digits by lia.
    destruct (String.eqb_spec (dec n) "") as [H|]; [by destruct (dec_nonempty n)|done]. }
  destruct (indirect_match n Hn) as (m & Hm & Hat). unfold indirect_text in *. set (t := _ +:+ dec n) in *.
  assert (TrimSpace t = t) as Ht by by apply line_end_TrimSpace.
  apply (field_line_trim _ t); [by rewrite <-Ht at 2|done|by no_separator|].
  intros cur. unfold parse_field. past_headings t. by rewrite Hm, Hat.
Qed.

(** *** Lines that say nothing of the symbol *)

Lemma skipped_line body :
  TrimSpace body = body → line_end body → skipped_ok body →
  (∃ h, h ∈ ["Aux: @"; "Availability: "; "Varpool flags:"] ∧ ∃ s, body = h +:+ s) ∨
  (∃ c, body = copy_text c ∧ is_ident c.1.1.1 = true) →
  field_line body id.
Proof.
  intros Ht He Hs Hh. apply field_line_intro; [done| | |].
  - destruct Hh as [(h & Hh & s & ->)|([[[n i] n'] i'] & -> & _)]; [|done].
    rewrite !elem_of_cons, elem_of_nil in Hh. by destruct_or! Hh; subst.
  - unfold cg_separator. rewrite line_end_no_table by done.
    destruct Hh as [(h & Hh & s & ->)|([[[n i] n'] i'] & -> & _)]; [|done].
    rewrite !elem_of_cons, elem_of_nil in Hh. by destruct_or! Hh; subst.
  - intros cur. unfold parse_field.
    assert (FindStringSubmatch cgIndirect body = None) as -> by by apply (literal_search_none "indirect ").
    destruct Hh as [(h & Hh & s & ->)|([[[n i] n'] i'] & -> & Hn)].
    + rewrite !elem_of_cons, elem_of_nil in Hh. destruct_or! Hh; subst; try done;
        match goal with |- context [HasPrefix ?t "Type:"] => set (b := t) end; past_headings b; done.
    + set (b := copy_text (n, i, n', i')).
      assert (HasPrefix b "Function flags:" = false) as Hf.
      { destruct (HasPrefix b _) eqn:E; [|done]. apply HasPrefix_true in E as [q E]. exfalso.
        assert (n +:+ "/" +:+ i +:+ " is inline copy in " +:+ n' +:+ "/" +:+ i' = "flags" +:+ ":" +:+ q) as E'.
        { subst b. cbn [copy_text] in E. by injection E. }
        apply (f_equal (span ident_char)) in E'. rewrite (span_app _ "flags") in E' by done.
        cbn [fst] in Hn. rewrite (span_app _ n) in E' by (done || by apply ident_chars). by simplify_eq. }
      by past_headings b.
Qed.

(** *** Whole blocks *)

(** The indented lines [ls] turn the block in flight into [g] of it. *)
Definition fills (ls : list string) (g : Function → Function) : Prop :=
  ∀ cur m tr, foldl parse_line (CgState (Some cur) m tr) ((λ l, "  " +:+ l) <$> ls) = CgState (Some (g cur)) m tr.

Lemma fills_nil : fills [] id.
Proof. done. Qed.

Lemma fills_one l g : field_line l g → fills [l] g.
Proof. intros H cur m tr. apply H. Qed.

Lemma fills_app ls ls' g g' : fills ls g → fills ls' g' → fills (ls ++ ls') (g' ∘ g).
Proof. intros H H' cur m tr. by rewrite fmap_app, foldl_app, H, H'. Qed.

Lemma fills_if (b : bool) l g : field_line l g → fills (if b then [l] else []) (if b then g else id).
Proof. intros H. destruct b; [by apply fills_one|apply fills_nil]. Qed.

Lemma fills_option {A} (P : A → Prop) (o : option A) line (g : A → Function → Function) :
  opt_ok P o → (∀ x, P x → field_line (line x) (g x)) → fills (print_option o line) (from_option g id o).
Proof. intros Ho H. destruct o as [x|]; [by apply fills_one, H|apply fills_nil]. Qed.

Lemma indirect_lines sites :
  Forall (λ s, (0 ≤ SpeculativeCount s < 100)%Z ∧ SpeculativeTargets s = []) sites →
  fills ((λ s, "     " +:+ indirect_text (SpeculativeCount s)) <$> sites) (λ cur, set_IndirectSites cur (IndirectSites cur ++ sites)).
Proof.
  induction 1 as [|[n ts] sites [Hn Hts] _ IH]; intros cur m tr.
  - simpl. rewrite app_nil_r. by destruct cur.
  - simpl in Hn, Hts. subst ts. rewrite fmap_cons.
    apply (fills_app [_] _ _ _ (fills_one _ _ (indirect_line n Hn))) in IH. rewrite IH. cbn. by rewrite <-app_assoc.
Qed.

Section blocks.
Context (nm : string → string) (b : block) (Hb : block_ok nm b).
Let f := bk_symbol b.

Definition set_Calls (f cur : Function) : Function :=
  set_IndirectSites (set_Called (set_FunctionFlags cur (FunctionFlags cur ++ FunctionFlags f)) (Called cur ++ Called f))
    (IndirectSites cur ++ IndirectSites f).

Lemma calls_fill :
  fills (["Function flags:" +:+ print_words (count_words (bk_count b) ++ FunctionFlags f)] ++
         ["Called by:" +:+ print_listing (call_entry nm <$> bk_callers b)] ++
         ["Calls:" +:+ print_listing (call_entry nm <$> zip (Called f) (bk_profiles b))] ++
         ((λ s, "     " +:+ indirect_text (SpeculativeCount s)) <$> IndirectSites f)) (set_Calls f).
Proof.
  destruct (proj1 (Forall_app _ _ _) (ok_Calls _ _ Hb)) as [Hcalls Hcallers].
  pose proof (fills_app _ _ _ _ (fills_one _ _ (flags_line _ _ (ok_count _ _ Hb) (ok_Flags _ _ Hb)))
    (fills_app _ _ _ _ (fills_one _ _ (callers_line nm _ Hcallers))
      (fills_app _ _ _ _ (fills_one _ _ (calls_line nm _ Hcalls)) (indirect_lines _ (ok_Indirect _ _ Hb))))) as H.
  intros cur m tr. etrans; [apply H|]. cbn. rewrite fst_zip; [done|]. fold f. by rewrite (ok_profiles _ _ Hb).
Qed.

(** The lines above the flags. *)
Lemma head_fill :
  fills (["Type: " +:+ Kind f +:+ if Analyzed f then " definition analyzed" else ""] ++
    (if BodyRemoved f then ["Body removed by symtab_remove_unreachable_nodes"] else []) ++
    ["Visibility:" +:+ print_words (VisibilityFlags f)] ++
    (if bk_address b then ["Address is taken."] else []) ++
    print_option (bk_aux b) aux_text ++
    ["References:" +:+ print_listing (ref_entry nm <$> Refs f)] ++
    ["Referring:" +:+ print_listing (ref_entry nm <$> bk_referring b)] ++
    print_option (bk_copy b) copy_text ++
    print_option (clone_of f) (λ id, "Clone of " +:+ nm id +:+ "/" +:+ id) ++
    print_option (bk_availability b) availability_text)
   (λ cur, MkFunction (LocalID cur) (Name cur) (LinkageName cur) (Kind f) (Analyzed f) (BodyRemoved cur || BodyRemoved f)
      (VisibilityFlags f) (AddressTaken cur || AddressTaken f) (FunctionFlags cur) (default (CloneOfID cur) (clone_of f))
      (Refs cur ++ Refs f) (Called cur) (IndirectSites cur)).
Proof.
  destruct (proj1 (Forall_app _ _ _) (ok_Refs _ _ Hb)) as [Hrefs Hreferring].
  assert (fills (print_option (bk_aux b) aux_text) id) as Haux.
  { pose proof (ok_aux _ _ Hb) as H. destruct (bk_aux b) as [w|]; [|apply fills_nil]. destruct H as [Hw Hs].
    apply line_end_word in Hw. apply fills_one, skipped_line; [by apply (line_end_TrimSpace "Aux: @")|by apply (line_end_app "Aux: @")|done|].
    left. exists "Aux: @". split; [left|by exists w]. }
  assert (fills (print_option (bk_availability b) availability_text) id) as Hav.
  { pose proof (ok_availability _ _ Hb) as H. destruct (bk_availability b) as [w|]; [|apply fills_nil]. destruct H as [Hw Hs].
    apply line_end_word in Hw. apply fills_one, skipped_line; [by apply (line_end_TrimSpace "Availability: ")|by apply (line_end_app "Availability: ")|done|].
    left. exists "Availability: ". split; [right; left|by exists w]. }
  assert (fills (print_option (bk_copy b) copy_text) id) as Hcopy.
  { pose proof (ok_copy _ _ Hb) as H. destruct (bk_copy b) as [[[[n i] n'] i']|]; [|apply fills_nil]. destruct H as (Hn & Hi & Hs).
    assert (line_end (n +:+ "/" +:+ i +:+ " is inline copy in " +:+ n' +:+ "/" +:+ i')) as He
      by (do 6 apply line_end_app; by apply number_line_end).
    apply fills_one, skipped_line; [by apply (line_end_TrimSpace "Function ")|by apply (line_end_app "Function ")|done|].
    right. by exists (n, i, n', i'). }
  pose proof (fills_app _ _ _ _ (fills_one _ _ (type_line (Kind f) (Analyzed f) (ok_Kind _ _ Hb)))
    (fills_app _ _ _ _ (fills_if (BodyRemoved f) _ _ body_removed_line)
    (fills_app _ _ _ _ (fills_one _ _ (visibility_line _ (ok_Visibility _ _ Hb)))
    (fills_app _ _ _ _ (fills_if (bk_address b) _ _ address_taken_line)
    (fills_app _ _ _ _ Haux
    (fills_app _ _ _ _ (fills_one _ _ (refs_line nm _ Hrefs))
    (fills_app _ _ _ _ (fills_one _ _ (referring_line nm _ Hreferring))
    (fills_app _ _ _ _ Hcopy
    (fills_app _ _ _ _ (fills_option _ _ _ _ (ok_Clone _ _ Hb) (λ id H, clone_line (nm id) id (proj2 H) (proj1 H))) Hav))))))))) as H.
  intros cur m tr. etrans; [apply H|]. clear H. pose proof (ok_AddressTaken _ _ Hb) as Ha. fold f in Ha. rewrite Ha. change (bk_symbol b) with f. f_equal. f_equal. cbn.
  destruct cur, (BodyRemoved f), (bk_address b), (existsb _ (bk_referring b)), (clone_of f); cbn;
    by rewrite ?orb_true_r, ?orb_false_r.
Qed.

Lemma block_fills :
  fills (block_body nm b) (λ cur, MkFunction (LocalID cur) (Name cur) (LinkageName cur) (Kind f) (Analyzed f)
    (BodyRemoved cur || BodyRemoved f) (VisibilityFlags f) (AddressTaken cur || AddressTaken f)
    (FunctionFlags cur ++ FunctionFlags f) (default (CloneOfID cur) (clone_of f))
    (Refs cur ++ Refs f) (Called cur ++ Called f) (IndirectSites cur ++ IndirectSites f)).
Proof.
  intros cur m tr. unfold block_body. fold f. cbn zeta. destruct (is_variable f) eqn:Ev.
  - assert (fills ["Varpool flags:" +:+ print_words (bk_varpool b)] id) as Hv.
    { destruct (ok_varpool _ _ Hb) as [Hw Hs]. apply fills_one. destruct (bk_varpool b) as [|w ws] eqn:Ew.
      - by apply field_line_intro.
      - apply skipped_line; [by apply TrimSpace_words|by apply line_end_app, print_words_line_end|done|].
        left. exists "Varpool flags:". split; [right; right; left|by eexists]. }
    pose proof (fills_app _ _ _ _ head_fill Hv cur m tr) as H. rewrite <-!app_assoc in H. rewrite H.
    destruct (ok_variable _ _ Hb Ev) as (E1 & E2 & E3). fold f in E1, E2, E3. cbn. by rewrite E1, E2, E3, !app_nil_r.
  - pose proof (fills_app _ _ _ _ head_fill calls_fill cur m tr) as H. rewrite <-!app_assoc in H. exact H.
Qed.

(** A block is merged when it ends, whatever ends it; the one before it when it begins. *)
Lemma parse_symbol_block st :
  flush (foldl parse_line st (print_block nm b)) =
    CgState None (mergeSymbol (cg_syms (flush st)) f) (cg_trivial (flush st)).
Proof.
  unfold print_block. fold f. cbn [foldl].
  rewrite header_line by (try apply (ok_LinkageName _ _ Hb); apply Hb). rewrite block_fills. cbn. unfold flush. cbn. f_equal. f_equal.
  destruct f as [id name linkage kind an br vis at_ fl cl refs called ind]. unfold clone_of. cbn.
  by destruct (String.eqb_spec cl "") as [->|].
Qed.
End blocks.

(** ** The other parts, and the whole dump *)

Lemma header_miss line :
  starts_in (λ a, Ascii.eqb a "/") (span ident_char line).2 = false → line ≠ "" → FindStringSubmatch cgSymbolHeader line = None.
Proof.
  intros Hs Hne. unfold cgSymbolHeader. apply FindStringSubmatch_begin_miss; [done|].
  rewrite run_cat, run_group_bind, run_cat_bind. cbn [init_state rs_rest].
  rewrite run_class. cbn [rs_rest init_state]. destruct line as [|a w]; [done|].
  destruct (in_class _ _ a) eqn:Ha; [|done]. cbn [mbind list_bind]. rewrite app_nil_r.
  destruct (span ident_char w) as [u t] eqn:Eu. rewrite (bind_star _ _ _ _ u t); [|..|exact Eu].
  - rewrite run_cat, run_class_miss; [done|]. cbn [set_cap adv rs_rest].
    assert (ident_char a = true) as Hi by (revert Ha; clear; by destruct a as [[] [] [] [] [] [] [] []]).
    cbn [span] in Hs. rewrite Hi, Eu in Hs. cbn [snd] in Hs. destruct t as [|c t]; [done|]. cbn in Hs |- *.
    rewrite <-is_slash_eqb in Hs. exact Hs.
  - intros st' H'. rewrite run_cat, run_class_miss; [done|]. cbn [set_cap rs_rest].
    destruct (rs_rest st') as [|c r]; [done|]. cbn in H' |- *. change (is_slash c = false). rewrite is_slash_eqb.
    destruct (Ascii.eqb_spec c "/"); [by subst|done].
Qed.

Lemma flush_flush st : flush (flush st) = flush st.
Proof. unfold flush. by destruct (cg_cur st) eqn:E; rewrite ?E. Qed.

Lemma flush_none st : cg_cur (flush st) = None.
Proof. unfold flush. destruct (cg_cur st) eqn:E; [done|exact E]. Qed.

Lemma aside_line line st : aside_ok line → parse_line st line = flush st.
Proof.
  intros (Hp & Ht & Hs). unfold parse_line. rewrite Ht, Hp. cbn [negb]. destruct (cg_separator _) eqn:E; [done|].
  rewrite header_miss; [done|done|]. by intros ->.
Qed.

Lemma inner_lines ls st : Forall inner_ok ls → foldl parse_line (flush st) ls = flush st.
Proof.
  induction 1 as [|l ls (Hp & Ht) _ IH]; [done|]. cbn [foldl].
  assert (parse_line (flush st) l = flush st) as ->; [|done]. unfold parse_line.
  rewrite Ht, Hp, flush_none. cbn [negb]. by destruct (cg_separator _); [rewrite flush_flush|].
Qed.

Lemma needed_line nm what ids st :
  what = "symbols" ∨ what = "variables" →
  Forall (λ id, is_ident (nm id) = true ∧ is_number id = true) ids →
  parse_line st ("Trivially needed " +:+ what +:+ ":" +:+ print_targets ((λ id, (nm id, id, "")) <$> ids)) =
    CgState None (cg_syms (flush st)) (cg_trivial (flush st) ++ ids).
Proof.
  intros Hwhat Hok. set (l := (λ id, (nm id, id, "")) <$> ids).
  assert (Forall entry_ok l) as Hl.
  { apply Forall_fmap. eapply Forall_impl; [exact Hok|]. by intros id [??]. }
  unfold parse_line.
  assert (∃ h, "Trivially needed " +:+ what +:+ ":" +:+ print_targets l = h +:+ print_targets l ∧ TrimLeft h = h ∧
     TrimRight h = h ∧ h ≠ "" ∧ no_slash h = true ∧ HasPrefix (h +:+ print_targets l) "Trivially needed" = true)
    as (h & -> & H1 & H2 & H3 & H4 & H5).
  { exists ("Trivially needed " +:+ what +:+ ":"). rewrite !sapp_assoc. by destruct Hwhat as [->| ->]. }
  rewrite targets_line_trim, H5 by done.
  assert (∃ gap, h +:+ print_targets l = gap +:+ targets_text (mk_targets l) ∧
            no_slash gap = true ∧ (mk_targets l ≠ [] → gap = "" ∨ HasSuffix gap " " = true))
    as (gap & -> & Hgap & Hend).
  { destruct l as [|e l]; [by exists h; rewrite ?sapp_nil_r|].
    exists (h +:+ " "). unfold print_targets. rewrite !sapp_assoc. split; [done|].
    split; [unfold no_slash in *; by rewrite all_chars_app, H4|]. right. apply HasSuffix_true. eauto. }
  pose proof (targets_of_text gap (mk_targets l) (mk_targets_ok _ Hl) Hgap Hend) as H.
  assert (group 2 <$> FindAllStringSubmatch cgTargetTok (gap +:+ targets_text (mk_targets l)) =
          tg_id <$> mk_targets l) as ->.
  { rewrite <-H at 2. rewrite <-list_fmap_compose.
    assert (∀ s ms, group 2 <$> ms = (tg_id ∘ (λ mt : rmatch * string, MkTarget (group 1 mt.1) (group 2 mt.1) mt.2)) <$> with_tails s ms) as Hw.
    { intros s. induction ms as [|m ms IH]; [done|]. cbn [with_tails]. rewrite !fmap_cons. by rewrite <-IH. }
    apply Hw. }
  rewrite flush_none. f_equal. f_equal. subst l. clear. induction ids as [|id ids IH]; [done|].
  rewrite !fmap_cons. cbn [mk_targets]. rewrite fmap_cons, IH. done.
Qed.

Lemma parse_part nm p st :
  part_ok nm p →
  flush (foldl parse_line st (print_part nm p)) =
    CgState None (foldl mergeSymbol (cg_syms (flush st)) (symbols_of p)) (cg_trivial (flush st) ++ needed_of p).
Proof.
  destruct p as [what ids|b|line inner]; cbn [part_ok print_part symbols_of needed_of foldl]; intros Hp.
  - destruct Hp. by rewrite needed_line.
  - by rewrite parse_symbol_block, app_nil_r.
  - destruct Hp as [Hl Hi]. rewrite aside_line, inner_lines, flush_flush, app_nil_r by done.
    destruct (flush st) eqn:E. pose proof (flush_none st) as H. rewrite E in H. cbn in H. by subst.
Qed.

Lemma parse_parts nm parts st :
  Forall (part_ok nm) parts →
  flush (foldl parse_line st (print_cgraph nm parts)) =
    CgState None (foldl mergeSymbol (cg_syms (flush st)) (parts ≫= symbols_of)) (cg_trivial (flush st) ++ (parts ≫= needed_of)).
Proof.
  intros Hp. revert st; induction Hp as [|p parts Hp _ IH]; intros st.
  - cbn. rewrite app_nil_r. destruct (flush st) eqn:E. pose proof (flush_none st) as H. rewrite E in H. cbn in H. by subst.
  - unfold print_cgraph in *. cbn [mbind list_bind]. rewrite !foldl_app.
    etrans; [apply IH|]. by rewrite (parse_part nm p st Hp), app_assoc.
Qed.

(** A dump with lines the scanner takes whole. *)
Record dump_ok (nm : string → string) (parts : list part) : Prop := {
  dump_parts : Forall (part_ok nm) parts;
  dump_lines : Forall (plain_line cg_max_line) (print_cgraph nm parts);
}.

(** C21: Parsing a dump GCC writes — symbol blocks that follow each other without a gap,
    lists of needed symbols, and table titles, notices and function bodies between
    them — gives back the needed ids and, for each symbol, the merge of the
    observations the blocks hold, in order. *)
Theorem ParseCgraph_print nm parts :
  dump_ok nm parts →
  ParseCgraph (unlines (print_cgraph nm parts)) =
    (MkCgraph (parts ≫= needed_of) (foldl mergeSymbol ∅ (parts ≫= symbols_of)), false).
Proof.
  intros [Hp Hl]. unfold ParseCgraph. rewrite ScanLines_unlines by done. by rewrite parse_parts.
Qed.

(** ** Examples *)

(** A block with nothing beside the observation. *)
Definition plain_block (f : Function) : block :=
  MkBlock f ((λ _, "") <$> Called f) (AddressTaken f) None [] None None None [] [].

(** Two tables of a unit in which [main] calls and inlines [helper]. *)
Definition ex_helper : Function :=
  MkFunction "1" "helper" "helper" "function" true false ["prevailing_def_ironly"] false
    ["body"; "local"] "" [] [] [].
Definition ex_main (inlined : bool) : Function :=
  MkFunction "2" "main" "main" "function" true false ["externally_visible"; "public"] true
    ["body"] "" [MkRef "1" "addr"] [MkCall "1" inlined] [MkIndirectSite 0 []].
Definition ex_names (id : string) : string :=
  if String.eqb id "1" then "helper" else "main".
Definition ex_parts : list part :=
  [Needed "symbols" ["2"]; Aside "" []; Aside "Initial Symbol table:" []; Aside "" [];
   Block (plain_block (ex_main false)); Block (plain_block ex_helper); Aside "" [];
   Aside "Final Symbol table:" []; Aside "" []; Block (plain_block (ex_main true))].

(** Of the dump of [app1/main.c] under [testdata/samples/gcc-16], the lines of five
    symbols in two of its tables. *)
Definition sample_names (id : string) : string :=
  if String.eqb id "5" then "main" else if String.eqb id "4" then "use_dispatch" else if String.eqb id "6" then "compute"
  else if String.eqb id "7" then "hook" else if String.eqb id "8" then "printf" else if String.eqb id "9" then "g_ops"
  else "use_dispatch.constprop.0".

Definition sample_profile : string := " (1073741824 (estimated locally),1.00 per call)".
Definition sample_sites : list IndirectSite := [MkIndirectSite 0 []; MkIndirectSite 0 []].

Definition sample_parts : list part :=
  [Needed "symbols" ["5"]; Aside "" []; Aside "" []; Aside "Initial Symbol table:" []; Aside "" [];
   Block (MkBlock (MkFunction "9" "g_ops" "g_ops" "variable" false false ["semantic_interposition"; "external"; "public"] false [] "" [] [] [])
     [] false None [MkRef "4" "read"; MkRef "4" "read"] None (Some "not-ready") None [] ["read-only"]);
   Block (MkBlock (MkFunction "5" "main" "main" "function" true false ["semantic_interposition"; "public"] false ["body"] "" []
       [MkCall "8" false; MkCall "7" false; MkCall "4" false; MkCall "6" false] [])
     [""; ""; ""; ""] false (Some "0x331ee60") [] None None None [] []);
   Aside "" []; Aside "Reclaiming functions:" []; Aside "Reclaiming variables:" []; Aside "Clearing address taken flags:" [];
   Aside "Optimized Symbol table:" []; Aside "" [];
   Block (MkBlock (MkFunction "10" "use_dispatch.constprop.0" "use_dispatch.constprop" "function" true false [] false
       ["local"; "executed_once"] "4" [MkRef "9" "read"; MkRef "9" "read"] [] sample_sites)
     [] false None [] (Some ("use_dispatch.constprop", "10", "main", "5")) (Some "local") (Some "1073741824")
     [(MkCall "5" true, sample_profile)] []);
   Block (MkBlock (MkFunction "5" "main" "main" "function" true false ["externally_visible"; "semantic_interposition"; "public"] false
       ["body"; "only_called_at_startup"; "executed_once"] "" []
       [MkCall "8" false; MkCall "7" false; MkCall "10" true; MkCall "6" false] [])
     (repeat sample_profile 4) false None [] None (Some "available") (Some "1073741824") [] []);
   Block (MkBlock (MkFunction "4" "use_dispatch" "use_dispatch" "function" false true ["semantic_interposition"; "prevailing_def_ironly"]
       false ["body"; "executed_once"] "" [] [] [])
     [] false None [] None (Some "not_available") (Some "1073741824") [] []);
   Aside "cloning use_dispatch/4 to use_dispatch.constprop/10" ["    replace map: 0 -> 2, 1 -> 5"; "    m_always_copy_start: 2"];
   Aside "int use_dispatch (int a, int b)" []; Aside "{" []].

(** The printer writes them as GCC did. *)
Lemma sample_printed : print_cgraph sample_names sample_parts =
  ["Trivially needed symbols: main/5";
   "";
   "";
   "Initial Symbol table:";
   "";
   "g_ops/9 (g_ops)";
   "  Type: variable";
   "  Visibility: semantic_interposition external public";
   "  References: ";
   "  Referring: use_dispatch/4 (read) use_dispatch/4 (read) ";
   "  Availability: not-ready";
   "  Varpool flags: read-only";
   "main/5 (main)";
   "  Type: function definition analyzed";
   "  Visibility: semantic_interposition public";
   "  Aux: @0x331ee60";
   "  References: ";
   "  Referring: ";
   "  Function flags: body";
   "  Called by: ";
   "  Calls: printf/8 hook/7 use_dispatch/4 compute/6 ";
   "";
   "Reclaiming functions:";
   "Reclaiming variables:";
   "Clearing address taken flags:";
   "Optimized Symbol table:";
   "";
   "use_dispatch.constprop.0/10 (use_dispatch.constprop)";
   "  Type: function definition analyzed";
   "  Visibility:";
   "  References: g_ops/9 (read) g_ops/9 (read) ";
   "  Referring: ";
   "  Function use_dispatch.constprop/10 is inline copy in main/5";
   "  Clone of use_dispatch/4";
   "  Availability: local";
   "  Function flags: count:1073741824 (estimated locally) local executed_once";
   "  Called by: main/5 (inlined) (1073741824 (estimated locally),1.00 per call) ";
   "  Calls: ";
   "       indirect simple callsite, not calling a known parameter, flags 0, num speculative call targets: 0";
   "       indirect simple callsite, not calling a known parameter, flags 0, num speculative call targets: 0";
   "main/5 (main)";
   "  Type: function definition analyzed";
   "  Visibility: externally_visible semantic_interposition public";
   "  References: ";
   "  Referring: ";
   "  Availability: available";
   "  Function flags: count:1073741824 (estimated locally) body only_called_at_startup executed_once";
   "  Called by: ";
   "  Calls: printf/8 (1073741824 (estimated locally),1.00 per call) hook/7 (1073741824 (estimated locally),1.00 per call) use_dispatch.constprop.0/10 (inlined) (1073741824 (estimated locally),1.00 per call) compute/6 (1073741824 (estimated locally),1.00 per call) ";
   "use_dispatch/4 (use_dispatch)";
   "  Type: function";
   "  Body removed by symtab_remove_unreachable_nodes";
   "  Visibility: semantic_interposition prevailing_def_ironly";
   "  References: ";
   "  Referring: ";
   "  Availability: not_available";
   "  Function flags: count:1073741824 (estimated locally) body executed_once";
   "  Called by: ";
   "  Calls: ";
   "cloning use_dispatch/4 to use_dispatch.constprop/10";
   "    replace map: 0 -> 2, 1 -> 5";
   "    m_always_copy_start: 2";
   "int use_dispatch (int a, int b)";
   "{"].
Proof. vm_compute. reflexivity. Qed.

#[export] Instance opt_ok_dec {A} (P : A → Prop) `{∀ x, Decision (P x)} o : Decision (opt_ok P o).
Proof. destruct o; apply _. Defined.

Lemma ParseCgraph_print_witness :
  dump_ok sample_names sample_parts ∧
  let c := (ParseCgraph (unlines (print_cgraph sample_names sample_parts))).1 in
  TrivialNeeded c = ["5"] ∧
  (Called <$> Symbols c !! "5") = Some [MkCall "8" false; MkCall "7" false; MkCall "10" true; MkCall "6" false] ∧
  (IndirectSites <$> Symbols c !! "10") = Some sample_sites.
Proof.
  assert (dump_ok sample_names sample_parts) as Hok.
  { split; [|by_decide].
    repeat (constructor; [cbn [part_ok]; first [by_decide | split; by_decide | split; [left; reflexivity|by_decide] | split; try by_decide; discriminate]|]); constructor. }
  split; [exact Hok|]. rewrite (ParseCgraph_print sample_names sample_parts Hok). repeat split; vm_compute; reflexivity.
Defined.

(** *** What merging keeps *)

(** [g] knows at least what [f] does. *)
Record info_le (f g : Function) : Prop := {
  le_id : LocalID f = LocalID g;
  le_name : Name f ≠ "" → Name g ≠ "";
  le_linkage : LinkageName f ≠ "" → LinkageName g ≠ "";
  le_kind : Kind f ≠ "" → Kind g ≠ "";
  le_analyzed : Analyzed f = true → Analyzed g = true;
  le_removed : BodyRemoved f = true → BodyRemoved g = true;
  le_addr : AddressTaken f = true → AddressTaken g = true;
  le_clone : CloneOfID f ≠ "" → CloneOfID g ≠ "";
  le_vis : length (VisibilityFlags f) ≤ length (VisibilityFlags g);
  le_flags : length (FunctionFlags f) ≤ length (FunctionFlags g);
  le_refs : length (Refs f) ≤ length (Refs g);
  le_called : length (Called f) ≤ length (Called g);
  le_sites : length (IndirectSites f) ≤ length (IndirectSites g);
}.

#[export] Instance info_le_preorder : PreOrder info_le.
Proof.
  split.
  - intros f. by split.
  - intros f g h [] []. split; eauto using Nat.le_trans; congruence.
Qed.

Lemma length_longer {A} (l k : list A) : length (longer l k) = max (length l) (length k).
Proof.
  unfold longer. destruct (Nat.leb_spec (length l) (length k)); simpl; [|lia].
  destruct (Nat.ltb_spec 0 (length k)); lia.
Qed.

Lemma newer_nonempty p o : newer p o ≠ "" ↔ p ≠ "" ∨ o ≠ "".
Proof. unfold newer. destruct (String.eqb_spec o ""); naive_solver. Qed.

Lemma merge_into_prev prev obs : info_le prev (merge_into prev obs).
Proof.
  split; cbn; rewrite ?length_longer, ?newer_nonempty, ?orb_true_iff; auto with lia; try tauto; lia.
Qed.

Lemma merge_into_obs prev obs : LocalID prev = LocalID obs → info_le obs (merge_into prev obs).
Proof.
  split; cbn; rewrite ?length_longer, ?newer_nonempty, ?orb_true_iff; auto with lia; try tauto; lia.
Qed.

Definition keyed (m : gmap string Function) : Prop := ∀ id f, m !! id = Some f → LocalID f = id.

Definition info_map_le (m1 m2 : gmap string Function) : Prop :=
  ∀ id f, m1 !! id = Some f → ∃ g, m2 !! id = Some g ∧ info_le f g.

#[export] Instance info_map_le_preorder : PreOrder info_map_le.
Proof.
  split.
  - intros m id f H. exists f. done.
  - intros m1 m2 m3 H12 H23 id f H. apply H12 in H as (g & H & ?).
    apply H23 in H as (h & H & ?). exists h. split; [done|]. by etrans.
Qed.

Lemma mergeSymbol_keyed m o : keyed m → keyed (mergeSymbol m o).
Proof.
  intros Hm id f. unfold mergeSymbol. destruct (m !! LocalID o) as [prev|] eqn:E;
    rewrite lookup_insert_Some; intros [[<- <-]|[_ H]]; simpl; auto.
Qed.

Lemma mergeSymbol_le m o : info_map_le m (mergeSymbol m o).
Proof.
  intros id f H. unfold mergeSymbol. destruct (decide (id = LocalID o)) as [->|Hne].
  - rewrite H. exists (merge_into f o). rewrite lookup_insert_eq. split; [done|apply merge_into_prev].
  - exists f. split; [|done]. destruct (m !! LocalID o); by rewrite lookup_insert_ne.
Qed.

Lemma parse_line_syms st l :
  cg_syms (parse_line st l) = cg_syms st ∨ ∃ o, cg_syms (parse_line st l) = mergeSymbol (cg_syms st) o.
Proof.
  assert (cg_syms (flush st) = cg_syms st ∨ ∃ o, cg_syms (flush st) = mergeSymbol (cg_syms st) o) as Hflush.
  { unfold flush. destruct (cg_cur st); eauto. }
  unfold parse_line. repeat case_match; auto.
Qed.

(** Reading more lines, whatever they are, never loses a symbol and never loses
    information about one: ids and set fields stay, flags observed once stay
    set, and no list of references, calls or indirect sites shrinks. *)
Theorem parse_lines_monotone lines st :
  info_map_le (cg_syms st) (cg_syms (foldl parse_line st lines)).
Proof.
  apply (foldl_inv (λ st', info_map_le (cg_syms st) (cg_syms st'))); [done|].
  intros st' l _ H. destruct (parse_line_syms st' l) as [->|[o ->]]; [done|].
  etrans; [exact H|]. apply mergeSymbol_le.
Qed.

(** The observations of one id, merged. *)
Definition observations (id : string) (obs : list Function) : list Function :=
  filter (λ o, LocalID o = id) obs.

Lemma foldl_mergeSymbol_lookup obs m id :
  foldl mergeSymbol m obs !! id =
    match m !! id, observations id obs with
    | Some f, os => Some (foldl merge_into f os)
    | None, o :: os => Some (foldl merge_into o os)
    | None, [] => None
    end.
Proof.
  revert m; induction obs as [|o obs IH]; intros m; simpl; [by destruct (m !! id)|].
  rewrite IH. unfold observations, mergeSymbol. destruct (decide (LocalID o = id)) as [<-|Hne].
  - rewrite filter_cons_True by done. destruct (m !! LocalID o); by rewrite lookup_insert_eq.
  - rewrite filter_cons_False by done. destruct (m !! LocalID o); by rewrite lookup_insert_ne.
Qed.

(** [longer] keeps the last of the longest lists. *)
Lemma foldl_longer {A} (ls : list (list A)) (l : list A) :
  ∃ pre post, l :: ls = pre ++ foldl longer l ls :: post ∧
    Forall (λ k, length k ≤ length (foldl longer l ls)) pre ∧
    (foldl longer l ls ≠ [] → Forall (λ k, length k < length (foldl longer l ls)) post) ∧
    Forall (λ k, length k ≤ length (foldl longer l ls)) post.
Proof.
  induction ls as [|k ls IH] using rev_ind.
  { exists [], []. simpl. auto. }
  destruct IH as (pre & post & Heq & Hpre & Hpost & Hpost'). rewrite foldl_app. simpl.
  set (r := foldl longer l ls) in *. unfold longer.
  destruct (Nat.leb_spec (length r) (length k)) as [Hle|Hlt]; simpl.
  - destruct (Nat.ltb_spec 0 (length k)) as [Hk|Hk].
    + exists (l :: ls), []. rewrite app_comm_cons. split; [done|]. split; [|done].
      rewrite Heq. apply Forall_app. split; [|constructor; [done|]];
        (eapply Forall_impl; [eassumption|]; simpl; lia).
    + exists pre, (post ++ [k]). rewrite app_comm_cons, Heq, <-app_assoc. split; [done|].
      assert (r = []) as Hr by (destruct r; simpl in *; [done|lia]).
      split; [done|]. split; [done|]. apply Forall_app. split; [done|]. repeat constructor. lia.
  - exists pre, (post ++ [k]). rewrite app_comm_cons, Heq, <-app_assoc. split; [done|].
    split; [done|]. split; [intros Hr|]; apply Forall_app; auto.
    split; [done|]. repeat constructor. lia.
Qed.

(** The merged record's outgoing calls are those of the last among the
    observations with the longest call list, and its flags are the disjunction
    over all observations. *)
Theorem merged_calls obs id o os :
  observations id obs = o :: os →
  ∃ f, foldl mergeSymbol ∅ obs !! id = Some f ∧
    (∃ pre w post, o :: os = pre ++ w :: post ∧ Called f = Called w ∧
       Forall (λ k, length (Called k) ≤ length (Called w)) pre ∧
       (Called w ≠ [] → Forall (λ k, length (Called k) < length (Called w)) post)) ∧
    Analyzed f = existsb Analyzed (o :: os) ∧ AddressTaken f = existsb AddressTaken (o :: os) ∧
    BodyRemoved f = existsb BodyRemoved (o :: os).
Proof.
  intros Hobs. rewrite foldl_mergeSymbol_lookup, lookup_empty, Hobs.
  exists (foldl merge_into o os). split; [done|].
  assert (∀ {B} (g : Function → B) (h : B → B → B),
    (∀ p q, g (merge_into p q) = h (g p) (g q)) →
    g (foldl merge_into o os) = foldl h (g o) (g <$> os)) as Hfold.
  { clear. intros B g h Hg. revert o; induction os as [|p os IH]; intros o; [done|].
    simpl. by rewrite IH, Hg. }
  assert (∀ g : Function → bool, foldl orb (g o) (g <$> os) = existsb g (o :: os)) as Hor.
  { clear. intros g. cbn [existsb]. generalize (g o). induction os as [|p os IH]; intros b; simpl.
    - by rewrite orb_false_r.
    - by rewrite IH, orb_assoc. }
  rewrite !(Hfold _ _ orb), !Hor by done. split; [|done].
  rewrite (Hfold _ Called longer) by done.
  destruct (foldl_longer (Called <$> os) (Called o)) as (pre & post & Heq & Hpre & Hpost & _).
  rewrite <-fmap_cons in Heq.
  apply fmap_app_inv in Heq as (pre' & rest & -> & Hrest & Heq).
  symmetry in Hrest. apply fmap_cons_inv in Hrest as (w & post' & Hw & -> & ->).
  exists pre', w, post'. split; [done|]. rewrite Hw in *.
  split; [done|]. split; [by apply Forall_fmap in Hpre|].
  intros Hne. apply Hpost in Hne. by apply Forall_fmap in Hne.
Qed.

Lemma merged_calls_witness :
  observations "2" [ex_main false; ex_helper; ex_main true] = ex_main false :: [ex_main true] ∧
  ∃ f, foldl mergeSymbol ∅ [ex_main false; ex_helper; ex_main true] !! "2" = Some f ∧ Called f = [MkCall "1" true] ∧
    AddressTaken f = true.
Proof.
  split; [reflexivity|].
  destruct (merged_calls [ex_main false; ex_helper; ex_main true] "2" (ex_main false) [ex_main true])
    as (f & Hf & _ & _ & Ha & _); [reflexivity|].
  exists f. split; [exact Hf|]. split; [|exact Ha].
  vm_compute in Hf. injection Hf as <-. reflexivity.
Defined.
