(* ===== verification/GccDumps.v ===== *)
(** * The other GCC dumps ([internal/gccdump]: [inline.go], [icf.go], [ci.go])

    One Module per dump kind, each a line-by-line parser over the scanner's
    lines: [Inline] (the IPA inline summaries), [Icf] (identical code folding),
    [Ci] (the call graph of -fcallgraph-info). *)

From S2P Require Import Prelude GoStrings GoRegexp.
From Stdlib Require Import ZArith Lia.

Definition dump_max_line : Z := 4 * 1024 * 1024.
Definition ci_max_line : Z := 1024 * 1024.

(** ** [.inline] *)

Module Inline.

Record InlineSummary := MkInlineSummary {
  FunctionLocalID : string;
  Name : string;
  LinkageName : string;
  Inlinable : bool;
  InlinedInto : list string;
}.

#[export] Instance InlineSummary_eq_dec : EqDecision InlineSummary.
Proof. solve_decision. Defined.

Definition inlSummaryHead : re := Eval vm_compute in
  MustCompile "^IPA function summary for ([A-Za-z_][\w.$]*)/(\d+)\s+(not inlinable|inlinable)".
Definition inlCallEntry : re := Eval vm_compute in
  MustCompile "^\s+([A-Za-z_][\w.$]*)/(\d+)\s+(inlined|function body not available|function not considered for inlining)".

Record state := St {
  cur : option InlineSummary;
  inCalls : bool;
  byID : gmap string InlineSummary;
}.

Definition init : state := St None false ∅.

Definition flush (st : state) : gmap string InlineSummary :=
  match cur st with Some c => <[FunctionLocalID c := c]> (byID st) | None => byID st end.

Definition add_inlined (c : InlineSummary) (id : string) : InlineSummary :=
  MkInlineSummary (FunctionLocalID c) (Name c) (LinkageName c) (Inlinable c) (InlinedInto c ++ [id]).

(** The end of an iteration: a column-0 line ends the block. *)
Definition end_line (st : state) (line : string) : state :=
  if is_some (cur st) && negb (String.eqb line "") && negb (HasPrefix line " ")
  then St None false (flush st) else st.

Definition parse_line (st : state) (line : string) : state :=
  match FindStringSubmatch inlSummaryHead line with
  | Some m =>
    St (Some (MkInlineSummary (group 2 m) (group 1 m) "" (String.eqb (group 3 m) "inlinable") []))
      false (flush st)
  | None =>
    if String.eqb (TrimSpace line) "calls:" then St (cur st) true (byID st)
    else match cur st, inCalls st with
    | Some c, true =>
      match FindStringSubmatch inlCallEntry line with
      | Some m => if String.eqb (group 3 m) "inlined"
                  then St (Some (add_inlined c (group 2 m))) true (byID st) else st
      | None =>
        end_line (if String.eqb (TrimSpace line) "" then St (cur st) false (byID st) else st) line
      end
    | _, _ => end_line st line
    end
  end.

(** The summaries, in the order the map gives them, and whether a line was too
    long. *)
Definition ParseInline (text : string) : list InlineSummary * bool :=
  let '(lines, too_long) := ScanLines dump_max_line text in
  ((map_to_list (flush (foldl parse_line init lines))).*2, too_long).

Definition ParseInlineFile : (string → option string) → string → result parse_error (list InlineSummary) :=
  parse_file ParseInline.

(** *** The format and its round trip *)

(** One call of a summary: name, id and whether the pass inlined it. *)
Record decision := MkDecision { d_name : string; d_id : string; d_inlined : bool }.

Definition print_decision (d : decision) : string :=
  "    " +:+ d_name d +:+ "/" +:+ d_id d +:+
  if d_inlined d then " inlined" else " function body not available".

(** A summary block as GCC writes it. *)
Definition print_summary (b : string * string * bool * list decision) : list string :=
  let '(name, id, inlinable, ds) := b in
  ["IPA function summary for " +:+ name +:+ "/" +:+ id +:+
     if inlinable then " inlinable" else " not inlinable";
   "  calls:"] ++ (print_decision <$> ds) ++ [""].

Definition summary_of (b : string * string * bool * list decision) : InlineSummary :=
  let '(name, id, inlinable, ds) := b in
  MkInlineSummary id name "" inlinable (d_id <$> filter (λ d, d_inlined d = true) ds).

Definition token_ok (name id : string) : Prop := is_ident name = true ∧ is_number id = true.

Definition block_ok (b : string * string * bool * list decision) : Prop :=
  token_ok b.1.1.1 b.1.1.2 ∧ Forall (λ d, token_ok (d_name d) (d_id d)) b.2.

Lemma head_line name id (b : bool) st :
  token_ok name id →
  parse_line st ("IPA function summary for " +:+ name +:+ "/" +:+ id +:+
                   if b then " inlinable" else " not inlinable") =
    St (Some (MkInlineSummary id name "" b [])) false (flush st).
Proof.
  intros [Hn Hi]. unfold parse_line.
  set (k := if b then "inlinable" else "not inlinable").
  set (line := "IPA function summary for " +:+ _).
  assert (FindStringSubmatch inlSummaryHead line =
            Some (RMatch 0 (String.length line) line [(3, k); (2, id); (1, name)])) as ->.
  { unfold inlSummaryHead. apply FindStringSubmatch_begin_picks.
    apply (picks_literal "IPA function summary for ").
    apply (picks_cat _ _ name _ _ [(1, name)] [(3, k); (2, id)]); [by apply picks_group, picks_ident|].
    apply (picks_cat _ _ "/" _ _ [] [(3, k); (2, id)]); [by apply (picks_class _ _ "/")|].
    apply (picks_cat _ _ id _ _ [(2, id)] [(3, k)]); [apply picks_group, picks_number; by destruct b|].
    replace (if b then " inlinable" else " not inlinable") with (" " +:+ k) by by destruct b.
    apply (picks_cat _ _ " " _ _ [] [(3, k)]); [apply picks_plus; by destruct b|].
    apply picks_group. destruct b.
    - apply picks_alt_r; [by intros st' Hst'; cbn [run]; rewrite Hst'|].
      apply (picks_literal "inlinabl" _ "e"). by apply (picks_class _ _ "e").
    - apply picks_alt_l. apply (picks_literal "not inlinabl" _ "e"). by apply (picks_class _ _ "e"). }
  unfold group. cbn. by destruct b.
Qed.

Lemma decision_line d c m :
  token_ok (d_name d) (d_id d) →
  parse_line (St (Some c) true m) (print_decision d) =
    St (Some (if d_inlined d then add_inlined c (d_id d) else c)) true m.
Proof.
  intros [Hn Hi]. unfold parse_line.
  set (k := if d_inlined d then "inlined" else "function body not available").
  assert (print_decision d = "    " +:+ d_name d +:+ "/" +:+ d_id d +:+ " " +:+ k) as ->.
  { unfold print_decision. by destruct (d_inlined d). }
  set (line := "    " +:+ _).
  assert (FindStringSubmatch inlSummaryHead line = None) as ->.
  { unfold inlSummaryHead. by apply FindStringSubmatch_begin_miss. }
  assert (String.eqb (TrimSpace line) "calls:" = false) as ->.
  { apply String.eqb_neq. intros H.
    assert (TrimSpace line = d_name d +:+ "/" +:+ d_id d +:+ " " +:+ k) as Ht.
    { change (TrimSpace line) with (TrimSpace (d_name d +:+ "/" +:+ d_id d +:+ " " +:+ k)).
      apply ident_trim; [done|]. split; [done|].
      assert (TrimRight k = k ∧ k ≠ "") as [Hk Hk'] by (by subst k; destruct (d_inlined d)).
      change ("/" +:+ d_id d +:+ " " +:+ k) with ("/" +:+ (d_id d +:+ (" " +:+ k))).
      rewrite <-(sapp_assoc (d_id d)), <-(sapp_assoc "/"). rewrite TrimRight_app; by rewrite Hk. }
    rewrite Ht in H. apply (f_equal (all_chars (λ a, negb (Ascii.eqb a "/")))) in H.
    rewrite !all_chars_app in H. cbn in H. by rewrite andb_false_r in H. }
  cbn [cur inCalls].
  assert (FindStringSubmatch inlCallEntry line =
            Some (RMatch 0 (String.length line) line [(3, k); (2, d_id d); (1, d_name d)])) as ->.
  { unfold inlCallEntry. apply FindStringSubmatch_begin_picks. subst line.
    apply (picks_cat _ _ "    " _ _ [] [(3, k); (2, d_id d); (1, d_name d)]).
    { apply picks_plus; [done..|]. destruct (d_name d) as [|a w]; [done|]. simpl in Hn.
      apply andb_true_iff in Hn as [Ha _]. revert Ha. clear.
      by destruct a as [[] [] [] [] [] [] [] []]. }
    apply (picks_cat _ _ (d_name d) _ _ [(1, d_name d)] [(3, k); (2, d_id d)]);
      [by apply picks_group, picks_ident|].
    apply (picks_cat _ _ "/" _ _ [] [(3, k); (2, d_id d)]); [by apply (picks_class _ _ "/")|].
    apply (picks_cat _ _ (d_id d) _ _ [(2, d_id d)] [(3, k)]);
      [by apply picks_group, picks_number|].
    apply (picks_cat _ _ " " _ _ [] [(3, k)]); [apply picks_plus; by subst k; destruct (d_inlined d)|].
    apply picks_group. subst k. destruct (d_inlined d).
    - apply picks_alt_l. apply (picks_literal "inline" _ "d"). by apply (picks_class _ _ "d").
    - apply picks_alt_r; [by intros st' Hst'; cbn [run]; rewrite Hst'|]. apply picks_alt_l.
      apply (picks_literal "function body not availabl" _ "e"). by apply (picks_class _ _ "e"). }
  unfold group. cbn. by subst k; destruct (d_inlined d).
Qed.

Lemma parse_block b st :
  block_ok b →
  ∃ m, foldl parse_line st (print_summary b) = St (Some (summary_of b)) false m ∧ m = flush st.
Proof.
  destruct b as [[[name id] inl] ds]. intros [Hh Hds]. exists (flush st). split; [|done].
  cbn [print_summary]. rewrite foldl_app. cbn [foldl]. rewrite head_line by exact Hh.
  change (parse_line (St (Some (MkInlineSummary id name "" inl [])) false (flush st)) "  calls:")
    with (St (Some (MkInlineSummary id name "" inl [])) true (flush st)).
  rewrite foldl_app. simpl in Hds.
  assert (∀ ids, foldl parse_line (St (Some (MkInlineSummary id name "" inl ids)) true (flush st))
      (print_decision <$> ds) =
    St (Some (MkInlineSummary id name "" inl (ids ++ (d_id <$> filter (λ d, d_inlined d = true) ds))))
       true (flush st)) as ->; [|done].
  clear Hh. induction Hds as [|d ds Hd _ IH]; intros ids; [by rewrite app_nil_r|].
  rewrite fmap_cons. cbn [foldl]. rewrite decision_line by done.
  destruct (d_inlined d) eqn:E.
  - rewrite filter_cons_True by done. unfold add_inlined. cbn [FunctionLocalID Name LinkageName Inlinable InlinedInto].
    rewrite IH, fmap_cons, <-app_assoc. done.
  - rewrite filter_cons_False by (by rewrite E). apply IH.
Qed.

(** Parsing the blocks GCC writes keeps, for each function id, its last summary
    (the one that carries the decisions), with exactly the inlined callees. *)
Theorem ParseInline_print bs :
  Forall block_ok bs → Forall (plain_line dump_max_line) (mjoin (print_summary <$> bs)) →
  ParseInline (unlines (mjoin (print_summary <$> bs))) =
    ((map_to_list (list_to_map (reverse ((λ b, (b.1.1.2, summary_of b)) <$> bs))
                     : gmap string InlineSummary)).*2, false).
Proof.
  intros Hbs Hl. unfold ParseInline. rewrite ScanLines_unlines by done. clear Hl.
  assert (∀ st, flush (foldl parse_line st (mjoin (print_summary <$> bs))) =
    list_to_map (reverse ((λ b, (b.1.1.2, summary_of b)) <$> bs)) ∪ flush st) as ->;
    [|change (flush init) with (∅ : gmap string InlineSummary); by rewrite (right_id_L ∅ (∪))].
  induction Hbs as [|b bs Hb _ IH]; intros st.
  { cbn. by rewrite (left_id_L ∅ (∪)). }
  cbn [fmap list_fmap mjoin list_join]. rewrite foldl_app.
  destruct (parse_block b st Hb) as (m & -> & ->). rewrite IH.
  rewrite reverse_cons, list_to_map_app. cbn [list_to_map foldr].
  change (flush (St (Some (summary_of b)) false (flush st))) with
    (<[FunctionLocalID (summary_of b) := summary_of b]> (flush st)).
  rewrite insert_union_singleton_l, (map_union_assoc).
  destruct b as [[[name id] inl] ds]. cbn. by rewrite insert_empty.
Qed.

Definition ex_blocks : list (string * string * bool * list decision) :=
  [("main", "2", false, []);
   ("main", "2", true, [MkDecision "helper" "1" true; MkDecision "puts" "3" false])].

Lemma ParseInline_print_witness :
  Forall block_ok ex_blocks ∧
  Forall (plain_line dump_max_line) (mjoin (print_summary <$> ex_blocks)) ∧
  ParseInline (unlines (mjoin (print_summary <$> ex_blocks))) =
    ([MkInlineSummary "2" "main" "" true ["1"]], false).
Proof.
  assert (Forall block_ok ex_blocks) as Hok by (repeat constructor).
  assert (Forall (plain_line dump_max_line) (mjoin (print_summary <$> ex_blocks))) as Hl by by_decide.
  split; [exact Hok|]. split; [exact Hl|]. rewrite (ParseInline_print _ Hok Hl). reflexivity.
Defined.

End Inline.

(** ** [.icf] *)

Module Icf.

Record ICFGroup := MkICFGroup { WinnerName : string; LoserNames : list string }.

#[export] Instance ICFGroup_eq_dec : EqDecision ICFGroup.
Proof. solve_decision. Defined.

Definition icfIntroducedRe : re := Eval vm_compute in
  MustCompile "Introduced new external node \(([A-Za-z_][\w.$]*)\.localalias/\d+\)".
Definition icfAnalyzingRe : re := Eval vm_compute in
  MustCompile "^Analyzing function:\s+([A-Za-z_][\w.$]*)/\d+".
Definition icfAliasCallRe : re := Eval vm_compute in
  MustCompile "\b([A-Za-z_][\w.$]*)\.localalias\s*\(".

Record state := St {
  winners : gset string;
  losersOf : gmap string (gset string);
  currentFn : string;
}.

Definition init : state := St ∅ ∅ "".

(** [losersOf[winner][currentFn] = true], the inner map made on first use. *)
Definition add_loser (current : string) (losers : gmap string (gset string)) (winner : string) :
    gmap string (gset string) :=
  if String.eqb current "" || String.eqb current winner then losers
  else <[winner := {[current]} ∪ default ∅ (losers !! winner)]> losers.

Definition parse_line (st : state) (line : string) : state :=
  match FindStringSubmatch icfIntroducedRe line with
  | Some m => St ({[group 1 m]} ∪ winners st) (losersOf st) (currentFn st)
  | None =>
    match FindStringSubmatch icfAnalyzingRe line with
    | Some m => St (winners st) (losersOf st) (group 1 m)
    | None =>
      St (winners st)
        (foldl (add_loser (currentFn st)) (losersOf st)
           (group 1 <$> FindAllStringSubmatch icfAliasCallRe line))
        (currentFn st)
    end
  end.

(** The group of one winner: none without a loser. *)
Definition group_of (losers : gmap string (gset string)) (w : string) : option ICFGroup :=
  match losers !! w with
  | None => None
  | Some ls => match elements ls with
               | [] => None
               | names => Some (MkICFGroup w (sort_strings names))
               end
  end.

(** Iterating the winners in any order and sorting the groups by winner is
    iterating the sorted winners. *)
Definition ParseICF (text : string) : result unit (list ICFGroup) :=
  let '(lines, too_long) := ScanLines dump_max_line text in
  if too_long then Err ()
  else let st := foldl parse_line init lines in
       Ok (omap (group_of (losersOf st)) (sort_strings (elements (winners st)))).

Definition ParseICFFile (fs : string → option string) (path : string) : result parse_error (list ICFGroup) :=
  match fs path with
  | None => Err (ErrOpen path)
  | Some text => match ParseICF text with Ok d => Ok d | Err _ => Err (ErrTooLong path) end
  end.

(** *** Properties *)

Lemma group_of_Some losers w g :
  group_of losers w = Some g →
  ∃ ls, losers !! w = Some ls ∧ ls ≠ ∅ ∧ g = MkICFGroup w (sort_strings (elements ls)).
Proof.
  unfold group_of. destruct (losers !! w) as [ls|]; [|done].
  destruct (elements ls) as [|x l] eqn:E; [done|]. intros [= <-].
  exists ls. split; [done|]. split; [|by rewrite E]. intros ->. by rewrite elements_empty in E.
Qed.

(** No function is ever recorded as folded into itself. *)
Definition proper (losers : gmap string (gset string)) : Prop :=
  ∀ w ls, losers !! w = Some ls → (w ∉ ls) ∧ ("" ∉ ls).

Lemma add_loser_proper current losers w : proper losers → proper (add_loser current losers w).
Proof.
  intros H. unfold add_loser. destruct (String.eqb_spec current ""); [done|].
  destruct (String.eqb_spec current w) as [|Hne]; [done|]. simpl.
  intros w' ls. rewrite lookup_insert_Some. intros [[<- <-]|[_ Hl]]; [|by apply H].
  destruct (losers !! w) as [ls|] eqn:E; simpl; [apply H in E; set_solver|set_solver].
Qed.

Lemma parse_line_proper st line : proper (losersOf st) → proper (losersOf (parse_line st line)).
Proof.
  intros H. unfold parse_line. repeat case_match; try done. simpl.
  apply (foldl_inv proper); [done|]. intros; by apply add_loser_proper.
Qed.

Lemma parse_lines_proper lines : proper (losersOf (foldl parse_line init lines)).
Proof.
  apply (foldl_inv (λ st, proper (losersOf st))); [|intros; by apply parse_line_proper].
  intros w ls H. cbn in H. by rewrite lookup_empty in H.
Qed.

Lemma omap_winners losers ws : sublist (WinnerName <$> omap (group_of losers) ws) ws.
Proof.
  induction ws as [|w ws IH]; [done|]. cbn [omap list_omap].
  destruct (group_of losers w) as [g|] eqn:E; [|by apply sublist_cons].
  apply group_of_Some in E as (ls & _ & _ & ->). by apply sublist_skip.
Qed.

(** The folding groups come out sorted by winner with no winner twice; every
    group has a loser, its losers are sorted without repetition, and no winner
    is among its own losers. *)
Theorem ParseICF_groups text gs :
  ParseICF text = Ok gs →
  StronglySorted String.le (WinnerName <$> gs) ∧ NoDup (WinnerName <$> gs) ∧
  Forall (λ g, LoserNames g ≠ [] ∧ NoDup (LoserNames g) ∧
               StronglySorted String.le (LoserNames g) ∧ WinnerName g ∉ LoserNames g) gs.
Proof.
  unfold ParseICF. destruct (ScanLines _ text) as [lines []]; [done|]. intros [= <-].
  set (st := foldl parse_line init lines).
  pose proof (omap_winners (losersOf st) (sort_strings (elements (winners st)))) as Hsub.
  split; [|split].
  - pose proof (sort_strings_sorted (elements (winners st))) as Hs. revert Hs Hsub.
    generalize (sort_strings (elements (winners st))). generalize (WinnerName <$> omap (group_of (losersOf st)) (sort_strings (elements (winners st)))).
    clear. intros l0 k0 Hs Hsub. induction Hsub as [|x l k Hsub IH|x l k Hsub IH]; [constructor| |].
    + inversion Hs as [|? ? Hs' Hf]; subst. constructor; [auto|].
      rewrite Forall_forall in *. intros y Hy. apply Hf. eapply sublist_subseteq; eauto.
    + inversion Hs; subst. auto.
  - eapply sublist_NoDup; [|exact Hsub]. rewrite NoDup_sort_strings. apply NoDup_elements.
  - apply Forall_forall. intros g Hg. apply list_elem_of_omap in Hg as (w & _ & Hg).
    apply group_of_Some in Hg as (ls & Hls & Hne & ->). simpl.
    pose proof (parse_lines_proper lines w ls Hls) as [Hw _].
    split; [|split; [|split]].
    + intros Hnil. apply Hne. apply leibniz_equiv, elements_empty_inv, Permutation_nil.
      rewrite <-Hnil. apply sort_strings_perm.
    + rewrite NoDup_sort_strings. apply NoDup_elements.
    + apply sort_strings_sorted.
    + by rewrite elem_of_sort_strings, elem_of_elements.
Qed.

Definition ex_icf : string := unlines
  ["Introduced new external node (clamp.localalias/5).";
   "Analyzing function: limit/3"; "  _1 = clamp.localalias (x_2(D));";
   "Analyzing function: bound/4"; "  return clamp.localalias (x_2(D));"].
Definition ex_groups : list ICFGroup := [MkICFGroup "clamp" ["bound"; "limit"]].

Lemma ParseICF_groups_witness :
  ParseICF ex_icf = Ok ex_groups ∧ NoDup (WinnerName <$> ex_groups) ∧
  Forall (λ g, LoserNames g ≠ [] ∧ WinnerName g ∉ LoserNames g) ex_groups.
Proof.
  assert (ParseICF ex_icf = Ok ex_groups) as H by (vm_compute; reflexivity).
  split; [exact H|]. destruct (ParseICF_groups _ _ H) as (_ & Hnd & Hall).
  split; [exact Hnd|]. eapply Forall_impl; [exact Hall|]. simpl. tauto.
Defined.

End Icf.

(** ** [.ci] *)

Module Ci.

Record CINode := MkCINode {
  Name : string;
  DeclFile : string;
  DeclLine : Z;
  DeclColumn : Z;
  StackBytes : Z;
  StackKind : string;
  DynamicObjs : Z;
  IsExternal : bool;
  IsIndirectPlaceholder : bool;
}.

Record CIEdge := MkCIEdge {
  Source : string;
  Target : string;
  SiteFile : string;
  SiteLine : Z;
  SiteColumn : Z;
  Indirect : bool;
}.

Record CI := MkCI {
  Title : string;
  Nodes : gmap string CINode;
  Edges : list CIEdge;
}.

Definition ciFieldRe : re := Eval vm_compute in
  MustCompile ("(\w+)\s*:\s*" +:+ str1 DQ +:+ "((?:[^" +:+ str1 DQ +:+ "\\]|\\.)*)" +:+ str1 DQ).
Definition ciFileLoc : re := Eval vm_compute in MustCompile "^(.*?):(\d+):(\d+)$".
Definition ciStackRe : re := Eval vm_compute in MustCompile "^(\d+)\s+bytes\s+\((\w+)\)$".
Definition ciDynRe : re := Eval vm_compute in MustCompile "^(\d+)\s+dynamic\s+objects?$".

(** The two escapes inside a label. *)
Definition unescape (v : string) : string :=
  ReplaceAll (ReplaceAll v "\n" (str1 NL)) ("\" +:+ str1 DQ) (str1 DQ).

Definition ciFields (line : string) : gmap string string :=
  foldl (λ out m, <[group 1 m := unescape (group 2 m)]> out) ∅ (FindAllStringSubmatch ciFieldRe line).

(** [fs[key]]: a missing key is the empty string. *)
Definition fld (fs : gmap string string) (key : string) : string := default "" (fs !! key).

(** The [default] case of the label loop: one line after the first. *)
Definition node_part (n : CINode) (part : string) : CINode :=
  match FindStringSubmatch ciFileLoc part with
  | Some m =>
    if String.eqb (DeclFile n) ""
    then MkCINode (Name n) (group 1 m) (Atoi_ (group 2 m)) (Atoi_ (group 3 m)) (StackBytes n)
           (StackKind n) (DynamicObjs n) (IsExternal n) (IsIndirectPlaceholder n)
    else match FindStringSubmatch ciStackRe part with
         | Some m => MkCINode (Name n) (DeclFile n) (DeclLine n) (DeclColumn n) (Atoi_ (group 1 m))
                       (group 2 m) (DynamicObjs n) (IsExternal n) (IsIndirectPlaceholder n)
         | None => match FindStringSubmatch ciDynRe part with
                   | Some m => MkCINode (Name n) (DeclFile n) (DeclLine n) (DeclColumn n) (StackBytes n)
                                 (StackKind n) (Atoi_ (group 1 m)) (IsExternal n) (IsIndirectPlaceholder n)
                   | None => n
                   end
         end
  | None =>
    match FindStringSubmatch ciStackRe part with
    | Some m => MkCINode (Name n) (DeclFile n) (DeclLine n) (DeclColumn n) (Atoi_ (group 1 m))
                  (group 2 m) (DynamicObjs n) (IsExternal n) (IsIndirectPlaceholder n)
    | None => match FindStringSubmatch ciDynRe part with
              | Some m => MkCINode (Name n) (DeclFile n) (DeclLine n) (DeclColumn n) (StackBytes n)
                            (StackKind n) (Atoi_ (group 1 m)) (IsExternal n) (IsIndirectPlaceholder n)
              | None => n
              end
    end
  end.

Definition parseCINode (fs : gmap string string) (raw : string) : CINode :=
  let n := MkCINode (fld fs "title") "" 0 0 0 "" 0
             (Contains raw "shape" && Contains raw "ellipse")
             (String.eqb (fld fs "title") "__indirect_call") in
  foldl (λ n part, let part := TrimSpace part in
                   if String.eqb part "" then n else node_part n part)
    n (tail (SplitByte NL (fld fs "label"))).

Definition parseCIEdge (fs : gmap string string) : CIEdge :=
  let src := fld fs "sourcename" in
  let tgt := fld fs "targetname" in
  let ind := String.eqb tgt "__indirect_call" in
  match FindStringSubmatch ciFileLoc (fld fs "label") with
  | Some m => MkCIEdge src tgt (group 1 m) (Atoi_ (group 2 m)) (Atoi_ (group 3 m)) ind
  | None => MkCIEdge src tgt "" 0 0 ind
  end.

Definition parse_line (ci : CI) (raw : string) : CI :=
  let line := TrimSpace raw in
  if String.eqb line "" || String.eqb line "}" then ci
  else if HasPrefix line "graph:" then
    let t := fld (ciFields line) "title" in
    if String.eqb t "" then ci else MkCI t (Nodes ci) (Edges ci)
  else if HasPrefix line "node:" then
    let n := parseCINode (ciFields line) line in
    MkCI (Title ci) (<[Name n := n]> (Nodes ci)) (Edges ci)
  else if HasPrefix line "edge:" then
    MkCI (Title ci) (Nodes ci) (Edges ci ++ [parseCIEdge (ciFields line)])
  else ci.

Definition ParseCI (text : string) : result unit CI :=
  let '(lines, too_long) := ScanLines ci_max_line text in
  if too_long then Err () else Ok (foldl parse_line (MkCI "" ∅ []) lines).

Definition ParseCIFile (fs : string → option string) (path : string) : result parse_error CI :=
  match fs path with
  | None => Err (ErrOpen path)
  | Some text => match ParseCI text with Ok ci => Ok ci | Err _ => Err (ErrTooLong path) end
  end.

End Ci.
