(* ===== verification/OptRecord.v ===== *)
(** * GCC's optimization record ([internal/gccdump/optrecord.go])

    The decompressed file is a JSON array of three elements; [json] is a decoded
    JSON value and the [decode_] functions are [encoding/json]'s rules for the
    types of the code ([null] leaves the zero value, a value of another type is
    an error, an object without the key leaves the field's zero value).  An
    object's keys are distinct and spelled as the struct tags are. *)

From S2P Require Import Prelude GoStrings.
From Stdlib Require Import ZArith Lia.

(** ** JSON values *)

Inductive json :=
| JNull
| JBool (b : bool)
| JNum (z : Z)
| JFloat
| JStr (s : string)
| JArr (l : list json)
| JObj (fs : list (string * json)).

Definition jget (k : string) (fs : list (string * json)) : option json :=
  snd <$> List.find (λ kv, String.eqb kv.1 k) fs.

Definition decode_string (j : json) : option string :=
  match j with JStr s => Some s | JNull => Some "" | _ => None end.
Definition decode_int (j : json) : option Z :=
  match j with
  | JNum z => if bool_decide (- 2 ^ 63 ≤ z < 2 ^ 63)%Z then Some z else None
  | JNull => Some 0%Z
  | _ => None
  end.
Definition decode_list {A} (d : json → option A) (j : json) : option (list A) :=
  match j with JArr l => mapM d l | JNull => Some [] | _ => None end.

(** A struct field: absent means its zero value. *)
Definition field {A} (k : string) (zero : A) (d : json → option A) (fs : list (string * json)) : option A :=
  match jget k fs with None => Some zero | Some j => d j end.

(** ** Data *)

Definition SupportedOptRecordFormat : string := "1".

Inductive optPass := MkOptPass (ID Name : string) (Optgroups : list string) (Children : list optPass).

Record optLocation := MkOptLocation { loc_File : string; loc_Line : Z; loc_Column : Z }.

Record optRecord := MkOptRecord {
  rec_Kind : string;
  rec_Pass : string;
  rec_Message : list json;
  rec_Location : option optLocation;
}.

Record InlineRecord := MkInlineRecord {
  Pass : string;
  CallerLocalID : string;
  CalleeLocalID : string;
  CallerName : string;
  CalleeName : string;
  Inlined : bool;
  Reason : string;
  File : string;
  Line : Z;
  Column : Z;
}.

#[export] Instance InlineRecord_eq_dec : EqDecision InlineRecord.
Proof. solve_decision. Defined.

(** ** Decoding *)

Definition decode_meta (j : json) : option string :=
  match j with
  | JObj fs => field "format" "" decode_string fs
  | JNull => Some ""
  | _ => None
  end.

Fixpoint decode_pass (j : json) : option optPass :=
  match j with
  | JNull => Some (MkOptPass "" "" [] [])
  | JObj fs =>
    id ← field "id" "" decode_string fs;
    name ← field "name" "" decode_string fs;
    groups ← field "optgroups" [] (decode_list decode_string) fs;
    children ←
      (fix find_children (fs : list (string * json)) : option (list optPass) :=
         match fs with
         | [] => Some []
         | (k, v) :: fs =>
           if String.eqb k "children"
           then match v with
                | JArr l =>
                  (fix all (l : list json) : option (list optPass) :=
                     match l with
                     | [] => Some []
                     | x :: l => p ← decode_pass x; ps ← all l; Some (p :: ps)
                     end) l
                | JNull => Some []
                | _ => None
                end
           else find_children fs
         end) fs;
    Some (MkOptPass id name groups children)
  | _ => None
  end.

Definition decode_location (j : json) : option (option optLocation) :=
  match j with
  | JNull => Some None
  | JObj fs =>
    f ← field "file" "" decode_string fs;
    l ← field "line" 0%Z decode_int fs;
    c ← field "column" 0%Z decode_int fs;
    Some (Some (MkOptLocation f l c))
  | _ => None
  end.

Definition decode_record (j : json) : option optRecord :=
  match j with
  | JNull => Some (MkOptRecord "" "" [] None)
  | JObj fs =>
    kind ← field "kind" "" decode_string fs;
    pass ← field "pass" "" decode_string fs;
    msg ← field "message" [] (decode_list Some) fs;
    loc ← field "location" None decode_location fs;
    Some (MkOptRecord kind pass msg loc)
  | _ => None
  end.

(** ** Operations *)

(** [collectInlinePasses(tree, out)]: parents before children, siblings in order. *)
Fixpoint collect_pass (p : optPass) (out : gmap string string) : gmap string string :=
  match p with
  | MkOptPass id name groups children =>
    foldl (λ out c, collect_pass c out)
      (if bool_decide ("inline" ∈ groups) then <[id := name]> out else out) children
  end.

Definition collectInlinePasses (passes : list optPass) (out : gmap string string) : gmap string string :=
  foldl (λ out p, collect_pass p out) out passes.

(** [strings.LastIndex] cut: both parts must be non-empty. *)
Definition splitNode (s : string) : option (string * string) :=
  match LastIndex s "/" with
  | None => None
  | Some i => if (i =? 0) || (i =? String.length s - 1) then None
              else Some (stake i s, sdrop (i + 1) s)
  end.

Definition cleanReason (tail : string) : string :=
  let tail := match Index tail (str1 NL) with Some i => stake i tail | None => tail end in
  let tail := TrimSpace tail in
  let tail := TrimPrefix tail "," in
  let tail := TrimSuffix (TrimSpace tail) "." in
  TrimSpace tail.

(** What [recordFromMessage] makes of a message item. *)
Inductive msg_item := MText (s : string) | MNode (n : string) | MSkip.

Definition decode_item (j : json) : msg_item :=
  match decode_string j with
  | Some s => MText s
  | None =>
    match j with
    | JObj fs => match field "symtab_node" "" decode_string fs with
                 | Some n => if String.eqb n "" then MSkip else MNode n
                 | None => MSkip
                 end
    | _ => MSkip
    end
  end.

(** The loop's variables: the nodes, the text before each, the text in progress. *)
Record msg_state := MsgState { ms_nodes : list string; ms_seps : list string; ms_cur : string }.

Definition msg_step (st : msg_state) (j : json) : msg_state :=
  match decode_item j with
  | MText s => MsgState (ms_nodes st) (ms_seps st) (ms_cur st +:+ s)
  | MNode n => MsgState (ms_nodes st ++ [n]) (ms_seps st ++ [ms_cur st]) ""
  | MSkip => st
  end.

(** The direction a separator gives: [true] when the caller comes first. *)
Definition caller_first (sep : string) : option bool :=
  if Contains sep "->" then Some true
  else if Contains sep " into " || Contains sep " to " then Some false
  else None.

Definition recordFromMessage (rec : optRecord) (pass : string) : option InlineRecord :=
  let st := foldl msg_step (MsgState [] [] "") (rec_Message rec) in
  match ms_nodes st, ms_seps st with
  | n0 :: n1 :: _, _ :: sep :: _ =>
    '(first, firstID) ← splitNode n0;
    '(second, secondID) ← splitNode n1;
    let inlined := String.eqb (rec_Kind rec) "success" in
    cf ← caller_first sep;
    let reason := if inlined then "" else cleanReason (ms_cur st) in
    let loc := default (MkOptLocation "" 0 0) (rec_Location rec) in
    Some (if cf : bool
          then MkInlineRecord pass firstID secondID first second inlined reason
                 (loc_File loc) (loc_Line loc) (loc_Column loc)
          else MkInlineRecord pass secondID firstID second first inlined reason
                 (loc_File loc) (loc_Line loc) (loc_Column loc))
  | _, _ => None
  end.

Definition keep_record (passes : gmap string string) (rec : optRecord) : option InlineRecord :=
  pass ← passes !! rec_Pass rec;
  if String.eqb (rec_Kind rec) "success" || String.eqb (rec_Kind rec) "failure"
  then recordFromMessage rec pass else None.

(** The loop over the records with its [seen] set. *)
Definition add_record (passes : gmap string string) (out : list InlineRecord) (rec : optRecord) :
    list InlineRecord :=
  match keep_record passes rec with
  | None => out
  | Some ir => if bool_decide (ir ∈ out) then out else out ++ [ir]
  end.

Inductive opt_error :=
| ErrJSON
| ErrShort (n : nat)
| ErrMetadata
| ErrFormat (f : string)
| ErrPassTree
| ErrRecords.

(** [None] is a text that is no JSON value. *)
Definition ParseOptRecord (doc : option json) : result opt_error (list InlineRecord) :=
  match doc with
  | None => Err ErrJSON
  | Some j =>
    match decode_list Some j with
    | None => Err ErrJSON
    | Some (m :: t :: r :: _) =>
      match decode_meta m with
      | None => Err ErrMetadata
      | Some f =>
        if negb (String.eqb f SupportedOptRecordFormat) then Err (ErrFormat f)
        else match decode_list decode_pass t with
        | None => Err ErrPassTree
        | Some tree =>
          let passes := collectInlinePasses tree ∅ in
          match decode_list decode_record r with
          | None => Err ErrRecords
          | Some records => Ok (foldl (add_record passes) [] records)
          end
        end
      end
    | Some top => Err (ErrShort (length top))
    end
  end.

(** [ParseOptRecordFile]: [json_of] is what gunzip and the decoder make of the file. *)
Inductive opt_file_error := OptOpen (path : string) | OptParse (path : string) (e : opt_error).

Definition ParseOptRecordFile (fs : string → option string) (json_of : string → option json) (path : string) :
    result opt_file_error (list InlineRecord) :=
  match fs path with
  | None => Err (OptOpen path)
  | Some text => match ParseOptRecord (json_of text) with Ok d => Ok d | Err e => Err (OptParse path e) end
  end.

(** ** Properties *)

Lemma splitNode_spec name id :
  name ≠ "" → id ≠ "" → lacks "/" id = true → splitNode (name +:+ "/" +:+ id) = Some (name, id).
Proof.
  intros Hn Hi Hl. unfold splitNode. change ("/" +:+ id) with (String "/" id).
  change "/" with (str1 "/") at 1. rewrite LastIndex_last by done.
  destruct name as [|a name]; [done|]. destruct id as [|b id]; [done|]. cbn [String.length].
  rewrite slen_app. simpl (_ =? 0). 
  replace (S (String.length name) =? _) with false.
  2: { symmetry. apply Nat.eqb_neq. simpl. lia. }
  cbn [orb]. do 2 f_equal.
  - apply (stake_app (String a name)).
  - apply (sdrop_all_but (String a name)).
Qed.

(** What [splitNode] accepts is a name, a slash and an order, with the order
    after the last slash. *)
Lemma splitNode_sound s name id :
  splitNode s = Some (name, id) → s = name +:+ "/" +:+ id ∧ name ≠ "" ∧ id ≠ "".
Proof.
  unfold splitNode. destruct (LastIndex s "/") as [i|] eqn:E; [|done].
  assert (s = stake i s +:+ "/" +:+ sdrop (i + 1) s ∧ i < String.length s) as [Hs Hi].
  { revert i E. induction s as [|a s IH]; intros i E; [done|]. cbn [LastIndex] in E.
    destruct (LastIndex s "/") as [j|].
    - injection E as <-. destruct (IH j eq_refl) as [H1 H2]. simpl. rewrite sapp_cons.
      split; [by f_equal|lia].
    - destruct (HasPrefix (String a s) "/") eqn:Ea; [|done]. injection E as <-.
      change (HasPrefix (String a s) (str1 "/") = true) in Ea. rewrite HasPrefix_str1 in Ea. apply Ascii.eqb_eq in Ea as ->. simpl. split; [done|lia]. }
  destruct (Nat.eqb_spec i 0) as [|H0]; [done|]. destruct (Nat.eqb_spec i (String.length s - 1)) as [|H1]; [done|].
  intros [= <- <-]. split; [done|]. split.
  - destruct s, i; simpl in *; try done; lia.
  - intros H. apply (f_equal String.length) in H. rewrite slen_sdrop in H. simpl in H. lia.
Qed.

Definition node_item (name id : string) : json := JObj [("symtab_node", JStr (name +:+ "/" +:+ id))].

(** A two-node message whose separator has an arrow, "into" or "to" becomes a
    record with caller and callee on the sides the wording gives them, for any
    node names (slashes and clone suffixes included) and any text around them;
    a rejection carries the cleaned tail, an inlining no reason. *)
Theorem recordFromMessage_edge kind rpass loc pass pre sep tail n1 i1 n2 i2 :
  n1 ≠ "" → i1 ≠ "" → lacks "/" i1 = true → n2 ≠ "" → i2 ≠ "" → lacks "/" i2 = true →
  recordFromMessage
    (MkOptRecord kind rpass [JStr pre; node_item n1 i1; JStr sep; node_item n2 i2; JStr tail] loc) pass =
  (λ cf : bool,
     let l := default (MkOptLocation "" 0 0) loc in
     let inl := String.eqb kind "success" in
     MkInlineRecord pass
       (if cf then i1 else i2) (if cf then i2 else i1) (if cf then n1 else n2) (if cf then n2 else n1)
       inl (if inl then "" else cleanReason tail) (loc_File l) (loc_Line l) (loc_Column l))
  <$> caller_first sep.
Proof.
  intros Hn1 Hi1 Hl1 Hn2 Hi2 Hl2. unfold recordFromMessage. cbn [rec_Message foldl].
  assert (∀ n i st, n ≠ "" → msg_step st (node_item n i) =
    MsgState (ms_nodes st ++ [n +:+ "/" +:+ i]) (ms_seps st ++ [ms_cur st]) "") as Hnode.
  { intros n i st Hn. unfold msg_step, node_item, decode_item. cbn.
    destruct (String.eqb_spec (n +:+ "/" +:+ i) "") as [H|]; [|done].
    by apply sapp_eq_nil in H as [??]. }
  rewrite !Hnode by done. cbn. rewrite !sapp_nil_l.
  rewrite (splitNode_spec n1), (splitNode_spec n2) by done. cbn.
  destruct (caller_first sep) as [[]|]; done.
Qed.

Lemma recordFromMessage_edge_witness :
  ("f" ≠ "" ∧ "12" ≠ "" ∧ lacks "/" "12" = true) ∧ ("g.constprop.0" ≠ "" ∧ "7" ≠ "" ∧ lacks "/" "7" = true) ∧
  recordFromMessage
    (MkOptRecord "success" "0x1" [JStr "Inlined "; node_item "g.constprop.0" "7"; JStr " into ";
                                  node_item "f" "12"; JStr " which now has ..."]
       (Some (MkOptLocation "a.c" 3 5))) "inline" =
  Some (MkInlineRecord "inline" "12" "7" "f" "g.constprop.0" true "" "a.c" 3 5).
Proof.
  split; [by_decide|]. split; [by_decide|].
  rewrite (recordFromMessage_edge "success" "0x1" _ "inline" "Inlined " " into " " which now has ..."
             "g.constprop.0" "7" "f" "12"); [reflexivity|by_decide..].
Defined.

(** The passes of a tree in the order the code visits them. *)
Fixpoint flatten (p : optPass) : list (string * string * bool) :=
  match p with
  | MkOptPass id name groups children =>
    (id, name, bool_decide ("inline" ∈ groups)) :: (children ≫= flatten)
  end.

Definition add_flat (out : gmap string string) (e : string * string * bool) : gmap string string :=
  if e.2 then <[e.1.1 := e.1.2]> out else out.

Lemma collect_pass_flatten p out : collect_pass p out = foldl add_flat out (flatten p).
Proof.
  revert p out. fix IH 1. intros [id name groups children] out. cbn [collect_pass flatten foldl].
  unfold add_flat at 2. cbn [fst snd].
  generalize (if bool_decide ("inline" ∈ groups) then <[id:=name]> out else out). clear out.
  induction children as [|c cs IHcs]; intros o; [done|].
  cbn [foldl mbind list_bind]. rewrite foldl_app, <-IH. apply IHcs.
Qed.

(** A pass counts as an inline pass exactly when some node of the tree, at any
    depth, has its id and the "inline" group. *)
Theorem collectInlinePasses_spec tree id :
  is_Some (collectInlinePasses tree ∅ !! id) ↔
  ∃ name, (id, name, true) ∈ (tree ≫= flatten).
Proof.
  assert (∀ out, collectInlinePasses tree out = foldl add_flat out (tree ≫= flatten)) as ->.
  { unfold collectInlinePasses. induction tree as [|p ps IH]; intros out; [done|].
    cbn [foldl mbind list_bind]. by rewrite foldl_app, <-collect_pass_flatten, <-IH. }
  generalize (tree ≫= flatten). intros l.
  induction l as [|[[i n] b] l IH] using rev_ind.
  { simpl. rewrite lookup_empty, is_Some_alt. set_solver. }
  rewrite foldl_app. simpl. unfold add_flat at 1. cbn [fst snd]. destruct b.
  - destruct (decide (i = id)) as [->|Hne].
    + rewrite lookup_insert_eq. split; [|eauto]. intros _. exists n. set_solver.
    + rewrite lookup_insert_ne by done. rewrite IH. set_solver.
  - rewrite IH. set_solver.
Qed.

Lemma recordFromMessage_reason rec pass ir :
  recordFromMessage rec pass = Some ir →
  Pass ir = pass ∧ (Inlined ir = true → Reason ir = "") ∧
  CallerName ir ≠ "" ∧ CalleeName ir ≠ "" ∧ CallerLocalID ir ≠ "" ∧ CalleeLocalID ir ≠ "" ∧
  (Inlined ir = true ↔ rec_Kind rec = "success").
Proof.
  unfold recordFromMessage. destruct (ms_nodes _) as [|n0 [|n1 ns]]; [done..|].
  destruct (ms_seps _) as [|s0 [|sep seps]]; [done..|].
  destruct (splitNode n0) as [[f fi]|] eqn:E0; [|done].
  destruct (splitNode n1) as [[g gi]|] eqn:E1; [|done]. cbn.
  apply splitNode_sound in E0 as (_ & ? & ?). apply splitNode_sound in E1 as (_ & ? & ?).
  destruct (caller_first sep) as [[]|]; [..|done]; cbn; intros [= <-]; cbn;
    (split; [done|]; split; [by intros ->|]; repeat (split; [done|]); apply String.eqb_eq).
Qed.

(** The records kept are those of the successes and failures of inline passes,
    without repetition and in the order of the file; each names both ends, and
    only a rejection has a reason. *)
Theorem ParseOptRecord_records f meta tree rest recs t rs :
  decode_meta meta = Some f → f = SupportedOptRecordFormat →
  decode_list decode_pass tree = Some t → decode_list decode_record rest = Some rs →
  ParseOptRecord (Some (JArr [meta; tree; rest])) = Ok recs →
  NoDup recs ∧
  (∀ ir, ir ∈ recs ↔ ∃ rec pass, rec ∈ rs ∧ collectInlinePasses t ∅ !! rec_Pass rec = Some pass ∧
                      rec_Kind rec ∈ ["success"; "failure"] ∧ recordFromMessage rec pass = Some ir) ∧
  sublist recs (omap (keep_record (collectInlinePasses t ∅)) rs) ∧
  Forall (λ ir, CallerName ir ≠ "" ∧ CalleeName ir ≠ "" ∧ (Inlined ir = true → Reason ir = "")) recs.
Proof.
  intros Hm -> Ht Hr. unfold ParseOptRecord. cbn [decode_list].
  assert (mapM Some [meta; tree; rest] = Some [meta; tree; rest]) as -> by done.
  rewrite Hm. cbn [negb]. rewrite String.eqb_refl, Ht, Hr. cbn [negb]. intros [= <-].
  set (passes := collectInlinePasses t ∅). clear Hm Ht Hr meta tree rest.
  assert (∀ rec ir, keep_record passes rec = Some ir ↔ ∃ pass, passes !! rec_Pass rec = Some pass ∧
    rec_Kind rec ∈ ["success"; "failure"] ∧ recordFromMessage rec pass = Some ir) as Hkeep.
  { intros rec ir. unfold keep_record. destruct (passes !! rec_Pass rec) as [p|]; cbn; [|naive_solver].
    destruct (String.eqb_spec (rec_Kind rec) "success") as [->|];
      [|destruct (String.eqb_spec (rec_Kind rec) "failure") as [->|]]; cbn; set_solver. }
  assert (NoDup (foldl (add_record passes) [] rs) ∧
    (∀ ir, ir ∈ foldl (add_record passes) [] rs ↔ ∃ rec, rec ∈ rs ∧ keep_record passes rec = Some ir) ∧
    sublist (foldl (add_record passes) [] rs) (omap (keep_record passes) rs)) as (Hnd & Hin & Hsub).
  { induction rs as [|rec rs (IH1 & IH2 & IH3)] using rev_ind; [set_solver by constructor|].
    rewrite foldl_app, omap_app. simpl. set (out := foldl (add_record passes) [] rs) in *.
    unfold add_record. destruct (keep_record passes rec) as [ir|] eqn:E.
    - case_bool_decide as Hir.
      + split; [done|]. split; [|by apply sublist_inserts_r]. set_solver.
      + split; [apply NoDup_app; set_solver by (auto using NoDup_singleton)|].
        split; [set_solver|]. by apply sublist_app.
    - rewrite app_nil_r. split; [done|]. split; [set_solver|done]. }
  split; [done|]. split; [|split; [done|]].
  - intros ir. rewrite Hin. setoid_rewrite Hkeep. naive_solver.
  - apply Forall_forall. intros ir Hir. apply Hin in Hir as (rec & _ & Hk).
    apply Hkeep in Hk as (p & _ & _ & Hk). apply recordFromMessage_reason in Hk. naive_solver.
Qed.

(** A record file with one inline pass, nested in another, and a repeated record. *)
Definition ex_meta : json := JObj [("format", JStr "1")].
Definition ex_tree : json :=
  JArr [JObj [("id", JStr "p0"); ("name", JStr "ipa"); ("children",
    JArr [JObj [("id", JStr "p1"); ("name", JStr "inline"); ("optgroups", JArr [JStr "inline"])]])]].
Definition ex_hit : json :=
  JObj [("kind", JStr "success"); ("pass", JStr "p1");
        ("message", JArr [JStr "Inlined "; node_item "g" "7"; JStr " into "; node_item "f" "12"])].
Definition ex_records : json := JArr [ex_hit; ex_hit].

Lemma ParseOptRecord_records_witness :
  decode_meta ex_meta = Some SupportedOptRecordFormat ∧
  ∃ t rs recs, decode_list decode_pass ex_tree = Some t ∧ decode_list decode_record ex_records = Some rs ∧
    ParseOptRecord (Some (JArr [ex_meta; ex_tree; ex_records])) = Ok recs ∧
    recs = [MkInlineRecord "inline" "12" "7" "f" "g" true "" "" 0 0] ∧ NoDup recs.
Proof.
  split; [reflexivity|]. do 3 eexists. split; [reflexivity|]. split; [reflexivity|].
  split; [reflexivity|]. split; [reflexivity|].
  eapply (ParseOptRecord_records _ ex_meta ex_tree ex_records); reflexivity.
Defined.

(** A record file of another format is refused, whatever else it holds. *)
Theorem ParseOptRecord_format f meta tree rest more :
  decode_meta meta = Some f → f ≠ SupportedOptRecordFormat →
  ParseOptRecord (Some (JArr (meta :: tree :: rest :: more))) = Err (ErrFormat f).
Proof.
  intros Hm Hf. unfold ParseOptRecord. cbn [decode_list].
  assert (∀ l : list json, mapM Some l = Some l) as ->.
  { clear. induction l as [|x l IH]; [done|]. simpl. by rewrite IH. }
  rewrite Hm. apply String.eqb_neq in Hf. by rewrite Hf.
Qed.
