(* ===== verification/Paths.v ===== *)
(** * Paths ([path/filepath], [internal/ingest/paths.go], [externalglob.go], [internal/builddir])

    [Clean], [Join], [Rel] and [Match] are the functions of [path/filepath] on
    Unix, computed on the segments of a path.  Module [Resolver] turns the paths
    of the dumps into project-relative ones, [ExternalGlob] is the
    --include-external pattern, and [BuildDir] the crawl of a build directory
    given as a tree. *)

From S2P Require Import Prelude GoStrings.
From Stdlib Require Import ZArith Lia.

(** ** [path/filepath] *)

Definition IsAbs (p : string) : bool := HasPrefix p "/".

(** The segments [Clean] keeps, last first: "" and "." are dropped, ".." removes the
    segment before it, and at the start is dropped on a rooted path and kept on
    a relative one. *)
Definition clean_seg (rooted : bool) (out : list string) (seg : string) : list string :=
  if String.eqb seg "" || String.eqb seg "." then out
  else if String.eqb seg ".." then
    match out with
    | [] => if rooted then [] else [".."]
    | s :: out' => if String.eqb s ".." then ".." :: out else out'
    end
  else seg :: out.

Definition clean_segs (rooted : bool) (segs : list string) : list string :=
  reverse (foldl (clean_seg rooted) [] segs).

Definition segments (p : string) : list string := clean_segs (IsAbs p) (SplitByte "/" p).

Definition render (rooted : bool) (segs : list string) : string :=
  if rooted then "/" +:+ Join segs "/"
  else match segs with [] => "." | _ => Join segs "/" end.

Definition Clean (p : string) : string := render (IsAbs p) (segments p).

(** [filepath.Join(a, b)] *)
Definition PathJoin (l : list string) : string :=
  match filter (λ s, s ≠ "") l with
  | [] => ""
  | l => Clean (Join l "/")
  end.

(** The two lists past their common prefix. *)
Fixpoint drop_common (l k : list string) : list string * list string :=
  match l, k with
  | x :: l', y :: k' => if String.eqb x y then drop_common l' k' else (l, k)
  | _, _ => (l, k)
  end.

(** [filepath.Rel(base, targ)]: [None] is its error. *)
Definition Rel (base targ : string) : option string :=
  if negb (Bool.eqb (IsAbs base) (IsAbs targ)) then None
  else
    let '(b, t) := drop_common (segments base) (segments targ) in
    if match b with x :: _ => String.eqb x ".." | [] => false end then None
    else Some (render false (((λ _, "..") <$> b) ++ t)).

(** *** [filepath.Match] on one path segment pattern *)

(** A bracket expression after its opening bracket (and caret): whether a range
    holds [c], and the pattern after the closing bracket; [None] is
    [ErrBadPattern]. *)
Definition get_esc (pat : string) : option (ascii * string) :=
  match pat with
  | "" => None
  | String "-" _ | String "]" _ => None
  | String "\" rest => match rest with
                       | String c (String d rest') => Some (c, String d rest')
                       | _ => None
                       end
  | String _ "" => None
  | String c rest => Some (c, rest)
  end.

Fixpoint match_class (fuel : nat) (c : ascii) (pat : string) (nrange : nat) (hit : bool) :
    option (bool * string) :=
  match fuel with
  | 0 => None
  | S fuel =>
    match pat, nrange with
    | String "]" rest, S _ => Some (hit, rest)
    | _, _ =>
      '(lo, pat) ← get_esc pat;
      match pat with
      | String "-" pat =>
        '(hi, pat) ← get_esc pat;
        match_class fuel c pat (S nrange) (hit || in_range (N_of_ascii lo) (N_of_ascii hi) c)
      | _ => match_class fuel c pat (S nrange) (hit || Ascii.eqb lo c)
      end
    end
  end.

(** [ok] of [filepath.Match]: a malformed pattern does not match. *)
Fixpoint glob (fuel : nat) (pat s : string) : bool :=
  match fuel with
  | 0 => false
  | S fuel =>
    match pat with
    | "" => String.eqb s ""
    | String "*" pat' =>
      glob fuel pat' s ||
      match s with String c s' => negb (Ascii.eqb c "/") && glob fuel pat s' | "" => false end
    | String "?" pat' =>
      match s with String c s' => negb (Ascii.eqb c "/") && glob fuel pat' s' | "" => false end
    | String "[" pat' =>
      match s with
      | "" => false
      | String c s' =>
        let '(neg, body) := match pat' with String "^" r => (true, r) | _ => (false, pat') end in
        match match_class (String.length body + 1) c body 0 false with
        | Some (hit, rest) => negb (Bool.eqb hit neg) && glob fuel rest s'
        | None => false
        end
      end
    | String "\" pat' =>
      match pat', s with
      | String e rest, String c s' => Ascii.eqb e c && glob fuel rest s'
      | _, _ => false
      end
    | String a pat' => match s with String c s' => Ascii.eqb a c && glob fuel pat' s' | "" => false end
    end
  end.

(** Every round consumes a byte of the pattern or of the name. *)
Definition Match (pat s : string) : bool := glob (String.length pat + String.length s + 1) pat s.

(** *** Lemmas on segments *)

(** A segment that stays where it is. *)
Definition normal (s : string) : Prop := s ≠ "" ∧ s ≠ "." ∧ s ≠ ".." ∧ lacks "/" s = true.

Lemma clean_seg_normal rooted out s : normal s → clean_seg rooted out s = s :: out.
Proof.
  intros (H1 & H2 & H3 & _). unfold clean_seg.
  apply String.eqb_neq in H1, H2, H3. by rewrite H1, H2, H3.
Qed.

Lemma clean_normal rooted out segs :
  Forall normal segs → foldl (clean_seg rooted) out segs = reverse segs ++ out.
Proof.
  intros H. revert out; induction H as [|s segs Hs _ IH]; intros out; [done|].
  cbn [foldl]. by rewrite clean_seg_normal, IH, reverse_cons, <-app_assoc.
Qed.

Lemma rooted_segs_normal segs :
  Forall (λ s, lacks "/" s = true) segs → Forall normal (clean_segs true segs).
Proof.
  intros H. unfold clean_segs. apply Forall_reverse.
  assert (∀ out, Forall normal out → Forall normal (foldl (clean_seg true) out segs)) as Hf;
    [|by apply Hf].
  induction H as [|s segs Hs _ IH]; intros out Hout; [done|]. cbn [foldl]. apply IH.
  unfold clean_seg. destruct (String.eqb_spec s ""), (String.eqb_spec s "."); try done.
  destruct (String.eqb_spec s ".."); [|by constructor].
  destruct Hout as [|o out Ho Hout]; [done|].
  destruct (String.eqb_spec o ".."); [|done]. destruct Ho as (_ & _ & ? & _). done.
Qed.

Lemma segments_normal p : IsAbs p = true → Forall normal (segments p).
Proof.
  intros Hp. unfold segments. rewrite Hp. apply rooted_segs_normal, Forall_forall.
  intros s Hs. by apply SplitByte_no_sep in Hs.
Qed.

Lemma IsAbs_render segs : IsAbs (render true segs) = true.
Proof. apply HasPrefix_app. Qed.

Lemma clean_segs_empty rooted segs : clean_segs rooted ("" :: segs) = clean_segs rooted segs.
Proof. done. Qed.

Lemma segments_render segs : Forall normal segs → segments (render true segs) = segs.
Proof.
  intros H. unfold segments. rewrite IsAbs_render. unfold render.
  change (SplitByte "/" ("/" +:+ Join segs "/")) with ("" :: SplitByte "/" (Join segs "/")).
  rewrite clean_segs_empty. destruct (decide (segs = [])) as [->|Hne]; [done|].
  change (Join segs "/") with (Join segs (str1 "/")). rewrite SplitByte_Join; [|done|].
  - unfold clean_segs. by rewrite clean_normal, app_nil_r, reverse_involutive.
  - eapply Forall_impl; [exact H|]. by intros s (_ & _ & _ & ?).
Qed.

Lemma Clean_abs p : IsAbs p = true → Clean p = render true (segments p).
Proof. intros H. unfold Clean. by rewrite H. Qed.

Lemma IsAbs_Clean p : IsAbs p = true → IsAbs (Clean p) = true.
Proof. intros H. rewrite Clean_abs by done. apply IsAbs_render. Qed.

Lemma segments_Clean p : IsAbs p = true → segments (Clean p) = segments p.
Proof. intros H. rewrite Clean_abs by done. by apply segments_render, segments_normal. Qed.

(** Segments of a relative path after a rooted one. *)
Lemma segments_app root rel :
  IsAbs root = true → segments (root +:+ "/" +:+ rel) = reverse (foldl (clean_seg true) (reverse (segments root)) (SplitByte "/" rel)).
Proof.
  intros Hr. unfold segments.
  assert (IsAbs (root +:+ "/" +:+ rel) = true) as ->.
  { apply HasPrefix_true in Hr as [r ->]. rewrite sapp_assoc. apply HasPrefix_app. }
  rewrite Hr. unfold clean_segs. rewrite reverse_involutive, <-foldl_app. do 2 f_equal. clear Hr.
  change ("/" +:+ rel) with (String "/" rel).
  induction root as [|a root IH]; [done|]. rewrite sapp_cons. cbn [SplitByte]. rewrite IH.
  destruct (Ascii.eqb a "/"); [done|].
  pose proof (SplitByte_nonempty "/" root). by destruct (SplitByte "/" root).
Qed.

Lemma drop_common_spec l k b t :
  drop_common l k = (b, t) → ∃ c, l = c ++ b ∧ k = c ++ t ∧
    match b, t with x :: _, y :: _ => x ≠ y | _, _ => True end.
Proof.
  revert k; induction l as [|x l IH]; intros k H; simpl in H.
  { injection H as <- <-. by exists []. }
  destruct k as [|y k]; [injection H as <- <-; by exists []|].
  destruct (String.eqb_spec x y) as [->|Hne].
  - apply IH in H as (c & -> & -> & ?). by exists (y :: c).
  - injection H as <- <-. by exists [].
Qed.

Lemma drop_common_prefix l t : drop_common l (l ++ t) = ([], t).
Proof. induction l as [|x l IH]; [done|]. simpl. by rewrite String.eqb_refl. Qed.

(** [Rel] between rooted paths never fails. *)
Lemma Rel_abs base targ :
  IsAbs base = true → IsAbs targ = true →
  ∃ c b t, segments base = c ++ b ∧ segments targ = c ++ t ∧
    drop_common (segments base) (segments targ) = (b, t) ∧
    Rel base targ = Some (render false (((λ _, "..") <$> b) ++ t)).
Proof.
  intros Hb Ht. unfold Rel. rewrite Hb, Ht. cbn [Bool.eqb negb].
  destruct (drop_common _ _) as [b t] eqn:E. pose proof E as E'.
  apply drop_common_spec in E' as (c & Hc1 & Hc2 & _). exists c, b, t.
  split; [done|]. split; [done|]. split; [done|].
  pose proof (segments_normal base Hb) as Hn. rewrite Hc1, Forall_app in Hn. destruct Hn as [_ Hn].
  destruct b as [|x b]; [done|]. inversion Hn as [|? ? (_ & _ & Hx & _) _]; subst.
  apply String.eqb_neq in Hx. by rewrite Hx.
Qed.

(** ** [PathResolver] *)

Module Resolver.

Record PathResolver := MkPathResolver { BuildDir : string; ProjectRoot : string }.

(** [filepath.Abs] from the working directory [cwd]. *)
Definition Abs (cwd p : string) : string := if IsAbs p then Clean p else PathJoin [cwd; p].

Definition NewPathResolver (cwd buildDir projectRoot : string) : PathResolver :=
  MkPathResolver (Abs cwd buildDir) (Abs cwd projectRoot).

Record ResolvedPath := MkResolvedPath { RelPath : string; InProject : bool }.

Definition absolute (pr : PathResolver) (p : string) : string :=
  Clean (if IsAbs p then p else PathJoin [BuildDir pr; p]).

Definition ToProjectRelative (pr : PathResolver) (p : string) : ResolvedPath :=
  if String.eqb p "" then MkResolvedPath "" false
  else
    let abs := absolute pr p in
    match Rel (ProjectRoot pr) abs with
    | None => MkResolvedPath p false
    | Some rel => if HasPrefix rel ".." then MkResolvedPath abs false else MkResolvedPath rel true
    end.

(** *** Properties *)

(** A resolver as [NewPathResolver] makes it. *)
Definition resolver_ok (pr : PathResolver) : Prop :=
  IsAbs (BuildDir pr) = true ∧ IsAbs (ProjectRoot pr) = true.

Lemma absolute_pre pr p :
  resolver_ok pr → IsAbs (if IsAbs p then p else PathJoin [BuildDir pr; p]) = true.
Proof.
  intros [Hb _]. destruct (IsAbs p) eqn:E; [done|].
  unfold PathJoin. destruct (BuildDir pr) as [|a bd] eqn:Ebd; [done|]. rewrite <-Ebd in *.
  rewrite filter_cons_True by (by rewrite Ebd).
  apply HasPrefix_true in Hb as [r Hb]. destruct (decide (p ≠ "")) as [Hp|Hp].
  - rewrite filter_cons_True by done. cbn [filter list_filter Join]. apply IsAbs_Clean.
    rewrite Hb, sapp_assoc. apply HasPrefix_app.
  - rewrite filter_cons_False by done. cbn [filter list_filter Join]. apply IsAbs_Clean.
    rewrite Hb. apply HasPrefix_app.
Qed.

Lemma absolute_abs pr p : resolver_ok pr → IsAbs (absolute pr p) = true.
Proof. intros H. by apply IsAbs_Clean, absolute_pre. Qed.

Lemma absolute_render pr p :
  resolver_ok pr → absolute pr p = render true (segments (absolute pr p)).
Proof.
  intros H. unfold absolute. rewrite segments_Clean by by apply absolute_pre.
  by apply Clean_abs, absolute_pre.
Qed.

Lemma segments_nonempty p : Forall (λ s, s ≠ "") (segments p).
Proof.
  unfold segments, clean_segs. apply Forall_reverse.
  apply (foldl_inv (Forall (λ s, s ≠ ""))); [constructor|]. intros out s _ Hout. unfold clean_seg.
  destruct (String.eqb_spec s ""); [done|]. destruct (String.eqb s "."); [done|]. simpl.
  destruct (String.eqb s "..").
  - destruct out as [|s' out].
    + destruct (IsAbs p); repeat (apply Forall_cons_2; [done|]); apply Forall_nil_2.
    + apply Forall_cons in Hout as [Hs' Hout].
      destruct (String.eqb s' ".."); repeat (apply Forall_cons_2; [done|]); done.
  - by constructor.
Qed.

Lemma render_nonempty rooted segs : Forall (λ s, s ≠ "") segs → render rooted segs ≠ "".
Proof.
  intros Hs. unfold render. destruct rooted; [done|]. destruct Hs as [|s segs Hs _]; [done|].
  destruct segs; [done|]. cbn [Join]. by destruct s.
Qed.

Lemma ToProjectRelative_nonempty pr p : p ≠ "" → RelPath (ToProjectRelative pr p) ≠ "".
Proof.
  intros Hp. unfold ToProjectRelative. rewrite (proj2 (String.eqb_neq p "")) by done.
  destruct (Rel _ _) as [rel|] eqn:E; [|done].
  destruct (HasPrefix rel "..") eqn:H; cbn [RelPath]; [apply render_nonempty, segments_nonempty|].
  revert E. unfold Rel. destruct (negb _); [done|].
  destruct (drop_common _ _) as [b t] eqn:Ed. case_match; [done|]. intros [= <-].
  apply (render_nonempty false), Forall_app. split.
  - apply Forall_fmap, Forall_true. intros x. done.
  - apply drop_common_spec in Ed as (c & _ & Ht & _). pose proof (segments_nonempty (absolute pr p)) as Hn.
    rewrite Ht in Hn. by apply Forall_app in Hn as [_ Hn].
Qed.

Lemma dotdot_join t : Forall normal t →
  HasPrefix (render false t) ".." = match t with s :: _ => HasPrefix s ".." | [] => false end.
Proof.
  intros Ht. destruct Ht as [|s t (Hne & _ & _ & _) _]; [done|].
  destruct t as [|s' t]; [done|]. cbn [render]. rewrite Join_cons by done.
  destruct s as [|a [|b s]]; [done| |]; rewrite ?sapp_cons, ?sapp_nil_l; unfold HasPrefix;
    cbn [strip_prefix]; destruct (Ascii.eqb "." a); try done.
  by destruct (Ascii.eqb "." b).
Qed.

Lemma ToProjectRelative_in pr p :
  resolver_ok pr → p ≠ "" →
  InProject (ToProjectRelative pr p) = true ↔
  ∃ t, segments (absolute pr p) = segments (ProjectRoot pr) ++ t ∧
       match t with s :: _ => HasPrefix s ".." = false | [] => True end.
Proof.
  intros Hpr Hp. pose proof (absolute_abs pr p Hpr) as Habs. destruct Hpr as [_ Hroot].
  unfold ToProjectRelative. apply String.eqb_neq in Hp. rewrite Hp.
  destruct (Rel_abs (ProjectRoot pr) (absolute pr p) Hroot Habs) as (c & b & t & Hb & Ht & Hd & ->).
  pose proof (segments_normal _ Habs) as Hn.
  split.
  - destruct b as [|x b].
    + rewrite app_nil_r in Hb. subst c. cbn [fmap list_fmap app].
      rewrite Ht, Forall_app in Hn. destruct Hn as [_ Hn]. rewrite dotdot_join by done. intros H.
      exists t. split; [done|]. destruct t as [|s t]; [done|]. by destruct (HasPrefix s "..").
    + rewrite fmap_cons. rewrite <-app_comm_cons. intros H. exfalso. revert H.
      generalize (((λ _ : string, "..") <$> b) ++ t). intros l.
      assert (HasPrefix (render false (".." :: l)) ".." = true) as ->; [|done].
      cbn [render]. destruct l; [done|]. rewrite Join_cons by done. apply HasPrefix_app.
  - intros (t' & Heq & Hhd). rewrite Heq, drop_common_prefix in Hd. injection Hd as <- <-.
    cbn [fmap list_fmap app]. rewrite Heq, Forall_app in Hn. destruct Hn as [_ Hn].
    rewrite dotdot_join by done. by destruct t' as [|s t']; [|rewrite Hhd].
Qed.

(** A segment has no slash of its own. *)
Lemma segments_lacks p : Forall (λ s, lacks "/" s = true) (segments p).
Proof.
  unfold segments, clean_segs. apply Forall_reverse.
  apply (foldl_inv (Forall (λ s, lacks "/" s = true))); [constructor|]. intros out s Hs Hout. unfold clean_seg.
  apply SplitByte_no_sep in Hs. destruct (_ || _); [done|]. destruct (String.eqb s ".."); [|by constructor].
  destruct Hout as [|x out Hx Hout]; [destruct (IsAbs p); repeat (apply Forall_cons_2; [done|]); apply Forall_nil_2|].
  destruct (String.eqb x ".."); [repeat (apply Forall_cons_2; [done|])|]; done.
Qed.

Lemma render_relative segs :
  Forall (λ s, s ≠ "") segs → Forall (λ s, lacks "/" s = true) segs → IsAbs (render false segs) = false.
Proof.
  intros [|s l Hs _] Hl; [done|]. apply Forall_cons in Hl as [Hl _].
  assert (IsAbs (render false (s :: l)) = IsAbs s) as ->.
  { destruct l; [done|]. cbn [render]. rewrite Join_cons by done. destruct s as [|a s]; [done|].
    rewrite sapp_cons. unfold IsAbs, HasPrefix. cbn [strip_prefix]. by destruct (Ascii.eqb "/" a). }
  destruct s as [|a s]; [done|]. unfold lacks in Hl. rewrite all_chars_cons, andb_true_iff in Hl.
  destruct Hl as [Ha _]. unfold IsAbs, HasPrefix. cbn [strip_prefix]. destruct (Ascii.eqb_spec "/" a) as [<-|]; [discriminate Ha|done].
Qed.

Lemma ToProjectRelative_relative pr p :
  InProject (ToProjectRelative pr p) = true → IsAbs (RelPath (ToProjectRelative pr p)) = false.
Proof.
  unfold ToProjectRelative. destruct (String.eqb p ""); [done|]. destruct (Rel _ _) as [rel|] eqn:E; [|done].
  destruct (HasPrefix rel ".."); [done|]. intros _. cbn [RelPath]. revert E. unfold Rel. destruct (negb _); [done|].
  destruct (drop_common _ _) as [b t] eqn:Ed. case_match; [done|]. intros [= <-].
  apply drop_common_spec in Ed as (c & _ & Ht & _). set (abs := absolute pr p) in *.
  pose proof (segments_nonempty abs) as Hn. pose proof (segments_lacks abs) as Hl.
  rewrite Ht, !Forall_app in Hn, Hl. apply render_relative; apply Forall_app; (split; [|tauto]);
    apply Forall_fmap, Forall_true; done.
Qed.

(** A path of a dump is in the project exactly when its cleaned absolute form is
    the project root followed by segments the first of which does not begin
    with two dots — so a file whose own name begins so is taken for outside. *)
Theorem ToProjectRelative_inside pr p :
  resolver_ok pr → p ≠ "" →
  InProject (ToProjectRelative pr p) = true ↔
  ∃ t, segments (absolute pr p) = segments (ProjectRoot pr) ++ t ∧
       match t with s :: _ => HasPrefix s ".." = false | [] => True end.
Proof. apply ToProjectRelative_in. Qed.

Definition ex_resolver : PathResolver := MkPathResolver "/w/p/build" "/w/p".

Lemma ToProjectRelative_inside_witness :
  resolver_ok ex_resolver ∧ "../src/a.c" ≠ "" ∧
  InProject (ToProjectRelative ex_resolver "../src/a.c") = true ∧
  InProject (ToProjectRelative ex_resolver "../..bak/a.c") = false.
Proof.
  assert (resolver_ok ex_resolver) as Hok by (split; reflexivity).
  split; [exact Hok|]. split; [discriminate|]. split; [|vm_compute; reflexivity].
  apply (ToProjectRelative_inside ex_resolver "../src/a.c"); [exact Hok|discriminate|].
  exists ["src"; "a.c"]. split; vm_compute; reflexivity.
Defined.

(** The relative path of an in-project file names the same file: joined to the
    root it is the cleaned absolute path again. *)
Theorem ToProjectRelative_join pr p :
  resolver_ok pr → InProject (ToProjectRelative pr p) = true →
  PathJoin [ProjectRoot pr; RelPath (ToProjectRelative pr p)] = absolute pr p.
Proof.
  intros Hpr Hin. destruct (decide (p = "")) as [->|Hp]; [done|].
  pose proof (absolute_abs pr p Hpr) as Habs.
  assert (∃ t, segments (absolute pr p) = segments (ProjectRoot pr) ++ t ∧
    match t with s :: _ => HasPrefix s ".." = false | [] => True end) as (t & Ht & Hhd)
    by by apply ToProjectRelative_in.
  rewrite (absolute_render pr p Hpr). destruct Hpr as [_ Hroot]. pose proof (segments_normal _ Habs) as Hn.
  rewrite Ht, Forall_app in Hn. destruct Hn as [_ Hn].
  assert (RelPath (ToProjectRelative pr p) = render false t) as ->.
  { unfold ToProjectRelative. apply String.eqb_neq in Hp. rewrite Hp.
    destruct (Rel_abs (ProjectRoot pr) (absolute pr p) Hroot Habs) as (c & b & t' & Hb & Ht' & Hd & ->).
    rewrite Ht, drop_common_prefix in Hd. injection Hd as <- <-. cbn [fmap list_fmap app].
    rewrite dotdot_join by done. by destruct t as [|s t]; [|rewrite Hhd]. }
  unfold PathJoin. destruct (ProjectRoot pr) as [|a root] eqn:Er; [done|]. rewrite <-Er in *.
  assert (render false t ≠ "") as Hr.
  { destruct Hn as [|s t' (Hs & _) _]; [done|]. cbn [render]. destruct t'; [done|].
    rewrite Join_cons by done. intros H. by apply sapp_eq_nil in H as [? _]. }
  rewrite !filter_cons_True by (try done; by rewrite Er). cbn [filter list_filter Join].
  assert (IsAbs (ProjectRoot pr +:+ "/" +:+ render false t) = true) as Hj.
  { apply HasPrefix_true in Hroot as [r ->]. rewrite sapp_assoc. apply HasPrefix_app. }
  rewrite Clean_abs by done. rewrite segments_app by done.
  f_equal. rewrite Ht. destruct (decide (t = [])) as [->|Hne].
  - change (SplitByte "/" (render false [])) with ["."].
    change (foldl (clean_seg true) (reverse (segments (ProjectRoot pr))) ["."]) with
      (reverse (segments (ProjectRoot pr))).
    by rewrite reverse_involutive, app_nil_r.
  - assert (render false t = Join t (str1 "/")) as -> by (by destruct t).
    rewrite SplitByte_Join; [|done|].
    + by rewrite clean_normal, reverse_app, !reverse_involutive by done.
    + eapply Forall_impl; [exact Hn|]. by intros s (_ & _ & _ & ?).
Qed.

Lemma ToProjectRelative_join_witness :
  resolver_ok (MkPathResolver "/w/p/build" "/w/p") ∧
  InProject (ToProjectRelative (MkPathResolver "/w/p/build" "/w/p") "./../src//a.c") = true ∧
  PathJoin ["/w/p"; "src/a.c"] = "/w/p/src/a.c".
Proof.
  assert (resolver_ok (MkPathResolver "/w/p/build" "/w/p")) as Hok by (split; reflexivity).
  split; [exact Hok|]. split; [vm_compute; reflexivity|].
  refine (ToProjectRelative_join _ "./../src//a.c" Hok _). vm_compute; reflexivity.
Defined.

End Resolver.

(** ** [--include-external] *)

Module ExternalGlob.

Record ExternalGlob := MkExternalGlob { raw : string; prefix : string }.

Inductive glob_error := ErrEmpty | ErrRelative (raw : string) | ErrDoubleStar (raw : string).

Definition NewExternalGlob (raw : string) : result glob_error ExternalGlob :=
  let trimmed := TrimSpace raw in
  if String.eqb trimmed "" then Err ErrEmpty
  else if negb (IsAbs trimmed) then Err (ErrRelative raw)
  else match strip_suffix "/**" trimmed with
  | Some prefix => Ok (MkExternalGlob raw prefix)
  | None => if Contains trimmed "**" then Err (ErrDoubleStar raw)
            else Ok (MkExternalGlob raw "")
  end.

Definition GlobMatch (g : ExternalGlob) (absPath : string) : bool :=
  if negb (String.eqb (prefix g) "")
  then String.eqb absPath (prefix g) || HasPrefix absPath (prefix g +:+ "/")
  else Match (raw g) absPath.

Definition MatchesAnyExternalGlob (absPath : string) (gs : list ExternalGlob) : bool :=
  existsb (λ g, GlobMatch g absPath) gs.

(** *** Properties *)

(** A pattern without the metacharacters of [filepath.Match]. *)
Definition plain (p : string) : bool :=
  all_chars (λ a, negb (Ascii.eqb a "*" || Ascii.eqb a "?" || Ascii.eqb a "[" || Ascii.eqb a "\")) p.

Lemma glob_plain p s fuel :
  plain p = true → String.length p + String.length s < fuel → glob fuel p s = String.eqb p s.
Proof.
  revert s fuel; induction p as [|a p IH]; intros s fuel Hp Hf;
    (destruct fuel as [|fuel]; [lia|]); [by destruct s|].
  unfold plain in Hp. rewrite all_chars_cons, andb_true_iff in Hp. destruct Hp as [Ha Hp].
  assert (glob (S fuel) (String a p) s =
    match s with String c s' => Ascii.eqb a c && glob fuel p s' | "" => false end) as ->.
  { revert Ha. clear. destruct a as [[] [] [] [] [] [] [] []]; try done. }
  destruct s as [|c s]; [done|]. rewrite IH by (try exact Hp; simpl in Hf; lia).
  simpl. by destruct (Ascii.eqb a c).
Qed.

(** A pattern "prefix/**" matches the prefix itself and every path below it, and
    nothing else. *)
Theorem GlobMatch_recursive prefix g p :
  prefix ≠ "" → IsAbs prefix = true → TrimSpace (prefix +:+ "/**") = prefix +:+ "/**" →
  NewExternalGlob (prefix +:+ "/**") = Ok g →
  GlobMatch g p = true ↔ p = prefix ∨ ∃ r, p = prefix +:+ "/" +:+ r.
Proof.
  intros Hne Habs Htrim. unfold NewExternalGlob. rewrite Htrim.
  destruct (String.eqb_spec (prefix +:+ "/**") "") as [H|_]; [by apply sapp_eq_nil in H as [??]|].
  assert (IsAbs (prefix +:+ "/**") = true) as ->.
  { apply HasPrefix_true in Habs as [r ->]. rewrite sapp_assoc. apply HasPrefix_app. }
  cbn [negb]. rewrite strip_suffix_app. intros [= <-]. unfold GlobMatch. cbn [ExternalGlob.prefix].
  apply String.eqb_neq in Hne. rewrite Hne. cbn [negb].
  rewrite orb_true_iff, String.eqb_eq, HasPrefix_true. setoid_rewrite sapp_assoc. done.
Qed.

Lemma GlobMatch_recursive_witness :
  "/usr/include" ≠ "" ∧ IsAbs "/usr/include" = true ∧
  NewExternalGlob "/usr/include/**" = Ok (MkExternalGlob "/usr/include/**" "/usr/include") ∧
  GlobMatch (MkExternalGlob "/usr/include/**" "/usr/include") "/usr/include/sys/types.h" = true.
Proof.
  split; [discriminate|]. split; [reflexivity|]. split; [reflexivity|].
  apply (GlobMatch_recursive "/usr/include"); [discriminate|reflexivity..|].
  right. exists "sys/types.h". reflexivity.
Defined.

(** An absolute pattern without wildcards matches exactly that path. *)
Theorem GlobMatch_literal raw g p :
  plain raw = true → TrimSpace raw = raw → NewExternalGlob raw = Ok g →
  GlobMatch g p = true ↔ p = raw.
Proof.
  intros Hp Htrim. unfold NewExternalGlob. rewrite Htrim.
  destruct (String.eqb_spec raw ""); [done|]. destruct (negb (IsAbs raw)); [done|].
  destruct (strip_suffix "/**" raw) as [q|] eqn:E.
  { apply strip_suffix_Some in E. subst. unfold plain in Hp. rewrite all_chars_app, andb_true_iff in Hp.
    by destruct Hp. }
  destruct (Contains raw "**"); [done|]. intros [= <-]. unfold GlobMatch, Match. cbn.
  rewrite glob_plain by (try done; lia). rewrite String.eqb_eq. split; congruence.
Qed.

(** The pattern "/**" is accepted but is not recursive: no path with two
    segments matches it. *)
Theorem GlobMatch_root g a b :
  NewExternalGlob "/**" = Ok g → lacks "/" a = true → GlobMatch g ("/" +:+ a +:+ "/" +:+ b) = false.
Proof.
  intros [= <-] Ha. unfold GlobMatch, Match. cbn [ExternalGlob.prefix ExternalGlob.raw String.eqb negb].
  set (s := "/" +:+ a +:+ "/" +:+ b).
  assert (∀ fuel w, lacks "/" w = true → glob fuel "*" (w +:+ "/" +:+ b) = false) as H1.
  { induction fuel as [|fuel IH]; intros w Hw; [done|]. cbn [glob].
    assert (∀ c t, glob fuel "" (String c t) = false) as H0 by by destruct fuel.
    destruct w as [|c w]; [rewrite sapp_nil_l; change ("/" +:+ b) with (String "/" b); by rewrite H0|].
    rewrite sapp_cons, H0.
    unfold lacks in Hw. rewrite all_chars_cons, andb_true_iff in Hw. destruct Hw as [Hc Hw].
    rewrite IH by done. by destruct (Ascii.eqb c "/"). }
  assert (∀ fuel w, lacks "/" w = true → glob fuel "**" (w +:+ "/" +:+ b) = false) as H2.
  { induction fuel as [|fuel IH]; intros w Hw; [done|]. 
    change (glob (S fuel) "**" (w +:+ "/" +:+ b)) with
      (glob fuel "*" (w +:+ "/" +:+ b) ||
       match w +:+ "/" +:+ b with String c s' => negb (Ascii.eqb c "/") && glob fuel "**" s' | "" => false end).
    rewrite H1 by done. destruct w as [|c w]; [by rewrite sapp_nil_l|]. rewrite sapp_cons.
    unfold lacks in Hw. rewrite all_chars_cons, andb_true_iff in Hw. destruct Hw as [Hc Hw].
    rewrite IH by done. by destruct (Ascii.eqb c "/"). }
  subst s. replace (String.length "/**" + _ + 1) with (S (String.length "/**" + String.length ("/" +:+ a +:+ "/" +:+ b))) by lia.
  change (glob (S ?f) "/**" ("/" +:+ ?t)) with (Ascii.eqb "/" "/" && glob f "**" t).
  by rewrite H2.
Qed.

End ExternalGlob.

(** ** The crawl of the build directory *)

Module BuildDir.

Record ObjectArtifacts := MkObjectArtifacts {
  Object : string;
  CI : string;
  Cgraph : string;
  Inline : string;
  ICF : string;
  OptRecord : string;
  Preprocessed : string;
}.

(** A directory tree; [WalkDir] visits the entries of a directory in lexical order,
    which is the order they are listed in. *)
Inductive tree := File (name : string) | Dir (name : string) (entries : list tree).

Definition tree_name (t : tree) : string := match t with File n => n | Dir n _ => n end.

Definition dirsToSkip : list string := ["meson-private"; "meson-info"; "meson-logs"].

(** The ".o" files below [t], whose path is [path]; a directory below the root
    [top] named in [dirsToSkip] is not entered. *)
Fixpoint walk (top : bool) (path : string) (t : tree) : list string :=
  match t with
  | File n => if HasSuffix n ".o" then [path +:+ "/" +:+ n] else []
  | Dir n entries =>
    if top && bool_decide (n ∈ dirsToSkip) then []
    else (fix all (l : list tree) : list string :=
            match l with [] => [] | t :: l => walk false (path +:+ "/" +:+ n) t ++ all l end) entries
  end.

Definition walk_root (root : string) (entries : list tree) : list string :=
  entries ≫= walk true root.

(** [filepath.Dir] and [filepath.Base] of the path of a file. *)
Definition split_path (p : string) : string * string :=
  match LastIndex p "/" with
  | Some i => (stake i p, sdrop (i + 1) p)
  | None => (".", p)
  end.

(** [filepath.Glob(filepath.Join(dir, pattern))[0]] for a directory without glob
    characters; [ls] lists a directory's names in lexical order. *)
Definition first_hit (ls : string → list string) (dir pattern : string) : string :=
  match filter (λ n, Match pattern n = true) (ls dir) with
  | n :: _ => PathJoin [dir; n]
  | [] => ""
  end.

Definition resolveSidecars (ls : string → list string) (obj : string) : ObjectArtifacts :=
  let '(dir, file) := split_path obj in
  let base := TrimSuffix file ".o" in
  let fixed name := if bool_decide (name ∈ ls dir) then PathJoin [dir; name] else "" in
  MkObjectArtifacts obj (fixed (base +:+ ".ci"))
    (first_hit ls dir (base +:+ ".*i.cgraph"))
    (first_hit ls dir (base +:+ ".*i.inline"))
    (first_hit ls dir (base +:+ ".*i.icf"))
    (first_hit ls dir (base +:+ "*opt-record.json.gz"))
    (fixed (base +:+ ".i")).

Record BuildDir := MkBuildDir {
  Root : string;
  Objects : list ObjectArtifacts;
  LinkerMaps : list string;
}.

Definition Crawl (ls : string → list string) (root : string) (entries : list tree) : BuildDir :=
  MkBuildDir root
    (resolveSidecars ls <$> walk_root root entries)
    ((λ n, PathJoin [root; n]) <$> filter (λ n, Match "*.map" n = true) (tree_name <$> entries)).

(** *** Properties *)

Lemma walk_dir top path n entries :
  walk top path (Dir n entries) =
    if top && bool_decide (n ∈ dirsToSkip) then []
    else entries ≫= walk false (path +:+ "/" +:+ n).
Proof.
  cbn [walk]. destruct (top && _); [done|].
  induction entries as [|t l IH]; [done|]. cbn [mbind list_bind]. by rewrite <-IH.
Qed.

(** An object file below [t], with its path. *)
Inductive object_below (path : string) : tree → string → Prop :=
| object_file n : HasSuffix n ".o" = true → object_below path (File n) (path +:+ "/" +:+ n)
| object_dir n entries t p :
    t ∈ entries → object_below (path +:+ "/" +:+ n) t p → object_below path (Dir n entries) p.

Lemma elem_of_walk t path p : p ∈ walk false path t ↔ object_below path t p.
Proof.
  revert t path p. fix IH 1. intros [n|n entries] path p.
  - cbn [walk]. destruct (HasSuffix n ".o") eqn:E.
    + rewrite list_elem_of_singleton. split; [intros ->; by constructor|]. by inversion 1.
    + split; [set_solver|]. inversion 1; congruence.
  - rewrite walk_dir. cbn [andb]. rewrite list_elem_of_bind. split.
    + intros (t & Hp & Ht). apply object_dir with t; [done|].
      revert Hp. generalize (path +:+ "/" +:+ n). intros q Hp.
      induction entries as [|t' l IHl]; [set_solver|]. 
      apply elem_of_cons in Ht as [->|Ht]; [by apply IH|auto].
    + inversion 1 as [|? ? t ? Ht Hb]; subst. exists t. split; [|done].
      revert Hb. generalize (path +:+ "/" +:+ n). intros q Hb.
      clear H. induction entries as [|t' l IHl]; [set_solver|].
      apply elem_of_cons in Ht as [->|Ht]; [by apply IH|auto].
Qed.

(** The crawl finds exactly the object files of the build directory, the
    top-level directories Meson keeps for itself excepted, each with its
    sidecars. *)
Theorem Crawl_objects ls root entries p :
  (∃ a, a ∈ Objects (Crawl ls root entries) ∧ Object a = p) ↔
  ∃ t, t ∈ entries ∧ object_below root t p ∧
       match t with Dir n _ => n ∉ dirsToSkip | File _ => True end.
Proof.
  cbn [Crawl Objects]. assert (∀ o, Object (resolveSidecars ls o) = o) as Ho.
  { intros o. unfold resolveSidecars. by destruct (split_path o). }
  transitivity (p ∈ walk_root root entries).
  { setoid_rewrite list_elem_of_fmap. split.
    - intros (a & (o & -> & Hin) & Hp). rewrite Ho in Hp. by subst.
    - intros Hp. exists (resolveSidecars ls p). rewrite Ho. eauto. }
  unfold walk_root. rewrite list_elem_of_bind. split.
  - intros (t & Hp & Ht). exists t. split; [done|]. destruct t as [n|n es].
    + split; [|done]. by apply (elem_of_walk (File n)).
    + rewrite walk_dir in Hp. cbn [andb] in Hp. case_bool_decide as Hn; [set_solver|]. split; [|done].
      apply (elem_of_walk (Dir n es)). by rewrite walk_dir.
  - intros (t & Ht & Hp & Hn). exists t. split; [|done]. destruct t as [n|n es].
    + by apply (elem_of_walk (File n)).
    + rewrite walk_dir. cbn [andb]. rewrite bool_decide_false by done.
      apply (elem_of_walk (Dir n es)) in Hp. by rewrite walk_dir in Hp.
Qed.

End BuildDir.
