(* ===== verification/NinjaDeps.v ===== *)
(** * Ninja's dependency log ([internal/ninjadeps/ninjadeps.go])

    [Read] replays the binary log: path records register names under
    consecutive ids, dependency records map an output to its inputs and
    supersede earlier ones, and reading stops quietly at the first partial
    record.  [encode_log] is the writer's side (ninja's format, version 4). *)

From S2P Require Import Prelude GoStrings Paths.
From Stdlib Require Import ZArith Lia.

Definition magic : string := "# ninjadeps" +:+ str1 NL.
Definition SupportedVersion : Z := 4.

Record Log := MkLog { Version : Z; Deps : gmap string (list string) }.

Inductive ninja_error :=
| ErrOpen
| ErrHeader
| ErrMagic
| ErrReadVersion
| ErrVersion (v : Z)
| ErrDepsSize (size : Z)
| ErrChecksum (n : nat) (got want : Z).

(** ** Little-endian words *)

Definition byte_val (a : ascii) : Z := Z.of_N (N_of_ascii a).

(** [binary.LittleEndian.Uint32] of the first four bytes; [None] is a short read. *)
Definition u32 (s : string) : option (Z * string) :=
  match s with
  | String a (String b (String c (String d s))) =>
    Some ((byte_val a + 2 ^ 8 * byte_val b + 2 ^ 16 * byte_val c + 2 ^ 24 * byte_val d)%Z, s)
  | _ => None
  end.

(** [io.ReadFull] into a buffer of [n] bytes. *)
Definition read_full (n : nat) (s : string) : option (string * string) :=
  if n <=? String.length s then Some (stake n s, sdrop n s) else None.

Fixpoint words (fuel : nat) (s : string) : list Z :=
  match fuel with
  | 0 => []
  | S fuel => match u32 s with Some (w, s) => w :: words fuel s | None => [] end
  end.

(** [for len(raw) > 0 && raw[len(raw)-1] == 0]: the padding stripped. *)
Fixpoint strip_nuls (s : string) : string :=
  match s with
  | "" => ""
  | String a s' => match strip_nuls s' with
                   | "" => if (byte_val a =? 0)%Z then "" else str1 a
                   | r => String a r
                   end
  end.

(** ** The replay loop *)

Definition lookup_path (paths : list string) (id : Z) : option string :=
  if (id <? Z.of_nat (length paths))%Z then paths !! Z.to_nat id else None.

(** A deps record of [size] body bytes [buf]. *)
Definition deps_record (paths : list string) (deps : gmap string (list string)) (buf : string) :
    gmap string (list string) :=
  match u32 buf with
  | None => deps
  | Some (outID, _) =>
    match lookup_path paths outID with
    | None => deps
    | Some out =>
      let ids := words (String.length buf) (sdrop 12 buf) in
      <[out := omap (lookup_path paths) ids]> deps
    end
  end.

(** The loop; each round consumes at least four bytes, so [fuel] at least the
    length of the log reaches its end. *)
Fixpoint read_records (fuel : nat) (s : string) (paths : list string)
    (deps : gmap string (list string)) : gmap string (list string) * option ninja_error :=
  match fuel with
  | 0 => (deps, None)
  | S fuel =>
    match u32 s with
    | None => (deps, None)
    | Some (head, s) =>
      let isDeps := Z.land (Z.shiftr head 31) 1 in
      let size := Z.land head (2 ^ 31 - 1) in
      if (size <? 4)%Z || (2 ^ 24 <? size)%Z then (deps, None)
      else
        match read_full (Z.to_nat size) s with
        | None => (deps, None)
        | Some (buf, s) =>
          if (isDeps =? 1)%Z then
            if (size <? 12)%Z || negb ((size - 12) mod 4 =? 0)%Z
            then (deps, Some (ErrDepsSize size))
            else read_records fuel s paths (deps_record paths deps buf)
          else
            let pathLen := (Z.to_nat size - 4)%nat in
            let raw := strip_nuls (stake pathLen buf) in
            let checksum := match u32 (sdrop pathLen buf) with Some (w, _) => w | None => 0%Z end in
            let expected := (2 ^ 32 - 1 - Z.of_nat (length paths) mod 2 ^ 32)%Z in
            if (checksum =? expected)%Z then read_records fuel s (paths ++ [raw]) deps
            else (deps, Some (ErrChecksum (length paths) checksum expected))
        end
    end
  end.

(** [Read] on the bytes of the file ([None]: it does not open). *)
Definition Read (file : option string) : option Log * option ninja_error :=
  match file with
  | None => (None, Some ErrOpen)
  | Some s =>
    match read_full (String.length magic) s with
    | None => (None, Some ErrHeader)
    | Some (header, s) =>
      if negb (String.eqb header magic) then (None, Some ErrMagic)
      else match u32 s with
      | None => (None, Some ErrReadVersion)
      | Some (version, s) =>
        if negb (version =? SupportedVersion)%Z then (None, Some (ErrVersion version))
        else let '(deps, err) := read_records (S (String.length s)) s [] ∅ in
             (Some (MkLog version deps), err)
      end
    end
  end.

Definition DepsFor (l : Log) (output : string) : option (list string) := Deps l !! output.

(** [ReadForBuildDir]: no file is no log and no error. *)
Definition ReadForBuildDir (fs : string → option string) (builddir : string) :
    option Log * option ninja_error :=
  match fs (PathJoin [builddir; ".ninja_deps"]) with
  | None => (None, None)
  | Some s => Read (Some s)
  end.

(** ** The writer's side *)

Inductive record :=
| RPath (path : string)
| RDeps (out : nat) (mtime_low mtime_high : Z) (ins : list nat).

Definition le32 (z : Z) : string :=
  String (ascii_of_N (Z.to_N (z mod 2 ^ 8)))
    (String (ascii_of_N (Z.to_N (z / 2 ^ 8 mod 2 ^ 8)))
       (String (ascii_of_N (Z.to_N (z / 2 ^ 16 mod 2 ^ 8)))
          (str1 (ascii_of_N (Z.to_N (z / 2 ^ 24 mod 2 ^ 8)))))).

Fixpoint nuls (n : nat) : string := match n with 0 => "" | S n => String "000" (nuls n) end.

Definition pad (path : string) : string :=
  path +:+ nuls ((4 - String.length path mod 4) mod 4).

Definition le32s (l : list Z) : string := foldr (λ z acc, le32 z +:+ acc) "" l.

Definition body (n : nat) (r : record) : string :=
  match r with
  | RPath p => pad p +:+ le32 (2 ^ 32 - 1 - Z.of_nat n)
  | RDeps out lo hi ins => le32s (Z.of_nat out :: lo :: hi :: (Z.of_nat <$> ins))
  end.

(** [n] paths are registered before the record. *)
Definition encode_record (n : nat) (r : record) : string :=
  let size := Z.of_nat (String.length (body n r)) in
  le32 (match r with RPath _ => size | RDeps _ _ _ _ => size + 2 ^ 31 end)%Z +:+ body n r.

Definition next_n (n : nat) (r : record) : nat :=
  match r with RPath _ => S n | RDeps _ _ _ _ => n end.

Fixpoint encode_records (n : nat) (rs : list record) : string :=
  match rs with
  | [] => ""
  | r :: rs => encode_record n r +:+ encode_records (next_n n r) rs
  end.

Definition encode_log (rs : list record) : string :=
  magic +:+ le32 SupportedVersion +:+ encode_records 0 rs.

(** What the records mean: the state ninja itself would rebuild. *)
Definition replay_step (st : list string * gmap string (list string)) (r : record) :
    list string * gmap string (list string) :=
  match r with
  | RPath p => (st.1 ++ [p], st.2)
  | RDeps out _ _ ins =>
    match st.1 !! out with
    | None => st
    | Some o => (st.1, <[o := omap (λ i, st.1 !! i) ins]> st.2)
    end
  end.

Definition replay (rs : list record) : list string * gmap string (list string) :=
  foldl replay_step ([], ∅) rs.

Definition u32_ok (z : Z) : Prop := (0 ≤ z < 2 ^ 32)%Z.

(** Paths do not end in a NUL, ids and stamps fit 32 bits, bodies fit the cap. *)
Definition record_ok (n : nat) (r : record) : Prop :=
  (Z.of_nat (String.length (body n r)) ≤ 2 ^ 24)%Z ∧ (Z.of_nat n < 2 ^ 32)%Z ∧
  match r with
  | RPath p => strip_nuls p = p
  | RDeps out lo hi ins =>
    u32_ok (Z.of_nat out) ∧ u32_ok lo ∧ u32_ok hi ∧ Forall (λ i, u32_ok (Z.of_nat i)) ins
  end.

Fixpoint records_ok (n : nat) (rs : list record) : Prop :=
  match rs with [] => True | r :: rs => record_ok n r ∧ records_ok (next_n n r) rs end.

#[export] Instance records_ok_dec n rs : Decision (records_ok n rs).
Proof.
  revert n; induction rs as [|r rs IH]; intros n; simpl; [apply _|].
  destruct r; unfold record_ok, u32_ok; apply _.
Defined.

(** ** Lemmas *)

Lemma byte_val_of z : (0 ≤ z < 2 ^ 8)%Z → byte_val (ascii_of_N (Z.to_N z)) = z.
Proof. intros Hz. unfold byte_val. rewrite N_ascii_embedding by lia. lia. Qed.

Lemma u32_le32 z s : u32_ok z → u32 (le32 z +:+ s) = Some (z, s).
Proof.
  intros [H0 H1]. unfold le32, str1. rewrite !sapp_cons. cbn [u32].
  change ("" +:+ s) with s. do 2 f_equal.
  rewrite !byte_val_of by (apply Z.mod_pos_bound; lia).
  replace (z / 2 ^ 16)%Z with (z / 2 ^ 8 / 2 ^ 8)%Z by (rewrite Z.div_div; [done|lia..]).
  replace (z / 2 ^ 24)%Z with (z / 2 ^ 8 / 2 ^ 8 / 2 ^ 8)%Z by (rewrite !Z.div_div; [done|lia..]).
  set (a := (z / 2 ^ 8)%Z). set (b := (a / 2 ^ 8)%Z). set (c := (b / 2 ^ 8)%Z).
  assert (0 ≤ c < 2 ^ 8)%Z.
  { subst c b a. rewrite !Z.div_div by lia. split; [apply Z.div_pos; lia|].
    apply Z.div_lt_upper_bound; lia. }
  rewrite (Z.mod_small c) by done.
  pose proof (Z.div_mod z (2 ^ 8) ltac:(lia)). pose proof (Z.div_mod a (2 ^ 8) ltac:(lia)).
  pose proof (Z.div_mod b (2 ^ 8) ltac:(lia)). fold a in H2. fold b in H3. fold c in H4. lia.
Qed.

Lemma slen_le32 z : String.length (le32 z) = 4.
Proof. done. Qed.

Lemma slen_le32s l : String.length (le32s l) = 4 * length l.
Proof. induction l as [|z l IH]; [done|]. cbn [le32s foldr]. rewrite slen_app. fold (le32s l). rewrite IH. simpl. lia. Qed.

Lemma words_le32s l fuel : Forall u32_ok l → length l < fuel → words fuel (le32s l) = l.
Proof.
  revert fuel; induction l as [|z l IH]; intros [|fuel] Hl Hf; simpl in Hf; try lia; [done|].
  inversion Hl; subst. cbn [le32s foldr words]. rewrite u32_le32 by done. fold (le32s l).
  f_equal. apply IH; [done|lia].
Qed.

Lemma strip_nuls_nuls n : strip_nuls (nuls n) = "".
Proof. induction n as [|n IH]; [done|]. simpl. by rewrite IH. Qed.

Lemma strip_nuls_pad p n : strip_nuls p = p → strip_nuls (p +:+ nuls n) = p.
Proof.
  intros Hp. induction p as [|a p IH]; [apply strip_nuls_nuls|]. rewrite sapp_cons. simpl in *.
  destruct (strip_nuls p) as [|b r] eqn:E.
  - destruct (byte_val a =? 0)%Z eqn:Ea; [done|]. injection Hp as <-.
    by rewrite IH.
  - injection Hp as Hp. rewrite IH by done. by rewrite <-Hp.
Qed.

Lemma slen_nuls n : String.length (nuls n) = n.
Proof. induction n; simpl; congruence. Qed.

Lemma read_full_app b s : read_full (String.length b) (b +:+ s) = Some (b, s).
Proof.
  unfold read_full. rewrite slen_app, (proj2 (Nat.leb_le _ _)) by lia.
  by rewrite stake_app, sdrop_app.
Qed.

Lemma read_full_short n s : String.length s < n → read_full n s = None.
Proof. intros H. unfold read_full. by rewrite (proj2 (Nat.leb_gt _ _)). Qed.

Lemma lookup_path_nat paths i : lookup_path paths (Z.of_nat i) = paths !! i.
Proof.
  unfold lookup_path. rewrite Nat2Z.id. destruct (Z.ltb_spec (Z.of_nat i) (Z.of_nat (length paths))); [done|].
  symmetry. apply lookup_ge_None. lia.
Qed.

Lemma body_min n r : 4 ≤ String.length (body n r).
Proof.
  destruct r; simpl; rewrite ?slen_app; [simpl; lia|].
  change (le32 (Z.of_nat out) +:+ le32 mtime_low +:+ le32 mtime_high +:+ le32s (Z.of_nat <$> ins))
    with (le32s (Z.of_nat out :: mtime_low :: mtime_high :: (Z.of_nat <$> ins))).
  simpl. lia.
Qed.

(** The header word of a record splits into its flag and its size. *)
Lemma head_word size (d : bool) :
  (0 ≤ size ≤ 2 ^ 24)%Z →
  let h := (if d then size + 2 ^ 31 else size)%Z in
  u32_ok h ∧ Z.land (Z.shiftr h 31) 1 = (if d then 1 else 0)%Z ∧ Z.land h (2 ^ 31 - 1) = size.
Proof.
  intros Hs h.
  assert (0 ≤ h < 2 ^ 32)%Z as Hh by (subst h; destruct d; lia).
  split; [exact Hh|].
  change (2 ^ 31 - 1)%Z with (Z.ones 31). rewrite Z.land_ones, Z.shiftr_div_pow2 by lia.
  change 1%Z with (Z.ones 1) at 1. rewrite Z.land_ones by lia.
  subst h; destruct d.
  - replace (size + 2 ^ 31)%Z with (size + 1 * 2 ^ 31)%Z by lia.
    rewrite Z.div_add, Z.mod_add, (Z.div_small size), (Z.mod_small size) by lia. done.
  - rewrite (Z.div_small size), (Z.mod_small size) by lia. done.
Qed.

Lemma read_one n r fuel s paths deps :
  record_ok n r → length paths = n →
  read_records (S fuel) (encode_record n r +:+ s) paths deps =
    let '(p, d) := replay_step (paths, deps) r in read_records fuel s p d.
Proof.
  intros (Hsize & Hn & Hr) Hlen. unfold encode_record.
  pose proof (body_min n r) as Hmin.
  set (d := match r with RPath _ => false | RDeps _ _ _ _ => true end).
  destruct (head_word (Z.of_nat (String.length (body n r))) d) as (Hok & Hflag & Hsz); [lia|].
  rewrite sapp_assoc.
  replace (match r with RPath _ => _ | RDeps _ _ _ _ => _ end)
    with (if d then Z.of_nat (String.length (body n r)) + 2 ^ 31 else Z.of_nat (String.length (body n r)))%Z
    by (by destruct r).
  cbn [read_records]. rewrite u32_le32 by exact Hok. rewrite Hflag, Hsz.
  rewrite (proj2 (Z.ltb_ge _ 4)), (proj2 (Z.ltb_ge (2 ^ 24) _)) by lia. cbn [orb].
  rewrite Nat2Z.id, read_full_app. subst d. destruct r as [p|out lo hi ins]; cbn [Z.eqb].
  - change (0 =? 1)%Z with false. cbn [body replay_step fst snd].
    rewrite slen_app, slen_le32.
    replace (String.length (pad p) + 4 - 4) with (String.length (pad p)) by lia.
    rewrite stake_app, sdrop_app. rewrite <-(sapp_nil_r (le32 _)), u32_le32.
    2: { unfold u32_ok. lia. }
    rewrite Z.mod_small by lia. rewrite Hlen, Z.eqb_refl.
    unfold pad. by rewrite strip_nuls_pad.
  - change (1 =? 1)%Z with true. cbn [body replay_step fst snd].
    destruct Hr as (Ho & Hlo & Hhi & Hins).
    rewrite slen_le32s. cbn [length]. rewrite length_fmap.
    rewrite (proj2 (Z.ltb_ge _ 12)) by lia.
    replace (Z.of_nat (4 * S (S (S (length ins)))) - 12)%Z with (Z.of_nat (length ins) * 4)%Z by lia.
    rewrite Z.mod_mul by lia. cbn [orb negb Z.eqb].
    assert (∀ ws : list nat, omap (lookup_path paths) (Z.of_nat <$> ws) = omap (λ i, paths !! i) ws) as Homap.
    { induction ws as [|w ws IH]; [done|]. cbn. rewrite lookup_path_nat, IH. done. }
    unfold deps_record. cbn [le32s foldr]. rewrite u32_le32 by done. rewrite lookup_path_nat.
    destruct (paths !! out); [|done].
    change (sdrop 12 (le32 (Z.of_nat out) +:+ le32 lo +:+ le32 hi +:+ foldr (λ z acc, le32 z +:+ acc) "" (Z.of_nat <$> ins)))
      with (le32s (Z.of_nat <$> ins)).
    rewrite words_le32s; [by rewrite Homap|by apply Forall_fmap|].
    change (foldr _ "" _) with (le32s (Z.of_nat <$> ins)).
    rewrite !slen_app, slen_le32s, length_fmap. simpl. lia.
Qed.

Lemma replay_step_length st r : length (replay_step st r).1 = next_n (length st.1) r.
Proof.
  destruct r; simpl; [rewrite length_app; simpl; lia|]. by destruct (st.1 !! out).
Qed.

(** [k] more bytes hold the first of [rs] whole. *)
Fixpoint whole (k n : nat) (rs : list record) : list record :=
  match rs with
  | [] => []
  | r :: rs =>
    let len := String.length (encode_record n r) in
    if len <=? k then r :: whole (k - len) (next_n n r) rs else []
  end.

Lemma slen_stake k s : String.length (stake k s) = min k (String.length s).
Proof. revert s; induction k as [|k IH]; intros [|a s]; simpl; auto. Qed.

(** A cut record stops the replay without an error. *)
Lemma read_cut n r k fuel paths deps :
  record_ok n r → k < String.length (encode_record n r) →
  read_records fuel (stake k (encode_record n r)) paths deps = (deps, None).
Proof.
  intros (Hsize & Hn & Hr) Hk. destruct fuel as [|fuel]; [done|]. unfold encode_record in *.
  pose proof (body_min n r) as Hmin.
  set (d := match r with RPath _ => false | RDeps _ _ _ _ => true end).
  destruct (head_word (Z.of_nat (String.length (body n r))) d) as (Hok & Hflag & Hsz); [lia|].
  replace (match r with RPath _ => _ | RDeps _ _ _ _ => _ end)
    with (if d then Z.of_nat (String.length (body n r)) + 2 ^ 31 else Z.of_nat (String.length (body n r)))%Z
    in * by (by destruct r).
  rewrite slen_app, slen_le32 in Hk. cbn [read_records].
  destruct (Nat.le_gt_cases 4 k) as [Hk4|Hk4].
  - rewrite stake_app_l by done. rewrite u32_le32 by exact Hok. rewrite Hflag, Hsz.
    rewrite (proj2 (Z.ltb_ge _ 4)), (proj2 (Z.ltb_ge (2 ^ 24) _)) by lia. cbn [orb].
    rewrite Nat2Z.id, read_full_short; [done|]. rewrite slen_stake, slen_le32. lia.
  - rewrite stake_app_le by (rewrite slen_le32; lia). unfold le32, str1.
    destruct k as [|[|[|[|k]]]]; [done..|lia].
Qed.

Lemma read_records_prefix rs n k fuel paths deps :
  records_ok n rs → length paths = n → length rs < fuel →
  read_records fuel (stake k (encode_records n rs)) paths deps =
    ((foldl replay_step (paths, deps) (whole k n rs)).2, None).
Proof.
  revert n k fuel paths deps; induction rs as [|r rs IH]; intros n k fuel paths deps Hok Hlen Hfuel.
  { cbn [encode_records whole]. destruct fuel; [done|]. by destruct k. }
  destruct Hok as [Hr Hrs]. cbn [encode_records whole].
  destruct (Nat.leb_spec (String.length (encode_record n r)) k) as [Hle|Hgt].
  - destruct fuel as [|fuel]; [simpl in Hfuel; lia|].
    rewrite stake_app_l by done. rewrite read_one by done. cbn [foldl].
    destruct (replay_step (paths, deps) r) as [p d] eqn:E. apply IH; [done| |simpl in Hfuel; lia].
    pose proof (replay_step_length (paths, deps) r) as Hl. rewrite E in Hl. simpl in Hl. by subst n.
  - rewrite stake_app_le by lia. by apply read_cut.
Qed.

Lemma encode_records_length rs n : length rs ≤ String.length (encode_records n rs).
Proof.
  revert n; induction rs as [|r rs IH]; intros n; [simpl; lia|]. cbn [encode_records length].
  rewrite slen_app. specialize (IH (next_n n r)). unfold encode_record. rewrite slen_app, slen_le32. lia.
Qed.

Lemma whole_length k n rs : length (whole k n rs) ≤ k.
Proof.
  revert k n; induction rs as [|r rs IH]; intros k n; cbn [whole]; [simpl; lia|].
  destruct (Nat.leb_spec (String.length (encode_record n r)) k) as [Hle|]; cbn [length]; [|lia].
  specialize (IH (k - String.length (encode_record n r)) (next_n n r)).
  assert (4 ≤ String.length (encode_record n r)).
  { unfold encode_record. rewrite slen_app, slen_le32. lia. }
  lia.
Qed.

Lemma whole_all rs n k : String.length (encode_records n rs) ≤ k → whole k n rs = rs.
Proof.
  revert n k; induction rs as [|r rs IH]; intros n k Hk; [done|]. cbn [encode_records whole] in *.
  rewrite slen_app in Hk. rewrite (proj2 (Nat.leb_le _ _)) by lia. f_equal. apply IH. lia.
Qed.

(** C22: Whatever byte a log is cut at after its header, reading it gives the state
    of the records it still holds whole, and no error; an uncut log gives the
    state of all of them. *)
Theorem Read_prefix rs k :
  records_ok 0 rs →
  Read (Some (magic +:+ le32 SupportedVersion +:+ stake k (encode_records 0 rs))) =
    (Some (MkLog SupportedVersion (replay (whole k 0 rs)).2), None).
Proof.
  intros Hok. unfold Read. rewrite read_full_app, String.eqb_refl. cbn [negb].
  rewrite u32_le32 by done. rewrite Z.eqb_refl. cbn [negb].
  destruct (Nat.le_gt_cases (String.length (encode_records 0 rs)) k) as [Hk|Hk].
  - pose proof (stake_app_l k (encode_records 0 rs) "" Hk) as Hs.
    rewrite !sapp_nil_r in Hs. 
    assert (stake (k - String.length (encode_records 0 rs)) "" = "") as He by (by destruct (k - _)).
    rewrite He, sapp_nil_r in Hs.
    rewrite read_records_prefix; [done|done|done|].
    rewrite Hs. pose proof (encode_records_length rs 0). lia.
  - assert (∀ fuel1 fuel2 s paths deps, String.length s < fuel1 → String.length s < fuel2 →
      read_records fuel1 s paths deps = read_records fuel2 s paths deps) as Hfuel.
    { clear. induction fuel1 as [|f1 IH]; intros [|f2] s paths deps H1 H2; try lia. cbn [read_records].
      destruct (u32 s) as [[h t]|] eqn:E; [|done].
      assert (String.length t < String.length s).
      { destruct s as [|? [|? [|? [|? ?]]]]; try done. injection E as _ <-. simpl. lia. }
      destruct ((_ <? 4)%Z || _); [done|].
      destruct (read_full _ t) as [[buf u]|] eqn:Er; [|done].
      assert (String.length u ≤ String.length t).
      { unfold read_full in Er. destruct (_ <=? _); [|done]. injection Er as _ <-. rewrite slen_sdrop. lia. }
      repeat case_match; try done; apply IH; lia. }
    rewrite (Hfuel _ (S (length rs + String.length (encode_records 0 rs)))); [|lia|rewrite slen_stake; lia].
    rewrite read_records_prefix; [done|done|done|lia].
Qed.

(** A log whose second path record is cut short. *)
Definition ex_log : list record := [RPath "a.o"; RPath "a.h"; RDeps 0 5 0 [1]; RPath "b.o"].

Lemma Read_prefix_witness :
  records_ok 0 ex_log ∧
  Read (Some (magic +:+ le32 SupportedVersion +:+ stake 50 (encode_records 0 ex_log))) =
    (Some (MkLog SupportedVersion {["a.o" := ["a.h"]]}), None).
Proof.
  assert (records_ok 0 ex_log) as Hok by by_decide.
  split; [exact Hok|]. rewrite (Read_prefix ex_log 50 Hok). vm_compute. reflexivity.
Defined.

(** A file of another version is refused rather than misread. *)
Theorem Read_version v s :
  u32_ok v → v ≠ SupportedVersion → Read (Some (magic +:+ le32 v +:+ s)) = (None, Some (ErrVersion v)).
Proof.
  intros Hv Hne. unfold Read. rewrite read_full_app, String.eqb_refl. cbn [negb].
  rewrite u32_le32 by done. apply Z.eqb_neq in Hne. by rewrite Hne.
Qed.

Lemma replay_last rs out lo hi ins o :
  (replay rs).1 !! out = Some o →
  (replay (rs ++ [RDeps out lo hi ins])).2 !! o = Some (omap (λ i, (replay rs).1 !! i) ins).
Proof.
  intros Ho. unfold replay in *. rewrite foldl_app. simpl. rewrite Ho. simpl. by rewrite lookup_insert_eq.
Qed.
