(* ===== verification/LinkPlane.v ===== *)
(** * The link plane ([internal/linkplane])

    Module [MapFile] reads GNU ld map files ([mapfile.go]), [Nm] the output of
    [nm --format=posix] ([nm.go]) and [Objdump] the disassembly ([objdump.go]).
    The tools themselves are outside the repository: their output is an
    argument here, and [Exec.v] says how it is captured. *)

From S2P Require Import Prelude GoStrings GoRegexp.
From Stdlib Require Import ZArith Lia.

Definition lp_max_line : Z := 4 * 1024 * 1024.

Module MapFile.

Record ArchivePull := MkArchivePull { Object : string; Referrer : string; Symbol : string }.

#[export] Instance ArchivePull_eq_dec : EqDecision ArchivePull.
Proof. solve_decision. Defined.

Record MapFile := MkMapFile {
  SymbolOrigin : gmap string string;
  ArchivePulls : list ArchivePull;
}.

(** [objectPath[:idx+2]] where ".a.p/" starts at [idx]. *)
Definition ArchiveFor (objectPath : string) : string :=
  match Index objectPath ".a.p/" with
  | None => ""
  | Some idx => stake (idx + 2) objectPath
  end.

Definition mfContribRe : re := Eval vm_compute in
  MustCompile "^\s+\.[\w.]+\s+0x[0-9a-fA-F]+\s+0x[0-9a-fA-F]+\s+(\S+\.o)$".
Definition mfContribHeadRe : re := Eval vm_compute in MustCompile "^\s+\.[\w.]+\s*$".
Definition mfContribTailRe : re := Eval vm_compute in
  MustCompile "^\s+0x[0-9a-fA-F]+\s+0x[0-9a-fA-F]+\s+(\S+\.o)$".
Definition mfSymRe : re := Eval vm_compute in
  MustCompile "^\s+0x[0-9a-fA-F]+\s+([A-Za-z_][\w.$@]*)$".
Definition mfLoadObject : re := Eval vm_compute in MustCompile "^(\S+\.o)$".
Definition mfLoadRef : re := Eval vm_compute in MustCompile "^\s+(\S+\.o)\s+\(([^)]+)\)$".

(** [phase] of the code: 0, 1, 2. *)
Inductive phase := PreLoad | LoadList | Sections.

Record state := St {
  ph : phase;
  pendingLoadObject : string;
  curContribObject : string;
  pendingSplitHeader : bool;
  mf : MapFile;
}.

Definition init : state := St PreLoad "" "" false (MkMapFile ∅ []).

(** A line of the section contributions. *)
Definition section_line (st : state) (line : string) : state :=
  let tail := if pendingSplitHeader st then FindStringSubmatch mfContribTailRe line else None in
  match tail with
  | Some m => St Sections (pendingLoadObject st) (group 1 m) false (mf st)
  | None =>
    match FindStringSubmatch mfContribRe line with
    | Some m => St Sections (pendingLoadObject st) (group 1 m) false (mf st)
    | None =>
      if MatchString mfContribHeadRe line
      then St Sections (pendingLoadObject st) (curContribObject st) true (mf st)
      else
        let sym := if String.eqb (curContribObject st) "" then None
                   else FindStringSubmatch mfSymRe line in
        match sym with
        | Some m =>
          let name := group 1 m in
          let origin := match SymbolOrigin (mf st) !! name with
                        | Some _ => SymbolOrigin (mf st)
                        | None => <[name := curContribObject st]> (SymbolOrigin (mf st))
                        end in
          St Sections (pendingLoadObject st) (curContribObject st) false
            (MkMapFile origin (ArchivePulls (mf st)))
        | None =>
          St Sections (pendingLoadObject st)
            (if HasPrefix line "  " then curContribObject st else "") false (mf st)
        end
    end
  end.

Definition ends_load_list (trimmed : string) : bool :=
  HasPrefix trimmed "Merging program properties" ||
  HasPrefix trimmed "Discarded input sections" ||
  HasPrefix trimmed "As-needed library" ||
  HasPrefix trimmed "Memory Configuration".

Definition load_line (st : state) (line trimmed : string) : state :=
  if String.eqb trimmed "" then st
  else if ends_load_list trimmed
  then St Sections (pendingLoadObject st) (curContribObject st) (pendingSplitHeader st) (mf st)
  else
    match FindStringSubmatch mfLoadObject trimmed with
    | Some m => St LoadList (group 1 m) (curContribObject st) (pendingSplitHeader st) (mf st)
    | None =>
      match FindStringSubmatch mfLoadRef line with
      | Some m =>
        if String.eqb (pendingLoadObject st) "" then st
        else St LoadList "" (curContribObject st) (pendingSplitHeader st)
               (MkMapFile (SymbolOrigin (mf st))
                  (ArchivePulls (mf st) ++
                   [MkArchivePull (pendingLoadObject st) (group 1 m) (group 2 m)]))
      | None => st
      end
    end.

Definition step (st : state) (line : string) : state :=
  let trimmed := TrimSpace line in
  match ph st with
  | PreLoad => if HasPrefix trimmed "Archive member included"
               then St LoadList (pendingLoadObject st) (curContribObject st)
                      (pendingSplitHeader st) (mf st)
               else st
  | LoadList => load_line st line trimmed
  | Sections => section_line st line
  end.

(** The file's text; the flag is [sc.Err()]. *)
Definition ReadMap (text : string) : MapFile * bool :=
  let '(lines, too_long) := ScanLines lp_max_line text in
  (mf (foldl step init lines), too_long).

(** *** Properties *)

Definition extends (m1 m2 : MapFile) : Prop :=
  SymbolOrigin m1 ⊆ SymbolOrigin m2 ∧ ∃ l, ArchivePulls m2 = ArchivePulls m1 ++ l.

#[export] Instance extends_preorder : PreOrder extends.
Proof.
  split.
  - intros m. split; [done|]. exists []. by rewrite app_nil_r.
  - intros m1 m2 m3 [H1 [l1 E1]] [H2 [l2 E2]]. split; [by etrans|].
    exists (l1 ++ l2). by rewrite E2, E1, app_assoc.
Qed.

Lemma step_extends st line : extends (mf st) (mf (step st line)).
Proof.
  assert (∀ m, extends m m) as Hrefl by (intros; reflexivity).
  unfold step, section_line, load_line. repeat (case_match; simpl; try apply Hrefl).
  all: split; simpl; try done; try (by exists []; rewrite app_nil_r); try (by eexists).
  all: by apply insert_subseteq.
Qed.

(** Reading on never changes a recorded origin — the first contribution that
    names a symbol keeps it — nor drops an archive pull. *)
Theorem steps_extend lines st : extends (mf st) (mf (foldl step st lines)).
Proof.
  apply (foldl_inv (λ st', extends (mf st) (mf st'))); [done|].
  intros st' l _ H. etrans; [exact H|]. apply step_extends.
Qed.

(** A map without the "Archive member included" heading, as the linker writes it
    when nothing was pulled from an archive, gives no symbol origins at all. *)
Theorem ReadMap_no_archive text :
  Forall (λ l, HasPrefix (TrimSpace l) "Archive member included" = false)
    (ScanLines lp_max_line text).1 →
  (ReadMap text).1 = MkMapFile ∅ [].
Proof.
  unfold ReadMap. destruct (ScanLines lp_max_line text) as [lines e]. cbn [fst].
  intros Hl. assert (foldl step init lines = init) as ->; [|done].
  induction Hl as [|l lines Hl _ IH]; [done|]. cbn [foldl].
  assert (step init l = init) as ->; [|done]. unfold step. cbn [init ph]. by rewrite Hl.
Qed.

(** An object in the private directory of a static library is attributed to
    that library. *)
Theorem ArchiveFor_member dir obj :
  Index (dir +:+ ".a.p/" +:+ obj) ".a.p/" = Some (String.length dir) →
  ArchiveFor (dir +:+ ".a.p/" +:+ obj) = dir +:+ ".a".
Proof.
  intros H. unfold ArchiveFor. rewrite H.
  change (".a.p/" +:+ obj) with (".a" +:+ (".p/" +:+ obj)).
  replace (String.length dir + 2) with (String.length (dir +:+ ".a")) by (by rewrite slen_app).
  rewrite <-sapp_assoc. apply stake_app.
Qed.

End MapFile.

Module Nm.

Record NMSymbol := MkNMSymbol { Name : string; Kind : string; Address : string; Size : Z }.

#[export] Instance NMSymbol_eq_dec : EqDecision NMSymbol.
Proof. solve_decision. Defined.

Definition Strong (s : NMSymbol) : bool := bool_decide (Kind s ∈ ["T"; "D"; "B"; "R"]).
Definition Weak (s : NMSymbol) : bool := bool_decide (Kind s ∈ ["W"; "V"]).

Definition Local (s : NMSymbol) : bool :=
  match Kind s with
  | String c "" => is_lower c && negb (Ascii.eqb c "w") && negb (Ascii.eqb c "v")
  | _ => false
  end.

Definition LinkageKind (s : NMSymbol) : string :=
  if Weak s then "weak"
  else if String.eqb (Kind s) "C" then "common"
  else if String.eqb (Kind s) "u" then "unique_global"
  else if Strong s then "strong" else "".

Definition IsFunction (s : NMSymbol) : bool := bool_decide (Kind s ∈ ["T"; "t"; "W"; "w"]).

(** One line of the output: fewer than two fields are skipped. *)
Definition parse_nm_line (raw : string) : option NMSymbol :=
  let line := TrimSpace raw in
  if String.eqb line "" then None
  else match Fields line with
  | name :: kind :: rest =>
    let size := match rest with
                | _ :: sz :: _ => match ParseInt 16 sz with (n, None) => n | _ => 0%Z end
                | _ => 0%Z
                end in
    Some (MkNMSymbol name kind (default "" (head rest)) size)
  | _ => None
  end.

(** The default [bufio.Scanner] buffer holds lines below 64 KiB. *)
Definition nm_max_line : Z := 64 * 1024.

Definition parseNMPosix (out : string) : list NMSymbol * bool :=
  let '(lines, too_long) := ScanLines nm_max_line out in
  (omap parse_nm_line lines, too_long).

Record ObjectDef := MkObjectDef { Object : string; DefKind : string }.

#[export] Instance ObjectDef_eq_dec : EqDecision ObjectDef.
Proof. solve_decision. Defined.

(** [RunNMDefined]: [nm] is the tool's output for a path, [None] when it fails. *)
Definition RunNMDefined (nm : string → option string) (path : string) : option (list NMSymbol) :=
  match nm path with
  | None => None
  | Some out => let '(syms, too_long) := parseNMPosix out in
                if too_long then None else Some syms
  end.

Definition add_def (obj : string) (out : gmap string (list ObjectDef)) (s : NMSymbol) :
    gmap string (list ObjectDef) :=
  if String.eqb (Kind s) "" || String.eqb (Name s) "" then out
  else <[Name s := default [] (out !! Name s) ++ [MkObjectDef obj (Kind s)]]> out.

Fixpoint scan_objects (nm : string → option string) (objects : list string)
    (out : gmap string (list ObjectDef)) : option (gmap string (list ObjectDef)) :=
  match objects with
  | [] => Some out
  | obj :: objects =>
    match RunNMDefined nm obj with
    | None => None
    | Some syms => scan_objects nm objects (foldl (add_def obj) out syms)
    end
  end.

Definition ScanObjectDefs (nm : string → option string) (objects : list string) :
    option (gmap string (list ObjectDef)) := scan_objects nm objects ∅.

(** *** Properties *)

(** A line as nm writes it for a defined symbol. *)
Definition print_nm (s : NMSymbol) (size : string) : string :=
  Join [Name s; Kind s; Address s; size] " ".

Lemma parse_nm_print s size :
  Forall (λ w, w ≠ "" ∧ no_space w) [Name s; Kind s; Address s; size] →
  ParseInt 16 size = (Size s, None) →
  parse_nm_line (print_nm s size) = Some s.
Proof.
  intros Hw Hsize. unfold parse_nm_line, print_nm.
  assert (TrimSpace (Join [Name s; Kind s; Address s; size] " ") =
          Join [Name s; Kind s; Address s; size] " ") as ->.
  { inversion_clear Hw as [|? ? [Hn Hns] Hr]. inversion_clear Hr as [|? ? _ Hr'].
    inversion_clear Hr' as [|? ? _ Hr]. inversion_clear Hr as [|? ? [Hz Hzs] _]. cbn [Join].
    rewrite <-(sapp_assoc (Address s)), <-(sapp_assoc " " _ size), <-(sapp_assoc (Kind s)),
      <-(sapp_assoc " " _ size), <-(sapp_assoc (Name s)).
    apply TrimSpace_ends; [..|by apply TrimRight_word|done].
    - intros H. apply sapp_eq_nil in H as [? _]. done.
    - destruct (Name s) as [|a w]; [done|]. rewrite sapp_cons. simpl.
      unfold no_space in Hns. rewrite all_chars_cons, andb_true_iff in Hns.
      by destruct (is_space a), Hns. }
  rewrite Fields_Join by done.
  destruct (String.eqb_spec (Join [Name s; Kind s; Address s; size] " ") "") as [H|_].
  { inversion_clear Hw as [|? ? [Hn _] _]. cbn [Join] in H. apply sapp_eq_nil in H as [? _]. done. }
  cbn [head default]. rewrite Hsize. by destruct s.
Qed.

(** The observations of [ScanObjectDefs] for one name: every object in the order
    given, every symbol of it in nm's order. *)
Definition defs_of (nm : string → option string) (objects : list string) (name : string) :
    list ObjectDef :=
  objects ≫= λ obj,
    match RunNMDefined nm obj with
    | None => []
    | Some syms => MkObjectDef obj <$>
        (Kind <$> filter (λ s, Name s = name ∧ Kind s ≠ "" ∧ name ≠ "") syms)
    end.

Lemma foldl_add_def obj syms out name :
  default [] (foldl (add_def obj) out syms !! name) =
  default [] (out !! name) ++
    (MkObjectDef obj <$> (Kind <$> filter (λ s, Name s = name ∧ Kind s ≠ "" ∧ name ≠ "") syms)).
Proof.
  revert out; induction syms as [|s syms IH]; intros out; [by rewrite app_nil_r|].
  cbn [foldl]. rewrite IH. unfold add_def.
  destruct (String.eqb_spec (Kind s) "") as [Hk|Hk]; [|destruct (String.eqb_spec (Name s) "") as [Hn|Hn]];
    cbn [orb].
  - rewrite filter_cons_False; [done|naive_solver].
  - rewrite filter_cons_False; [done|naive_solver congruence].
  - destruct (decide (Name s = name)) as [<-|Hne].
    + rewrite lookup_insert_eq, filter_cons_True by done. cbn. by rewrite <-app_assoc.
    + rewrite lookup_insert_ne, filter_cons_False by naive_solver. done.
Qed.

(** The index lists, for every symbol name, exactly the defining objects in scan
    order; and the scan succeeds when nm does on every object. *)
Theorem ScanObjectDefs_spec nm objects :
  (∀ obj, obj ∈ objects → is_Some (RunNMDefined nm obj)) →
  ∃ out, ScanObjectDefs nm objects = Some out ∧
    ∀ name, default [] (out !! name) = defs_of nm objects name.
Proof.
  unfold ScanObjectDefs. intros Hok.
  enough (∀ acc, ∃ out, scan_objects nm objects acc = Some out ∧
    ∀ name, default [] (out !! name) = default [] (acc !! name) ++ defs_of nm objects name) as H.
  { destruct (H ∅) as (out & Hs & Ho). exists out. split; [done|]. intros name.
    by rewrite Ho, lookup_empty. }
  induction objects as [|obj objects IH]; intros acc.
  { exists acc. split; [done|]. intros name. unfold defs_of. simpl. by rewrite app_nil_r. }
  cbn [scan_objects]. destruct (Hok obj) as [syms Hsyms]; [set_solver|]. rewrite Hsyms.
  destruct (IH ltac:(intros; apply Hok; set_solver) (foldl (add_def obj) acc syms)) as (out & Hs & Ho).
  exists out. split; [done|]. intros name. rewrite Ho, foldl_add_def, <-app_assoc.
  unfold defs_of. cbn [mbind list_bind]. by rewrite Hsyms.
Qed.

(** Conversely a scan that ends well has read every object. *)
Lemma ScanObjectDefs_Some nm objects out :
  ScanObjectDefs nm objects = Some out →
  (∀ obj, obj ∈ objects → is_Some (RunNMDefined nm obj)) ∧
  ∀ name, default [] (out !! name) = defs_of nm objects name.
Proof.
  intros H. assert (∀ obj, obj ∈ objects → is_Some (RunNMDefined nm obj)) as Hok.
  { revert H. unfold ScanObjectDefs. generalize (∅ : gmap string (list ObjectDef)) as acc.
    induction objects as [|o objects IH]; intros acc H; [set_solver|]. cbn [scan_objects] in H.
    destruct (RunNMDefined nm o) eqn:E; [|done]. intros obj [->|Hin]%elem_of_cons; [by rewrite E|].
    by eapply IH. }
  split; [done|]. destruct (ScanObjectDefs_spec nm objects Hok) as (out' & H' & Hdefs). congruence.
Qed.

(** The linkage kinds are disjoint, except that nm's unique global symbols count
    as local as well. *)
Theorem Local_kinds s :
  (Local s = true → Strong s = false ∧ Weak s = false) ∧
  (Strong s = true → Weak s = false) ∧
  (Local s = true → LinkageKind s ≠ "" → LinkageKind s = "unique_global").
Proof.
  unfold Local, Strong, Weak, LinkageKind, Weak, Strong.
  destruct (Kind s) as [|c [|d r]]; [done| |].
  - split; [|split].
    + intros Hl. split; apply bool_decide_false; intros H; rewrite !elem_of_cons, elem_of_nil in H;
        destruct_or! H; simplify_eq; done.
    + intros Hs. apply bool_decide_false. apply bool_decide_true in Hs || apply bool_decide_eq_true in Hs.
      rewrite !elem_of_cons, elem_of_nil in *. intros H. destruct_or! H; destruct_or! Hs; simplify_eq; done.
    + intros Hl. repeat case_match; try done; repeat match goal with H : bool_decide _ = true |- _ =>
        apply bool_decide_eq_true in H; rewrite !elem_of_cons, elem_of_nil in H; destruct_or! H; simplify_eq; done
      | H : String.eqb _ _ = true |- _ => apply String.eqb_eq in H; simplify_eq; done end.
  - split; [done|]. split; [|done]. intros Hs. apply bool_decide_eq_true in Hs.
    rewrite !elem_of_cons, elem_of_nil in Hs. destruct_or! Hs; simplify_eq.
Qed.

End Nm.

Module Objdump.

Record ObjdumpEdge := MkObjdumpEdge {
  Caller : string;
  CallerAddr : Z;
  Callee : string;
  CalleeAddr : Z;
}.

#[export] Instance ObjdumpEdge_eq_dec : EqDecision ObjdumpEdge.
Proof. solve_decision. Defined.

Definition CalleeStripped (e : ObjdumpEdge) : string := CutByteBefore "@" (Callee e).

Definition odFuncRe : re := Eval vm_compute in MustCompile "^([0-9a-fA-F]+)\s+<([^>]+)>:$".
Definition odDirectCallRe : re := Eval vm_compute in
  MustCompile "^\s+[0-9a-fA-F]+:\s+(?:call|jmp)\s+([0-9a-fA-F]+)\s+<([^>]+)>".

Record state := St { curFunc : string; curFuncAddr : Z; edges : list ObjdumpEdge }.

Definition step (st : state) (line : string) : state :=
  match FindStringSubmatch odFuncRe line with
  | Some m => St (group 2 m) (ParseUint 16 (group 1 m)).1 (edges st)
  | None =>
    if String.eqb (curFunc st) "" then st
    else match FindStringSubmatch odDirectCallRe line with
    | Some m =>
      St (curFunc st) (curFuncAddr st)
        (edges st ++ [MkObjdumpEdge (curFunc st) (curFuncAddr st) (group 2 m)
                        (ParseUint 16 (group 1 m)).1])
    | None => st
    end
  end.

Definition parseObjdumpStream (text : string) : list ObjdumpEdge * bool :=
  let '(lines, too_long) := ScanLines lp_max_line text in
  (edges (foldl step (St "" 0 []) lines), too_long).

(** *** Properties *)

(** objdump's listing: functions with their instructions, each at an address written
    to the right of some padding.  A call or jump has a target with its label, perhaps
    with more behind it, or goes through an operand that starts with a star, whatever
    follows it — a comment with a label included; another instruction has a mnemonic of
    its own. *)
Inductive insn :=
| ICall (jmp : bool) (target : string) (callee rest : string)
| IIndirect (jmp : bool) (operand : string)
| IOther (mnemonic : string) (operands : string).

Definition op_text (jmp : bool) : string := if jmp then "jmp    " else "call   ".

Definition insn_text (i : insn) : string :=
  match i with
  | ICall jmp target callee rest => op_text jmp +:+ target +:+ " <" +:+ callee +:+ ">" +:+ rest
  | IIndirect jmp operand => op_text jmp +:+ "*" +:+ operand
  | IOther mnemonic operands => mnemonic +:+ operands
  end.

Definition print_insn (l : string * string * insn) : string :=
  let '(pad, at_, i) := l in pad +:+ at_ +:+ ":" +:+ str1 "009" +:+ insn_text i.

Definition print_func (f : string * string * list (string * string * insn)) : list string :=
  let '(addr, name, is_) := f in
  (addr +:+ " <" +:+ name +:+ ">:") :: (print_insn <$> is_) ++ [""].

Definition is_hex (a : ascii) : bool :=
  in_class false [(48%N, 57%N); (97%N, 102%N); (65%N, 70%N)] a.
Definition hex_ok (s : string) : Prop := s ≠ "" ∧ all_chars is_hex s = true.
Definition label_ok (s : string) : Prop := s ≠ "" ∧ lacks ">" s = true.

Definition insn_ok (i : insn) : Prop :=
  match i with
  | ICall _ target callee _ => hex_ok target ∧ label_ok callee
  | IIndirect _ _ => True
  | IOther mnemonic operands => mnemonic ≠ "" ∧ no_space mnemonic ∧ mnemonic ≠ "call" ∧ mnemonic ≠ "jmp" ∧
                                (operands = "" ∨ HasPrefix operands " " = true)
  end.
Definition insn_line_ok (l : string * string * insn) : Prop :=
  (l.1.1 ≠ "" ∧ all_chars (λ a, Ascii.eqb a " ") l.1.1 = true) ∧ hex_ok l.1.2 ∧ insn_ok l.2.

Definition func_ok (f : string * string * list (string * string * insn)) : Prop :=
  hex_ok f.1.1 ∧ label_ok f.1.2 ∧ Forall insn_line_ok f.2.

Definition edge_of (addr name : string) (l : string * string * insn) : option ObjdumpEdge :=
  match l.2 with
  | ICall _ target callee _ =>
    Some (MkObjdumpEdge name (ParseUint 16 addr).1 callee (ParseUint 16 target).1)
  | IIndirect _ _ | IOther _ _ => None
  end.

Definition edges_of (f : string * string * list (string * string * insn)) : list ObjdumpEdge :=
  omap (edge_of f.1.1 f.1.2) f.2.

Lemma label_class s : label_ok s → s ≠ "" ∧ all_chars (in_class true [(62%N, 62%N)]) s = true.
Proof.
  intros [Hne Hl]. split; [done|]. revert Hl. apply all_chars_impl.
  intros a. by destruct a as [[] [] [] [] [] [] [] []].
Qed.

Lemma func_line addr name st :
  hex_ok addr → label_ok name →
  step st (addr +:+ " <" +:+ name +:+ ">:") = St name (ParseUint 16 addr).1 (edges st).
Proof.
  intros [Ha1 Ha2] Hn. apply label_class in Hn as [Hn1 Hn2]. unfold step.
  assert (FindStringSubmatch odFuncRe (addr +:+ " <" +:+ name +:+ ">:") =
    Some (RMatch 0 (String.length (addr +:+ " <" +:+ name +:+ ">:")) (addr +:+ " <" +:+ name +:+ ">:")
            [(2, name); (1, addr)])) as ->; [|done].
  unfold odFuncRe. apply FindStringSubmatch_begin_picks.
  apply (picks_cat _ _ addr _ _ [(1, addr)] [(2, name)]); [by apply picks_group, picks_plus|].
  apply (picks_cat _ _ " " ("<" +:+ name +:+ ">:") _ [] [(2, name)]); [by apply picks_plus|].
  apply (picks_literal "<" _ (name +:+ ">:")).
  apply (picks_cat _ _ name _ _ [(2, name)] []); [by apply picks_group, picks_plus|].
  apply (picks_literal ">:" _ ""). apply picks_end.
Qed.

Lemma hex_no_space s t : hex_ok s → starts_in (in_class false space_ranges) (s +:+ t) = false.
Proof.
  intros [Hne Hs]. destruct s as [|a s]; [done|]. rewrite all_chars_cons, andb_true_iff in Hs. destruct Hs as [Ha _].
  revert Ha. clear. by destruct a as [[] [] [] [] [] [] [] []].
Qed.

Lemma op_no_space jmp t : starts_in (in_class false space_ranges) (op_text jmp +:+ t) = false.
Proof. by destruct jmp. Qed.

Lemma space_class_rejects_hex : ∀ a, in_class false space_ranges a = true → is_hex a = false.
Proof. intros a. by destruct a as [[] [] [] [] [] [] [] []]. Qed.

Section insn_line.
Context (pad at_ : string) (Hpad : pad ≠ "" ∧ all_chars (λ a, Ascii.eqb a " ") pad = true) (Hat : hex_ok at_).

Lemma pad_class : all_chars (in_class false space_ranges) pad = true.
Proof. destruct Hpad as [_ H]. eapply all_chars_impl; [|exact H]. intros a. by destruct a as [[] [] [] [] [] [] [] []]. Qed.

Lemma no_function text : FindStringSubmatch odFuncRe (pad +:+ at_ +:+ text) = None.
Proof.
  destruct Hpad as [Hne Hp]. destruct pad as [|a p]; [done|]. rewrite all_chars_cons, andb_true_iff in Hp.
  destruct Hp as [->%Ascii.eqb_eq _]. unfold odFuncRe. by apply FindStringSubmatch_begin_miss.
Qed.

Lemma call_found jmp target callee rest :
  hex_ok target → label_ok callee → ∃ m,
  FindStringSubmatch odDirectCallRe (pad +:+ at_ +:+ ":" +:+ str1 "009" +:+ insn_text (ICall jmp target callee rest)) = Some m ∧
    group 2 m = callee ∧ group 1 m = target.
Proof.
  intros [Ht1 Ht2] Hc. apply label_class in Hc as [Hc1 Hc2]. destruct Hat as [Ha1 Ha2].
  set (line := pad +:+ at_ +:+ ":" +:+ str1 "009" +:+ op_text jmp +:+ target +:+ " " +:+ "<" +:+ callee +:+ ">").
  assert (pad +:+ at_ +:+ ":" +:+ str1 "009" +:+ insn_text (ICall jmp target callee rest) = line +:+ rest) as ->
    by (subst line; by rewrite !sapp_assoc).
  exists (RMatch 0 (String.length line) line [(2, callee); (1, target)]). split; [|done].
  unfold odDirectCallRe. apply FindStringSubmatch_begin_picks_app. subst line.
  apply (picks_cat _ _ pad _ _ [] [(2, callee); (1, target)]).
  { apply picks_plus; [apply Hpad|apply pad_class|]. rewrite !sapp_assoc. by apply hex_no_space. }
  apply (picks_cat _ _ at_ _ _ [] [(2, callee); (1, target)]); [by apply picks_plus|].
  apply (picks_literal ":").
  apply (picks_cat _ _ (str1 "009") _ _ [] [(2, callee); (1, target)]);
    [apply picks_plus; [done..|]; by destruct jmp|].
  assert (op_text jmp = (if jmp then "jmp" else "call") +:+ (if jmp then "    " else "   ")) as -> by by destruct jmp.
  rewrite sapp_assoc. apply (picks_cat _ _ (if jmp then "jmp" else "call") _ _ [] [(2, callee); (1, target)]).
  { destruct jmp.
    - apply picks_alt_r; [by intros st' Hst'; cbn [run]; rewrite Hst'|].
      apply (picks_literal "jm" _ "p"). by apply (picks_class _ _ "p").
    - apply picks_alt_l. apply (picks_literal "cal" _ "l"). by apply (picks_class _ _ "l"). }
  apply (picks_cat _ _ (if jmp then "    " else "   ") _ _ [] [(2, callee); (1, target)]).
  { apply picks_plus; [by destruct jmp..|]. rewrite !sapp_assoc. by apply hex_no_space. }
  apply (picks_cat _ _ target _ _ [(1, target)] [(2, callee)]); [by apply picks_group, picks_plus|].
  apply (picks_cat _ _ " " _ _ [] [(2, callee)]); [by apply picks_plus|].
  apply (picks_literal "<").
  apply (picks_cat _ _ callee _ _ [(2, callee)] []); [by apply picks_group, picks_plus|].
  by apply (picks_class _ _ ">").
Qed.

(** Where neither word is followed by space and a hexadecimal number, no call is found. *)
Lemma call_missed text :
  starts_in is_space text = false →
  (∀ t, text = "call" +:+ t ∨ text = "jmp" +:+ t → ∃ sp u, t = sp +:+ u ∧ all_chars (λ a, Ascii.eqb a " ") sp = true ∧
     (sp = "" ∨ starts_in is_hex u = false) ∧ starts_in (in_class false space_ranges) u = false) →
  FindStringSubmatch odDirectCallRe (pad +:+ at_ +:+ ":" +:+ str1 "009" +:+ text) = None.
Proof.
  intros Hsp Hops. destruct Hat as [Ha1 Ha2]. unfold odDirectCallRe. apply fails_begin_search.
  2: { destruct Hpad as [Hne _]. by intros [? _]%sapp_eq_nil. }
  apply fails_cat_plus; [apply pad_class|by apply hex_no_space| |].
  { do 2 apply rejects_cat. apply rejects_class, space_class_rejects_hex. }
  apply fails_cat_plus; [done..| |].
  { apply rejects_cat, rejects_class. intros a. by destruct a as [[] [] [] [] [] [] [] []]. }
  apply fails_cat_class. apply (fails_cat_plus _ _ _ (str1 "009")); [done| | |].
  - destruct text as [|a t]; [done|]. simpl in *. revert Hsp. clear. by destruct a as [[] [] [] [] [] [] [] []].
  - apply rejects_cat. intros st' Hst'. destruct (rs_rest st') as [|a t] eqn:E; [done|].
    cbn [run]. rewrite E. revert Hst'. clear. by destruct a as [[] [] [] [] [] [] [] []].
  - assert (∀ t, text = "call" +:+ t ∨ text = "jmp" +:+ t → ∀ r, fails (RE_cat (RE_cat (RE_class false space_ranges)
      (RE_star true (RE_class false space_ranges))) (RE_cat (RE_group 1 (RE_cat (RE_class false [(48%N, 57%N); (97%N, 102%N); (65%N, 70%N)])
        (RE_star true (RE_class false [(48%N, 57%N); (97%N, 102%N); (65%N, 70%N)])))) r)) t) as Hrest.
    { intros t Ht r. destruct (Hops t Ht) as (sp & u & -> & Hs & Hu & Hnu).
      destruct (decide (sp = "")) as [->|Hsp'].
      - do 2 apply fails_cat. by apply fails_class.
      - apply fails_cat_plus; [|done| |].
        + eapply all_chars_impl; [|exact Hs]. intros a. by destruct a as [[] [] [] [] [] [] [] []].
        + apply rejects_cat, rejects_group, rejects_cat, rejects_class, space_class_rejects_hex.
        + destruct Hu as [|Hu]; [done|]. apply fails_cat. intros st Hst. cbn [run].
          assert (run (RE_class false [(48%N, 57%N); (97%N, 102%N); (65%N, 70%N)]) st = []) as E.
          { apply run_class_miss. by rewrite Hst. }
          cbn [run] in E. by rewrite E. }
    apply fails_cat_alt.
    + apply (fails_cat_literal "cal" "l"). intros t ->. apply Hrest. by left.
    + apply (fails_cat_literal "jm" "p"). intros t ->. apply Hrest. by right.
Qed.

Lemma indirect_missed jmp operand :
  FindStringSubmatch odDirectCallRe (pad +:+ at_ +:+ ":" +:+ str1 "009" +:+ insn_text (IIndirect jmp operand)) = None.
Proof.
  apply call_missed; [by destruct jmp|]. intros t [E|E]; destruct jmp; try done.
  - assert (t = "   " +:+ ("*" +:+ operand)) as -> by (symmetry; injection E; done).
    by exists "   ", ("*" +:+ operand); split; [|split; [|split; [right|]]].
  - assert (t = "    " +:+ ("*" +:+ operand)) as -> by (symmetry; injection E; done).
    by exists "    ", ("*" +:+ operand); split; [|split; [|split; [right|]]].
Qed.

Lemma other_missed mnemonic operands :
  insn_ok (IOther mnemonic operands) →
  FindStringSubmatch odDirectCallRe (pad +:+ at_ +:+ ":" +:+ str1 "009" +:+ insn_text (IOther mnemonic operands)) = None.
Proof.
  intros (Hne & Hs & Hcall & Hjmp & Ho). cbn [insn_text]. apply call_missed.
  - destruct mnemonic as [|a w]; [done|]. unfold no_space in Hs. rewrite all_chars_cons, andb_true_iff in Hs.
    destruct Hs as [Ha _]. by apply negb_true_iff in Ha.
  - assert (∀ k t, k ≠ "" → no_space k → mnemonic ≠ k → mnemonic +:+ operands = k +:+ t →
              starts_in (in_class false space_ranges) t = false) as H.
    { intros k t Hk Hks Hmk [(w & E & ->)|(w & E & E')]%sapp_split.
      - destruct w as [|c w]; [rewrite sapp_nil_r in E; congruence|]. subst mnemonic. rewrite sapp_cons. cbn.
        unfold no_space in Hs. rewrite all_chars_app, all_chars_cons, !andb_true_iff in Hs. destruct Hs as (_ & Hc & _).
        revert Hc. clear. by destruct c as [[] [] [] [] [] [] [] []].
      - destruct w as [|c w]; [rewrite sapp_nil_r in E; congruence|]. subst k. destruct Ho as [->|Ho]; [done|].
        rewrite E', sapp_cons in Ho. change " " with (str1 " ") in Ho. rewrite HasPrefix_str1 in Ho. apply Ascii.eqb_eq in Ho as ->.
        unfold no_space in Hks. by rewrite all_chars_app, andb_true_iff in Hks; destruct Hks. }
    intros t Ht. exists "", t. split; [done|]. split; [done|]. split; [by left|].
    destruct Ht; [by apply (H "call")|by apply (H "jmp")].
Qed.
End insn_line.

Lemma insn_line name addr st l :
  curFunc st = name → curFuncAddr st = (ParseUint 16 addr).1 → name ≠ "" → insn_line_ok l →
  step st (print_insn l) = St name (ParseUint 16 addr).1 (edges st ++ option_list (edge_of addr name l)).
Proof.
  destruct l as [[pad at_] i]. intros Hf Ha Hne (Hpad & Hat & Hi). cbn [fst snd] in *. unfold step, print_insn.
  rewrite no_function, Hf by done. destruct (String.eqb_spec name "") as [|_]; [done|].
  destruct i as [jmp target callee rest|jmp operand|mnemonic operands].
  - destruct Hi as [Ht Hc]. destruct (call_found pad at_ Hpad Hat jmp target callee rest Ht Hc) as (m & -> & -> & ->).
    by rewrite Ha.
  - rewrite indirect_missed by done. cbn. rewrite app_nil_r, <-Hf, <-Ha. by destruct st.
  - rewrite other_missed by done. cbn. rewrite app_nil_r, <-Hf, <-Ha. by destruct st.
Qed.

Lemma insns_lines name addr is_ st :
  curFunc st = name → curFuncAddr st = (ParseUint 16 addr).1 → name ≠ "" → Forall insn_line_ok is_ →
  foldl step st (print_insn <$> is_) =
    St name (ParseUint 16 addr).1 (edges st ++ omap (edge_of addr name) is_).
Proof.
  intros Hf Ha Hne His. revert st Hf Ha. induction His as [|i is_ Hi _ IH]; intros st Hf Ha.
  - cbn. rewrite app_nil_r, <-Hf, <-Ha. by destruct st.
  - rewrite fmap_cons. cbn [foldl]. rewrite (insn_line name addr) by done.
    rewrite IH by done. cbn [edges omap list_omap]. rewrite <-app_assoc. by destruct (edge_of addr name i).
Qed.

(** C39: From a disassembly listing every direct call and jump becomes one edge, in
    order, with the enclosing function and both addresses; a call through an operand,
    whatever its comment names, and any other instruction give none. *)
Theorem parseObjdump_print fs :
  Forall func_ok fs → Forall (plain_line lp_max_line) (mjoin (print_func <$> fs)) →
  parseObjdumpStream (unlines (mjoin (print_func <$> fs))) = (fs ≫= edges_of, false).
Proof.
  intros Hfs Hl. unfold parseObjdumpStream. rewrite ScanLines_unlines by done. clear Hl.
  assert (∀ st, edges (foldl step st (mjoin (print_func <$> fs))) = edges st ++ (fs ≫= edges_of)) as H;
    [|by rewrite H].
  induction Hfs as [|[[addr name] is_] fs (Ha & Hn & His) _ IH]; intros st.
  { cbn. by rewrite app_nil_r. }
  cbn [fmap list_fmap mjoin list_join print_func]. rewrite foldl_app. cbn [foldl].
  simpl in Ha, Hn, His. rewrite func_line by done. rewrite foldl_app, (insns_lines name addr) by
    (try done; apply Hn). cbn [foldl edges].
  rewrite IH. cbn [mbind list_bind]. rewrite app_assoc. f_equal.
  unfold step. assert (FindStringSubmatch odFuncRe "" = None) as -> by done.
  cbn [curFunc]. destruct (String.eqb name ""); [done|].
  assert (FindStringSubmatch odDirectCallRe "" = None) as -> by done. done.
Qed.

Definition ex_listing : list (string * string * list (string * string * insn)) :=
  [("0000000000001040", "main",
    [("    ", "1040", IOther "push" "   %rbp"); ("    ", "1041", ICall false "1030" "puts@plt" "");
     ("    ", "105c", IIndirect false "0x2d5e(%rip)        # 3dc0 <g_ops>"); ("    ", "1062", IIndirect true "%rax");
     ("    ", "1064", IOther "je" "     1050 <exit>"); ("    ", "1066", IOther "callq" "  1050 <exit>");
     ("    ", "1068", ICall true "1050" "exit" "")])].

Lemma parseObjdump_print_witness :
  Forall func_ok ex_listing ∧
  Forall (plain_line lp_max_line) (mjoin (print_func <$> ex_listing)) ∧
  parseObjdumpStream (unlines (mjoin (print_func <$> ex_listing))) =
    ([MkObjdumpEdge "main" 4160 "puts@plt" 4144; MkObjdumpEdge "main" 4160 "exit" 4176], false).
Proof.
  assert (Forall func_ok ex_listing) as Hok by (repeat constructor; by_decide).
  assert (Forall (plain_line lp_max_line) (mjoin (print_func <$> ex_listing))) as Hl by by_decide.
  split; [exact Hok|]. split; [exact Hl|]. rewrite (parseObjdump_print _ Hok Hl). vm_compute. reflexivity.
Defined.

(** The callee name used for lookup has no PLT or version decoration and is a
    prefix of the raw one. *)
Theorem CalleeStripped_spec e :
  lacks "@" (CalleeStripped e) = true ∧ HasPrefix (Callee e) (CalleeStripped e) = true ∧
  (lacks "@" (Callee e) = true → CalleeStripped e = Callee e).
Proof.
  unfold CalleeStripped, CutByteBefore. destruct (IndexByte (Callee e) "@") as [i|] eqn:E.
  - apply IndexByte_Some in E as E'. destruct E' as [Hs Hl]. split; [done|]. split.
    + apply HasPrefix_true. eauto.
    + intros H. apply IndexByte_None in H. congruence.
  - apply IndexByte_None in E. split; [done|]. split; [|done].
    apply HasPrefix_true. exists "". by rewrite sapp_nil_r.
Qed.

End Objdump.
