(* ===== verification/Exec.v ===== *)
(** * Running the binutils ([internal/linkplane/exec.go])

    [runTool] buffers a tool's output, [runToolStreaming] hands it to a consumer as
    it comes and keeps only a bounded head for the error message.  What the system
    does with a command is the parameter [spawn]; the progress log is returned with
    the result.  [RunNMDefined], [RunNMUndefined] and [RunObjdump] of [nm.go] and
    [objdump.go] are built from the two. *)

From S2P Require Import Prelude GoStrings LinkPlane.
From Stdlib Require Import ZArith Lia.

(** ** What a command does *)

(** An error of [os/exec]: its text, and the excerpt of stderr an [ExitError] can
    carry. *)
Record exec_error := ExecError { ee_text : string; ee_stderr : string }.

(** A command that was started: what it wrote, in the pieces [Read] sees, and what
    [Wait] says when all of it was read, or when it was not. *)
Record child := Child {
  ch_stdout : list string;
  ch_stderr : string;
  ch_wait : bool → option exec_error;
  ch_elapsed : string;
}.

Inductive started :=
| PipeError (text elapsed : string)
| StartError (text elapsed : string)
| Started (c : child).

Definition concat (ps : list string) : string := foldr String.append "" ps.

(** ** The bounded buffer *)

Definition stdoutHeadLimit : nat := 2 * 1024.

(** [boundedBuffer]: its bytes and its limit. *)
Record boundedBuffer := MkBoundedBuffer { buf : string; limit : nat }.

(** [Write]: the buffer after, and the count returned. *)
Definition Write (b : boundedBuffer) (p : string) : boundedBuffer * nat :=
  let room := limit b - String.length (buf b) in
  (if 0 <? room
   then MkBoundedBuffer (buf b +:+ (if String.length p <=? room then p else stake room p)) (limit b)
   else b,
   String.length p).

(** ** Sizes *)

(** [float64(n)]: the integer rounded to 53 bits, ties to even. *)
Definition round_half_even (n d : Z) : Z :=
  let q := (n / d)%Z in
  let r := (n mod d)%Z in
  if (d <? 2 * r)%Z || ((2 * r =? d)%Z && Z.odd q) then (q + 1)%Z else q.
Definition float64 (n : Z) : Z :=
  let s := (Z.log2 n - 52)%Z in
  if (s <=? 0)%Z then n else (round_half_even n (2 ^ s) * 2 ^ s)%Z.

(** [%.1f] of [m / d], [d] a power of two. *)
Definition tenths (m d : Z) : Z := round_half_even (10 * m) d.
Definition format_tenths (t : Z) : string := dec (t / 10) +:+ "." +:+ dec (t mod 10).

(** The loop of [byteCount]: the divisor and the exponent. *)
Fixpoint size_unit (fuel : nat) (x div : Z) (exp : nat) : Z * nat :=
  match fuel with
  | 0 => (div, exp)
  | S fuel => if (1024 <=? x)%Z then size_unit fuel (x / 1024) (div * 1024) (S exp) else (div, exp)
  end.

Definition byteCount (n : Z) : outcome string :=
  if (n <? 1024)%Z then Val (dec n +:+ " B")
  else
    let '(div, exp) := size_unit 7 (n / 1024) 1024 0 in
    match schars "KMGTPE" !! exp with
    | Some u => Val (format_tenths (tenths (float64 n) div) +:+ " " +:+ str1 u +:+ "B")
    | None => Panic
    end.

(** ** Errors *)

(** [strings.TrimRight(s, "\n")] *)
Fixpoint trim_newlines (s : string) : string :=
  match s with
  | "" => ""
  | String a s' => match trim_newlines s' with
                   | "" => if Ascii.eqb a NL then "" else str1 a
                   | r => String a r
                   end
  end.

Definition command_line (name : string) (args : list string) : string := name +:+ " " +:+ Join args " ".

Definition stderr_part (stderr : string) (err : exec_error) : string :=
  let stderr := if negb (String.eqb (ee_stderr err) "") && String.eqb stderr "" then ee_stderr err else stderr in
  let s := trim_newlines stderr in
  if String.eqb s "" then "" else str1 NL +:+ "--- stderr ---" +:+ str1 NL +:+ s.

Definition stdout_part (stdout : string) : string :=
  if String.eqb stdout "" then ""
  else
    let head := if stdoutHeadLimit <? String.length stdout then stake stdoutHeadLimit stdout else stdout in
    str1 NL +:+ "--- stdout (first " +:+ dec (Z.of_nat (String.length head)) +:+ " bytes)" +:+
    (if String.length head <? String.length stdout then " of " +:+ dec (Z.of_nat (String.length stdout)) else "") +:+
    " ---" +:+ str1 NL +:+ head.

Definition wrapToolErr (name : string) (args : list string) (stdout stderr : string) (err : exec_error) : string :=
  command_line name args +:+ ": " +:+ ee_text err +:+ stderr_part stderr err +:+ stdout_part stdout.

(** ** Running a tool *)

Definition log_start (name : string) (args : list string) : string := "$ " +:+ command_line name args +:+ str1 NL.
Definition log_done (elapsed : string) (n : nat) : outcome string :=
  size ← byteCount (Z.of_nat n); Val ("  (" +:+ elapsed +:+ ", " +:+ size +:+ ")" +:+ str1 NL).
Definition log_failed (elapsed text : string) : string :=
  "  (" +:+ elapsed +:+ ", FAILED: " +:+ text +:+ ")" +:+ str1 NL.

Section run.
Context (spawn : string → list string → started).

(** [cmd.Output()] reads everything; a command that does not start wrote nothing. *)
Definition Output (name : string) (args : list string) : string * string * option exec_error * string :=
  match spawn name args with
  | PipeError t elapsed | StartError t elapsed => ("", "", Some (ExecError t ""), elapsed)
  | Started c => (concat (ch_stdout c), ch_stderr c, ch_wait c true, ch_elapsed c)
  end.

Definition runTool (name : string) (args : list string) : outcome (list string * result string string) :=
  let '(stdout, stderr, err, elapsed) := Output name args in
  match err with
  | None => l ← log_done elapsed (String.length stdout); Val ([log_start name args; l], Ok stdout)
  | Some e => Val ([log_start name args; log_failed elapsed (ee_text e)], Err (wrapToolErr name args stdout stderr e))
  end.

(** A consumer: given the pieces of the output, how many it reads, and what it makes
    of them, an error of its own included. *)
Definition consumer (A : Type) : Type := list string → nat * A * option string.

(** The tee: every piece read goes to the head, whoever reads it. *)
Definition tee (ps : list string) : boundedBuffer :=
  foldl (λ b p, (Write b p).1) (MkBoundedBuffer "" stdoutHeadLimit) ps.

(** A failing consumer is followed by a drain of the rest. *)
Definition runToolStreaming {A} (name : string) (args : list string) (consume : consumer A) :
    outcome (list string * result string A) :=
  match spawn name args with
  | PipeError t _ => Val ([log_start name args], Err (name +:+ ": stdout pipe: " +:+ t))
  | StartError t _ => Val ([log_start name args], Err (name +:+ ": start: " +:+ t))
  | Started c =>
    let '(k, out, consumeErr) := consume (ch_stdout c) in
    let read := match consumeErr with Some _ => ch_stdout c | None => take k (ch_stdout c) end in
    let waitErr := ch_wait c (length (ch_stdout c) <=? length read) in
    match consumeErr, waitErr with
    | Some e, _ => Val ([log_start name args; log_failed (ch_elapsed c) e], Err (command_line name args +:+ ": " +:+ e))
    | None, Some e => Val ([log_start name args; log_failed (ch_elapsed c) (ee_text e)],
                           Err (wrapToolErr name args (buf (tee read)) (ch_stderr c) e))
    | None, None => l ← log_done (ch_elapsed c) (String.length (concat read));
                    Val ([log_start name args; l], Ok out)
    end
  end.

(** ** The tools *)

Definition scan_error : string := "bufio.Scanner: token too long".

Definition run_nm (flag path : string) : outcome (result string (list Nm.NMSymbol)) :=
  '(_, r) ← runTool "nm" [flag; "--format=posix"; path];
  Val (stdout ← r;
       let '(syms, too_long) := Nm.parseNMPosix stdout in
       if too_long then Err scan_error else Ok syms).

Definition RunNMDefined (path : string) : outcome (result string (list Nm.NMSymbol)) := run_nm "--defined-only" path.
Definition RunNMUndefined (path : string) : outcome (result string (list Nm.NMSymbol)) := run_nm "-u" path.

(** The parser as a consumer: it reads to the end unless a line is too long; [reads]
    is how far it has read by then. *)
Definition parse_consumer (reads : list string → nat) : consumer (list Objdump.ObjdumpEdge) := λ ps,
  let '(es, too_long) := Objdump.parseObjdumpStream (concat ps) in
  if too_long then (reads ps, es, Some scan_error) else (length ps, es, None).

Definition RunObjdump (reads : list string → nat) (path : string) : outcome (result string (list Objdump.ObjdumpEdge)) :=
  '(_, r) ← runToolStreaming "objdump" ["-d"; "--demangle"; "--no-show-raw-insn"; path] (parse_consumer reads);
  Val r.
End run.

(** ** Properties *)

Lemma stake_all n s : String.length s ≤ n → stake n s = s.
Proof. intros H. pose proof (stake_app_l n s "" H) as E. rewrite !sapp_nil_r in E. rewrite E. destruct (n - String.length s); cbn; by rewrite sapp_nil_r. Qed.

Lemma length_stake n s : String.length (stake n s) = min n (String.length s).
Proof. revert s; induction n as [|n IH]; intros [|a s]; simpl; [done..|by rewrite IH]. Qed.

(** After any writes the buffer holds exactly the first [limit] bytes written, and
    every write reports all its bytes as taken. *)
Theorem boundedBuffer_head n ps :
  buf (foldl (λ b p, (Write b p).1) (MkBoundedBuffer "" n) ps) = stake n (concat ps) ∧
  ∀ b p, (Write b p).2 = String.length p.
Proof.
  split; [|done].
  assert (∀ b, limit b = n → String.length (buf b) ≤ n →
    buf (foldl (λ b p, (Write b p).1) b ps) = stake n (buf b +:+ concat ps)) as H;
    [|by apply (H (MkBoundedBuffer "" n)); simpl; lia].
  induction ps as [|p ps IH]; intros b Hn Hlen.
  { cbn. by rewrite sapp_nil_r, stake_all. }
  cbn [foldl concat foldr]. fold (concat ps). unfold Write at 2. cbn [fst]. rewrite Hn.
  destruct (Nat.ltb_spec 0 (n - String.length (buf b))) as [Hroom|Hroom].
  - destruct (Nat.leb_spec (String.length p) (n - String.length (buf b))) as [Hp|Hp].
    + rewrite IH; cbn [buf limit]; [by rewrite sapp_assoc|done|rewrite slen_app; lia].
    + rewrite IH; cbn [buf limit]; [|done|rewrite slen_app, length_stake; lia].
      rewrite sapp_assoc, !(stake_app_l n (buf b)) by done. f_equal.
      rewrite !stake_app_le by (rewrite ?length_stake; lia). apply stake_all. rewrite length_stake. lia.
  - rewrite IH by done. rewrite !stake_app_le by lia. done.
Qed.

Lemma round_half_even_near n d : (0 < d)%Z → (Z.abs (2 * (round_half_even n d * d - n)) ≤ d)%Z.
Proof.
  intros Hd. unfold round_half_even. pose proof (Z.div_mod n d ltac:(lia)) as E. pose proof (Z.mod_pos_bound n d Hd).
  set (q := (n / d)%Z) in *. set (r := (n mod d)%Z) in *.
  destruct (Z.ltb_spec d (2 * r)), (Z.eqb_spec (2 * r) d); cbn [orb andb]; [| | |]; try (destruct (Z.odd q)); nia.
Qed.

(** The loop ends, on the largest power of 1024 that is not above [n]. *)
Lemma size_unit_spec fuel n k :
  (1024 ^ Z.of_nat (S k) ≤ n < 1024 ^ (Z.of_nat (S k) + Z.of_nat (S fuel)))%Z →
  ∃ e, size_unit fuel (n / 1024 ^ Z.of_nat (S k)) (1024 ^ Z.of_nat (S k)) k = (1024 ^ Z.of_nat (S e), e)%Z ∧
    (1024 ^ Z.of_nat (S e) ≤ n < 1024 ^ Z.of_nat (S (S e)))%Z.
Proof.
  revert k; induction fuel as [|fuel IH]; intros k Hn; cbn [size_unit].
  { exists k. split; [done|]. by replace (Z.of_nat (S (S k))) with (Z.of_nat (S k) + Z.of_nat 1)%Z by lia. }
  assert (0 < 1024 ^ Z.of_nat (S k))%Z as Hp by (apply Z.pow_pos_nonneg; lia).
  assert (1024 ^ Z.of_nat (S (S k)) = 1024 ^ Z.of_nat (S k) * 1024)%Z as Hs.
  { rewrite (Nat2Z.inj_succ (S k)), Z.pow_succ_r by lia. lia. }
  destruct (Z.leb_spec 1024 (n / 1024 ^ Z.of_nat (S k))) as [Hle|Hlt].
  - rewrite Z.div_div, <-Hs by lia. apply IH. split.
    + rewrite Hs. pose proof (Z.mul_div_le n (1024 ^ Z.of_nat (S k)) Hp). nia.
    + replace (Z.of_nat (S (S k)) + Z.of_nat (S fuel))%Z with (Z.of_nat (S k) + Z.of_nat (S (S fuel)))%Z by lia. lia.
  - exists k. split; [done|]. split; [lia|]. rewrite Hs. pose proof (Z.mul_succ_div_gt n (1024 ^ Z.of_nat (S k)) Hp). nia.
Qed.

(** A size of any 64-bit width is printed, in the unit that leaves it between one and
    1024, as the tenth nearest to it as long as the count is exact in a float. *)
Theorem byteCount_nearest n :
  (0 ≤ n < 2 ^ 63)%Z →
  if (n <? 1024)%Z then byteCount n = Val (dec n +:+ " B")
  else ∃ e u t, schars "KMGTPE" !! e = Some u ∧ (1024 ^ Z.of_nat (S e) ≤ n < 1024 ^ Z.of_nat (S (S e)))%Z ∧
    byteCount n = Val (format_tenths t +:+ " " +:+ str1 u +:+ "B") ∧
    ((n < 2 ^ 53)%Z → (Z.abs (2 * (t * 1024 ^ Z.of_nat (S e) - 10 * n)) ≤ 1024 ^ Z.of_nat (S e))%Z).
Proof.
  intros Hn. unfold byteCount. destruct (Z.ltb_spec n 1024) as [|Hge]; [done|].
  destruct (size_unit_spec 7 n 0) as (e & He & Hb).
  { cbn -[Z.pow]. split; [lia|]. assert (2 ^ 63 < 1024 ^ (1 + 8))%Z by reflexivity. lia. }
  change (1024 ^ Z.of_nat 1)%Z with 1024%Z in He. rewrite He.
  assert (e ≤ 5) as He5.
  { assert (1024 ^ Z.of_nat (S e) < 1024 ^ 7)%Z as H%Z.pow_lt_mono_r_iff by (assert (2 ^ 63 < 1024 ^ 7)%Z by reflexivity; lia); lia. }
  assert (∃ u, schars "KMGTPE" !! e = Some u) as [u Hu] by (do 6 (destruct e as [|e]; [by eexists|]); lia).
  rewrite Hu. exists e, u, (tenths (float64 n) (1024 ^ Z.of_nat (S e))). split; [done|]. split; [done|]. split; [done|].
  intros Hex. assert (float64 n = n) as ->.
  { unfold float64. assert (Z.log2 n < 53)%Z by (apply Z.log2_lt_pow2; lia). by rewrite (proj2 (Z.leb_le _ _)) by lia. }
  apply round_half_even_near, Z.pow_pos_nonneg; lia.
Qed.

(** The unit stays below the size even where rounding carries: not quite a megabyte
    is 1024 kilobytes. *)
Example byteCount_carries : byteCount (1024 * 1024 - 1) = Val "1024.0 KB".
Proof. vm_compute. reflexivity. Qed.

Lemma log_done_ok elapsed n : (Z.of_nat n < 2 ^ 63)%Z → ∃ l, log_done elapsed n = Val l.
Proof.
  intros Hn. unfold log_done. pose proof (byteCount_nearest (Z.of_nat n) ltac:(lia)) as H.
  destruct (Z.of_nat n <? 1024)%Z; [rewrite H; by eexists|]. destruct H as (e & u & t & _ & _ & -> & _). by eexists.
Qed.

(** What a tool printed, if it ran and ended well. *)
Definition tool_output (spawn : string → list string → started) (name : string) (args : list string) : option string :=
  match spawn name args with
  | Started c => match ch_wait c true with None => Some (concat (ch_stdout c)) | Some _ => None end
  | _ => None
  end.

(** The outputs a machine can hold. *)
Definition bounded_output (spawn : string → list string → started) : Prop :=
  ∀ name args c, spawn name args = Started c → (Z.of_nat (String.length (concat (ch_stdout c))) < 2 ^ 63)%Z.

Section tools.
Context (spawn : string → list string → started) (Hb : bounded_output spawn).

Lemma runTool_output name args :
  ∃ log r, runTool spawn name args = Val (log, r) ∧ (∀ out, r = Ok out ↔ tool_output spawn name args = Some out).
Proof.
  unfold runTool, Output, tool_output. destruct (spawn name args) as [| |c] eqn:E; [by do 2 eexists..|].
  destruct (ch_wait c true); [by do 2 eexists|].
  destruct (log_done_ok (ch_elapsed c) _ (Hb _ _ _ E)) as [l ->]. do 2 eexists. split; [done|]. naive_solver.
Qed.

(** C40: Streaming the disassembly to the parser gives what buffering it first would:
    the edges of the whole output when objdump ran and ended well and no line is too
    long, an error otherwise, and never a panic.  A failing objdump's error quotes
    the first 2048 bytes of the output and all of stderr. *)
Theorem RunObjdump_streams reads path :
  let args := ["-d"; "--demangle"; "--no-show-raw-insn"; path] in
  ∃ r, RunObjdump spawn reads path = Val r ∧
    (∀ es, r = Ok es ↔ ∃ out, tool_output spawn "objdump" args = Some out ∧ Objdump.parseObjdumpStream out = (es, false)) ∧
    ∀ c e es, spawn "objdump" args = Started c → ch_wait c true = Some e →
      Objdump.parseObjdumpStream (concat (ch_stdout c)) = (es, false) →
      r = Err (wrapToolErr "objdump" args (stake stdoutHeadLimit (concat (ch_stdout c))) (ch_stderr c) e).
Proof.
  intros args. unfold RunObjdump, runToolStreaming, tool_output. fold args.
  destruct (spawn "objdump" args) as [t el|t el|c] eqn:E;
    [eexists; split; [done|]; split; [intros es; split; [done|by intros (? & ? & _)]|done]..|].
  unfold parse_consumer. destruct (Objdump.parseObjdumpStream _) as [es too_long] eqn:Ep. destruct too_long.
  - eexists. split; [done|]. split; [|by intros c' e es' [= <-] _; rewrite Ep].
    intros es'. split; [done|]. intros (out & Hout & Hp). destruct (ch_wait c true); [done|]. injection Hout as <-. congruence.
  - rewrite firstn_all, Nat.leb_refl. destruct (ch_wait c true) as [e|] eqn:Ew.
    + eexists. split; [done|]. split; [intros es'; split; [done|by intros (? & ? & _)]|].
      intros c' e' es' [= <-]. rewrite Ew. intros [= <-] _. unfold tee. by rewrite (proj1 (boundedBuffer_head _ _)).
    + destruct (log_done_ok (ch_elapsed c) _ (Hb _ _ _ E)) as [l ->]. eexists. split; [done|]. split; [|by intros c' e' es' [= <-]; rewrite Ew].
      intros es'. split; [intros [= <-]; by eexists|]. intros (out & [= <-] & Hp). congruence.
Qed.

(** The nm runs: the parse of the whole output, or an error. *)
Lemma run_nm_output flag path :
  ∃ r, run_nm spawn flag path = Val r ∧
    ∀ syms, r = Ok syms ↔ Nm.RunNMDefined (λ p, tool_output spawn "nm" [flag; "--format=posix"; p]) path = Some syms.
Proof.
  unfold run_nm, Nm.RunNMDefined.
  destruct (runTool_output "nm" [flag; "--format=posix"; path]) as (log & r & -> & Hr). cbn [mbind outcome_bind].
  eexists. split; [done|]. intros syms. destruct (tool_output _ _ _) as [out|] eqn:Eo.
  - rewrite (proj2 (Hr out) eq_refl). cbn [mbind result_bind]. destruct (Nm.parseNMPosix out) as [l [|]]; [done|naive_solver].
  - destruct r as [out|e]; [|done]. pose proof (proj1 (Hr out) eq_refl). congruence.
Qed.
End tools.

(** A tool that prints a listing and one that is not there. *)
Definition ex_spawn (name : string) (args : list string) : started :=
  if String.eqb name "objdump"
  then Started (Child ["0000000000001040 <main>:" +:+ str1 NL; "    1044:" +:+ str1 "009" +:+ "call   1050 <helper>" +:+ str1 NL]
                  "" (λ _, None) "1ms")
  else StartError "executable file not found in $PATH" "0s".

Lemma RunObjdump_streams_witness :
  bounded_output ex_spawn ∧
  ∃ es, RunObjdump ex_spawn (λ _, 0) "/b/prog" = Val (Ok es) ∧ length es = 1 ∧
  ∃ r, RunObjdump ex_spawn (λ _, 0) "/b/prog" = Val r ∧
    ∀ es, r = Ok es ↔ ∃ out, tool_output ex_spawn "objdump" ["-d"; "--demangle"; "--no-show-raw-insn"; "/b/prog"] = Some out ∧
      Objdump.parseObjdumpStream out = (es, false).
Proof.
  assert (bounded_output ex_spawn) as Hb.
  { intros name args c. unfold ex_spawn. destruct (String.eqb name "objdump"); [|done]. intros [= <-]. reflexivity. }
  split; [exact Hb|]. eexists. split; [vm_compute; reflexivity|]. split; [reflexivity|].
  destruct (RunObjdump_streams ex_spawn Hb (λ _, 0) "/b/prog") as (r & Hr & He & _). exists r. split; [exact Hr|exact He].
Defined.
