(* ===== verification/Store.v ===== *)
(** * The index's tables ([internal/store/schema.sql], [internal/store/store.go])
    and the blob store ([internal/blobstore/blobstore.go])

    A table is the list of its rows in insertion order; an INTEGER PRIMARY KEY
    the insert does not give is the next number ([next_id]).  Tables with a TEXT
    PRIMARY KEY are finite maps.  SQLite's execution, SHA-256 and zstd are outside
    the repository. *)

From S2P Require Import Prelude GoStrings.
From Stdlib Require Import ZArith Lia.

(** ** Rows ([schema.sql]) *)

Record target_row := TargetRow { t_id : Z; t_name : string; t_kind : string; t_link_command : string }.
Record target_source_row := TargetSourceRow { ts_target_id : Z; ts_file : string }.

Record symbol_row := SymbolRow {
  s_id : Z;
  s_usr : string;
  s_name : string;
  s_kind : string;
  s_linkage : string;
  s_signature : string;
  s_address_taken : bool;
  s_linkage_names : list string;
}.

Record def_row := DefRow {
  d_symbol_id : Z;
  d_file : string;
  d_line : Z;
  d_decl_file : string;
  d_decl_line : Z;
  d_is_weak : bool;
  d_linkage_name : string;
}.

Record edge_row := EdgeRow { e_caller : Z; e_callee : Z; e_source : string; e_target : option Z }.

Record inline_decision_row := InlineDecisionRow { id_caller : Z; id_callee : Z; id_inlined : bool }.

Record inline_record_row := InlineRecordRow {
  ir_caller : Z;
  ir_callee : Z;
  ir_pass : string;
  ir_inlined : bool;
  ir_reason : string;
  ir_file : string;
  ir_line : Z;
  ir_column : Z;
  ir_object : string;
}.

Record icf_group_row := IcfGroupRow { g_id : Z; g_winner : Z; g_object : string }.
Record icf_member_row := IcfMemberRow { m_group : Z; m_symbol : Z }.

Record link_resolution_row := LinkResolutionRow {
  lr_target : Z;
  lr_usr : string;
  lr_winning_object : string;
  lr_linkage_kind : string;
  lr_losing_objects : list string;
  lr_archive : string;
}.

Record inline_instance_row := MkInlineInstanceRow {
  ii_callee : Z;
  ii_caller : Z;
  ii_parent : option Z;
  ii_depth : Z;
  ii_file : string;
  ii_line : Z;
  ii_column : Z;
  ii_object : string;
}.

Record indirect_site_row := IndirectSiteRow {
  is_id : Z;
  is_caller : Z;
  is_file : string;
  is_line : Z;
  is_column : Z;
  is_callee_type : string;
  is_field_hint : string;
}.

(** [ty_size]: NULL for an incomplete type. *)
Record type_row := TypeRow {
  ty_id : Z;
  ty_usr : string;
  ty_name : string;
  ty_kind : string;
  ty_decl_file : string;
  ty_decl_line : Z;
  ty_size : option Z;
  ty_underlying : string;
}.

Record type_field_row := TypeFieldRow {
  tf_type : Z;
  tf_name : string;
  tf_type_text : string;
  tf_ordinal : Z;
  tf_offset : Z;
}.

Record enum_constant_row := EnumConstantRow { ec_usr : string; ec_type : Z; ec_name : string; ec_value : Z }.

#[export] Instance edge_row_eq_dec : EqDecision edge_row.
Proof. solve_decision. Defined.
#[export] Instance icf_member_row_eq_dec : EqDecision icf_member_row.
Proof. solve_decision. Defined.
#[export] Instance symbol_row_eq_dec : EqDecision symbol_row.
Proof. solve_decision. Defined.
#[export] Instance def_row_eq_dec : EqDecision def_row.
Proof. solve_decision. Defined.
#[export] Instance link_resolution_row_eq_dec : EqDecision link_resolution_row.
Proof. solve_decision. Defined.

(** The id an insert into a table filled from empty gets. *)
Definition next_id {A} (rows : list A) : Z := Z.of_nat (S (length rows)).

Definition SchemaVersion : string := "10".

(** ** Queries *)

(** ORDER BY over the columns [ks], text before numbers. *)
Fixpoint lex_leb (a b : list (string + Z)) : bool :=
  match a, b with
  | inl x :: a, inl y :: b => if String.eqb x y then lex_leb a b else String.ltb x y
  | inr x :: a, inr y :: b => if (x =? y)%Z then lex_leb a b else (x <? y)%Z
  | _, _ => true
  end.

Definition key_order {A} (key : A → list (string + Z)) (a b : A) : Prop := lex_leb (key a) (key b) = true.
#[export] Instance key_order_dec {A} (key : A → list (string + Z)) : RelDecision (key_order key).
Proof. intros a b. unfold key_order. apply _. Defined.

Definition order_by {A} (key : A → list (string + Z)) (l : list A) : list A := merge_sort (key_order key) l.

Lemma order_by_perm {A} (key : A → list (string + Z)) l : order_by key l ≡ₚ l.
Proof. apply merge_sort_Permutation. Qed.

(** LIMIT one more than asked for, to tell a cut. *)
Definition cut {A} (limit : nat) (rows : list A) : list A * bool :=
  let out := take (limit + 1) rows in
  let truncated := limit <? length out in
  (if truncated then take limit out else out, truncated).

Lemma cut_spec {A} limit (rows : list A) : cut limit rows = (take limit rows, limit <? length rows).
Proof.
  unfold cut. rewrite length_take. destruct (Nat.ltb_spec limit (length rows)) as [H|H].
  - rewrite (proj2 (Nat.ltb_lt _ _)) by lia. by rewrite take_take, Nat.min_l by lia.
  - rewrite (proj2 (Nat.ltb_ge _ _)) by lia. by rewrite !take_ge by lia.
Qed.

(** ** Blob store *)

Module BlobStore.

Section blobstore.
(** [sha256] is the hex digest of the bytes, [zstd] and [unzstd] the codec. *)
Context (sha256 : string → string) (zstd : string → string).

Record blob_row := BlobRow { b_size : Z; b_content : string }.
Record source_row := SourceRow { src_blob : string; src_generated : bool }.

Record tables := Tables {
  blobs : gmap string blob_row;
  sources : gmap string source_row;
  external_sources : gmap string string;
  generated_sources : gmap string string;
}.

Definition empty_tables : tables := Tables ∅ ∅ ∅ ∅.

Record PutResult := MkPutResult { Hash : string; Size : Z; Deduplicated : bool }.

Definition putBlob (w : tables) (content : string) : tables * PutResult :=
  let hash := sha256 content in
  let size := Z.of_nat (String.length content) in
  match blobs w !! hash with
  | Some _ => (w, MkPutResult hash size true)
  | None =>
    (Tables (<[hash := BlobRow size (zstd content)]> (blobs w)) (sources w)
       (external_sources w) (generated_sources w),
     MkPutResult hash size false)
  end.

(** The upserts: the path's row is overwritten whatever it was. *)
Definition Put (w : tables) (path content : string) (isGenerated : bool) : tables * PutResult :=
  let '(w, res) := putBlob w content in
  (Tables (blobs w) (<[path := SourceRow (Hash res) isGenerated]> (sources w))
     (external_sources w) (generated_sources w), res).

Definition PutExternal (w : tables) (absPath content : string) : tables * PutResult :=
  let '(w, res) := putBlob w content in
  (Tables (blobs w) (sources w) (<[absPath := Hash res]> (external_sources w))
     (generated_sources w), res).

Definition PutGenerated (w : tables) (builddirRel content : string) : tables * PutResult :=
  let '(w, res) := putBlob w content in
  (Tables (blobs w) (sources w) (external_sources w)
     (<[builddirRel := Hash res]> (generated_sources w)), res).

(** The write transaction: [Some w] while open, [None] once finalized. *)
Inductive finalize_error := ErrFinalized.
Definition Commit (tx : option tables) (db : tables) : result finalize_error tables * option tables :=
  match tx with
  | None => (Err ErrFinalized, None)
  | Some w => (Ok w, None)
  end.
Definition Rollback (tx : option tables) (db : tables) : tables * option tables := (db, None).

(** *** Invariant: content addressing and no dangling hash *)

Record wf (w : tables) : Prop := {
  wf_content : ∀ h b, blobs w !! h = Some b →
    ∃ c, sha256 c = h ∧ b_content b = zstd c ∧ b_size b = Z.of_nat (String.length c);
  wf_sources : ∀ p r, sources w !! p = Some r → is_Some (blobs w !! src_blob r);
  wf_external : ∀ p h, external_sources w !! p = Some h → is_Some (blobs w !! h);
  wf_generated : ∀ p h, generated_sources w !! p = Some h → is_Some (blobs w !! h);
}.

Inductive op :=
| OpPut (path content : string) (gen : bool)
| OpExternal (path content : string)
| OpGenerated (path content : string).

Definition apply_op (w : tables) (o : op) : tables :=
  match o with
  | OpPut p c g => (Put w p c g).1
  | OpExternal p c => (PutExternal w p c).1
  | OpGenerated p c => (PutGenerated w p c).1
  end.

Definition op_content (o : op) : string :=
  match o with OpPut _ c _ | OpExternal _ c | OpGenerated _ c => c end.

Lemma wf_empty : wf empty_tables.
Proof. split; cbn; intros ?? H; by rewrite lookup_empty in H. Qed.

Lemma putBlob_spec w c w' r :
  putBlob w c = (w', r) → wf w →
  wf w' ∧ Hash r = sha256 c ∧ is_Some (blobs w' !! sha256 c) ∧ blobs w ⊆ blobs w' ∧
  dom (blobs w') = {[sha256 c]} ∪ dom (blobs w) ∧
  sources w' = sources w ∧ external_sources w' = external_sources w ∧
  generated_sources w' = generated_sources w ∧
  (Deduplicated r = true ↔ is_Some (blobs w !! sha256 c)).
Proof.
  unfold putBlob. intros H [Hc Hs He Hg]. destruct (blobs w !! sha256 c) as [b|] eqn:E; simplify_eq/=.
  - split; [by split|]. split; [done|]. split; [by eexists|]. split; [done|].
    split; [|naive_solver]. apply elem_of_dom_2 in E. set_solver.
  - split.
    + split; cbn.
      * intros h b. rewrite lookup_insert_Some. intros [[<- <-]|[_ H]]; [by exists c|by apply Hc].
      * intros p r H. apply Hs in H. destruct (decide (src_blob r = sha256 c)) as [->|].
        -- by rewrite lookup_insert_eq.
        -- by rewrite lookup_insert_ne.
      * intros p h H. apply He in H. destruct (decide (h = sha256 c)) as [->|].
        -- by rewrite lookup_insert_eq.
        -- by rewrite lookup_insert_ne.
      * intros p h H. apply Hg in H. destruct (decide (h = sha256 c)) as [->|].
        -- by rewrite lookup_insert_eq.
        -- by rewrite lookup_insert_ne.
    + split; [done|]. rewrite lookup_insert_eq. split; [by eexists|].
      split; [by apply insert_subseteq|]. split; [apply dom_insert_L|].
      split; [done|]. split; [done|]. split; [done|]. split; [done|]. by intros [].
Qed.

Lemma apply_op_wf w o : wf w → wf (apply_op w o).
Proof.
  intros Hw. destruct o as [p c g|p c|p c]; cbn; unfold Put, PutExternal, PutGenerated;
    destruct (putBlob w c) as [w' r] eqn:E;
    apply putBlob_spec in E as ([Hc Hs He Hg] & Hr & Hin & _); try done; split; cbn; auto;
    intros q x; rewrite lookup_insert_Some; intros [[<- <-]|[_ H]]; eauto; cbn; by rewrite Hr.
Qed.

(** Whatever files are stored, every blob is the compressed form of some content
    with that digest, and every path row points at a stored blob. *)
Theorem ops_wf os : wf (foldl apply_op empty_tables os).
Proof. apply (foldl_inv wf); [apply wf_empty|]. intros; by apply apply_op_wf. Qed.

(** A digest is stored once per distinct digest of the contents put, whichever
    of the three tables the paths went to. *)
Theorem ops_dedup os :
  dom (blobs (foldl apply_op empty_tables os)) = list_to_set (sha256 ∘ op_content <$> os).
Proof.
  assert (∀ w, wf w → dom (blobs (foldl apply_op w os)) =
    dom (blobs w) ∪ list_to_set (sha256 ∘ op_content <$> os)) as H.
  { induction os as [|o os IH]; intros w Hw; [cbn; set_solver|]. cbn [foldl].
    rewrite IH by by apply apply_op_wf.
    assert (dom (blobs (apply_op w o)) = {[sha256 (op_content o)]} ∪ dom (blobs w)) as ->.
    { destruct o as [p c g|p c|p c]; cbn; unfold Put, PutExternal, PutGenerated;
        destruct (putBlob w c) as [w' r] eqn:E; apply putBlob_spec in E; naive_solver. }
    cbn. set_solver. }
  rewrite H by apply wf_empty. cbn. rewrite dom_empty_L. set_solver.
Qed.

Section read.
(** zstd decodes what it encoded, and the contents stored have distinct digests. *)
Context (unzstd : string → option string).
Hypothesis unzstd_zstd : ∀ c, unzstd (zstd c) = Some c.

(** [readBlob]: the content behind a source path. *)
Definition read_source (w : tables) (path : string) : option string :=
  r ← sources w !! path; b ← blobs w !! src_blob r; unzstd (b_content b).

(** Reading a path after storing it gives back the bytes stored, as long as no
    different content stored before has the same digest. *)
Theorem read_after_put os p c g :
  (∀ c', c' ∈ op_content <$> os → sha256 c' = sha256 c → c' = c) →
  read_source (Put (foldl apply_op empty_tables os) p c g).1 p = Some c.
Proof.
  intros Hinj. set (w := foldl apply_op empty_tables os).
  assert (∀ b, blobs w !! sha256 c = Some b → b_content b = zstd c) as Hb.
  { subst w. revert Hinj.
    enough (∀ w, (∀ b, blobs w !! sha256 c = Some b → b_content b = zstd c) →
      (∀ c', c' ∈ op_content <$> os → sha256 c' = sha256 c → c' = c) →
      ∀ b, blobs (foldl apply_op w os) !! sha256 c = Some b → b_content b = zstd c) as H.
    { intros Hinj. by apply H. }
    induction os as [|o os IH]; intros w Hw Hinj; [done|]. cbn [foldl]. apply IH; [|set_solver].
    assert (sha256 (op_content o) = sha256 c → op_content o = c) as Ho by (apply Hinj; set_solver).
    assert (blobs (apply_op w o) = blobs (putBlob w (op_content o)).1) as ->.
    { destruct o; cbn; unfold Put, PutExternal, PutGenerated; by destruct (putBlob w content). }
    unfold putBlob. destruct (blobs w !! sha256 (op_content o)); [done|]. cbn. intros b.
    rewrite lookup_insert_Some. intros [[Heq <-]|[_ H]]; [|by apply Hw].
    cbn. by rewrite Ho. }
  unfold read_source, Put, putBlob. fold w.
  destruct (blobs w !! sha256 c) as [b|] eqn:E; cbn; rewrite lookup_insert_eq; cbn.
  - rewrite E. cbn. by rewrite (Hb _ eq_refl), unzstd_zstd.
  - rewrite lookup_insert_eq. cbn. by rewrite unzstd_zstd.
Qed.
End read.
End blobstore.

(** A digest and a codec that are honest: the identity, and one that adds a byte. *)
Definition ex_sha (s : string) : string := s.
Definition ex_zstd (s : string) : string := "z" +:+ s.
Definition ex_ops : list op := [OpPut "a.c" "int a;" false; OpExternal "/usr/include/a.h" "int a;"].

Lemma read_after_put_witness :
  (∀ c, strip_prefix "z" (ex_zstd c) = Some c) ∧
  (∀ c', c' ∈ op_content <$> ex_ops → ex_sha c' = ex_sha "int a;" → c' = "int a;") ∧
  read_source (strip_prefix "z")
    (Put ex_sha ex_zstd (foldl (apply_op ex_sha ex_zstd) empty_tables ex_ops) "b.c" "int a;" false).1
    "b.c" = Some "int a;".
Proof.
  split; [reflexivity|]. split; [intros c' _ H; exact H|].
  apply read_after_put; [reflexivity|]. intros c' _ H; exact H.
Defined.

End BlobStore.
