(* ===== verification/IndexFile.v ===== *)
(** * Opening, initialising and sealing the index file ([internal/store/store.go])

    What [store] asks of [database/sql], as a trace of its calls: the driver is
    outside the repository, so a run is over any [driver], whose replies may depend
    on everything asked before.  The name of the file travels in a URI: [PathEscape]
    and [PathUnescape] are those of [net/url]. *)

From S2P Require Import Prelude GoStrings Store.
From Stdlib Require Import ZArith Lia.

(** ** The path in the URI *)

Definition upperhex (n : N) : ascii := ascii_of_N (if (n <? 10)%N then 48 + n else 55 + n)%N.

(** [shouldEscape(c, encodePathSegment)] *)
Definition shouldEscape (c : ascii) : bool :=
  negb (is_alnum c || existsb (Ascii.eqb c) ["-"; "_"; "."; "~"; "$"; "&"; "+"; ":"; "="; "@"]%char).

Definition escape_byte (c : ascii) : string :=
  if shouldEscape c then String "%" (String (upperhex (N_of_ascii c / 16)) (String (upperhex (N_of_ascii c mod 16)) ""))
  else str1 c.

Fixpoint PathEscape (s : string) : string :=
  match s with "" => "" | String c s => escape_byte c +:+ PathEscape s end.

Definition unhex (c : ascii) : option N :=
  let n := N_of_ascii c in
  if is_digit c then Some (n - 48)%N
  else if in_range 97 102 c then Some (n - 87)%N
  else if in_range 65 70 c then Some (n - 55)%N
  else None.

Fixpoint PathUnescape (s : string) : option string :=
  match s with
  | "" => Some ""
  | String "%" rest =>
    match rest with
    | String a (String b rest) =>
      hi ← unhex a; lo ← unhex b; String (ascii_of_N (16 * hi + lo)) <$> PathUnescape rest
    | _ => None
    end
  | String c rest => String c <$> PathUnescape rest
  end.

(** ** The data source names *)

Definition dsn_rw (path : string) : string :=
  "file:" +:+ PathEscape path +:+
  ("?_pragma=journal_mode(WAL)" +:+ "&_pragma=foreign_keys(1)" +:+ "&_pragma=synchronous(NORMAL)").

Definition dsn_ro (path : string) : string :=
  "file:" +:+ PathEscape path +:+ ("?mode=ro" +:+ "&_pragma=query_only(1)").

Definition dsn_seal (path : string) : string := "file:" +:+ PathEscape path.

(** ** The calls *)

Inductive call :=
| SqlOpen (dsn : string)
| Ping
| CloseDB
| SetMaxOpenConns (n : Z)
| QueryMode
| QueryMetaTables
| ExecSchema (ddl : string)
| ExecStamp (version : string).

#[export] Instance call_eq_dec : EqDecision call.
Proof. solve_decision. Defined.

(** An error of the driver is its text. *)
Definition reply (c : call) : Type :=
  match c with
  | QueryMode => result string string
  | QueryMetaTables => result string Z
  | SetMaxOpenConns _ => unit
  | _ => result string unit
  end.

Definition driver : Type := ∀ (asked : list call) (c : call), reply c.

(** A run: what was asked, and the value returned. *)
Definition io (A : Type) : Type := driver → list call → list call * A.

#[export] Instance io_ret : MRet io := λ _ a _ h, (h, a).
#[export] Instance io_bind : MBind io := λ _ _ f x d h, f (x d h).2 d (x d h).1.

Definition perform (c : call) : io (reply c) := λ d h, (h ++ [c], d h c).

(** [defer db.Close()] around the rest of a function. *)
Definition defer_close {A} (body : io A) : io A := a ← body; _ ← perform CloseDB; mret a.

(** ** Operations *)

Inductive store_error :=
| ErrOpen (path cause : string)
| ErrPing (path cause : string)
| ErrSeal (path cause : string)
| ErrSealMode (path mode : string)
| ErrProbe (cause : string)
| ErrPresent
| ErrApply (cause : string)
| ErrStamp (cause : string).

(** [Open] and [OpenReadOnly] but for their data source names. *)
Definition open_dsn (dsn path : string) : io (result store_error unit) :=
  r ← perform (SqlOpen dsn);
  match r with
  | Err e => mret (Err (ErrOpen path e))
  | Ok _ =>
    r ← perform Ping;
    match r with
    | Err e => _ ← perform CloseDB; mret (Err (ErrPing path e))
    | Ok _ => mret (Ok tt)
    end
  end.

Definition Open (path : string) : io (result store_error unit) := open_dsn (dsn_rw path) path.
Definition OpenReadOnly (path : string) : io (result store_error unit) := open_dsn (dsn_ro path) path.

Definition SealForReading (path : string) : io (result store_error unit) :=
  r ← perform (SqlOpen (dsn_seal path));
  match r with
  | Err e => mret (Err (ErrSeal path e))
  | Ok _ =>
    defer_close (
      _ ← perform (SetMaxOpenConns 1);
      r ← perform QueryMode;
      match r with
      | Err e => mret (Err (ErrSeal path e))
      | Ok mode =>
        if negb (EqualFold mode "delete") then mret (Err (ErrSealMode path mode))
        else
          r ← perform CloseDB;
          mret (match r with Ok _ => Ok tt | Err e => Err (ErrSeal path e) end)
      end)
  end.

(** [schemaSQL]: the embedded [schema.sql]. *)
Definition Init (schemaSQL : string) : io (result store_error unit) :=
  r ← perform QueryMetaTables;
  match r with
  | Err e => mret (Err (ErrProbe e))
  | Ok n =>
    if (0 <? n)%Z then mret (Err ErrPresent)
    else
      r ← perform (ExecSchema schemaSQL);
      match r with
      | Err e => mret (Err (ErrApply e))
      | Ok _ =>
        r ← perform (ExecStamp SchemaVersion);
        mret (match r with Ok _ => Ok tt | Err e => Err (ErrStamp e) end)
      end
  end.

(** ** The path comes back *)

Lemma unescape_byte c s : PathUnescape (escape_byte c +:+ s) = String c <$> PathUnescape s.
Proof. destruct c as [[] [] [] [] [] [] [] []]; reflexivity. Qed.

#[export] Instance PathEscape_round_trip : RoundTrip PathEscape PathUnescape.
Proof.
  intros s. induction s as [|c s IH]; [done|]. cbn [PathEscape]. by rewrite unescape_byte, IH.
Qed.

(** What ends the path of a URI, or makes part of it an authority. *)
Definition uri_special (a : ascii) : bool := existsb (Ascii.eqb a) ["?"; "#"; "/"]%char.

Lemma PathEscape_plain s : all_chars (λ a, negb (uri_special a)) (PathEscape s) = true.
Proof.
  induction s as [|c s IH]; [done|]. cbn [PathEscape]. rewrite all_chars_app, IH, andb_true_r.
  by destruct c as [[] [] [] [] [] [] [] []].
Qed.

(** A file URI read back: its path, which ends before the query and the fragment, and
    its query. *)
Definition uri_path (dsn : string) : option string :=
  rest ← strip_prefix "file:" dsn;
  if HasPrefix rest "//" then None else PathUnescape (CutByteBefore "?" (CutByteBefore "#" rest)).

Definition uri_query (dsn : string) : string :=
  match IndexByte dsn "?" with Some n => sdrop (n + 1) dsn | None => "" end.

Lemma plain_lacks c s : uri_special c = true → all_chars (λ a, negb (uri_special a)) s = true → lacks c s = true.
Proof.
  intros Hc. apply all_chars_impl. intros a Ha. destruct (Ascii.eqb_spec a c) as [->|]; [by rewrite Hc in Ha|done].
Qed.

Lemma CutByteBefore_app c s t : lacks c s = true → CutByteBefore c (s +:+ t) = s +:+ CutByteBefore c t.
Proof.
  intros H. unfold CutByteBefore. rewrite IndexByte_app by done. destruct (IndexByte t c) as [n|]; [|done]. cbn [fmap option_fmap option_map].
  revert H. unfold lacks. induction s as [|a s IH]; [done|]. rewrite all_chars_cons. intros [_ Hs]%andb_true_iff.
  cbn [String.length Nat.add stake]. rewrite !sapp_cons. cbn [stake]. by rewrite IH.
Qed.

Lemma uri_path_escaped path q :
  lacks "#" q = true → (q = "" ∨ HasPrefix q "?" = true) → uri_path ("file:" +:+ PathEscape path +:+ q) = Some path.
Proof.
  intros Hq Hend. unfold uri_path. rewrite strip_prefix_app. cbn [mbind option_bind].
  pose proof (PathEscape_plain path) as Hp. set (esc := PathEscape path) in *.
  assert (∀ c, uri_special c = true → lacks c esc = true) as Hl by (intros c Hc; by apply plain_lacks).
  assert (HasPrefix (esc +:+ q) "//" = false) as ->.
  { destruct (HasPrefix (esc +:+ q) "//") eqn:E; [|done]. apply HasPrefix_true in E as [r E]. destruct esc as [|a e].
    - rewrite sapp_nil_l in E. destruct Hend as [->|[r' ->]%HasPrefix_true]; by vm_compute in E.
    - rewrite sapp_cons in E. injection E as -> _. by discriminate (Hl "/"%char eq_refl). }
  rewrite (CutByteBefore_app "#"), CutByteBefore_app by (by apply Hl).
  assert (CutByteBefore "?" (CutByteBefore "#" q) = "") as ->; [|rewrite sapp_nil_r; apply decode_encode].
  assert (CutByteBefore "#" q = q) as ->.
  { unfold CutByteBefore. apply IndexByte_None in Hq. by rewrite Hq. }
  destruct Hend as [->|[r ->]%HasPrefix_true]; [done|]. reflexivity.
Qed.

(** ** Properties *)

(** Whatever the name of the index file — spaces, percent signs, question and number
    signs or slashes included — each of the three data source names is a URI whose
    path reads back as that name, with nothing of it taken for an authority, for
    the query or for a fragment, and the options reach the driver unchanged. *)
Theorem dsn_names_file path :
  uri_path (dsn_rw path) = Some path ∧ uri_path (dsn_ro path) = Some path ∧ uri_path (dsn_seal path) = Some path ∧
  uri_query (dsn_rw path) = "_pragma=journal_mode(WAL)&_pragma=foreign_keys(1)&_pragma=synchronous(NORMAL)" ∧
  uri_query (dsn_ro path) = "mode=ro&_pragma=query_only(1)" ∧ uri_query (dsn_seal path) = "".
Proof.
  assert (∀ q, uri_query ("file:" +:+ PathEscape path +:+ q) = uri_query q) as Hq.
  { intros q. assert (lacks "?" ("file:" +:+ PathEscape path) = true) as H.
    { rewrite lacks_app. apply andb_true_iff. split; [done|]. apply plain_lacks; [done|apply PathEscape_plain]. }
    rewrite <-sapp_assoc. unfold uri_query. rewrite (IndexByte_app _ _ q H). destruct (IndexByte q "?") as [n|]; [|done].
    cbn [fmap option_fmap option_map]. rewrite <-Nat.add_assoc. generalize ("file:" +:+ PathEscape path). clear.
    intros s. induction s as [|a s IH]; [by rewrite sapp_nil_l|]. by rewrite sapp_cons. }
  unfold dsn_rw, dsn_ro, dsn_seal. pose proof (uri_path_escaped path "" eq_refl (or_introl eq_refl)) as Hs.
  pose proof (Hq "") as Hqs. rewrite sapp_nil_r in Hs, Hqs. rewrite !Hq, Hqs.
  split_and!; [apply uri_path_escaped; [done|by right]..|done|done|done|done].
Qed.

Section runs.
Context (d : driver) (h : list call).

(** The outcome of opening with one data source name: a handle exactly when both
    calls succeed, and none is left behind when the second fails. *)
Lemma open_dsn_runs dsn path :
  let after := h ++ [SqlOpen dsn] in
  match d h (SqlOpen dsn) with
  | Err e => open_dsn dsn path d h = (after, Err (ErrOpen path e))
  | Ok _ =>
    match d after Ping with
    | Err e => open_dsn dsn path d h = (after ++ [Ping; CloseDB], Err (ErrPing path e))
    | Ok _ => open_dsn dsn path d h = (after ++ [Ping], Ok tt)
    end
  end.
Proof.
  cbn zeta. unfold open_dsn, mbind, io_bind, mret, io_ret, perform. cbn [fst snd].
  destruct (d h (SqlOpen dsn)) as [u|e]; [|done]. cbn [fst snd]. destruct (d _ Ping) as [v|e]; [done|].
  cbn [fst snd]. by rewrite <-!(assoc_L (++)).
Qed.

(** C18: Sealing succeeds exactly when the driver opens the file, reports — whatever the
    case of the letters — that the journal is in delete mode after the switch, and
    closes; a driver that merely keeps another mode is an error that names it.
    However it ends, a file that was opened is closed by the last call. *)
Theorem SealForReading_exact path :
  let '(asked, r) := SealForReading path d h in
  let opened := h ++ [SqlOpen (dsn_seal path)] in
  let limited := opened ++ [SetMaxOpenConns 1] in
  (r = Ok tt ↔ d h (SqlOpen (dsn_seal path)) = Ok tt ∧
     ∃ mode, d limited QueryMode = Ok mode ∧ ToLower mode = "delete" ∧ d (limited ++ [QueryMode]) CloseDB = Ok tt) ∧
  (∀ mode, r = Err (ErrSealMode path mode) ↔
     d h (SqlOpen (dsn_seal path)) = Ok tt ∧ d limited QueryMode = Ok mode ∧ ToLower mode ≠ "delete") ∧
  (d h (SqlOpen (dsn_seal path)) = Ok tt → last asked = Some CloseDB).
Proof.
  unfold SealForReading, defer_close, mbind, io_bind, mret, io_ret, perform. cbn [fst snd].
  destruct (d h (SqlOpen (dsn_seal path))) as [[]|e]; [|naive_solver]. cbn [fst snd].
  destruct (d _ QueryMode) as [mode|e] eqn:Em; cbn [fst snd].
  2: { rewrite last_snoc. naive_solver. }
  unfold EqualFold. change (ToLower "delete") with "delete".
  destruct (String.eqb_spec (ToLower mode) "delete") as [E|E]; cbn [negb fst snd].
  - destruct (d _ CloseDB) as [[]|e] eqn:Ec; cbn [fst snd]; rewrite last_snoc; naive_solver.
  - rewrite last_snoc. naive_solver.
Qed.

(** A database that has a [meta] table is never written: the schema is applied, and
    the version stamped, only after the probe counted none; and the version is
    stamped only over the schema. *)
Theorem Init_guarded schemaSQL :
  let '(asked, r) := Init schemaSQL d h in
  (r = Ok tt → asked = h ++ [QueryMetaTables; ExecSchema schemaSQL; ExecStamp SchemaVersion]) ∧
  ∃ asks, asked = h ++ asks ∧ asks `prefix_of` [QueryMetaTables; ExecSchema schemaSQL; ExecStamp SchemaVersion] ∧
    (r = Err ErrPresent ↔ ∃ n, d h QueryMetaTables = Ok n ∧ (0 < n)%Z) ∧
    (1 < length asks → ∃ n, d h QueryMetaTables = Ok n ∧ (n ≤ 0)%Z).
Proof.
  unfold Init, mbind, io_bind, mret, io_ret, perform. cbn [fst snd].
  destruct (d h QueryMetaTables) as [n|e] eqn:En; cbn [fst snd].
  2: { split; [done|]. exists [QueryMetaTables]. split; [done|]. split; [by eexists|]. split; [naive_solver|cbn; lia]. }
  destruct (Z.ltb_spec 0 n); cbn [fst snd].
  { split; [done|]. exists [QueryMetaTables]. split; [done|]. split; [by eexists|]. split; [naive_solver|cbn; lia]. }
  assert (∀ e : store_error, e ≠ ErrPresent → Err (A:=unit) e = Err ErrPresent ↔ ∃ n', Ok (E:=string) n = Ok n' ∧ (0 < n')%Z) as Hno.
  { intros e He. split; [congruence|]. intros (n' & [= <-] & ?). lia. }
  destruct (d _ (ExecSchema _)) as [[]|e]; cbn [fst snd].
  - rewrite <-!(assoc_L (++)). cbn [app]. split.
    { by intros _. }
    exists [QueryMetaTables; ExecSchema schemaSQL; ExecStamp SchemaVersion]. split; [done|]. split; [done|]. split; [|eauto].
    destruct (d _ (ExecStamp _)); [|by apply Hno]. split; [done|]. intros (n' & [= <-] & ?). lia.
  - rewrite <-!(assoc_L (++)). cbn [app]. split; [done|].
    exists [QueryMetaTables; ExecSchema schemaSQL]. split; [done|]. split; [by eexists|]. split; [by apply Hno|eauto].
Qed.
End runs.

(** A driver that agrees to everything and reports the mode [mode]. *)
Definition ex_driver (mode : string) : driver := λ _ c,
  match c with
  | QueryMode => Ok mode
  | QueryMetaTables => Ok 0%Z
  | SetMaxOpenConns _ => tt
  | SqlOpen _ | Ping | CloseDB | ExecSchema _ | ExecStamp _ => Ok tt
  end.

Lemma SealForReading_exact_witness :
  SealForReading "/tmp/a b?.hbr" (ex_driver "DELETE") [] =
    ([SqlOpen "file:%2Ftmp%2Fa%20b%3F.hbr"; SetMaxOpenConns 1; QueryMode; CloseDB; CloseDB], Ok tt) ∧
  (SealForReading "/tmp/a b?.hbr" (ex_driver "wal") []).2 = Err (ErrSealMode "/tmp/a b?.hbr" "wal").
Proof.
  split; [vm_compute; reflexivity|].
  pose proof (SealForReading_exact (ex_driver "wal") [] "/tmp/a b?.hbr") as H. destruct (SealForReading _ _ _) as [asked r].
  cbn [snd]. apply H. split; [vm_compute; reflexivity|]. split; [vm_compute; reflexivity|]. by vm_compute.
Defined.

Example init_twice :
  (Init "CREATE TABLE meta(key, value);" (ex_driver "wal") []).2 = Ok tt ∧
  (Init "CREATE TABLE meta(key, value);" (λ h c, match c with QueryMetaTables => Ok 1%Z | c => ex_driver "wal" h c end) []).2 =
    Err ErrPresent.
Proof. split; vm_compute; reflexivity. Qed.
