(* ===== verification/Meson.v ===== *)
(** * Meson's introspection files and the targets tables
    ([internal/mesonintrospect/mesonintrospect.go], [internal/ingest/targets.go])

    [Load] turns the decoded JSON files of [meson-info/] into [Target]s;
    [Targets] writes the [targets] and [target_sources] rows.  A nil slice and an
    empty one are told apart where the code does ([CompilerCmd]). *)

From S2P Require Import Prelude GoStrings OptRecord Paths Store.
From Stdlib Require Import ZArith Lia.

(** ** Data *)

Record Target := MkTarget {
  Name : string;
  ID : string;
  Kind : string;
  DefinedIn : string;
  Filenames : list string;
  Sources : list string;
  Generated : list string;
  CompileParams : option (list string);
  CompilerCmd : option (list string);
  LinkCmd : list string;
  Installed : bool;
  Subproject : string;
}.

Record CompilerInfo := MkCompilerInfo {
  ci_ID : string;
  ci_Version : string;
  ci_FullVersion : string;
  ci_Exelist : list string;
  ci_LinkerID : string;
}.

Record Dependency := MkDependency { dep_Name : string; dep_Version : string; dep_Type : string }.

Record Introspection := MkIntrospection {
  MesonVersion : string;
  SourceDir : string;
  IntroBuildDir : string;
  IntroTargets : list Target;
  CCompiler : CompilerInfo;
  Dependencies : list Dependency;
}.

Record rawSrcGrp := MkRawSrcGrp {
  Language : string;
  Compiler : option (list string);
  Linker : list string;
  Parameters : option (list string);
  grp_Sources : list string;
  GeneratedSources : list string;
}.

Record rawTarget := MkRawTarget {
  raw_Name : string;
  raw_ID : string;
  raw_Type : string;
  raw_DefinedIn : string;
  raw_Filename : list string;
  raw_Sources : list rawSrcGrp;
  raw_Installed : bool;
  raw_Subproject : option string;
}.

(** ** Targets *)

Definition normalizeKind (mesonType : string) : string :=
  if String.eqb mesonType "executable" then "executable"
  else if String.eqb mesonType "static library" then "static_library"
  else if String.eqb mesonType "shared library" then "shared_library"
  else mesonType.

(** The body of the loop over the source groups. *)
Definition add_group (t : Target) (g : rawSrcGrp) : Target :=
  let is_c := String.eqb (Language g) "c" in
  let first := is_c && bool_decide (CompilerCmd t = None) in
  MkTarget (Name t) (ID t) (Kind t) (DefinedIn t) (Filenames t)
    (if is_c then Sources t ++ grp_Sources g else Sources t)
    (if is_c then Generated t ++ GeneratedSources g else Generated t)
    (if first then Parameters g else CompileParams t)
    (if first then Compiler g else CompilerCmd t)
    (match Linker g, LinkCmd t with
     | _ :: _, [] => Linker g ++ default [] (Parameters g)
     | _, _ => LinkCmd t
     end)
    (Installed t) (Subproject t).

Definition toTarget (rt : rawTarget) : Target :=
  foldl add_group
    (MkTarget (raw_Name rt) (raw_ID rt) (normalizeKind (raw_Type rt)) (raw_DefinedIn rt)
       (raw_Filename rt) [] [] None None [] (raw_Installed rt) (default "" (raw_Subproject rt)))
    (raw_Sources rt).

(** ** Decoding *)

Definition decode_bool (j : json) : option bool :=
  match j with JBool b => Some b | JNull => Some false | _ => None end.

(** A slice or pointer that may be nil. *)
Definition decode_nullable {A} (d : json → option A) (j : json) : option (option A) :=
  match j with JNull => Some None | _ => Some <$> d j end.

(** A struct: [null] leaves the zero value, which is what no field gives. *)
Definition decode_struct {A} (d : list (string * json) → option A) (j : json) : option A :=
  match j with JObj fs => d fs | JNull => d [] | _ => None end.

Definition decode_strings : json → option (list string) := decode_list decode_string.

Definition decode_grp : json → option rawSrcGrp := decode_struct (λ fs,
  lang ← field "language" "" decode_string fs;
  comp ← field "compiler" None (decode_nullable decode_strings) fs;
  link ← field "linker" [] decode_strings fs;
  params ← field "parameters" None (decode_nullable decode_strings) fs;
  srcs ← field "sources" [] decode_strings fs;
  gen ← field "generated_sources" [] decode_strings fs;
  Some (MkRawSrcGrp lang comp link params srcs gen)).

Definition decode_target : json → option rawTarget := decode_struct (λ fs,
  name ← field "name" "" decode_string fs;
  id ← field "id" "" decode_string fs;
  type ← field "type" "" decode_string fs;
  defined ← field "defined_in" "" decode_string fs;
  files ← field "filename" [] decode_strings fs;
  grps ← field "target_sources" [] (decode_list decode_grp) fs;
  inst ← field "installed" false decode_bool fs;
  sub ← field "subproject" None (decode_nullable decode_string) fs;
  Some (MkRawTarget name id type defined files grps inst sub)).

Definition decode_compiler : json → option CompilerInfo := decode_struct (λ fs,
  id ← field "id" "" decode_string fs;
  version ← field "version" "" decode_string fs;
  full ← field "full_version" "" decode_string fs;
  exe ← field "exelist" [] decode_strings fs;
  linker ← field "linker_id" "" decode_string fs;
  Some (MkCompilerInfo id version full exe linker)).

(** [map[string]rawCompiler]: every entry must decode. *)
Definition decode_hosts : json → option (list (string * CompilerInfo)) :=
  decode_struct (mapM (λ kv, (λ c, (kv.1, c)) <$> decode_compiler kv.2)).

(** No tags: the keys are matched case-insensitively, and Meson spells them so. *)
Definition decode_dependency : json → option Dependency := decode_struct (λ fs,
  name ← field "name" "" decode_string fs;
  version ← field "version" "" decode_string fs;
  type ← field "type" "" decode_string fs;
  Some (MkDependency name version type)).

Record meson_info := MesonInfo { mi_full : string; mi_source : string; mi_build : string }.

Definition decode_meson_info : json → option meson_info := decode_struct (λ fs,
  full ← field "meson_version" "" (decode_struct (field "full" "" decode_string)) fs;
  dirs ← field "directories" ("", "") (decode_struct (λ ds,
           s ← field "source" "" decode_string ds;
           b ← field "build" "" decode_string ds; Some (s, b))) fs;
  Some (MesonInfo full dirs.1 dirs.2)).

(** ** Loading *)

Inductive load_error := ErrNoInfo (dir : string) | ErrReadJSON (path : string).

Section load.
(** Whether a path exists, and the JSON value a file holds, if it can be opened and
    is JSON. *)
Context (exists_ : string → bool) (json_of : string → option json).

Definition readJSON {A} (d : json → option A) (path : string) : result load_error A :=
  match json_of path ≫= d with Some a => Ok a | None => Err (ErrReadJSON path) end.

Definition Load (builddir : string) : result load_error Introspection :=
  let infoDir := PathJoin [builddir; "meson-info"] in
  if negb (exists_ infoDir) then Err (ErrNoInfo infoDir)
  else
    mi ← readJSON decode_meson_info (PathJoin [infoDir; "meson-info.json"]);
    raw ← readJSON (decode_list decode_target) (PathJoin [infoDir; "intro-targets.json"]);
    host ← readJSON (decode_struct (field "host" [] decode_hosts))
             (PathJoin [infoDir; "intro-compilers.json"]);
    deps ← readJSON (decode_list decode_dependency)
             (PathJoin [infoDir; "intro-dependencies.json"]);
    let c := match List.find (λ kv, String.eqb kv.1 "c") host with
             | Some kv => kv.2
             | None => MkCompilerInfo "" "" "" [] ""
             end in
    Ok (MkIntrospection (mi_full mi) (mi_source mi) (mi_build mi) (toTarget <$> raw) c deps).
End load.

(** ** The targets tables *)

Inductive targets_error := ErrUniqueTarget (name : string).

Record targets_tables := TargetsTables {
  tt_targets : list target_row;
  tt_sources : list target_source_row;
  tt_ids : gmap string Z;
}.

(** One target: [targets.name] is UNIQUE, so inserting a name twice fails. *)
Definition insert_target (pr : Resolver.PathResolver) (tbl : targets_tables) (t : Target) :
    result targets_error targets_tables :=
  if bool_decide (Name t ∈ t_name <$> tt_targets tbl) then Err (ErrUniqueTarget (Name t))
  else
    let id := next_id (tt_targets tbl) in
    Ok (TargetsTables
          (tt_targets tbl ++ [TargetRow id (Name t) (Kind t) (Join (LinkCmd t) " ")])
          (tt_sources tbl ++
           ((λ src, TargetSourceRow id (Resolver.RelPath (Resolver.ToProjectRelative pr src)))
              <$> Sources t))
          (<[Name t := id]> (tt_ids tbl))).

Definition Targets (pr : Resolver.PathResolver) (intro : Introspection) :
    result targets_error targets_tables :=
  foldM (insert_target pr) (sort_by Name (IntroTargets intro)) (TargetsTables [] [] ∅).

(** ** Properties *)

Definition c_groups (rt : rawTarget) : list rawSrcGrp :=
  filter (λ g, Language g = "c") (raw_Sources rt).

Lemma add_group_sources gs t :
  let t' := foldl add_group t gs in
  let cs := filter (λ g, Language g = "c") gs in
  Sources t' = Sources t ++ (cs ≫= grp_Sources) ∧
  Generated t' = Generated t ++ (cs ≫= GeneratedSources).
Proof.
  revert t; induction gs as [|g gs IH]; intros t; cbn -[filter].
  { by rewrite !app_nil_r. }
  destruct (IH (add_group t g)) as [H1 H2]. cbn -[filter] in *. rewrite H1, H2.
  rewrite filter_cons. destruct (String.eqb_spec (Language g) "c") as [E|E].
  - rewrite decide_True by done. cbn. by rewrite !app_assoc.
  - by rewrite decide_False by done.
Qed.

Lemma add_group_cmd gs t cmd :
  CompilerCmd t = Some cmd →
  CompilerCmd (foldl add_group t gs) = Some cmd ∧
  CompileParams (foldl add_group t gs) = CompileParams t.
Proof.
  revert t; induction gs as [|g gs IH]; intros t Ht; [done|]. cbn [foldl].
  assert (CompilerCmd (add_group t g) = Some cmd ∧ CompileParams (add_group t g) = CompileParams t)
    as [H1 H2].
  { cbn. rewrite bool_decide_false by congruence. by rewrite andb_false_r. }
  destruct (IH _ H1) as [IH1 IH2]. by rewrite IH1, IH2.
Qed.

(** The first C group that names a compiler gives the command and its parameters. *)
Lemma add_group_first pre g gs t cmd :
  CompilerCmd t = None →
  Forall (λ h, Language h = "c" → Compiler h = None) pre →
  Language g = "c" → Compiler g = Some cmd →
  CompilerCmd (foldl add_group t (pre ++ g :: gs)) = Some cmd ∧
  CompileParams (foldl add_group t (pre ++ g :: gs)) = Parameters g.
Proof.
  intros Ht Hpre Hg Hc. revert t Ht. induction Hpre as [|h pre Hh _ IH]; intros t Ht; cbn [app foldl].
  - assert (CompilerCmd (add_group t g) = Some cmd ∧ CompileParams (add_group t g) = Parameters g)
      as [H1 H2] by (cbn; rewrite Ht, Hg; cbn; by rewrite Hc).
    destruct (add_group_cmd gs _ _ H1) as [-> ->]. done.
  - apply IH. cbn. rewrite Ht. destruct (String.eqb_spec (Language h) "c"); cbn; auto.
Qed.

(** A target's sources and generated sources are those of its C groups, in order;
    its compiler command and parameters are those of its first C group that names a
    compiler. *)
Theorem toTarget_c_groups rt :
  Sources (toTarget rt) = (c_groups rt ≫= grp_Sources) ∧
  Generated (toTarget rt) = (c_groups rt ≫= GeneratedSources) ∧
  ∀ pre g post cmd, raw_Sources rt = pre ++ g :: post →
    Forall (λ h, Language h = "c" → Compiler h = None) pre →
    Language g = "c" → Compiler g = Some cmd →
    CompilerCmd (toTarget rt) = Some cmd ∧ CompileParams (toTarget rt) = Parameters g.
Proof.
  unfold toTarget. split; [|split].
  - apply add_group_sources.
  - apply add_group_sources.
  - intros pre g post cmd -> **. by apply add_group_first.
Qed.

(** What the tables hold after the targets of [l]. *)
Record targets_ok (pr : Resolver.PathResolver) (l : list Target) (tbl : targets_tables) : Prop := {
  tok_rows : tt_targets tbl =
    imap (λ n t, TargetRow (Z.of_nat (S n)) (Name t) (Kind t) (Join (LinkCmd t) " ")) l;
  tok_ids : ∀ name i, tt_ids tbl !! name = Some i ↔
    ∃ r, r ∈ tt_targets tbl ∧ t_name r = name ∧ t_id r = i;
  tok_sources : ∀ i f, TargetSourceRow i f ∈ tt_sources tbl ↔
    ∃ n t src, l !! n = Some t ∧ i = Z.of_nat (S n) ∧ src ∈ Sources t ∧
      f = Resolver.RelPath (Resolver.ToProjectRelative pr src);
}.

Lemma t_name_rows (f : nat → Target → target_row) l :
  (∀ n t, t_name (f n t) = Name t) → t_name <$> imap f l = Name <$> l.
Proof.
  intros Hf. rewrite fmap_imap. revert f Hf; induction l as [|t l IH]; intros f Hf; cbn; [done|].
  rewrite Hf. f_equal. apply (IH (f ∘ S)). intros. apply Hf.
Qed.

Lemma insert_target_ok pr l tbl t :
  targets_ok pr l tbl → Name t ∉ Name <$> l →
  ∃ tbl', insert_target pr tbl t = Ok tbl' ∧ targets_ok pr (l ++ [t]) tbl'.
Proof.
  intros [Hr Hi Hs] Hn. unfold insert_target.
  rewrite bool_decide_false by (by rewrite Hr, t_name_rows). eexists. split; [done|].
  assert (next_id (tt_targets tbl) = Z.of_nat (S (length l))) as Hid
    by (unfold next_id; by rewrite Hr, length_imap).
  rewrite Hid. split; cbn -[Z.of_nat].
  - rewrite Hr, imap_app. cbn -[Z.of_nat]. by rewrite Nat.add_0_r.
  - intros name i. rewrite lookup_insert_Some, Hi. setoid_rewrite elem_of_app.
    setoid_rewrite list_elem_of_singleton. split.
    + intros [[<- <-]|[Hne (r & ? & ? & ?)]]; [|eauto 10]. eexists. split; [by right|done].
    + intros (r & [Hin| ->] & <- & <-); [right|by left]. split; [|eauto].
      intros E. apply Hn. rewrite E. apply (list_elem_of_fmap_2 t_name) in Hin.
      by rewrite Hr, t_name_rows in Hin.
  - intros i f. rewrite elem_of_app, Hs, list_elem_of_fmap. split.
    + intros [(n & u & src & Hl & ? & ? & ?)|(src & [= -> ->] & Hin)].
      * exists n, u, src. split; [|done]. by apply lookup_app_l_Some.
      * exists (length l), t, src. split; [|done]. by apply list_lookup_middle.
    + intros (n & u & src & Hl & -> & Hin & ->). apply lookup_app_Some in Hl as [Hl|[Hge Hl]].
      * left. by exists n, u, src.
      * apply list_lookup_singleton_Some in Hl as [Hz ->]. right. exists src.
        split; [|done]. do 2 f_equal. lia.
Qed.

Lemma targets_fold pr l done tbl :
  targets_ok pr done tbl → NoDup (Name <$> (done ++ l)) →
  ∃ tbl', foldM (insert_target pr) l tbl = Ok tbl' ∧ targets_ok pr (done ++ l) tbl'.
Proof.
  revert done tbl; induction l as [|t l IH]; intros done tbl Hok Hnd.
  { exists tbl. by rewrite app_nil_r. }
  destruct (insert_target_ok pr done tbl t Hok) as (tbl' & E & Hok').
  { rewrite fmap_app, fmap_cons in Hnd. apply NoDup_app in Hnd as (_ & Hd & _). set_solver. }
  cbn [foldM]. rewrite E. destruct (IH (done ++ [t]) tbl' Hok') as (tbl'' & E' & H').
  { by rewrite <-app_assoc. }
  exists tbl''. split; [done|]. by rewrite <-app_assoc in H'.
Qed.

Lemma targets_fold_dup pr l done tbl :
  targets_ok pr done tbl → NoDup (Name <$> done) → ¬ NoDup (Name <$> (done ++ l)) →
  ∃ name, foldM (insert_target pr) l tbl = Err (ErrUniqueTarget name).
Proof.
  revert done tbl; induction l as [|t l IH]; intros done tbl Hok Hdone Hnd.
  { by rewrite app_nil_r in Hnd. }
  cbn [foldM]. destruct (decide (Name t ∈ Name <$> done)) as [Hin|Hin].
  - unfold insert_target. rewrite bool_decide_true; [eauto|].
    destruct Hok as [-> _ _]. by rewrite t_name_rows.
  - destruct (insert_target_ok pr done tbl t Hok Hin) as (tbl' & -> & Hok').
    apply (IH (done ++ [t]) tbl' Hok').
    + rewrite fmap_app. apply NoDup_app. split; [done|]. split; [set_solver|]. apply NoDup_singleton.
    + by rewrite <-app_assoc.
Qed.

Lemma Targets_cases pr intro :
  match Targets pr intro with
  | Ok tbl => NoDup (Name <$> IntroTargets intro) ∧
              targets_ok pr (sort_by Name (IntroTargets intro)) tbl
  | Err _ => ¬ NoDup (Name <$> IntroTargets intro)
  end.
Proof.
  unfold Targets. set (l := sort_by Name (IntroTargets intro)).
  assert (NoDup (Name <$> l) ↔ NoDup (Name <$> IntroTargets intro)) as Hp
    by (subst l; by rewrite sort_by_perm).
  assert (targets_ok pr [] (TargetsTables [] [] ∅)) as H0.
  { split; cbn; [done| |]; [intros ??; rewrite lookup_empty|]; set_solver. }
  destruct (decide (NoDup (Name <$> l))) as [Hnd|Hnd].
  - destruct (targets_fold pr l [] _ H0 Hnd) as (tbl & -> & Hok). by rewrite <-Hp.
  - destruct (targets_fold_dup pr l [] _ H0 ltac:(constructor) Hnd) as (name & ->). by rewrite <-Hp.
Qed.

(** The targets are numbered in name order, with their sources made relative to
    the project, when their names are distinct; two targets of one name, which Meson
    allows in different directories, make the pass fail. *)
Theorem Targets_rows pr intro :
  match Targets pr intro with
  | Ok tbl => NoDup (Name <$> IntroTargets intro) ∧
              targets_ok pr (sort_by Name (IntroTargets intro)) tbl
  | Err _ => ¬ NoDup (Name <$> IntroTargets intro)
  end.
Proof. apply Targets_cases. Qed.

(** The ids are a bijection with the names. *)
Lemma targets_ids_inj pr l tbl n1 n2 i :
  targets_ok pr l tbl → tt_ids tbl !! n1 = Some i → tt_ids tbl !! n2 = Some i → n1 = n2.
Proof.
  intros [Hr Hi _]. rewrite !Hi. intros (r1 & H1 & <- & E1) (r2 & H2 & <- & E2).
  rewrite Hr in H1, H2.
  apply list_elem_of_lookup in H1 as [k1 H1]. apply list_elem_of_lookup in H2 as [k2 H2].
  rewrite list_lookup_imap in H1, H2.
  destruct (l !! k1) as [t1|] eqn:L1, (l !! k2) as [t2|] eqn:L2; simplify_eq/=.
  done.
Qed.
