(* ===== verification/Ingest.v ===== *)
(** * The compiler pass ([internal/ingest/ingest.go])

    [Compiler] parses every object's dumps, folds the symbols of all translation
    units into one record per identity ([aggregateSymbols], [mergeSymbol]), drops
    the records nothing refers to ([pruneUnreferenced]), and writes the rows of
    the symbol, definition, call-edge, inline and folding tables. *)

From S2P Require Import Prelude GoStrings GoRegexp Usr Cgraph GccDumps OptRecord Paths Store.
From Stdlib Require Import ZArith Lia.

Import Resolver.

(** ** Data *)

(** A map used as a set of strings iterates in no particular order; the code sorts
    it, without the empty string. *)
Definition sortedKeys (m : gset string) : list string :=
  sort_strings (elements (m ∖ {[""]})).

Record tuData := MkTuData {
  tu_object : string;
  tu_ci : option Ci.CI;
  tu_cgraph : option Cgraph;
  tu_inline : option (list Inline.InlineSummary);
  tu_icf : option (list Icf.ICFGroup);
  tu_optRec : option (list InlineRecord);
}.

Record defRec := MkDefRec {
  def_file : string;
  def_line : Z;
  def_declFile : string;
  def_declLine : Z;
  def_isWeak : bool;
  def_linkageName : string;
}.

Record symbolRec := MkSymbolRec {
  rec_usr : string;
  rec_name : string;
  rec_kind : string;
  rec_linkage : string;
  rec_signature : string;
  rec_addressTaken : bool;
  rec_linkageNames : gset string;
  rec_defs : list defRec;
}.

#[export] Instance defRec_eq_dec : EqDecision defRec.
Proof. solve_decision. Defined.
#[export] Instance symbolRec_eq_dec : EqDecision symbolRec.
Proof. solve_decision. Defined.

(** local id → USR *)
Abbreviation perTUResolve := (gmap string string).
Abbreviation symbol_map := (gmap string symbolRec).

(** ** Symbol aggregation *)

Definition rank (l : string) : Z :=
  if String.eqb l "external" then 3
  else if String.eqb l "weak" then 2
  else if String.eqb l "common" then 2
  else if String.eqb l "internal" then 1 else 0.

Definition strongerLinkage (a b : string) : string := if (rank b <=? rank a)%Z then a else b.

Definition containsTok (s : list string) (tok : string) : bool := bool_decide (tok ∈ s).

Definition same_def (a b : defRec) : bool :=
  String.eqb (def_file a) (def_file b) && (def_line a =? def_line b)%Z &&
  String.eqb (def_linkageName a) (def_linkageName b).

Definition hasDef (defs : list defRec) (d : defRec) : bool := existsb (λ e, same_def e d) defs.

Definition add_defs (defs new : list defRec) : list defRec :=
  foldl (λ acc d, if hasDef acc d then acc else acc ++ [d]) defs new.

Definition merge_rec (prev obs : symbolRec) : symbolRec :=
  MkSymbolRec (rec_usr prev)
    (if String.eqb (rec_name prev) "" then rec_name obs else rec_name prev)
    (if String.eqb (rec_kind prev) "" then rec_kind obs else rec_kind prev)
    (strongerLinkage (rec_linkage prev) (rec_linkage obs))
    (rec_signature prev)
    (rec_addressTaken prev || rec_addressTaken obs)
    (rec_linkageNames prev ∪ (rec_linkageNames obs ∖ {[""]}))
    (add_defs (rec_defs prev) (rec_defs obs)).

Definition mergeSymbol (symbols : symbol_map) (obs : symbolRec) : symbol_map :=
  match symbols !! rec_usr obs with
  | None => <[rec_usr obs := obs]> symbols
  | Some prev => <[rec_usr obs := merge_rec prev obs]> symbols
  end.

Definition linkage_of (fn : Function) : string :=
  if containsTok (VisibilityFlags fn) "weak" then "weak"
  else if containsTok (VisibilityFlags fn) "public" ||
          containsTok (VisibilityFlags fn) "externally_visible"
  then "external" else "internal".

Definition recordFor (fn : Function) (tu : tuData) (tuSourcePath : string) (pr : PathResolver) :
    option symbolRec :=
  let name := if String.eqb (Name fn) "" then LinkageName fn else Name fn in
  if String.eqb name "" then None
  else
    let kind := if String.eqb (Kind fn) "" then "function" else Kind fn in
    let isWeak := containsTok (VisibilityFlags fn) "weak" in
    let linkage := linkage_of fn in
    let pathForUSR := if String.eqb linkage "internal" then tuSourcePath else "" in
    let symUSR := if String.eqb kind "variable" then Variable_ pathForUSR name
                  else Usr.Function pathForUSR name in
    let defs :=
      if Analyzed fn && negb (BodyRemoved fn) then
        let '(file, line) :=
          match tu_ci tu ≫= (λ ci, Ci.Nodes ci !! name) with
          | Some n => (RelPath (ToProjectRelative pr (Ci.DeclFile n)), Ci.DeclLine n)
          | None => ("", 0%Z)
          end in
        [MkDefRec (if String.eqb file "" then tuSourcePath else file) line "" 0 isWeak (LinkageName fn)]
      else [] in
    Some (MkSymbolRec symUSR name kind linkage "" (AddressTaken fn)
            {[LinkageName fn; Name fn]} defs).

(** What a clone adds to its parent's record. *)
Definition add_clone (fn : Function) (r : symbolRec) : symbolRec :=
  MkSymbolRec (rec_usr r) (rec_name r) (rec_kind r) (rec_linkage r) (rec_signature r)
    (rec_addressTaken r || AddressTaken fn)
    (rec_linkageNames r ∪ ({[Name fn; LinkageName fn]} ∖ {[""]}))
    (rec_defs r).

(** The symbols and the local-id map in progress. *)
Abbreviation agg_state := (symbol_map * perTUResolve)%type.

Section aggregate.
Context (tu : tuData) (cg : Cgraph) (tuSourcePath : string) (pr : PathResolver).

(** First phase: one entry that is no clone. *)
Definition add_symbol (st : agg_state) (id : string) : agg_state :=
  match Symbols cg !! id with
  | None => st
  | Some fn =>
    if negb (String.eqb (CloneOfID fn) "") then st
    else match recordFor fn tu tuSourcePath pr with
    | None => st
    | Some r => (mergeSymbol st.1 r, <[id := rec_usr r]> st.2)
    end
  end.

(** Second phase: one clone, attributed to its parent, which is recorded first if
    nothing has resolved it yet. *)
Definition add_clone_symbol (st : agg_state) (id : string) : agg_state :=
  match Symbols cg !! id with
  | None => st
  | Some fn =>
    if String.eqb (CloneOfID fn) "" then st
    else
      let '(symbols, res, parent) :=
        match st.2 !! CloneOfID fn with
        | Some u => (st.1, st.2, u)
        | None =>
          match Symbols cg !! CloneOfID fn ≫= (λ pfn, recordFor pfn tu tuSourcePath pr) with
          | Some r => (mergeSymbol st.1 r, <[CloneOfID fn := rec_usr r]> st.2, rec_usr r)
          | None => (st.1, st.2, "")
          end
        end in
      if String.eqb parent "" then (symbols, res)
      else (alter (add_clone fn) parent symbols, <[id := parent]> res)
  end.

Definition aggregate_ids (ids : list string) (symbols : symbol_map) : agg_state :=
  foldl add_clone_symbol (foldl add_symbol (symbols, ∅) ids) ids.
End aggregate.

Definition tu_source_path (pr : PathResolver) (tu : tuData) : string :=
  match tu_ci tu with
  | Some ci => RelPath (ToProjectRelative pr (Ci.Title ci))
  | None => ""
  end.

Definition aggregateSymbols (pr : PathResolver) (tu : tuData) (symbols : symbol_map) : agg_state :=
  match tu_cgraph tu with
  | None => (symbols, ∅)
  | Some cg => aggregate_ids tu cg (tu_source_path pr tu) pr (sorted_keys (Symbols cg)) symbols
  end.

(** The loop of [Compiler] over the units: the records, and each object's local
    ids. *)
Definition aggregate_all (pr : PathResolver) (tus : list tuData) :
    symbol_map * gmap string perTUResolve :=
  foldl (λ st tu, let '(symbols, res) := aggregateSymbols pr tu st.1 in
                  (symbols, <[tu_object tu := res]> st.2)) (∅, ∅) tus.

(** ** Pruning *)

(** First name wins, in the order of the sorted local ids. *)
Definition add_name (cg : Cgraph) (res : perTUResolve) (out : gmap string string) (id : string) :
    gmap string string :=
  match Symbols cg !! id with
  | None => out
  | Some fn =>
    if String.eqb (Name fn) "" then out
    else match out !! Name fn with
    | Some _ => out
    | None => match res !! id with Some u => <[Name fn := u]> out | None => out end
    end
  end.

Definition buildNameToUSR (tu : tuData) (res : perTUResolve) : gmap string string :=
  match tu_cgraph tu with
  | None => ∅
  | Some cg => foldl (add_name cg res) ∅ (sorted_keys (Symbols cg))
  end.

Definition buildNameToSymbolID (tu : tuData) (res : perTUResolve) (idByUSR : gmap string Z) :
    gmap string Z :=
  omap (λ u, idByUSR !! u) (buildNameToUSR tu res).

(** The calls of a unit's cgraph, caller's and callee's local id and inline flag, in
    the order the code visits them. *)
Definition tu_calls (cg : Cgraph) : list (string * string * bool) :=
  sorted_keys (Symbols cg) ≫= λ id,
    match Symbols cg !! id with
    | None => []
    | Some fn => (λ c, (id, call_TargetLocalID c, call_Inlined c)) <$> Called fn
    end.

Definition resolve_pair (res : perTUResolve) (a b : string) : option (string * string) :=
  u ← res !! a; v ← res !! b; Some (u, v).

Definition pair_usrs (p : string * string) : list string := [p.1; p.2].

(** The USRs an ICF group refers to: none unless a loser other than the winner
    resolves. *)
Definition group_usrs (names : gmap string string) (g : Icf.ICFGroup) : list string :=
  match names !! Icf.WinnerName g with
  | None => []
  | Some w =>
    let losers := filter (λ u, u ≠ w) (omap (λ l, names !! l) (Icf.LoserNames g)) in
    match losers with [] => [] | _ => losers ++ [w] end
  end.

Definition tu_references (tu : tuData) (res : perTUResolve) : list string :=
  (match tu_cgraph tu with
   | None => []
   | Some cg => omap (λ c, resolve_pair res c.1.1 c.1.2) (tu_calls cg) ≫= pair_usrs
   end) ++
  (match tu_optRec tu with
   | None => []
   | Some rs => omap (λ r, resolve_pair res (CallerLocalID r) (CalleeLocalID r)) rs ≫= pair_usrs
   end) ++
  (match tu_icf tu with
   | None => []
   | Some gs => gs ≫= group_usrs (buildNameToUSR tu res)
   end).

Definition referencedUSRs (tus : list tuData) (resolves : gmap string perTUResolve) : gset string :=
  list_to_set (tus ≫= λ tu, match resolves !! tu_object tu with
                            | None => []
                            | Some res => tu_references tu res
                            end).

Definition keep_rec (referenced : gset string) (u : string) (r : symbolRec) : bool :=
  match rec_defs r with
  | _ :: _ => true
  | [] => rec_addressTaken r || negb (String.eqb (rec_linkage r) "internal") ||
          bool_decide (u ∈ referenced)
  end.

Definition pruneUnreferenced (symbols : symbol_map) (referenced : gset string) : symbol_map :=
  filter (λ kv, keep_rec referenced kv.1 kv.2 = true) symbols.

(** ** Writing the rows *)

(** [sort.Slice(s.defs, …)] by file, then line. *)
Definition def_leb (a b : defRec) : bool :=
  if String.eqb (def_file a) (def_file b) then (def_line a <=? def_line b)%Z
  else String.ltb (def_file a) (def_file b).

Definition def_le (a b : defRec) : Prop := def_leb a b = true.
#[export] Instance def_le_dec : RelDecision def_le.
Proof. intros a b. unfold def_le. apply _. Defined.

Definition sort_defs (l : list defRec) : list defRec := merge_sort def_le l.

Definition def_row_of (id : Z) (d : defRec) : def_row :=
  DefRow id (def_file d) (def_line d) (def_declFile d) (def_declLine d) (def_isWeak d)
    (def_linkageName d).

Record symbol_tables := SymbolTables {
  st_symbols : list symbol_row;
  st_defs : list def_row;
  st_ids : gmap string Z;
}.

Definition insert_symbol (t : symbol_tables) (s : symbolRec) : symbol_tables :=
  let id := next_id (st_symbols t) in
  SymbolTables
    (st_symbols t ++ [SymbolRow id (rec_usr s) (rec_name s) (rec_kind s) (rec_linkage s)
                        (rec_signature s) (rec_addressTaken s) (sortedKeys (rec_linkageNames s))])
    (st_defs t ++ (def_row_of id <$> sort_defs (rec_defs s)))
    (<[rec_usr s := id]> (st_ids t)).

Definition insertSymbols (symbols : symbol_map) : symbol_tables :=
  foldl insert_symbol (SymbolTables [] [] ∅)
    (omap (λ u, symbols !! u) (sorted_keys symbols)).

(** [edgeAccum] with the rows written so far and the sum of the [n]s returned. *)
Record edge_accum := EdgeAccum {
  ea_rows : list (Z * Z);
  ea_seen : gset (Z * Z);
  ea_flag : gmap (Z * Z) bool;
  ea_written : nat;
}.

Definition insert_edge (acc : edge_accum) (kc : (Z * Z) * bool) : edge_accum :=
  let '(k, inlined) := kc in
  EdgeAccum
    (if bool_decide (k ∈ ea_seen acc) then ea_rows acc else ea_rows acc ++ [k])
    ({[k]} ∪ ea_seen acc)
    (<[k := default false (ea_flag acc !! k) || inlined]> (ea_flag acc))
    (if bool_decide (k ∈ ea_seen acc) then ea_written acc else S (ea_written acc)).

Definition resolve_ids (res : perTUResolve) (ids : gmap string Z) (a b : string) : option (Z * Z) :=
  '(u, v) ← resolve_pair res a b;
  i ← ids !! u; j ← ids !! v; Some (i, j).

(** The resolved calls of a unit. *)
Definition tu_edges (tu : tuData) (res : perTUResolve) (ids : gmap string Z) : list ((Z * Z) * bool) :=
  match tu_cgraph tu with
  | None => []
  | Some cg => omap (λ c, (λ k, (k, c.2)) <$> resolve_ids res ids c.1.1 c.1.2) (tu_calls cg)
  end.

Definition insertEdges (acc : edge_accum) (tu : tuData) (res : perTUResolve) (ids : gmap string Z) :
    edge_accum :=
  foldl insert_edge acc (tu_edges tu res ids).

(** [filepath.Rel(root, object)], or the object where that fails. *)
Definition obj_rel (root object : string) : string := default object (Rel root object).

Definition inline_record (pr : PathResolver) (root object : string) (res : perTUResolve)
    (ids : gmap string Z) (r : InlineRecord) : option inline_record_row :=
  caller ← ids !! default "" (res !! CallerLocalID r);
  callee ← ids !! default "" (res !! CalleeLocalID r);
  let file := if String.eqb (File r) "" then "" else RelPath (ToProjectRelative pr (File r)) in
  Some (InlineRecordRow caller callee (Pass r) (Inlined r) (Reason r) file (Line r) (Column r)
          (obj_rel root object)).

(** One insert, and the count of it. *)
Definition write_row {A} (st : list A * nat) (row : A) : list A * nat := (st.1 ++ [row], S st.2).

(** The rows of the units' records, and how many have been written. *)
Definition insertInlineRecords (pr : PathResolver) (root : string) (tus : list tuData)
    (resolves : gmap string perTUResolve) (ids : gmap string Z) : list inline_record_row * nat :=
  foldl (λ st tu,
    match tu_optRec tu, resolves !! tu_object tu with
    | Some rs, Some res =>
      foldl (λ st r, match inline_record pr root (tu_object tu) res ids r with
                     | Some row => write_row st row
                     | None => st
                     end) st rs
    | _, _ => st
    end) ([], 0) tus.

(** The decisions gathered on the calls, each written once at the end. *)
Definition insertDecisions (flags : gmap (Z * Z) bool) : list inline_decision_row * nat :=
  foldl (λ (st : list inline_decision_row * nat) (kv : (Z * Z) * bool),
           write_row st (InlineDecisionRow kv.1.1 kv.1.2 kv.2)) ([], 0) (map_to_list flags).

Inductive ingest_error :=
| ErrParse (path : string)
| ErrMemberConstraint (group symbol : Z).

(** The rows, and how many groups have been written with all their members. *)
Record icf_tables := IcfTables {
  it_groups : list icf_group_row;
  it_members : list icf_member_row;
  it_written : nat;
}.

(** One member insert; (group, symbol) is the table's primary key. *)
Definition insert_member (gid : Z) (ms : list icf_member_row) (lid : Z) :
    result ingest_error (list icf_member_row) :=
  if bool_decide (IcfMemberRow gid lid ∈ ms) then Err (ErrMemberConstraint gid lid)
  else Ok (ms ++ [IcfMemberRow gid lid]).

Definition insert_group (object : string) (names : gmap string Z) (t : icf_tables) (g : Icf.ICFGroup) :
    result ingest_error icf_tables :=
  match names !! Icf.WinnerName g with
  | None => Ok t
  | Some w =>
    match filter (λ id, id ≠ w) (omap (λ l, names !! l) (Icf.LoserNames g)) with
    | [] => Ok t
    | losers =>
      let gid := next_id (it_groups t) in
      (λ ms, IcfTables (it_groups t ++ [IcfGroupRow gid w object]) ms (S (it_written t)))
      <$> foldM (insert_member gid) losers (it_members t)
    end
  end.

Definition insertICFGroups (root : string) (tus : list tuData) (resolves : gmap string perTUResolve)
    (ids : gmap string Z) : result ingest_error icf_tables :=
  foldM (λ t tu,
    match tu_icf tu, tu_cgraph tu, resolves !! tu_object tu with
    | Some gs, Some _, Some res =>
      foldM (insert_group (obj_rel root (tu_object tu)) (buildNameToSymbolID tu res ids)) gs t
    | _, _, _ => Ok t
    end) tus (IcfTables [] [] 0).

Definition buildObjectToSource (pr : PathResolver) (root : string) (tus : list tuData) :
    gmap string string :=
  foldl (λ out tu,
    match tu_ci tu with
    | None => out
    | Some ci =>
      if String.eqb (Ci.Title ci) "" then out
      else let src := ToProjectRelative pr (Ci.Title ci) in
           if negb (InProject src) then out
           else match Rel root (tu_object tu) with
                | Some rel => <[rel := RelPath src]> out
                | None => out
                end
    end) ∅ tus.

(** ** The pass *)

(** What the pass counts; its maps are in the tables. *)
Record Summary := MkCompilerSummary {
  cs_Symbols : nat;
  cs_CallEdges : nat;
  cs_InlineDecisions : nat;
  cs_InlineRecords : nat;
  cs_ICFGroups : nat;
}.

Record compiler_tables := CompilerTables {
  ct_symbols : symbol_tables;
  ct_edges : list (Z * Z);
  ct_inline_decisions : list inline_decision_row;
  ct_inline_records : list inline_record_row;
  ct_icf : icf_tables;
  ct_object_to_source : gmap string string;
  ct_sum : Summary;
}.

(** [parseTU]: [fs] gives a file's text, [json_of] what gunzip and the JSON decoder
    make of an optimization record. *)
Definition parse_opt {E A} (path : string) (parse : string → result E A) : result ingest_error (option A) :=
  if String.eqb path "" then Ok None
  else match parse path with Ok a => Ok (Some a) | Err _ => Err (ErrParse path) end.

Definition parseTU (fs : string → option string) (json_of : string → option json)
    (art : BuildDir.ObjectArtifacts) : result ingest_error tuData :=
  ci ← parse_opt (BuildDir.CI art) (Ci.ParseCIFile fs);
  cg ← parse_opt (BuildDir.Cgraph art) (ParseCgraphFile fs);
  inl ← parse_opt (BuildDir.Inline art) (Inline.ParseInlineFile fs);
  icf ← parse_opt (BuildDir.ICF art) (Icf.ParseICFFile fs);
  opt ← parse_opt (BuildDir.OptRecord art) (ParseOptRecordFile fs json_of);
  Ok (MkTuData (BuildDir.Object art) ci cg inl icf opt).

(** Everything after the parsing. *)
Definition ingest_tus (pr : PathResolver) (root : string) (tus : list tuData) :
    result ingest_error compiler_tables :=
  let '(symbols, resolves) := aggregate_all pr tus in
  let symbols := pruneUnreferenced symbols (referencedUSRs tus resolves) in
  let st := insertSymbols symbols in
  let acc := foldl (λ acc tu, match resolves !! tu_object tu with
                              | Some res => insertEdges acc tu res (st_ids st)
                              | None => acc
                              end) (EdgeAccum [] ∅ ∅ 0) tus in
  icf ← insertICFGroups root tus resolves (st_ids st);
  let decisions := insertDecisions (ea_flag acc) in
  let records := insertInlineRecords pr root tus resolves (st_ids st) in
  Ok (CompilerTables st (ea_rows acc) decisions.1 records.1 icf (buildObjectToSource pr root tus)
        (MkCompilerSummary (size (st_ids st)) (ea_written acc) decisions.2 records.2 (it_written icf))).

Definition Compiler (fs : string → option string) (json_of : string → option json)
    (pr : PathResolver) (bd : BuildDir.BuildDir) : result ingest_error compiler_tables :=
  tus ← mapM_result (parseTU fs json_of) (BuildDir.Objects bd);
  ingest_tus pr (BuildDir.Root bd) tus.

(** ** Rows and counts *)

Lemma write_row_omap {A B} (f : B → option A) l st :
  foldl (λ st x, match f x with Some row => write_row st row | None => st end) st l =
    (st.1 ++ omap f l, st.2 + length (omap f l)).
Proof.
  revert st. induction l as [|x l IH]; intros [rows n]; cbn [foldl omap list_omap fst snd length].
  - by rewrite app_nil_r, Nat.add_0_r.
  - rewrite IH. destruct (f x) as [row|]; cbn [write_row fst snd length]; [|done].
    rewrite <-app_assoc. f_equal. lia.
Qed.

Lemma insertInlineRecords_rows pr root tus resolves ids :
  (insertInlineRecords pr root tus resolves ids).1 = tus ≫= λ tu,
    match tu_optRec tu, resolves !! tu_object tu with
    | Some rs, Some res => omap (inline_record pr root (tu_object tu) res ids) rs
    | _, _ => []
    end.
Proof.
  unfold insertInlineRecords. set (f := λ tu : tuData, _). set (g := λ st tu, _).
  enough (∀ st, (foldl g st tus).1 = st.1 ++ (tus ≫= f)) as H by apply H.
  induction tus as [|tu l IH]; intros st; cbn [foldl]; [by rewrite app_nil_r|].
  rewrite bind_cons, app_assoc, IH. f_equal. unfold f, g.
  destruct (tu_optRec tu) as [rs|]; [destruct (resolves !! tu_object tu) as [res|]|];
    [by rewrite write_row_omap|by rewrite app_nil_r..].
Qed.

Lemma insertInlineRecords_count pr root tus resolves ids :
  (insertInlineRecords pr root tus resolves ids).2 = length (insertInlineRecords pr root tus resolves ids).1.
Proof.
  unfold insertInlineRecords. apply (foldl_inv (λ st, st.2 = length st.1)); [done|]. intros st tu _ IH.
  destruct (tu_optRec tu) as [rs|]; [|done]. destruct (resolves !! tu_object tu) as [res|]; [|done].
  rewrite write_row_omap. cbn [fst snd]. by rewrite length_app, IH.
Qed.

Lemma insertDecisions_spec flags :
  insertDecisions flags = let rows := (λ kv, InlineDecisionRow kv.1.1 kv.1.2 kv.2) <$> map_to_list flags in (rows, length rows).
Proof.
  unfold insertDecisions. pose proof (write_row_omap (λ kv, Some (InlineDecisionRow kv.1.1 kv.1.2 kv.2)) (map_to_list flags) ([], 0)) as H.
  cbn [fst snd] in H. cbn zeta. etrans; [exact H|]. rewrite Nat.add_0_l, app_nil_l.
  assert (∀ l : list (Z * Z * bool), omap (λ kv, Some (InlineDecisionRow kv.1.1 kv.1.2 kv.2)) l =
    (λ kv, InlineDecisionRow kv.1.1 kv.1.2 kv.2) <$> l) as ->; [|done].
  intros l. induction l as [|x l IH]; [done|]. cbn. by rewrite <-IH.
Qed.

(** ** Records: merging *)

(** The keys of the map are the identities of its records. *)
Definition keyed (m : symbol_map) : Prop := ∀ u r, m !! u = Some r → rec_usr r = u.

Lemma mergeSymbol_lookup m o u :
  mergeSymbol m o !! u =
    if decide (u = rec_usr o)
    then Some (match m !! u with Some prev => merge_rec prev o | None => o end)
    else m !! u.
Proof.
  unfold mergeSymbol. case_decide as Hu.
  - subst. destruct (m !! rec_usr o); by rewrite lookup_insert_eq.
  - destruct (m !! rec_usr o); by rewrite lookup_insert_ne.
Qed.

Lemma mergeSymbol_rec_keyed m o : keyed m → keyed (mergeSymbol m o).
Proof.
  intros Hm u r. rewrite mergeSymbol_lookup. case_decide as Hu; [|apply Hm].
  subst. destruct (m !! rec_usr o) as [p|] eqn:E; intros [= <-]; [by apply Hm in E|done].
Qed.

Lemma mergeSymbol_dom m o : dom (mergeSymbol m o) = {[rec_usr o]} ∪ dom m.
Proof. unfold mergeSymbol. destruct (m !! rec_usr o); by rewrite dom_insert_L. Qed.

Lemma rank_stronger a b : rank (strongerLinkage a b) = Z.max (rank a) (rank b).
Proof. unfold strongerLinkage. destruct (Z.leb_spec (rank b) (rank a)); lia. Qed.

Lemma merge_rec_fold (prev : symbolRec) (os : list symbolRec) :
  let r := foldl merge_rec prev os in
  rank (rec_linkage r) = foldl Z.max (rank (rec_linkage prev)) (rank ∘ rec_linkage <$> os) ∧
  rec_addressTaken r = existsb rec_addressTaken (prev :: os) ∧
  rec_linkageNames r ∖ {[""]} = ⋃ (rec_linkageNames <$> (prev :: os)) ∖ {[""]}.
Proof.
  revert prev; induction os as [|o os IH]; intros prev; cbn -[difference].
  { rewrite orb_false_r. split; [done|]. split; [done|]. set_solver. }
  destruct (IH (merge_rec prev o)) as (H1 & H2 & H3). cbn -[difference] in *.
  rewrite H1, H2, H3. cbn -[difference]. rewrite rank_stronger, orb_assoc.
  split; [done|]. split; [done|]. set_solver.
Qed.

Lemma foldl_max_perm l k a : l ≡ₚ k → foldl Z.max a l = foldl Z.max a k.
Proof.
  intros H. revert a. induction H; intros a; cbn; auto; [|by rewrite IHPermutation1].
  f_equal. lia.
Qed.

(** The order in which the translation units are read does not matter for the
    strength of a symbol's linkage, its address-taken flag or its link names. *)
Theorem merge_order prev os os' :
  os ≡ₚ os' →
  let r := foldl merge_rec prev os in
  let r' := foldl merge_rec prev os' in
  rank (rec_linkage r) = rank (rec_linkage r') ∧ rec_addressTaken r = rec_addressTaken r' ∧
  rec_linkageNames r ∖ {[""]} = rec_linkageNames r' ∖ {[""]}.
Proof.
  intros Hp. destruct (merge_rec_fold prev os) as (H1 & H2 & H3).
  destruct (merge_rec_fold prev os') as (H1' & H2' & H3'). cbn -[difference] in *.
  rewrite H1, H2, H3, H1', H2', H3'. split; [|split].
  - apply foldl_max_perm. by rewrite Hp.
  - f_equal. clear -Hp. induction Hp; cbn; auto; [by f_equal| |congruence].
    by rewrite !orb_assoc, (orb_comm (rec_addressTaken y)).
  - apply set_eq. intros x. rewrite !elem_of_difference, !elem_of_union, !elem_of_union_list.
    setoid_rewrite list_elem_of_fmap. by setoid_rewrite Hp.
Qed.

Definition ex_rec (linkage : string) (address : bool) : symbolRec :=
  MkSymbolRec "c:@F@f" "f" "function" linkage "" address ∅ [].

Lemma merge_order_witness :
  [ex_rec "weak" false; ex_rec "external" true] ≡ₚ [ex_rec "external" true; ex_rec "weak" false] ∧
  rank (rec_linkage (foldl merge_rec (ex_rec "internal" false) [ex_rec "weak" false; ex_rec "external" true])) =
  rank (rec_linkage (foldl merge_rec (ex_rec "internal" false) [ex_rec "external" true; ex_rec "weak" false])).
Proof.
  split; [apply Permutation_swap|]. apply merge_order, Permutation_swap.
Defined.

(** Weak and common linkage tie, so there the first one observed stays: the
    aggregate depends on the order of the units. *)
Theorem linkage_tie : strongerLinkage "weak" "common" ≠ strongerLinkage "common" "weak".
Proof. done. Qed.

(** *** Definitions are deduplicated *)

Definition defs_nodup (l : list defRec) : Prop :=
  ∀ i j a b, l !! i = Some a → l !! j = Some b → same_def a b = true → i = j.

Lemma hasDef_false l d : hasDef l d = false ↔ ∀ e, e ∈ l → same_def e d = false.
Proof.
  unfold hasDef. induction l as [|e l IH]; cbn; [set_solver|].
  rewrite orb_false_iff, IH. set_solver.
Qed.

Lemma same_def_sym a b : same_def a b = same_def b a.
Proof.
  unfold same_def. rewrite (String.eqb_sym (def_file a)), (String.eqb_sym (def_linkageName a)).
  by rewrite (Z.eqb_sym (def_line a)).
Qed.

Lemma defs_nodup_snoc l d : defs_nodup l → hasDef l d = false → defs_nodup (l ++ [d]).
Proof.
  intros Hl Hd i j a b. rewrite hasDef_false in Hd. rewrite !lookup_app_Some.
  intros [Ha|[Hi Ha]] [Hb|[Hj Hb]] Hs.
  - eauto.
  - apply list_lookup_singleton_Some in Hb as [Hb <-].
    apply list_elem_of_lookup_2 in Ha. rewrite Hd in Hs; done.
  - apply list_lookup_singleton_Some in Ha as [Ha <-].
    apply list_elem_of_lookup_2 in Hb. rewrite same_def_sym, Hd in Hs; done.
  - apply list_lookup_singleton_Some in Ha as [? <-], Hb as [? <-]. lia.
Qed.

Lemma add_defs_nodup l new : defs_nodup l → defs_nodup (add_defs l new).
Proof.
  intros Hl. unfold add_defs. apply (foldl_inv defs_nodup); [done|].
  intros acc d _ Hacc. destruct (hasDef acc d) eqn:E; [done|]. by apply defs_nodup_snoc.
Qed.

(** ** Aggregation invariant *)

Definition map_nodup (m : symbol_map) : Prop := ∀ u r, m !! u = Some r → defs_nodup (rec_defs r).

Record agg_ok (st : agg_state) : Prop := {
  agg_keyed : keyed st.1;
  agg_res : ∀ id u, st.2 !! id = Some u → u ∈ dom st.1;
  agg_defs : map_nodup st.1;
}.

Lemma recordFor_defs fn tu p pr r : recordFor fn tu p pr = Some r → defs_nodup (rec_defs r).
Proof.
  unfold recordFor. repeat case_match; try done; intros [= <-]; cbn; intros [|i] [|j] a b; cbn;
    rewrite ?lookup_nil; done.
Qed.

Lemma mergeSymbol_nodup m r : map_nodup m → defs_nodup (rec_defs r) → map_nodup (mergeSymbol m r).
Proof.
  intros Hm Hr u x. rewrite mergeSymbol_lookup. case_decide; [|apply Hm].
  destruct (m !! u) as [p|] eqn:E; intros [= <-]; [|done]. apply add_defs_nodup. eauto.
Qed.

Section aggregate_lemmas.
Context (tu : tuData) (cg : Cgraph) (path : string) (pr : PathResolver).

Lemma merge_ok (st : agg_state) fn r id :
  agg_ok st → recordFor fn tu path pr = Some r →
  agg_ok (mergeSymbol st.1 r, <[id := rec_usr r]> st.2).
Proof.
  intros [Hk Hr Hd] E. split; cbn.
  - by apply mergeSymbol_rec_keyed.
  - intros id' u. rewrite mergeSymbol_dom, lookup_insert_Some. intros [[<- <-]|[_ H]]; [set_solver|].
    apply Hr in H. set_solver.
  - apply mergeSymbol_nodup; [done|]. by eapply recordFor_defs.
Qed.

Lemma alter_ok (symbols : symbol_map) res fn parent id :
  agg_ok (symbols, res) → parent ∈ dom symbols →
  agg_ok (alter (add_clone fn) parent symbols, <[id := parent]> res).
Proof.
  intros [Hk Hr Hd] Hp. cbn in *. split; cbn.
  - intros u r. rewrite lookup_alter_Some. intros [(<- & x & Hx & ->)|[_ H]]; [by apply Hk in Hx|by apply Hk].
  - intros id' u. rewrite dom_alter_L, lookup_insert_Some. intros [[<- <-]|[_ H]]; eauto.
  - intros u r. rewrite lookup_alter_Some. intros [(<- & x & Hx & ->)|[_ H]]; [by apply Hd in Hx|by eapply Hd].
Qed.

Lemma add_symbol_ok st id : agg_ok st → agg_ok (add_symbol tu cg path pr st id).
Proof.
  intros Hst. unfold add_symbol. destruct (Symbols cg !! id) as [fn|]; [|done].
  destruct (negb _); [done|]. destruct (recordFor fn tu path pr) eqn:E; [|done].
  by eapply merge_ok.
Qed.

Lemma add_clone_symbol_ok st id : agg_ok st → agg_ok (add_clone_symbol tu cg path pr st id).
Proof.
  intros Hst. unfold add_clone_symbol. destruct (Symbols cg !! id) as [fn|]; [|done].
  destruct (String.eqb (CloneOfID fn) ""); [done|].
  destruct (st.2 !! CloneOfID fn) as [u|] eqn:Eu.
  - destruct (String.eqb u ""); [by destruct st|].
    apply alter_ok; [by destruct st|]. by apply (agg_res _ Hst) in Eu.
  - destruct (Symbols cg !! CloneOfID fn) as [pfn|]; cbn; [|by destruct st].
    destruct (recordFor pfn tu path pr) as [r|] eqn:E; [|by destruct st].
    pose proof (merge_ok st pfn r (CloneOfID fn) Hst E) as Hm.
    destruct (String.eqb (rec_usr r) ""); [done|]. apply alter_ok; [done|].
    rewrite mergeSymbol_dom. set_solver.
Qed.

Lemma add_symbol_dom st id : dom st.1 ⊆ dom (add_symbol tu cg path pr st id).1.
Proof.
  unfold add_symbol. repeat case_match; try done. cbn. rewrite mergeSymbol_dom. set_solver.
Qed.

Lemma add_clone_symbol_dom st id : dom st.1 ⊆ dom (add_clone_symbol tu cg path pr st id).1.
Proof.
  unfold add_clone_symbol. repeat case_match; try done; simplify_eq/=;
    rewrite ?dom_alter_L, ?mergeSymbol_dom; set_solver.
Qed.

Lemma aggregate_ids_ok ids symbols :
  agg_ok (symbols, ∅) →
  agg_ok (aggregate_ids tu cg path pr ids symbols) ∧
  dom symbols ⊆ dom (aggregate_ids tu cg path pr ids symbols).1.
Proof.
  intros H. unfold aggregate_ids. 
  apply (foldl_inv (λ st, agg_ok st ∧ dom symbols ⊆ dom st.1)).
  - apply (foldl_inv (λ st, agg_ok st ∧ dom symbols ⊆ dom st.1)); [done|].
    intros st id _ [Hst Hd]. split; [by apply add_symbol_ok|]. etrans; [exact Hd|apply add_symbol_dom].
  - intros st id _ [Hst Hd]. split; [by apply add_clone_symbol_ok|].
    etrans; [exact Hd|apply add_clone_symbol_dom].
Qed.
End aggregate_lemmas.

Lemma aggregate_all_ok pr tus :
  let st := aggregate_all pr tus in
  keyed st.1 ∧ map_nodup st.1 ∧
  ∀ obj res id u, st.2 !! obj = Some res → res !! id = Some u → u ∈ dom st.1.
Proof.
  unfold aggregate_all.
  apply (foldl_inv (λ st : symbol_map * gmap string perTUResolve,
    keyed st.1 ∧ map_nodup st.1 ∧
    ∀ obj res id u, st.2 !! obj = Some res → res !! id = Some u → u ∈ dom st.1)).
  { split; [|split].
    - intros u r H. cbn in H. by rewrite lookup_empty in H.
    - intros u r H. cbn in H. by rewrite lookup_empty in H.
    - intros obj res id u H. cbn in H. by rewrite lookup_empty in H. }
  intros [symbols resolves] tu _ (Hk & Hd & Hr). cbn [fst snd] in *.
  assert (agg_ok (symbols, ∅)) as H0.
  { split; cbn; [done| |done]. intros id u H. by rewrite lookup_empty in H. }
  assert (agg_ok (aggregateSymbols pr tu symbols) ∧ dom symbols ⊆ dom (aggregateSymbols pr tu symbols).1)
    as [[Hk' Hr' Hd'] Hdom].
  { unfold aggregateSymbols. destruct (tu_cgraph tu); [by apply aggregate_ids_ok|done]. }
  destruct (aggregateSymbols pr tu symbols) as [s r]. cbn in *. split; [done|]. split; [done|].
  intros obj res id u. rewrite lookup_insert_Some. intros [[<- <-]|[_ Ho]] Hu; [by eapply Hr'|].
  apply Hdom. eauto.
Qed.

(** ** Row ids *)

Definition ids_ok (t : symbol_tables) : Prop :=
  ∀ u i, st_ids t !! u = Some i ↔ ∃ r, r ∈ st_symbols t ∧ s_usr r = u ∧ s_id r = i.

Record rows_ok (t : symbol_tables) : Prop := {
  rows_numbered : ∀ n r, st_symbols t !! n = Some r → s_id r = Z.of_nat (S n);
  rows_ids : ids_ok t;
}.

Lemma insert_symbol_ok t s :
  rows_ok t → s_usr <$> st_symbols t ## [rec_usr s] → rows_ok (insert_symbol t s).
Proof.
  intros [Hn Hi] Hd. unfold insert_symbol. split; cbn.
  - intros n r. rewrite lookup_app_Some. intros [H|[Hl H]]; [by apply Hn|].
    apply list_lookup_singleton_Some in H as [Hz <-]. cbn. unfold next_id. lia.
  - intros u i. cbn. rewrite lookup_insert_Some, (Hi u i). setoid_rewrite elem_of_app.
    setoid_rewrite list_elem_of_singleton. split.
    + intros [[<- <-]|[Hne (r & ? & ? & ?)]]; [|eauto 10]. eexists. split; [by right|done].
    + intros (r & [Hr| ->] & <- & <-); [right|left; done].
      split; [|eauto]. intros Heq. apply (Hd (s_usr r)); [|set_solver].
      apply list_elem_of_fmap. eauto.
Qed.

Lemma insertSymbols_list (l : list symbolRec) :
  NoDup (rec_usr <$> l) →
  let t := foldl insert_symbol (SymbolTables [] [] ∅) l in
  rows_ok t ∧ s_usr <$> st_symbols t = rec_usr <$> l ∧ dom (st_ids t) = list_to_set (rec_usr <$> l).
Proof.
  induction l as [|s l IH] using rev_ind; intros Hnd.
  - cbn. split; [split; cbn; [by intros ?? ?|]|by rewrite dom_empty_L].
    intros u i. cbn. rewrite lookup_empty. split; [done|]. intros (r & Hr & _). set_solver.
  - rewrite fmap_app in Hnd. apply NoDup_app in Hnd as (Hl & Hdisj & _).
    destruct (IH Hl) as (Hok & Husr & Hdom). rewrite foldl_app, fmap_app. cbn [foldl].
    set (t := foldl insert_symbol _ l) in *. split; [|split].
    + apply insert_symbol_ok; [done|]. rewrite Husr. intros x Hx1 Hx2. by apply (Hdisj x).
    + cbn. by rewrite fmap_app, Husr.
    + cbn. rewrite dom_insert_L, Hdom, list_to_set_app_L. cbn. set_solver.
Qed.

Lemma omap_keys_usr (symbols : symbol_map) (ks : list string) :
  keyed symbols → (∀ u, u ∈ ks → u ∈ dom symbols) →
  rec_usr <$> omap (λ u, symbols !! u) ks = ks.
Proof.
  intros Hk. induction ks as [|u ks IH]; intros Hks; [done|]. cbn.
  destruct (symbols !! u) as [r|] eqn:E.
  - cbn. rewrite (Hk _ _ E), IH; [done|set_solver].
  - exfalso. specialize (Hks u). rewrite elem_of_dom, E in Hks. by destruct Hks; [set_solver|].
Qed.

Lemma insertSymbols_ok symbols :
  keyed symbols →
  rows_ok (insertSymbols symbols) ∧ s_usr <$> st_symbols (insertSymbols symbols) = sorted_keys symbols ∧
  dom (st_ids (insertSymbols symbols)) = dom symbols.
Proof.
  intros Hk. unfold insertSymbols.
  assert (rec_usr <$> omap (λ u, symbols !! u) (sorted_keys symbols) = sorted_keys symbols) as Hu.
  { apply omap_keys_usr; [done|]. intros u Hu. apply elem_of_sorted_keys in Hu. by apply elem_of_dom. }
  destruct (insertSymbols_list (omap (λ u, symbols !! u) (sorted_keys symbols))) as (H1 & H2 & H3).
  { rewrite Hu. apply NoDup_sorted_keys. }
  split; [done|]. rewrite H2, H3, Hu. split; [done|]. apply set_eq. intros x.
  rewrite elem_of_list_to_set, elem_of_sorted_keys, elem_of_dom. done.
Qed.

(** The symbol rows are numbered from one in the order of their sorted USRs, every
    record gets a row, and the returned map sends a USR to the id of its row and
    nothing else. *)
Theorem insertSymbols_rows symbols :
  keyed symbols →
  let t := insertSymbols symbols in
  s_usr <$> st_symbols t = sorted_keys symbols ∧
  (∀ n r, st_symbols t !! n = Some r → s_id r = Z.of_nat (S n)) ∧
  (∀ u i, st_ids t !! u = Some i ↔ ∃ r, r ∈ st_symbols t ∧ s_usr r = u ∧ s_id r = i) ∧
  (∀ u, is_Some (st_ids t !! u) ↔ is_Some (symbols !! u)).
Proof.
  intros Hk. cbn. destruct (insertSymbols_ok symbols Hk) as ([Hn Hi] & Hu & Hd).
  split; [done|]. split; [done|]. split; [done|]. intros u.
  by rewrite <-!elem_of_dom, Hd.
Qed.

Definition ex_map : symbol_map :=
  {["c:@F@g" := MkSymbolRec "c:@F@g" "g" "function" "external" "" false {["g"]} [];
    "c:@F@f" := MkSymbolRec "c:@F@f" "f" "function" "external" "" true {["f"]} []]}.

Lemma insertSymbols_rows_witness :
  keyed ex_map ∧ s_usr <$> st_symbols (insertSymbols ex_map) = ["c:@F@f"; "c:@F@g"].
Proof.
  assert (keyed ex_map) as Hk.
  { intros u r. unfold ex_map. rewrite lookup_insert_Some, lookup_singleton_Some. naive_solver. }
  split; [exact Hk|]. destruct (insertSymbols_rows ex_map Hk) as [H _]. rewrite H. vm_compute. reflexivity.
Defined.

(** ** Pruning loses no row *)

Lemma prune_lookup symbols refs u r :
  pruneUnreferenced symbols refs !! u = Some r ↔ symbols !! u = Some r ∧ keep_rec refs u r = true.
Proof. unfold pruneUnreferenced. by rewrite map_lookup_filter_Some. Qed.

Lemma prune_keyed symbols refs : keyed symbols → keyed (pruneUnreferenced symbols refs).
Proof. intros Hk u r. rewrite prune_lookup. intros [H _]. by apply Hk. Qed.

Lemma prune_referenced symbols refs u :
  u ∈ dom symbols → u ∈ refs → u ∈ dom (pruneUnreferenced symbols refs).
Proof.
  rewrite !elem_of_dom. intros [r Hr] Hu. exists r. rewrite prune_lookup. split; [done|].
  unfold keep_rec. destruct (rec_defs r); [|done]. by rewrite bool_decide_true, orb_true_r.
Qed.

Lemma references_elem tus resolves tu res u :
  tu ∈ tus → resolves !! tu_object tu = Some res → u ∈ tu_references tu res →
  u ∈ referencedUSRs tus resolves.
Proof.
  intros Htu Hres Hu. unfold referencedUSRs. rewrite elem_of_list_to_set, list_elem_of_bind.
  exists tu. by rewrite Hres.
Qed.

Lemma pair_elem {A} (f : A → option (string * string)) l x u v :
  x ∈ l → f x = Some (u, v) → u ∈ (omap f l ≫= pair_usrs) ∧ v ∈ (omap f l ≫= pair_usrs).
Proof.
  intros Hx Hf. assert ((u, v) ∈ omap f l) as Hin by (apply list_elem_of_omap; eauto).
  rewrite !list_elem_of_bind. split; exists (u, v); cbn; (split; [set_solver|done]).
Qed.

Lemma resolve_pair_Some res a b p :
  resolve_pair res a b = Some p ↔ res !! a = Some p.1 ∧ res !! b = Some p.2.
Proof.
  unfold resolve_pair. destruct (res !! a) as [u|]; cbn; [|naive_solver].
  destruct (res !! b) as [v|]; cbn; [|naive_solver]. destruct p; naive_solver.
Qed.

Lemma resolve_ids_Some res ids a b u v :
  resolve_pair res a b = Some (u, v) → u ∈ dom ids → v ∈ dom ids → is_Some (resolve_ids res ids a b).
Proof.
  intros H [i Hi]%elem_of_dom [j Hj]%elem_of_dom. unfold resolve_ids. rewrite H. cbn.
  rewrite Hi. cbn. rewrite Hj. eauto.
Qed.

Section prune.
Context (pr : PathResolver) (tus : list tuData).
Let agg := aggregate_all pr tus.
Let pruned := pruneUnreferenced agg.1 (referencedUSRs tus agg.2).
Let ids := st_ids (insertSymbols pruned).

Lemma pruned_ids u : u ∈ dom ids ↔ u ∈ dom pruned.
Proof.
  destruct (aggregate_all_ok pr tus) as (Hk & _ & _).
  destruct (insertSymbols_ok pruned (prune_keyed _ _ Hk)) as (_ & _ & Hd).
  unfold ids. by rewrite Hd.
Qed.

Lemma referenced_has_id tu res id u :
  tu ∈ tus → agg.2 !! tu_object tu = Some res → res !! id = Some u → u ∈ tu_references tu res →
  u ∈ dom ids.
Proof.
  intros Htu Hres Hid Href. apply pruned_ids, prune_referenced; [|by eapply references_elem].
  destruct (aggregate_all_ok pr tus) as (_ & _ & Hr). eauto.
Qed.

Lemma call_has_ids tu res cg a b inl :
  tu ∈ tus → agg.2 !! tu_object tu = Some res → tu_cgraph tu = Some cg → (a, b, inl) ∈ tu_calls cg →
  is_Some (resolve_pair res a b) → is_Some (resolve_ids res ids a b).
Proof.
  intros Htu Hres Hcg Hc [[u v] Huv]. pose proof Huv as Hp.
  apply resolve_pair_Some in Hp as [Ha Hb]. cbn in *.
  destruct (pair_elem (λ c, resolve_pair res c.1.1 c.1.2) (tu_calls cg) (a, b, inl) u v Hc Huv) as [H1 H2].
  apply (resolve_ids_Some _ _ _ _ u v Huv); (eapply referenced_has_id; [done..|]);
    unfold tu_references; rewrite Hcg; set_solver.
Qed.

Lemma buildNameToUSR_resolved tu res n u : buildNameToUSR tu res !! n = Some u → ∃ id, res !! id = Some u.
Proof.
  unfold buildNameToUSR. destruct (tu_cgraph tu) as [cg|]; [|by rewrite lookup_empty]. revert n u.
  apply (foldl_inv (λ m : gmap string string, ∀ n u, m !! n = Some u → ∃ id, res !! id = Some u)); [by intros n u; rewrite lookup_empty|].
  intros m id _ Hm n u. unfold add_name. repeat case_match; eauto. rewrite lookup_insert_Some. intros [[_ <-]|[_ H']]; eauto.
Qed.

(** Two symbols never share an id. *)
Lemma rows_ids_inj t u v i : rows_ok t → st_ids t !! u = Some i → st_ids t !! v = Some i → u = v.
Proof.
  intros [Hn Hi] (r & Hr & <- & <-)%Hi (q & Hq & <- & E)%Hi.
  apply list_elem_of_lookup in Hr as [j Hj], Hq as [k Hk]. pose proof (Hn _ _ Hj). pose proof (Hn _ _ Hk).
  assert (j = k) as -> by lia. by simplify_eq.
Qed.

(** The names of a folding group keep their symbols. *)
Lemma group_has_ids tu res gs g w l u :
  tu ∈ tus → agg.2 !! tu_object tu = Some res → tu_icf tu = Some gs → g ∈ gs →
  buildNameToUSR tu res !! Icf.WinnerName g = Some w → l ∈ Icf.LoserNames g →
  buildNameToUSR tu res !! l = Some u → u ≠ w →
  ∃ i j, buildNameToSymbolID tu res ids !! Icf.WinnerName g = Some i ∧
         buildNameToSymbolID tu res ids !! l = Some j ∧ j ≠ i.
Proof.
  intros Htu Hres Hgs Hg Hw Hl Hu Hne.
  assert (u ∈ group_usrs (buildNameToUSR tu res) g ∧ w ∈ group_usrs (buildNameToUSR tu res) g) as [Hu' Hw'].
  { unfold group_usrs. rewrite Hw.
    assert (u ∈ filter (λ u, u ≠ w) (omap (λ l, buildNameToUSR tu res !! l) (Icf.LoserNames g))) as Hin.
    { apply list_elem_of_filter. split; [done|]. apply list_elem_of_omap. eauto. }
    destruct (filter _ _) as [|x xs]; [by apply elem_of_nil in Hin|]. set_solver. }
  assert (∀ n v, buildNameToUSR tu res !! n = Some v → v ∈ group_usrs (buildNameToUSR tu res) g →
            ∃ i, ids !! v = Some i ∧ buildNameToSymbolID tu res ids !! n = Some i) as Hid.
  { intros n v Hn Hv. destruct (buildNameToUSR_resolved _ _ _ _ Hn) as [id Hr].
    assert (v ∈ dom ids) as [i Hi]%elem_of_dom.
    { eapply referenced_has_id; [done..|]. unfold tu_references. rewrite Hgs.
      apply elem_of_app. right. apply elem_of_app. right. apply list_elem_of_bind. eauto. }
    exists i. split; [done|]. unfold buildNameToSymbolID. by rewrite lookup_omap, Hn. }
  destruct (Hid _ _ Hw Hw') as (i & Hi & Hi'), (Hid _ _ Hu Hu') as (j & Hj & Hj').
  exists i, j. split; [done|]. split; [done|]. intros ->. apply Hne.
  destruct (aggregate_all_ok pr tus) as (Hk & _ & _).
  eapply rows_ids_inj; [apply insertSymbols_ok, prune_keyed; exact Hk|exact Hj|exact Hi].
Qed.

(** C25: Dropping the unreferenced records costs no row of any plane: every call whose
    two ends resolve still has both ids, so has every inline decision, and every loser
    of a folding group that is another symbol than its winner; no record goes that is
    defined, has its address taken or is not internal. *)
Theorem prune_keeps_references tu res :
  tu ∈ tus → agg.2 !! tu_object tu = Some res →
  (∀ cg a b inl, tu_cgraph tu = Some cg → (a, b, inl) ∈ tu_calls cg →
     is_Some (resolve_pair res a b) → is_Some (resolve_ids res ids a b)) ∧
  (∀ rs r, tu_optRec tu = Some rs → r ∈ rs →
     is_Some (resolve_pair res (CallerLocalID r) (CalleeLocalID r)) →
     is_Some (resolve_ids res ids (CallerLocalID r) (CalleeLocalID r))) ∧
  (∀ gs g w l u, tu_icf tu = Some gs → g ∈ gs → buildNameToUSR tu res !! Icf.WinnerName g = Some w →
     l ∈ Icf.LoserNames g → buildNameToUSR tu res !! l = Some u → u ≠ w →
     ∃ i j, buildNameToSymbolID tu res ids !! Icf.WinnerName g = Some i ∧
            buildNameToSymbolID tu res ids !! l = Some j ∧ j ≠ i) ∧
  (∀ u r, agg.1 !! u = Some r → rec_defs r ≠ [] ∨ rec_addressTaken r = true ∨ rec_linkage r ≠ "internal" →
     is_Some (ids !! u)).
Proof.
  intros Htu Hres. split; [|split; [|split]].
  - intros cg a b inl Hcg Hc. by eapply call_has_ids.
  - intros rs r Hrs Hr [[u v] Huv]. pose proof Huv as Hp.
    apply resolve_pair_Some in Hp as [Ha Hb]. cbn in *.
    destruct (pair_elem (λ r, resolve_pair res (CallerLocalID r) (CalleeLocalID r)) rs r u v Hr Huv) as [H1 H2].
    apply (resolve_ids_Some _ _ _ _ u v Huv); (eapply referenced_has_id; [done..|]);
      unfold tu_references; rewrite Hrs; set_solver.
  - intros gs g w l u. by apply group_has_ids.
  - intros u r Hr Hkeep. apply elem_of_dom, pruned_ids, elem_of_dom. exists r.
    apply prune_lookup. split; [done|]. unfold keep_rec. destruct (rec_defs r); [|done].
    destruct Hkeep as [?|[->|Hl]]; [done|done|]. apply String.eqb_neq in Hl. rewrite Hl.
    by rewrite orb_true_r.
Qed.

Lemma prune_sound u r :
  pruned !! u = Some r →
  rec_defs r ≠ [] ∨ rec_addressTaken r = true ∨ rec_linkage r ≠ "internal" ∨
  u ∈ referencedUSRs tus agg.2.
Proof.
  intros H. apply prune_lookup in H as [_ H]. unfold keep_rec in H.
  destruct (rec_defs r); [|by left]. right. rewrite !orb_true_iff, negb_true_iff, bool_decide_eq_true in H.
  rewrite String.eqb_neq in H. tauto.
Qed.
End prune.

(** ** Call edges *)

Definition edges_inv (evs : list ((Z * Z) * bool)) (acc : edge_accum) : Prop :=
  NoDup (ea_rows acc) ∧
  (∀ k, k ∈ ea_rows acc ↔ k ∈ ea_seen acc) ∧
  (∀ k, k ∈ ea_rows acc ↔ k ∈ evs.*1) ∧
  (∀ k, ea_flag acc !! k =
        if decide (k ∈ evs.*1) then Some (existsb (λ e, bool_decide (e.1 = k) && e.2) evs) else None).

Lemma insert_edges_inv evs : edges_inv evs (foldl insert_edge (EdgeAccum [] ∅ ∅ 0) evs).
Proof.
  apply (foldl_inv_pre edges_inv).
  { split; [constructor|]. split; [set_solver|]. split; [set_solver|]. intros k. cbn. by rewrite lookup_empty. }
  intros pre [k inl] acc _ (Hnd & Hseen & Hin & Hflag). unfold edges_inv. cbn [insert_edge ea_rows ea_seen ea_flag].
  rewrite fmap_app. cbn [fmap list_fmap fst]. case_bool_decide as Hk.
  - split; [done|]. split; [set_solver|]. split; [set_solver|]. intros k'.
    rewrite existsb_app. cbn [existsb fst snd]. rewrite orb_false_r.
    destruct (decide (k' = k)) as [->|Hne].
    + rewrite lookup_insert_eq, decide_True by set_solver.
      rewrite bool_decide_true by done. rewrite Hflag, decide_True by set_solver. done.
    + rewrite lookup_insert_ne by done. rewrite bool_decide_false by done. cbn. rewrite orb_false_r, Hflag.
      destruct (decide (k' ∈ pre.*1)); [rewrite decide_True by set_solver|rewrite decide_False by set_solver]; done.
  - split; [apply NoDup_app; split; [done|]; split; [set_solver|apply NoDup_singleton]|].
    split; [set_solver|]. split; [set_solver|]. intros k'.
    rewrite existsb_app. cbn [existsb fst snd]. rewrite orb_false_r.
    destruct (decide (k' = k)) as [->|Hne].
    + rewrite lookup_insert_eq, decide_True by set_solver.
      rewrite bool_decide_true by done. rewrite Hflag, decide_False by set_solver. cbn.
      assert (existsb (λ e, bool_decide (e.1 = k) && e.2) pre = false) as ->; [|done].
      apply not_true_is_false. rewrite existsb_exists. intros (e & He & Hb).
      apply andb_true_iff in Hb as [Hb _]. apply bool_decide_eq_true in Hb.
      apply Hk, Hseen, Hin. apply list_elem_of_In in He. apply list_elem_of_fmap. eauto.
    + rewrite lookup_insert_ne by done. rewrite bool_decide_false by done. cbn. rewrite orb_false_r, Hflag.
      destruct (decide (k' ∈ pre.*1)); [rewrite decide_True by set_solver|rewrite decide_False by set_solver]; done.
Qed.

Lemma insertEdges_all (f : tuData → list ((Z * Z) * bool)) tus acc :
  foldl (λ acc tu, foldl insert_edge acc (f tu)) acc tus = foldl insert_edge acc (tus ≫= f).
Proof.
  revert acc; induction tus as [|tu tus IH]; intros acc; [done|]. cbn [foldl mbind list_bind].
  by rewrite foldl_app, <-IH.
Qed.

(** The resolved calls of all units, as the pass visits them. *)
Definition all_edges (tus : list tuData) (resolves : gmap string perTUResolve) (ids : gmap string Z) :
    list ((Z * Z) * bool) :=
  tus ≫= λ tu, match resolves !! tu_object tu with Some res => tu_edges tu res ids | None => [] end.

Lemma insertEdges_tus tus (resolves : gmap string perTUResolve) ids :
  foldl (λ acc tu, match resolves !! tu_object tu with
                   | Some res => insertEdges acc tu res ids | None => acc
                   end) (EdgeAccum [] ∅ ∅ 0) tus = foldl insert_edge (EdgeAccum [] ∅ ∅ 0) (all_edges tus resolves ids).
Proof.
  unfold all_edges. rewrite <-insertEdges_all. apply foldl_ext_in. intros acc tu _. by destruct (resolves !! tu_object tu).
Qed.

Lemma elem_of_all_edges tus resolves ids k b :
  (k, b) ∈ all_edges tus resolves ids ↔
  ∃ tu res cg c, tu ∈ tus ∧ resolves !! tu_object tu = Some res ∧ tu_cgraph tu = Some cg ∧ c ∈ tu_calls cg ∧
    c.2 = b ∧ resolve_ids res ids c.1.1 c.1.2 = Some k.
Proof.
  unfold all_edges. rewrite list_elem_of_bind. split.
  - intros (tu & Hin & Htu). destruct (resolves !! tu_object tu) as [res|] eqn:Er; [|set_solver].
    unfold tu_edges in Hin. destruct (tu_cgraph tu) as [cg|] eqn:Ec; [|set_solver].
    apply list_elem_of_omap in Hin as (c & Hc & Hf). destruct (resolve_ids res ids c.1.1 c.1.2) as [k'|] eqn:Ei; [|done].
    injection Hf as -> <-. by exists tu, res, cg, c.
  - intros (tu & res & cg & c & Htu & Hr & Hcg & Hc & <- & Hi). exists tu. split; [|done].
    rewrite Hr. unfold tu_edges. rewrite Hcg. apply list_elem_of_omap. exists c. by rewrite Hi.
Qed.

Lemma insertEdges_rows tus (resolves : gmap string perTUResolve) ids k :
  k ∈ ea_rows (foldl (λ acc tu, match resolves !! tu_object tu with
                                | Some res => insertEdges acc tu res ids | None => acc
                                end) (EdgeAccum [] ∅ ∅ 0) tus) ↔
  ∃ tu res cg c, tu ∈ tus ∧ resolves !! tu_object tu = Some res ∧ tu_cgraph tu = Some cg ∧ c ∈ tu_calls cg ∧
    resolve_ids res ids c.1.1 c.1.2 = Some k.
Proof.
  rewrite insertEdges_tus. destruct (insert_edges_inv (all_edges tus resolves ids)) as (_ & _ & -> & _).
  rewrite list_elem_of_fmap. split.
  - intros ([k' b] & -> & (tu & res & cg & c & H1 & H2 & H3 & H4 & _ & H5)%elem_of_all_edges). by exists tu, res, cg, c.
  - intros (tu & res & cg & c & H1 & H2 & H3 & H4 & H5). exists (k, c.2). split; [done|].
    apply elem_of_all_edges. by exists tu, res, cg, c.
Qed.

Lemma insert_edges_written evs :
  let acc := foldl insert_edge (EdgeAccum [] ∅ ∅ 0) evs in ea_written acc = length (ea_rows acc).
Proof.
  apply (foldl_inv (λ acc, ea_written acc = length (ea_rows acc))); [done|].
  intros acc [k inl] _ IH. cbn. case_bool_decide; [done|]. rewrite length_app, IH. cbn. lia.
Qed.

(** Over all units each resolved (caller, callee) pair gives exactly one call edge
    and exactly one inline decision, and the decision says "inlined" exactly when
    some unit inlined a call of the pair. *)
Theorem edges_once tus (resolves : gmap string perTUResolve) ids :
  let evs := tus ≫= λ tu, match resolves !! tu_object tu with
                          | Some res => tu_edges tu res ids | None => [] end in
  let acc := foldl (λ acc tu, match resolves !! tu_object tu with
                              | Some res => insertEdges acc tu res ids | None => acc
                              end) (EdgeAccum [] ∅ ∅ 0) tus in
  NoDup (ea_rows acc) ∧ (∀ k, k ∈ ea_rows acc ↔ ∃ b, (k, b) ∈ evs) ∧
  dom (ea_flag acc) = list_to_set (ea_rows acc) ∧
  ∀ k b, ea_flag acc !! k = Some b → (b = true ↔ (k, true) ∈ evs).
Proof.
  cbn. rewrite insertEdges_tus. fold (all_edges tus resolves ids).
  destruct (insert_edges_inv (all_edges tus resolves ids)) as (Hnd & _ & Hin & Hflag).
  set (acc := foldl insert_edge _ _) in *. set (evs := all_edges tus resolves ids) in *.
  assert (∀ k, k ∈ evs.*1 ↔ ∃ b, (k, b) ∈ evs) as Hk.
  { intros k. rewrite list_elem_of_fmap. split; [intros ([k' b] & -> & H); eauto|intros [b H]; by exists (k, b)]. }
  split; [done|]. split; [intros k; by rewrite Hin|]. split.
  - apply set_eq. intros k. rewrite elem_of_dom, Hflag, elem_of_list_to_set, Hin.
    case_decide as Hc; split; intros Hx; [done|by eexists|by destruct Hx|done].
  - intros k b. rewrite Hflag. case_decide; [|done]. intros [= <-]. rewrite existsb_exists. split.
    + intros ([k' b'] & He & Hb). apply andb_true_iff in Hb as [Hb1 Hb2].
      apply bool_decide_eq_true in Hb1. cbn in *. subst. by apply list_elem_of_In.
    + intros H'. exists (k, true). split; [by apply list_elem_of_In|]. cbn. by rewrite bool_decide_true.
Qed.

(** ** Clones *)

Section clones.
Context (tu : tuData) (cg : Cgraph) (path : string) (pr : PathResolver).

Definition is_clone (id : string) : Prop :=
  ∃ fn, Symbols cg !! id = Some fn ∧ CloneOfID fn ≠ "".

(** [res] resolves every plain entry of [done] to its own identity. *)
Definition plain_resolved (done : list string) (res : perTUResolve) : Prop :=
  ∀ id fn r, id ∈ done → Symbols cg !! id = Some fn → CloneOfID fn = "" →
    recordFor fn tu path pr = Some r → res !! id = Some (rec_usr r).

Lemma phase1_resolved ids symbols :
  plain_resolved ids (foldl (add_symbol tu cg path pr) (symbols, ∅) ids).2.
Proof.
  apply (foldl_inv_pre (λ done st, plain_resolved done st.2)); [intros ???; set_solver|].
  intros pre id st _ IH id' fn r Hin Hfn Hc Hr. unfold add_symbol.
  apply elem_of_app in Hin as [Hin|Hin%list_elem_of_singleton].
  - specialize (IH id' fn r Hin Hfn Hc Hr).
    destruct (Symbols cg !! id) as [fn'|] eqn:E; [|done]. destruct (negb _); [done|].
    destruct (recordFor fn' tu path pr) as [r'|] eqn:Er; [|done]. cbn.
    destruct (decide (id = id')) as [->|]; [|by rewrite lookup_insert_ne].
    rewrite lookup_insert_eq. congruence.
  - subst id'. rewrite Hfn. apply String.eqb_eq in Hc. rewrite Hc. cbn [negb]. rewrite Hr. cbn.
    by rewrite lookup_insert_eq.
Qed.

(** The second phase leaves resolved plain entries alone. *)
Lemma phase2_plain st id id' fn :
  Symbols cg !! id' = Some fn → CloneOfID fn = "" → is_Some (st.2 !! id') →
  (add_clone_symbol tu cg path pr st id).2 !! id' = st.2 !! id'.
Proof.
  intros Hfn Hc [u Hu]. unfold add_clone_symbol.
  destruct (Symbols cg !! id) as [fn'|] eqn:E; [|done].
  destruct (String.eqb_spec (CloneOfID fn') "") as [|Hc']; [done|].
  assert (id ≠ id') by congruence.
  destruct (st.2 !! CloneOfID fn') eqn:Ep.
  - case_match; [done|]. cbn. by rewrite lookup_insert_ne.
  - assert (CloneOfID fn' ≠ id') by congruence.
    destruct (Symbols cg !! CloneOfID fn' ≫= _); case_match; cbn; rewrite ?lookup_insert_ne; done.
Qed.

Lemma phase2_self st id fn u :
  Symbols cg !! id = Some fn → CloneOfID fn ≠ "" → st.2 !! CloneOfID fn = Some u → u ≠ "" →
  (add_clone_symbol tu cg path pr st id).2 !! id = Some u.
Proof.
  intros Hfn Hc Hu Hne. unfold add_clone_symbol. apply String.eqb_neq in Hc, Hne.
  rewrite Hfn, Hc, Hu, Hne. cbn. by rewrite lookup_insert_eq.
Qed.

(** A clone once resolved is only ever resolved again by itself. *)
Lemma phase2_clone st id id' :
  id ≠ id' → is_Some (st.2 !! id') →
  (add_clone_symbol tu cg path pr st id).2 !! id' = st.2 !! id'.
Proof.
  intros Hne [u Hu]. unfold add_clone_symbol.
  destruct (Symbols cg !! id) as [fn'|] eqn:E; [|done].
  destruct (String.eqb (CloneOfID fn') ""); [done|].
  destruct (st.2 !! CloneOfID fn') eqn:Ep.
  - case_match; [done|]. cbn. by rewrite lookup_insert_ne.
  - assert (CloneOfID fn' ≠ id') by congruence.
    destruct (Symbols cg !! CloneOfID fn' ≫= _); case_match; cbn; rewrite ?lookup_insert_ne; done.
Qed.

Lemma Function_usr_nonempty p n : Usr.Function p n ≠ "" ∧ Variable_ p n ≠ "".
Proof. unfold Usr.Function, Variable_. by destruct (String.eqb p ""). Qed.

Lemma recordFor_usr fn r : recordFor fn tu path pr = Some r → rec_usr r ≠ "".
Proof.
  unfold recordFor. destruct (String.eqb _ ""); [done|].
  set (u := if String.eqb _ "variable" then _ else _). intros [= <-]. cbn. subst u.
  destruct (String.eqb _ "variable"); apply Function_usr_nonempty.
Qed.

(** C30: A clone of a plain function resolves to that function's identity, so its
    calls and inline decisions are the parent's. *)
Theorem clone_resolves symbols id fn pfn r :
  Symbols cg !! id = Some fn → CloneOfID fn ≠ "" →
  Symbols cg !! CloneOfID fn = Some pfn → CloneOfID pfn = "" →
  recordFor pfn tu path pr = Some r →
  let res := (aggregate_ids tu cg path pr (sorted_keys (Symbols cg)) symbols).2 in
  res !! CloneOfID fn = Some (rec_usr r) ∧ res !! id = Some (rec_usr r).
Proof.
  intros Hfn Hc Hpfn Hpc Hr. cbn. unfold aggregate_ids.
  set (st0 := foldl (add_symbol tu cg path pr) (symbols, ∅) (sorted_keys (Symbols cg))).
  assert (st0.2 !! CloneOfID fn = Some (rec_usr r)) as H0.
  { apply (phase1_resolved _ symbols) with pfn; try done. apply elem_of_sorted_keys. by eexists. }
  assert (id ∈ sorted_keys (Symbols cg)) as Hin by (apply elem_of_sorted_keys; by eexists).
  pose proof (recordFor_usr _ _ Hr) as Hne. clearbody st0. revert Hin.
  generalize (sorted_keys (Symbols cg)). intros ids.
  enough (let st := foldl (add_clone_symbol tu cg path pr) st0 ids in
    st.2 !! CloneOfID fn = Some (rec_usr r) ∧ (id ∈ ids → st.2 !! id = Some (rec_usr r))) as [H1 H2]
    by (intros; split; auto).
  apply (foldl_inv_pre (λ done st, st.2 !! CloneOfID fn = Some (rec_usr r) ∧
    (id ∈ done → st.2 !! id = Some (rec_usr r)))).
  - split; [done|set_solver].
  - intros pre x st _ [IH1 IH2]. split.
    + rewrite (phase2_plain _ _ _ pfn) by (try done; by rewrite IH1). done.
    + intros [Hx|Hx%list_elem_of_singleton]%elem_of_app.
      * destruct (decide (x = id)) as [->|Hne']; [by apply (phase2_self _ _ fn)|].
        rewrite phase2_clone; [by apply IH2|done|]. rewrite IH2 by done. by eexists.
      * subst x. by apply (phase2_self _ _ fn).
Qed.
End clones.

(** A unit without a .ci dump whose cgraph is given. *)
Definition bare_tu (fns : list Function) (icf : option (list Icf.ICFGroup)) : tuData :=
  MkTuData "/b/a.o" None
    (Some (MkCgraph [] (list_to_map ((λ f, (LocalID f, f)) <$> fns)))) None icf None.

Definition bare_function (id name clone_of : string) : Function :=
  MkFunction id name name "function" true false [] false [] clone_of [] [] [].

Definition chain_tu : tuData :=
  bare_tu [bare_function "2" "f" ""; bare_function "9" "f.constprop" "2";
           bare_function "10" "f.constprop.isra" "9"] None.

(** A clone of a clone whose id sorts, as text, before its parent's is attributed
    to a symbol of its own that stands for the intermediate clone, not to the
    function both derive from. *)
Theorem clone_of_clone_misattributed :
  let pr := MkPathResolver "/b" "/p" in
  let res := (aggregateSymbols pr chain_tu ∅).2 in
  res !! "2" = Some "c:@F@f" ∧ res !! "9" = Some "c:@F@f" ∧ res !! "10" = Some "c:@F@f.constprop".
Proof. vm_compute. done. Qed.

(** ** Folding groups *)

Lemma insert_members gid losers ms :
  NoDup losers ∧ (∀ l, l ∈ losers → IcfMemberRow gid l ∉ ms) ↔
  foldM (insert_member gid) losers ms = Ok (ms ++ (IcfMemberRow gid <$> losers)).
Proof.
  revert ms; induction losers as [|l losers IH]; intros ms; cbn [foldM].
  { rewrite app_nil_r. split; [done|]. intros _. split; [constructor|set_solver]. }
  unfold insert_member at 1. case_bool_decide as Hin.
  - split; [|done]. intros [_ H]. exfalso. apply (H l); [set_solver|done].
  - assert (ms ++ (IcfMemberRow gid <$> l :: losers) =
      (ms ++ [IcfMemberRow gid l]) ++ (IcfMemberRow gid <$> losers)) as -> by
      (by rewrite fmap_cons, <-app_assoc).
    rewrite <-IH, NoDup_cons. split.
    + intros [[Hl Hnd] H]. split; [done|]. intros x Hx.
      rewrite elem_of_app, list_elem_of_singleton. intros [Hm|[= ->]]; [|done].
      apply (H x); [set_solver|done].
    + intros [Hnd H]. split; [split; [|done]|].
      * intros Hl. apply (H l Hl). set_solver.
      * intros x [->|Hx]%elem_of_cons; [done|]. intros Hm. apply (H x Hx). set_solver.
Qed.

(** A folding group is written with all its members exactly when no two of its
    losers resolve to the same symbol. *)
Theorem insert_group_members object names t g w l ls :
  names !! Icf.WinnerName g = Some w →
  filter (λ id, id ≠ w) (omap (λ x, names !! x) (Icf.LoserNames g)) = l :: ls →
  (∀ m, m ∈ it_members t → (m_group m < next_id (it_groups t))%Z) →
  NoDup (l :: ls) ↔
  insert_group object names t g =
    Ok (IcfTables (it_groups t ++ [IcfGroupRow (next_id (it_groups t)) w object])
          (it_members t ++ (IcfMemberRow (next_id (it_groups t)) <$> l :: ls)) (S (it_written t))).
Proof.
  intros Hw Hl Hm. unfold insert_group. rewrite Hw, Hl.
  transitivity (NoDup (l :: ls) ∧
    ∀ x, x ∈ l :: ls → IcfMemberRow (next_id (it_groups t)) x ∉ it_members t).
  { split; [|naive_solver]. intros H. split; [done|]. intros x _ Hin. apply Hm in Hin. simpl in Hin. lia. }
  rewrite insert_members. destruct (foldM _ _ _); cbn; split; congruence.
Qed.

Definition ex_names : gmap string Z := {["w" := 1%Z; "a" := 2%Z; "b" := 3%Z]}.

Lemma insert_group_members_witness :
  ex_names !! "w" = Some 1%Z ∧
  filter (λ id, id ≠ 1%Z) (omap (λ x, ex_names !! x) ["a"; "b"]) = [2; 3]%Z ∧
  (∀ m, m ∈ it_members (IcfTables [] [] 0) → (m_group m < next_id (it_groups (IcfTables [] [] 0)))%Z) ∧
  insert_group "/b/a.o" ex_names (IcfTables [] [] 0) (Icf.MkICFGroup "w" ["a"; "b"]) =
    Ok (IcfTables [IcfGroupRow 1 1 "/b/a.o"] [IcfMemberRow 1 2; IcfMemberRow 1 3] 1).
Proof.
  split; [reflexivity|]. split; [reflexivity|].
  split; [intros m Hm; inversion Hm|].
  apply (insert_group_members "/b/a.o" ex_names (IcfTables [] [] 0)
           (Icf.MkICFGroup "w" ["a"; "b"]) 1 2 [3%Z]); [reflexivity|reflexivity| |].
  - intros m Hm; inversion Hm.
  - by_decide.
Defined.

Definition folded_clone_tu : tuData :=
  bare_tu [bare_function "1" "w" ""; bare_function "2" "a" ""; bare_function "3" "a.constprop" "2"]
    (Some [Icf.MkICFGroup "w" ["a"; "a.constprop"]]).

(** A unit whose folding dump lists a function together with one of its clones
    makes the whole pass fail on the members' primary key. *)
Theorem folded_clone_aborts :
  ∃ g s, ingest_tus (MkPathResolver "/b" "/p") "/b" [folded_clone_tu] = Err (ErrMemberConstraint g s).
Proof. vm_compute. by eexists _, _. Qed.

(** Witnesses of the two theorems on aggregation: a unit in which [f] calls itself and
    has a clone that nothing refers to. *)
Definition self_call : Function :=
  MkFunction "2" "f" "f" "function" true false ["externally_visible"; "public"] false [] "" []
    [MkCall "2" false] [].
Definition call_tu : tuData := bare_tu [self_call; bare_function "9" "f.constprop" "2"] None.
Definition ex_pr : PathResolver := MkPathResolver "/b" "/p".

Definition ex_agg : symbol_map * gmap string perTUResolve := aggregate_all ex_pr [call_tu].
Definition ex_ids : gmap string Z :=
  st_ids (insertSymbols (pruneUnreferenced ex_agg.1 (referencedUSRs [call_tu] ex_agg.2))).

(** A unit whose dump folds [g] into [f]. *)
Definition fold_tu : tuData :=
  bare_tu [self_call; bare_function "3" "g" ""] (Some [Icf.MkICFGroup "f" ["g"]]).

Lemma prune_keeps_references_witness :
  (∃ cg res, tu_cgraph call_tu = Some cg ∧ call_tu ∈ [call_tu] ∧ ex_agg.2 !! tu_object call_tu = Some res ∧
    ("2", "2", false) ∈ tu_calls cg ∧ is_Some (resolve_pair res "2" "2") ∧
    is_Some (resolve_ids res ex_ids "2" "2")) ∧
  (∃ res ids i j, fold_tu ∈ [fold_tu] ∧ (aggregate_all ex_pr [fold_tu]).2 !! tu_object fold_tu = Some res ∧
    buildNameToUSR fold_tu res !! "f" = Some "c:@F@f" ∧ buildNameToUSR fold_tu res !! "g" = Some "c:@F@g" ∧
    buildNameToSymbolID fold_tu res ids !! "f" = Some i ∧ buildNameToSymbolID fold_tu res ids !! "g" = Some j ∧ j ≠ i).
Proof.
  split.
  - do 2 eexists. split; [reflexivity|]. split; [left|]. split; [vm_compute; reflexivity|].
    split; [by_decide|]. split; [vm_compute; eauto|].
    eapply (prune_keeps_references ex_pr [call_tu] call_tu); [left|vm_compute; reflexivity|reflexivity| |].
    + instantiate (1 := false). by_decide.
    + vm_compute. eauto.
  - edestruct (prune_keeps_references ex_pr [fold_tu] fold_tu) as (_ & _ & H & _); [left|vm_compute; reflexivity|].
    edestruct (H [Icf.MkICFGroup "f" ["g"]] (Icf.MkICFGroup "f" ["g"]) "c:@F@f" "g" "c:@F@g") as (i & j & Hi & Hj & Hne);
      [reflexivity|left|vm_compute; reflexivity|left|vm_compute; reflexivity|discriminate|].
    do 4 eexists. split; [left|]. split; [vm_compute; reflexivity|].
    split; [vm_compute; reflexivity|]. split; [vm_compute; reflexivity|].
    split; [exact Hi|]. split; [exact Hj|exact Hne].
Defined.

Lemma clone_resolves_witness :
  ∃ cg fn r, tu_cgraph call_tu = Some cg ∧ Symbols cg !! "9" = Some fn ∧ CloneOfID fn ≠ "" ∧
    Symbols cg !! "2" = Some self_call ∧ CloneOfID self_call = "" ∧
    recordFor self_call call_tu "a.c" ex_pr = Some r ∧
    (aggregate_ids call_tu cg "a.c" ex_pr (sorted_keys (Symbols cg)) ∅).2 !! "9" = Some (rec_usr r).
Proof.
  do 3 eexists. split; [reflexivity|]. split; [reflexivity|]. split; [discriminate|].
  split; [reflexivity|]. split; [reflexivity|]. split; [reflexivity|].
  eapply (clone_resolves call_tu _ "a.c" ex_pr ∅ "9"); [reflexivity|discriminate|reflexivity..].
Defined.
