(* ===== verification/Link.v ===== *)
(** * The link plane's ingest ([internal/ingest/link.go])

    For every linked binary: which object supplied each symbol, and the call
    edges left in its code.  [nm] and [objdump] are the tools' outputs by path,
    [read] the text of a linker map; the [symbols] and [symbol_definitions]
    tables come from the compiler pass. *)

From S2P Require Import Prelude GoStrings Usr Paths LinkPlane Store Meson Ingest.
From Stdlib Require Import ZArith Lia.

Import Nm.
Abbreviation defs_index := (gmap string (list ObjectDef)).

(** ** Choosing the winning object *)

Definition kind_rank (kind : string) : Z :=
  if bool_decide (kind ∈ ["T"; "D"; "B"; "R"]) then 3
  else if bool_decide (kind ∈ ["W"; "V"]) then 2
  else if String.eqb kind "C" then 1
  else match kind with String c "" => if is_lower c then 0 else -1 | _ => -1 end.

(** The comparison of the sort: rank first, then the object path. *)
Definition cand_le (a b : ObjectDef) : Prop :=
  (kind_rank (DefKind b) < kind_rank (DefKind a))%Z ∨
  kind_rank (DefKind a) = kind_rank (DefKind b) ∧ String.le (Object a) (Object b).

#[export] Instance cand_le_dec : RelDecision cand_le.
Proof. intros a b. unfold cand_le. apply _. Defined.
#[export] Instance cand_le_total : Total cand_le.
Proof.
  intros a b. unfold cand_le.
  destruct (Z.lt_trichotomy (kind_rank (DefKind a)) (kind_rank (DefKind b))) as [|[|]]; auto.
  destruct (total String.le (Object a) (Object b)); auto.
Qed.
#[export] Instance cand_le_trans : Transitive cand_le.
Proof.
  unfold cand_le. intros a b c [H1|[H1 H1']] [H2|[H2 H2']]; [left; lia..|]. right. split; [lia|].
  by etrans.
Qed.

Definition pickWinningObject (cands : list ObjectDef) : string :=
  match merge_sort cand_le cands with [] => "" | c :: _ => Object c end.

Definition add_loser (winner : string) (st : list string * gset string) (c : ObjectDef) :
    list string * gset string :=
  if String.eqb (Object c) winner || bool_decide (Object c ∈ st.2) then st
  else (st.1 ++ [Object c], {[Object c]} ∪ st.2).

Definition collectLosingObjects (cands : list ObjectDef) (winner : string) : list string :=
  sort_strings (foldl (add_loser winner) ([], ∅) cands).1.

(** ** Looking symbols up *)

Record entry := Entry { e_id : Z; e_hasDef : bool }.

Definition put (name : string) (e : entry) (m : gmap string entry) : gmap string entry :=
  if String.eqb name "" then m
  else match m !! name with
  | Some cur => if negb (e_hasDef cur) && e_hasDef e then <[name := e]> m else m
  | None => <[name := e]> m
  end.

Definition has_def (defs : list def_row) (id : Z) : bool :=
  bool_decide (id ∈ d_symbol_id <$> defs).

Definition put_row (defs : list def_row) (m : gmap string entry) (s : symbol_row) : gmap string entry :=
  foldl (λ m n, put n (Entry (s_id s) (has_def defs (s_id s))) m) m (s_name s :: s_linkage_names s).

(** [nameToID] and [usrByID], over the symbols in the order the query gives them. *)
Definition buildSymbolLookup (syms : list symbol_row) (defs : list def_row) :
    gmap string Z * gmap Z string :=
  (e_id <$> foldl (put_row defs) ∅ syms,
   foldl (λ m s, <[s_id s := s_usr s]> m) ∅ syms).

(** [usrToID], the inverse of [usrByID]: identities are UNIQUE. *)
Definition invert (usrByID : gmap Z string) : gmap string Z :=
  list_to_map ((λ kv, (kv.2, kv.1)) <$> map_to_list usrByID).

Section resolve.
Context (mf : option MapFile.MapFile) (defsByName : defs_index) (objectToSource : gmap string string).
Context (usrToID nameToID : gmap string Z).

Definition resolveStaticViaObject (s : NMSymbol) (obj : string) : option Z :=
  if String.eqb obj "" then None
  else
    src ← objectToSource !! obj;
    usrToID !! (if bool_decide (Kind s ∈ ["d"; "b"; "r"]) then Variable_ src (Nm.Name s)
                else Usr.Function src (Nm.Name s)).

Definition mapObjectFor (name : string) : string :=
  default "" (m ← mf; MapFile.SymbolOrigin m !! name).

Definition candidates (name : string) : list ObjectDef := default [] (defsByName !! name).

Definition resolveNMSymbol (s : NMSymbol) : option Z :=
  if negb (Local s) then nameToID !! Nm.Name s
  else match resolveStaticViaObject s (mapObjectFor (Nm.Name s)) with
  | Some id => Some id
  | None =>
    match (match candidates (Nm.Name s) with
           | [c] => resolveStaticViaObject s (Object c)
           | _ => None
           end) with
    | Some id => Some id
    | None => nameToID !! Nm.Name s
    end
  end.

Definition index_addr (out : gmap Z Z) (s : NMSymbol) : gmap Z Z :=
  if negb (IsFunction s) || String.eqb (Address s) "" then out
  else match ParseUint 16 (Address s), resolveNMSymbol s with
  | (addr, None), Some id => <[addr := id]> out
  | _, _ => out
  end.

(** A later symbol at the same address replaces an earlier one. *)
Definition buildAddrIndex (syms : list NMSymbol) : gmap Z Z := foldl index_addr ∅ syms.

(** The winner of one symbol: the map's origin, else the best candidate. *)
Definition winning_object (name : string) : string :=
  let orig := mapObjectFor name in
  if String.eqb orig "" then pickWinningObject (candidates name) else orig.

(** The [link_resolutions] row of one symbol, if it gets one. *)
Definition resolution_row (targetID : Z) (usrByID : gmap Z string) (s : NMSymbol) :
    option link_resolution_row :=
  if String.eqb (LinkageKind s) "" then None
  else
    symID ← resolveNMSymbol s;
    let winner := winning_object (Nm.Name s) in
    Some (LinkResolutionRow targetID (default "" (usrByID !! symID)) winner (LinkageKind s)
            (collectLosingObjects (candidates (Nm.Name s)) winner)
            (if String.eqb winner "" then "" else MapFile.ArchiveFor winner)).

(** The symbols of an edge: by address first, then by name. *)
Definition edge_ids (addrToID : gmap Z Z) (e : Objdump.ObjdumpEdge) : option (Z * Z) :=
  caller ← (match addrToID !! Objdump.CallerAddr e with
            | Some i => Some i | None => nameToID !! Objdump.Caller e end);
  callee ← (match addrToID !! Objdump.CalleeAddr e with
            | Some i => Some i | None => nameToID !! Objdump.CalleeStripped e end);
  Some (caller, callee).
End resolve.

Definition add_edge (st : list (Z * Z) * gset (Z * Z)) (k : Z * Z) : list (Z * Z) * gset (Z * Z) :=
  if bool_decide (k ∈ st.2) then st else (st.1 ++ [k], {[k]} ∪ st.2).

(** The [seen] filter over the resolved edges of one binary. *)
Definition dedup_edges (l : list (Z * Z)) : list (Z * Z) := (foldl add_edge ([], ∅) l).1.

(** ** The pass *)

Definition indexMapFiles (bd : BuildDir.BuildDir) : gmap string string :=
  foldl (λ out m, <[TrimSuffix (BuildDir.split_path m).2 ".map" := m]> out) ∅ (BuildDir.LinkerMaps bd).

Definition scanBuilddirObjectDefs (nm : string → option string) (bd : BuildDir.BuildDir) :
    option defs_index :=
  fmap (M := gmap string) (map (λ d, MkObjectDef (obj_rel (BuildDir.Root bd) (Object d)) (DefKind d)))
    <$> ScanObjectDefs nm (BuildDir.Object <$> BuildDir.Objects bd).

Inductive link_error :=
| ErrScan
| ErrNM (path : string)
| ErrMap (path : string)
| ErrObjdump (path : string).

Record LinkSummary := MkLinkSummary { LinkResolutions : nat; ObjdumpEdges : nat }.

Record link_tables := LinkTables {
  lt_resolutions : list link_resolution_row;
  lt_edges : list edge_row;
  lt_sum : LinkSummary;
}.

(** The tools and files the pass reads. *)
Record link_env := LinkEnv {
  env_nm : string → option string;
  env_objdump : string → option string;
  env_read : string → option string;
}.

Definition read_map (env : link_env) (path : string) : result link_error (option MapFile.MapFile) :=
  if String.eqb path "" then Ok None
  else match env_read env path with
  | Some text => let '(m, too_long) := MapFile.ReadMap text in
                 if too_long then Err (ErrMap path) else Ok (Some m)
  | None => Err (ErrMap path)
  end.

Definition run_objdump (env : link_env) (path : string) : result link_error (list Objdump.ObjdumpEdge) :=
  match env_objdump env path with
  | Some text => let '(es, too_long) := Objdump.parseObjdumpStream text in
                 if too_long then Err (ErrObjdump path) else Ok es
  | None => Err (ErrObjdump path)
  end.

Section link.
Context (env : link_env) (targetIDs : gmap string Z) (objectToSource : gmap string string).
Context (mapByTarget : gmap string string) (defsByName : defs_index).
Context (usrByID : gmap Z string) (nameToID : gmap string Z).

(** The body of the loop for a target with a linked binary. *)
Definition link_binary (tb : link_tables) (t : Meson.Target) (binary : string) (targetID : Z) :
    result link_error link_tables :=
  let usrToID := invert usrByID in
  syms ← (match RunNMDefined (env_nm env) binary with Some l => Ok l | None => Err (ErrNM binary) end);
  mf ← read_map env (default "" (mapByTarget !! Meson.Name t));
  let addrToID := buildAddrIndex mf defsByName objectToSource usrToID nameToID syms in
  let rows := omap (resolution_row mf defsByName objectToSource usrToID nameToID targetID usrByID) syms in
  edges ← run_objdump env binary;
  let pairs := dedup_edges (omap (edge_ids nameToID addrToID) edges) in
  Ok (LinkTables (lt_resolutions tb ++ rows)
        (lt_edges tb ++ ((λ k, EdgeRow k.1 k.2 "objdump" (Some targetID)) <$> pairs))
        (MkLinkSummary (LinkResolutions (lt_sum tb) + length rows) (ObjdumpEdges (lt_sum tb) + length pairs))).

Definition link_target (tb : link_tables) (t : Meson.Target) : result link_error link_tables :=
  if negb (bool_decide (Meson.Kind t ∈ ["executable"; "shared_library"])) then Ok tb
  else match Meson.Filenames t, targetIDs !! Meson.Name t with
  | binary :: _, Some targetID => link_binary tb t binary targetID
  | _, _ => Ok tb
  end.
End link.

(** [Link]: an error leaves the tables as they were, the transaction being rolled
    back. *)
Definition Link (env : link_env) (syms : list symbol_row) (defs : list def_row)
    (bd : BuildDir.BuildDir) (intro : Meson.Introspection) (targetIDs : gmap string Z)
    (objectToSource : gmap string string) : result link_error link_tables :=
  let '(nameToID, usrByID) := buildSymbolLookup syms defs in
  defsByName ← (match scanBuilddirObjectDefs (env_nm env) bd with
                | Some d => Ok d | None => Err ErrScan end);
  foldM (link_target env targetIDs objectToSource (indexMapFiles bd) defsByName usrByID nameToID)
    (sort_by Meson.Name (Meson.IntroTargets intro)) (LinkTables [] [] (MkLinkSummary 0 0)).

(** ** Winner and losers *)

Lemma pick_best_lemma cands :
  cands ≠ [] →
  ∃ c, c ∈ cands ∧ pickWinningObject cands = Object c ∧ ∀ d, d ∈ cands → cand_le c d.
Proof.
  intros Hne. unfold pickWinningObject.
  pose proof (merge_sort_Permutation cand_le cands) as Hp.
  pose proof (StronglySorted_merge_sort cand_le cands) as Hs.
  destruct (merge_sort cand_le cands) as [|c l] eqn:E.
  { by apply Permutation_nil in Hp. }
  exists c. split; [rewrite <-Hp; set_solver|]. split; [done|].
  intros d. rewrite <-Hp. intros [->|Hd]%elem_of_cons.
  - destruct (total cand_le c c); done.
  - inversion Hs as [|? ? _ Hall]; subst. rewrite Forall_forall in Hall. by apply Hall.
Qed.

Lemma pick_unique c d : cand_le c d → cand_le d c → Object c = Object d.
Proof.
  intros [H1|[H1 H1']] [H2|[H2 H2']]; try lia. by apply (anti_symm String.le).
Qed.

(** Without a map file the winner is a candidate no other candidate outranks
    (strong, weak, common, local), the least path among equals; the order in which
    the objects were scanned does not matter. *)
Theorem pickWinningObject_best cands cands' :
  cands ≠ [] → cands ≡ₚ cands' →
  pickWinningObject cands = pickWinningObject cands' ∧
  ∃ c, c ∈ cands ∧ pickWinningObject cands = Object c ∧
    ∀ d, d ∈ cands → (kind_rank (DefKind d) ≤ kind_rank (DefKind c))%Z ∧
      (kind_rank (DefKind d) = kind_rank (DefKind c) → String.le (Object c) (Object d)).
Proof.
  intros Hne Hp. destruct (pick_best_lemma cands Hne) as (c & Hc & Ec & Hbest). split.
  - destruct (pick_best_lemma cands') as (c' & Hc' & Ec' & Hbest').
    { intros ->. by apply Hne, Permutation_nil. }
    rewrite Ec, Ec'. apply pick_unique; [apply Hbest; by rewrite Hp|apply Hbest'; by rewrite <-Hp].
  - exists c. split; [done|]. split; [done|]. intros d Hd.
    destruct (Hbest d Hd) as [H|[H H']]; split; try lia. intros; done.
Qed.

Definition ex_cands : list ObjectDef := [MkObjectDef "/b/x.o" "W"; MkObjectDef "/b/z.o" "T"].
Definition ex_cand : ObjectDef := MkObjectDef "/b/y.o" "T".

Lemma pickWinningObject_best_witness :
  ex_cands ++ [ex_cand] ≠ [] ∧ ex_cands ++ [ex_cand] ≡ₚ [ex_cand] ++ ex_cands ∧
  pickWinningObject (ex_cands ++ [ex_cand]) = pickWinningObject ([ex_cand] ++ ex_cands) ∧
  pickWinningObject (ex_cands ++ [ex_cand]) = "/b/y.o".
Proof.
  split; [discriminate|]. split; [apply Permutation_app_comm|]. split; [|vm_compute; reflexivity].
  apply pickWinningObject_best; [discriminate|apply Permutation_app_comm].
Defined.

Lemma losers_fold winner cands :
  let st := foldl (add_loser winner) ([], ∅) cands in
  NoDup st.1 ∧ (∀ o, o ∈ st.1 ↔ o ∈ st.2) ∧
  ∀ o, o ∈ st.1 ↔ o ≠ winner ∧ o ∈ Object <$> cands.
Proof.
  apply (foldl_inv_pre (λ pre st, NoDup st.1 ∧ (∀ o, o ∈ st.1 ↔ o ∈ st.2) ∧
    ∀ o, o ∈ st.1 ↔ o ≠ winner ∧ o ∈ Object <$> pre)).
  { split; [constructor|]. split; set_solver. }
  intros pre c [out seen] _ (Hnd & Hs & Hin). unfold add_loser. cbn [fst snd] in *.
  rewrite fmap_app. cbn [fmap list_fmap]. destruct (String.eqb_spec (Object c) winner) as [E|E].
  - cbn. split; [done|]. split; [done|]. set_solver.
  - case_bool_decide as Hc; cbn.
    + split; [done|]. split; [done|]. set_solver.
    + split; [|split; set_solver]. apply NoDup_app. split; [done|]. split; [set_solver|apply NoDup_singleton].
Qed.

(** The losers are exactly the other objects that define the symbol, each once,
    in path order. *)
Theorem collectLosingObjects_spec cands winner :
  StronglySorted String.le (collectLosingObjects cands winner) ∧
  NoDup (collectLosingObjects cands winner) ∧
  ∀ o, o ∈ collectLosingObjects cands winner ↔ o ≠ winner ∧ ∃ c, c ∈ cands ∧ Object c = o.
Proof.
  unfold collectLosingObjects. destruct (losers_fold winner cands) as (Hnd & _ & Hin).
  split; [apply sort_strings_sorted|]. split; [by rewrite NoDup_sort_strings|].
  intros o. rewrite elem_of_sort_strings, Hin, list_elem_of_fmap. naive_solver.
Qed.

(** ** The objects that define a name

    Read off nm's listings of the objects of the build. *)

Definition object_def (nm : string → option string) (bd : BuildDir.BuildDir) (name : string) (d : ObjectDef) : Prop :=
  ∃ art syms s, art ∈ BuildDir.Objects bd ∧ RunNMDefined nm (BuildDir.Object art) = Some syms ∧ s ∈ syms ∧
    Nm.Name s = name ∧ name ≠ "" ∧ Kind s ≠ "" ∧
    d = MkObjectDef (obj_rel (BuildDir.Root bd) (BuildDir.Object art)) (Kind s).

Lemma scanBuilddirObjectDefs_candidates nm bd dbn name d :
  scanBuilddirObjectDefs nm bd = Some dbn → d ∈ candidates dbn name ↔ object_def nm bd name d.
Proof.
  unfold scanBuilddirObjectDefs, candidates. intros (out & Hout & ->)%fmap_Some.
  destruct (ScanObjectDefs_Some _ _ _ Hout) as [Hok Hdefs]. rewrite lookup_fmap.
  assert (default [] (map (λ d, MkObjectDef (obj_rel (BuildDir.Root bd) (Object d)) (DefKind d)) <$> out !! name) =
    (λ d, MkObjectDef (obj_rel (BuildDir.Root bd) (Object d)) (DefKind d)) <$> default [] (out !! name)) as ->
    by by destruct (out !! name).
  rewrite Hdefs, list_elem_of_fmap. unfold object_def, defs_of. setoid_rewrite list_elem_of_bind.
  setoid_rewrite list_elem_of_fmap. split.
  - intros (d' & -> & obj & Hd & art & -> & Hart). destruct (RunNMDefined nm _) as [syms|] eqn:E; [|set_solver].
    apply list_elem_of_fmap in Hd as (k & -> & Hd).
    apply list_elem_of_fmap in Hd as (s & -> & [(Hn & Hk & Hne) Hs]%list_elem_of_filter).
    by exists art, syms, s.
  - intros (art & syms & s & Hart & E & Hs & Hn & Hne & Hk & ->).
    exists (MkObjectDef (BuildDir.Object art) (Kind s)). split; [done|]. exists (BuildDir.Object art).
    split; [|by exists art]. rewrite E. apply list_elem_of_fmap. exists (Kind s). split; [done|].
    apply list_elem_of_fmap. exists s. split; [done|]. by apply list_elem_of_filter.
Qed.

(** The object that wins a name: the one the map file names, or else a definition no
    other outranks, the least path among equals; none without a definition. *)
Definition wins (nm : string → option string) (bd : BuildDir.BuildDir) (mf : option MapFile.MapFile) (name w : string) : Prop :=
  let orig := mapObjectFor mf name in
  (orig ≠ "" ∧ w = orig) ∨
  (orig = "" ∧ w = "" ∧ ∀ d, ¬ object_def nm bd name d) ∨
  (orig = "" ∧ ∃ c, object_def nm bd name c ∧ w = Object c ∧
     ∀ d, object_def nm bd name d → (kind_rank (DefKind d) ≤ kind_rank (DefKind c))%Z ∧
       (kind_rank (DefKind d) = kind_rank (DefKind c) → String.le (Object c) (Object d))).

Lemma winning_object_wins nm bd dbn mf name :
  scanBuilddirObjectDefs nm bd = Some dbn → wins nm bd mf name (winning_object mf dbn name).
Proof.
  intros Hdbn. pose proof (λ d, scanBuilddirObjectDefs_candidates _ _ _ name d Hdbn) as Hc.
  unfold wins, winning_object. destruct (String.eqb_spec (mapObjectFor mf name) "") as [E|E]; [|by left].
  right. destruct (decide (candidates dbn name = [])) as [En|Hne].
  - left. split; [done|]. rewrite En. split; [done|]. intros d Hd%Hc. rewrite En in Hd. set_solver.
  - right. split; [done|]. destruct (pick_best_lemma _ Hne) as (c & Hin & Ew & Hbest). exists c.
    split; [by apply Hc|]. split; [done|]. intros d Hd%Hc. destruct (Hbest d Hd) as [H|[H H']]; split; try lia. intros; done.
Qed.

(** The losers: the other objects that define the name, each once, in path order. *)
Definition losers (nm : string → option string) (bd : BuildDir.BuildDir) (name w : string) (l : list string) : Prop :=
  StronglySorted String.le l ∧ NoDup l ∧ ∀ ob, ob ∈ l ↔ ob ≠ w ∧ ∃ d, object_def nm bd name d ∧ Object d = ob.

Lemma collectLosingObjects_losers nm bd dbn name w :
  scanBuilddirObjectDefs nm bd = Some dbn → losers nm bd name w (collectLosingObjects (candidates dbn name) w).
Proof.
  intros Hdbn. unfold losers, collectLosingObjects. destruct (losers_fold w (candidates dbn name)) as (Hnd & _ & Hin).
  split; [apply sort_strings_sorted|]. split; [by rewrite NoDup_sort_strings|].
  intros ob. rewrite elem_of_sort_strings, Hin, list_elem_of_fmap.
  setoid_rewrite (λ d, scanBuilddirObjectDefs_candidates _ _ _ name d Hdbn). naive_solver.
Qed.

(** ** Name lookup *)

Definition names_of (s : symbol_row) : list string := s_name s :: s_linkage_names s.

(** The entry a name ends up with: the first defined one, else the first. *)
Definition best (l : list entry) : option entry :=
  match List.find e_hasDef l with Some e => Some e | None => head l end.

Lemma find_snoc {A} (f : A → bool) l x :
  List.find f (l ++ [x]) =
    match List.find f l with Some y => Some y | None => if f x then Some x else None end.
Proof. induction l as [|y l IH]; cbn; [done|]. by destruct (f y). Qed.

Lemma best_snoc l e :
  best (l ++ [e]) = match best l with
                    | Some cur => Some (if negb (e_hasDef cur) && e_hasDef e then e else cur)
                    | None => Some e
                    end.
Proof.
  unfold best. rewrite find_snoc. destruct (List.find e_hasDef l) as [c|] eqn:E.
  - apply find_some in E as [_ ->]. done.
  - destruct l as [|c l]; cbn; [by destruct (e_hasDef e)|].
    cbn in E. destruct (e_hasDef c); [done|]. by destruct (e_hasDef e).
Qed.

(** The entries put under one name. *)
Definition puts (name : string) (l : list (string * entry)) : list entry :=
  snd <$> filter (λ p, p.1 = name) l.

Lemma put_fold l name :
  name ≠ "" → foldl (λ m p, put p.1 p.2 m) ∅ l !! name = best (puts name l).
Proof.
  intros Hne. apply (foldl_inv_pre (λ pre (m : gmap string entry), m !! name = best (puts name pre))).
  { by rewrite lookup_empty. }
  intros pre [n e] m _ IH. unfold puts in *. rewrite filter_app, fmap_app, filter_cons, filter_nil.
  cbn [fst snd]. destruct (decide (n = name)) as [->|Hn].
  - cbn [fmap list_fmap snd]. rewrite best_snoc, <-IH. unfold put. apply String.eqb_neq in Hne. rewrite Hne.
    destruct (m !! name) as [cur|] eqn:E.
    + destruct (negb (e_hasDef cur) && e_hasDef e); [by rewrite lookup_insert_eq|done].
    + by rewrite lookup_insert_eq.
  - cbn [fmap list_fmap]. rewrite app_nil_r, <-IH. unfold put.
    destruct (String.eqb n ""); [done|]. destruct (m !! n) as [cur|].
    + destruct (negb _ && _); [by rewrite lookup_insert_ne|done].
    + by rewrite lookup_insert_ne.
Qed.

Lemma put_fold_nil l : foldl (λ m p, put p.1 p.2 m) ∅ l !! "" = None.
Proof.
  apply (foldl_inv (λ m : gmap string entry, m !! "" = None)); [done|].
  intros m [n e] _ IH. unfold put. cbn [fst snd]. destruct (String.eqb_spec n ""); [done|].
  destruct (m !! n); [destruct (negb _ && _); [|done]|]; by rewrite lookup_insert_ne.
Qed.

Definition row_puts (defs : list def_row) (s : symbol_row) : list (string * entry) :=
  (λ n, (n, Entry (s_id s) (has_def defs (s_id s)))) <$> names_of s.

Lemma put_rows_fold syms defs :
  foldl (put_row defs) ∅ syms = foldl (λ m p, put p.1 p.2 m) ∅ (syms ≫= row_puts defs).
Proof.
  generalize (∅ : gmap string entry). induction syms as [|s syms IH]; intros m; [done|].
  cbn [foldl mbind list_bind]. rewrite foldl_app, <-IH. f_equal. unfold put_row, row_puts.
  change (s_name s :: s_linkage_names s) with (names_of s). generalize (names_of s). intros ns.
  revert m. clear. induction ns as [|n ns IHn]; intros m; [done|]. cbn [foldl fmap list_fmap fst snd].
  apply IHn.
Qed.

Lemma nameToID_Some syms defs name i :
  (buildSymbolLookup syms defs).1 !! name = Some i →
  name ≠ "" ∧ ∃ e, best (puts name (syms ≫= row_puts defs)) = Some e ∧ e_id e = i.
Proof.
  cbn. rewrite put_rows_fold, lookup_fmap, fmap_Some. intros (e & He & ->).
  destruct (decide (name = "")) as [->|Hn]; [by rewrite put_fold_nil in He|].
  rewrite put_fold in He by done. eauto.
Qed.

Lemma elem_of_puts e name syms defs :
  e ∈ puts name (syms ≫= row_puts defs) ↔
  ∃ s, s ∈ syms ∧ name ∈ names_of s ∧ e = Entry (s_id s) (has_def defs (s_id s)).
Proof.
  unfold puts. rewrite list_elem_of_fmap. split.
  - intros ([n e'] & -> & [Hn Hin]%list_elem_of_filter). cbn in *. subst.
    apply list_elem_of_bind in Hin as (s & Hin & Hs). apply list_elem_of_fmap in Hin as (n' & [= -> ->] & Hn').
    eauto.
  - intros (s & Hs & Hn & ->). eexists (name, _). split; [done|]. apply list_elem_of_filter. split; [done|].
    apply list_elem_of_bind. exists s. split; [|done]. apply list_elem_of_fmap. eauto.
Qed.

Lemma best_elem l e : best l = Some e → e ∈ l ∧ (e_hasDef e = false → ∀ x, x ∈ l → e_hasDef x = false).
Proof.
  unfold best. destruct (List.find e_hasDef l) as [c|] eqn:E.
  - intros [= ->]. apply find_some in E as [Hin Hd]. split; [by apply list_elem_of_In|]. congruence.
  - intros H. split; [by destruct l; [|injection H as ->; left]|]. intros _ x Hx.
    apply list_elem_of_In in Hx. by apply (find_none _ _ E).
Qed.

(** A name that is looked up gives a symbol that carries it, and never a
    declaration when some symbol carrying the name has a definition; every name but
    "" of every symbol is found. *)
Theorem lookup_prefers_definitions syms defs name :
  (∀ i, (buildSymbolLookup syms defs).1 !! name = Some i →
    (∃ s, s ∈ syms ∧ s_id s = i ∧ name ∈ names_of s) ∧
    (has_def defs i = false →
       ∀ s, s ∈ syms → name ∈ names_of s → has_def defs (s_id s) = false)) ∧
  (∀ s, s ∈ syms → name ∈ names_of s → name ≠ "" →
     is_Some ((buildSymbolLookup syms defs).1 !! name)).
Proof.
  split.
  - intros i (Hne & e & [Hin Hd]%best_elem & <-)%nameToID_Some.
    apply elem_of_puts in Hin as (s & Hs & Hn & ->). cbn in *. split; [eauto|].
    intros H s' Hs' Hn'. exact (Hd H _ (proj2 (elem_of_puts _ _ _ _) (ex_intro _ s' (conj Hs' (conj Hn' eq_refl))))).
  - intros s Hs Hn Hne. cbn. rewrite put_rows_fold, lookup_fmap, fmap_is_Some, put_fold by done.
    assert (puts name (syms ≫= row_puts defs) ≠ []) as Hp.
    { intros E. apply (not_elem_of_nil (Entry (s_id s) (has_def defs (s_id s)))). rewrite <-E.
      apply elem_of_puts. eauto. }
    unfold best. case_match; [by eexists|]. destruct (puts _ _); [done|by eexists].
Qed.

(** ** Same-named statics *)

(** Within one binary the local symbols of a name all resolve to the same row,
    whatever their addresses: functions of the same name in two units are not told
    apart by the address index. *)
Theorem statics_collapse mf defs o2s usrs names s1 s2 :
  Nm.Name s1 = Nm.Name s2 → Local s1 = true → Local s2 = true → IsFunction s1 = true → IsFunction s2 = true →
  resolveNMSymbol mf defs o2s usrs names s1 = resolveNMSymbol mf defs o2s usrs names s2.
Proof.
  intros En L1 L2 F1 F2. unfold resolveNMSymbol. rewrite L1, L2. cbn [negb].
  assert (∀ s, IsFunction s = true → bool_decide (Kind s ∈ ["d"; "b"; "r"]) = false) as Hk.
  { intros s H. unfold IsFunction in H. apply bool_decide_eq_true in H. apply bool_decide_eq_false.
    rewrite !elem_of_cons in *. intros Hd. destruct_or!; congruence || (by eapply not_elem_of_nil). }
  assert (∀ o, resolveStaticViaObject o2s usrs s1 o = resolveStaticViaObject o2s usrs s2 o) as Hr.
  { intros o. unfold resolveStaticViaObject. by rewrite !Hk, En. }
  rewrite En, Hr. destruct (resolveStaticViaObject _ _ s2 _); [done|].
  destruct (candidates defs (Nm.Name s2)) as [|c [|]]; [done| |done]. by rewrite Hr.
Qed.

(** ** The rows refer to rows *)

Lemma usrByID_Some syms defs i u :
  (buildSymbolLookup syms defs).2 !! i = Some u → ∃ s, s ∈ syms ∧ s_id s = i ∧ s_usr s = u.
Proof.
  cbn. apply (foldl_inv (λ m : gmap Z string, m !! i = Some u → ∃ s, s ∈ syms ∧ s_id s = i ∧ s_usr s = u)).
  { by rewrite lookup_empty. }
  intros m s Hs IH. rewrite lookup_insert_Some. intros [[<- <-]|[_ H]]; eauto.
Qed.

Lemma usrByID_dom syms defs i :
  i ∈ s_id <$> syms → is_Some ((buildSymbolLookup syms defs).2 !! i).
Proof.
  cbn. apply (foldl_inv_pre (λ pre (m : gmap Z string), i ∈ s_id <$> pre → is_Some (m !! i))).
  { set_solver. }
  intros pre s m _ IH. rewrite fmap_app, elem_of_app. cbn [fmap list_fmap].
  destruct (decide (s_id s = i)) as [->|Hne]; [by rewrite lookup_insert_eq|].
  rewrite lookup_insert_ne by done. intros [H|H]; [auto|set_solver].
Qed.

Lemma invert_Some m u i : invert m !! u = Some i → m !! i = Some u.
Proof.
  unfold invert. intros H%elem_of_list_to_map_2. apply list_elem_of_fmap in H as ([j v] & [= -> ->] & H).
  by apply elem_of_map_to_list in H.
Qed.

Section references.
Context (syms : list symbol_row) (defs : list def_row).
Let nameToID := (buildSymbolLookup syms defs).1.
Let usrByID := (buildSymbolLookup syms defs).2.

Lemma nameToID_id name i : nameToID !! name = Some i → i ∈ s_id <$> syms.
Proof.
  intros (_ & e & [Hin _]%best_elem & <-)%nameToID_Some. apply elem_of_puts in Hin as (s & Hs & _ & ->).
  by apply (list_elem_of_fmap_2 s_id).
Qed.

Lemma usr_id u i : invert usrByID !! u = Some i → i ∈ s_id <$> syms.
Proof.
  intros (s & Hs & <- & _)%invert_Some%usrByID_Some. by apply list_elem_of_fmap_2.
Qed.

Lemma resolveNMSymbol_id mf dbn o2s s i :
  resolveNMSymbol mf dbn o2s (invert usrByID) nameToID s = Some i → i ∈ s_id <$> syms.
Proof.
  assert (∀ o j, resolveStaticViaObject o2s (invert usrByID) s o = Some j → j ∈ s_id <$> syms) as Hr.
  { intros o j. unfold resolveStaticViaObject. case_match; [done|].
    destruct (o2s !! o) as [src|]; [|done]. apply usr_id. }
  unfold resolveNMSymbol. destruct (negb (Local s)); [apply nameToID_id|].
  destruct (resolveStaticViaObject _ _ s (mapObjectFor _ _)) eqn:E1; [intros [= <-]; eauto|].
  destruct (candidates dbn (Nm.Name s)) as [|c [|]]; [apply nameToID_id| |apply nameToID_id].
  destruct (resolveStaticViaObject _ _ s (Object c)) eqn:E2; [intros [= <-]; eauto|apply nameToID_id].
Qed.

Lemma addr_id mf dbn o2s l a i :
  buildAddrIndex mf dbn o2s (invert usrByID) nameToID l !! a = Some i → i ∈ s_id <$> syms.
Proof.
  unfold buildAddrIndex.
  apply (foldl_inv (λ m : gmap Z Z, m !! a = Some i → i ∈ s_id <$> syms)); [by rewrite lookup_empty|].
  intros m s _ IH. unfold index_addr. destruct (_ || _); [done|]. destruct (ParseUint 16 (Address s)) as [v [e|]]; [done|].
  destruct (resolveNMSymbol _ _ _ _ _ s) as [j|] eqn:E; [|done].
  rewrite lookup_insert_Some. intros [[_ <-]|[_ H]]; [by eapply resolveNMSymbol_id|auto].
Qed.

Lemma edge_ids_id mf dbn o2s l e k :
  edge_ids nameToID (buildAddrIndex mf dbn o2s (invert usrByID) nameToID l) e = Some k →
  k.1 ∈ s_id <$> syms ∧ k.2 ∈ s_id <$> syms.
Proof.
  unfold edge_ids. set (ix := buildAddrIndex _ _ _ _ _ _).
  assert (∀ a n i, match ix !! a with Some i => Some i | None => nameToID !! n end = Some i →
    i ∈ s_id <$> syms) as H.
  { intros a n i. destruct (ix !! a) eqn:E; [intros [= <-]; by eapply addr_id|apply nameToID_id]. }
  destruct (match ix !! Objdump.CallerAddr e with Some i => Some i | None => _ end) as [i|] eqn:E1; [|done].
  cbn. destruct (match ix !! Objdump.CalleeAddr e with Some i => Some i | None => _ end) as [j|] eqn:E2; [|done].
  intros [= <-]. split; by eapply H.
Qed.

Lemma resolution_row_ok mf dbn o2s tid s r :
  resolution_row mf dbn o2s (invert usrByID) nameToID tid usrByID s = Some r →
  lr_target r = tid ∧ lr_usr r ∈ s_usr <$> syms ∧ lr_winning_object r ∉ lr_losing_objects r.
Proof.
  unfold resolution_row. case_match; [done|]. destruct (resolveNMSymbol _ _ _ _ _ s) as [i|] eqn:E; [|done].
  intros [= <-]. cbn [lr_target lr_usr lr_winning_object lr_losing_objects]. split; [done|]. split.
  - apply resolveNMSymbol_id in E. apply (usrByID_dom syms defs) in E as [u Hu].
    subst usrByID. rewrite Hu. apply usrByID_Some in Hu as (s' & Hs & _ & <-). by apply (list_elem_of_fmap_2 s_usr).
  - unfold collectLosingObjects. rewrite elem_of_sort_strings, (proj2 (proj2 (losers_fold _ _))). tauto.
Qed.
End references.

Lemma dedup_edges_spec l : NoDup (dedup_edges l) ∧ ∀ k, k ∈ dedup_edges l ↔ k ∈ l.
Proof.
  enough (let st := foldl add_edge ([], ∅) l in
    NoDup st.1 ∧ (∀ k, k ∈ st.1 ↔ k ∈ st.2) ∧ ∀ k, k ∈ st.1 ↔ k ∈ l) as (H1 & _ & H2) by done.
  apply (foldl_inv_pre (λ pre st, NoDup st.1 ∧ (∀ k, k ∈ st.1 ↔ k ∈ st.2) ∧ ∀ k, k ∈ st.1 ↔ k ∈ pre)).
  { split; [constructor|]. split; set_solver. }
  intros pre k [out seen] _ (Hnd & Hs & Hin). unfold add_edge. cbn [fst snd] in *. case_bool_decide as Hk; cbn.
  - split; [done|]. split; [done|]. set_solver.
  - split; [|split; set_solver]. apply NoDup_app. split; [done|]. split; [set_solver|apply NoDup_singleton].
Qed.

(** What holds of the rows after the targets of [l]. *)
Record linked (syms : list symbol_row) (ids : gmap string Z) (l : list Meson.Target) (tb : link_tables) :
    Prop := {
  lk_nodup : NoDup (lt_edges tb);
  lk_edges : ∀ e, e ∈ lt_edges tb → e_caller e ∈ s_id <$> syms ∧ e_callee e ∈ s_id <$> syms ∧
    e_source e = "objdump" ∧ ∃ t i, t ∈ l ∧ ids !! Meson.Name t = Some i ∧ e_target e = Some i;
  lk_rows : ∀ r, r ∈ lt_resolutions tb → lr_usr r ∈ s_usr <$> syms ∧
    (lr_winning_object r ∉ lr_losing_objects r) ∧
    ∃ t, t ∈ l ∧ ids !! Meson.Name t = Some (lr_target r);
}.

Lemma link_target_ok env syms defs o2s maps dbn ids l t tb tb' :
  (∀ u i, u ∈ l → ids !! Meson.Name u = Some i → ids !! Meson.Name t ≠ Some i) →
  linked syms ids l tb →
  link_target env ids o2s maps dbn (buildSymbolLookup syms defs).2 (buildSymbolLookup syms defs).1 tb t = Ok tb' →
  linked syms ids (l ++ [t]) tb'.
Proof.
  intros Hids [Hnd He Hr]. assert (linked syms ids (l ++ [t]) tb) as Hskip.
  { split; [done| |].
    - intros e Hin. destruct (He e Hin) as (? & ? & ? & u & i & Hu & ?). do 3 (split; [done|]).
      exists u, i. split; [set_solver|done].
    - intros r Hin. destruct (Hr r Hin) as (? & ? & u & Hu & ?). do 2 (split; [done|]).
      exists u. split; [set_solver|done]. }
  unfold link_target. destruct (negb _); [by intros [= <-]|].
  destruct (Meson.Filenames t) as [|b bs]; [by intros [= <-]|].
  destruct (ids !! Meson.Name t) as [tid|] eqn:Et; [|by intros [= <-]].
  unfold link_binary. destruct (RunNMDefined _ b) as [nms|]; [|done]. cbn [mbind result_bind].
  destruct (read_map env _) as [mf|]; [|done]. destruct (run_objdump env b) as [edges|]; [|done].
  intros [= <-]. destruct (dedup_edges_spec (omap (edge_ids (buildSymbolLookup syms defs).1
    (buildAddrIndex mf dbn o2s (invert (buildSymbolLookup syms defs).2) (buildSymbolLookup syms defs).1 nms)) edges))
    as [Hdn Hdi].
  set (pairs := dedup_edges _) in *. destruct Hskip as [_ He' Hr']. split; cbn [lt_edges lt_resolutions].
  - apply NoDup_app. split; [done|]. split.
    + intros e Hin. destruct (He e Hin) as (_ & _ & _ & u & i & Hu & Hi & Hei).
      rewrite list_elem_of_fmap. intros (k & -> & _). cbn in Hei. injection Hei as ->. by apply (Hids u i Hu Hi).
    + apply NoDup_fmap_2; [|done]. intros [] [] [=]. by subst.
  - intros e [Hin|Hin]%elem_of_app; [by apply He'|]. apply list_elem_of_fmap in Hin as (k & -> & Hk).
    apply Hdi, list_elem_of_omap in Hk as (oe & _ & Hk). apply edge_ids_id in Hk as [H1 H2]. cbn.
    do 3 (split; [done|]). exists t, tid. split; [set_solver|done].
  - intros r [Hin|Hin]%elem_of_app; [by apply Hr'|]. apply list_elem_of_omap in Hin as (s & _ & Hs).
    apply resolution_row_ok in Hs as (<- & H1 & H2). do 2 (split; [done|]). exists t. split; [set_solver|done].
Qed.

(** *** Where the rows come from *)

(** The linked binary of a target, if it is of a kind that has one. *)
Definition binary_of (t : Meson.Target) : option string :=
  if bool_decide (Meson.Kind t ∈ ["executable"; "shared_library"]) then head (Meson.Filenames t) else None.

(** What the tools say of a target's binary. *)
Record reading (env : link_env) (maps : gmap string string) (t : Meson.Target) (nms : list NMSymbol)
    (mf : option MapFile.MapFile) (calls : list Objdump.ObjdumpEdge) : Prop := {
  rd_binary : ∃ binary, binary_of t = Some binary ∧ RunNMDefined (env_nm env) binary = Some nms ∧
    run_objdump env binary = Ok calls;
  rd_map : read_map env (default "" (maps !! Meson.Name t)) = Ok mf;
}.

Section origin.
Context (env : link_env) (ids : gmap string Z) (o2s : gmap string string) (maps : gmap string string).
Context (dbn : defs_index) (usrByID : gmap Z string) (nameToID : gmap string Z).

(** The rows a target contributes. *)
Definition linked_call (t : Meson.Target) (k : Z * Z) : Prop :=
  ∃ nms mf calls c, reading env maps t nms mf calls ∧ c ∈ calls ∧
    edge_ids nameToID (buildAddrIndex mf dbn o2s (invert usrByID) nameToID nms) c = Some k.

Definition linked_symbol (t : Meson.Target) (tid : Z) (r : link_resolution_row) : Prop :=
  ∃ nms mf calls s, reading env maps t nms mf calls ∧ s ∈ nms ∧
    resolution_row mf dbn o2s (invert usrByID) nameToID tid usrByID s = Some r.

Lemma link_target_rows t tb tb' :
  link_target env ids o2s maps dbn usrByID nameToID tb t = Ok tb' →
  (∀ e, e ∈ lt_edges tb' ↔ e ∈ lt_edges tb ∨
     ∃ tid k, ids !! Meson.Name t = Some tid ∧ linked_call t k ∧ e = EdgeRow k.1 k.2 "objdump" (Some tid)) ∧
  (∀ r, r ∈ lt_resolutions tb' ↔ r ∈ lt_resolutions tb ∨
     ∃ tid, ids !! Meson.Name t = Some tid ∧ linked_symbol t tid r).
Proof.
  assert (ids !! Meson.Name t = None ∨ binary_of t = None →
    (∀ e, e ∈ lt_edges tb ↔ e ∈ lt_edges tb ∨ ∃ tid k, ids !! Meson.Name t = Some tid ∧ linked_call t k ∧
       e = EdgeRow k.1 k.2 "objdump" (Some tid)) ∧
    (∀ r, r ∈ lt_resolutions tb ↔ r ∈ lt_resolutions tb ∨ ∃ tid, ids !! Meson.Name t = Some tid ∧ linked_symbol t tid r)) as Hno.
  { intros Hn. assert (∀ tid nms mf calls, ids !! Meson.Name t = Some tid → ¬ reading env maps t nms mf calls) as Hr.
    { intros tid nms mf calls Ht [(b & Hb & _) _]. destruct Hn; congruence. }
    split; (split; [by left|]); (intros [|H]; [done|]); exfalso.
    - destruct H as (tid & k & Ht & (nms & mf & calls & c & Hrd & _) & _). by eapply Hr.
    - destruct H as (tid & Ht & nms & mf & calls & s & Hrd & _). by eapply Hr. }
  unfold link_target. unfold binary_of in Hno |- *. case_bool_decide as Hk; cbn [negb]; [|intros [= <-]; apply Hno; by right].
  destruct (Meson.Filenames t) as [|b bs] eqn:Ef; [intros [= <-]; apply Hno; by right|].
  destruct (ids !! Meson.Name t) as [tid|] eqn:Et; [|intros [= <-]; apply Hno; by left]. clear Hno.
  assert (binary_of t = Some b) as Hb by (unfold binary_of; by rewrite bool_decide_true, Ef).
  unfold link_binary. destruct (RunNMDefined _ b) as [nms|] eqn:En; [|done]. cbn [mbind result_bind].
  destruct (read_map env _) as [mf|] eqn:Em; [|done]. destruct (run_objdump env b) as [calls|] eqn:Eo; [|done].
  intros [= <-]. cbn [lt_edges lt_resolutions].
  assert (reading env maps t nms mf calls) as Hrd by (split; [by exists b|done]).
  assert (∀ nms' mf' calls', reading env maps t nms' mf' calls' → nms' = nms ∧ mf' = mf ∧ calls' = calls) as Huniq.
  { intros nms' mf' calls' [(b' & Hb' & Hn' & Ho') Hm']. split_and!; congruence. }
  split.
  - intros e. rewrite elem_of_app, list_elem_of_fmap. apply or_iff_compat_l. split.
    + intros (k & -> & Hin). apply (proj1 (proj2 (dedup_edges_spec _) _)), list_elem_of_omap in Hin as (c & Hc & Hk'). exists tid, k.
      split; [done|]. split; [by exists nms, mf, calls, c|done].
    + intros (tid' & k & [= <-] & (nms' & mf' & calls' & c & (-> & -> & ->)%Huniq & Hc & Hk') & ->). exists k. split; [done|].
      apply (proj2 (proj2 (dedup_edges_spec _) _)), list_elem_of_omap. by exists c.
  - intros r. rewrite elem_of_app, list_elem_of_omap. apply or_iff_compat_l. split.
    + intros (s & Hs & Hr). exists tid. split; [done|]. by exists nms, mf, calls, s.
    + intros (tid' & [= <-] & nms' & mf' & calls' & s & (-> & -> & ->)%Huniq & Hs & Hr). by exists s.
Qed.

Lemma link_targets_rows l tb0 tb :
  foldM (link_target env ids o2s maps dbn usrByID nameToID) l tb0 = Ok tb →
  (∀ e, e ∈ lt_edges tb ↔ e ∈ lt_edges tb0 ∨ ∃ t tid k, t ∈ l ∧ ids !! Meson.Name t = Some tid ∧ linked_call t k ∧
     e = EdgeRow k.1 k.2 "objdump" (Some tid)) ∧
  (∀ r, r ∈ lt_resolutions tb ↔ r ∈ lt_resolutions tb0 ∨ ∃ t tid, t ∈ l ∧ ids !! Meson.Name t = Some tid ∧ linked_symbol t tid r).
Proof.
  revert tb0; induction l as [|t l IH]; intros tb0; cbn [foldM].
  { intros [= <-]. split; intros x; (split; [by left|]); (intros [|H]; [done|]).
    - destruct H as (? & ? & ? & []%elem_of_nil & _).
    - destruct H as (? & ? & []%elem_of_nil & _). }
  destruct (link_target _ _ _ _ _ _ _ tb0 t) as [tb1|] eqn:E; [|done]. intros [He Hr]%IH.
  apply link_target_rows in E as [He1 Hr1]. split.
  - intros e. rewrite He, He1. rewrite Logic.or_assoc. apply or_iff_compat_l. split.
    + intros [(tid & k & H)|(u & tid & k & Hu & H)]; [exists t, tid, k|exists u, tid, k]; (split; [|exact H]); [left|by right].
    + intros (u & tid & k & [->|Hu]%elem_of_cons & H); [left; by exists tid, k|right; by exists u, tid, k].
  - intros r. rewrite Hr, Hr1. rewrite Logic.or_assoc. apply or_iff_compat_l. split.
    + intros [(tid & H)|(u & tid & Hu & H)]; [exists t, tid|exists u, tid]; (split; [|exact H]); [left|by right].
    + intros (u & tid & [->|Hu]%elem_of_cons & H); [left; by exists tid|right; by exists u, tid].
Qed.
End origin.

(** The whole pass, with the tables it looks symbols up in. *)
Lemma Link_rows_origin env syms defs bd intro ids o2s tb :
  Link env syms defs bd intro ids o2s = Ok tb →
  ∃ dbn, scanBuilddirObjectDefs (env_nm env) bd = Some dbn ∧
    (∀ e, e ∈ lt_edges tb ↔ ∃ t tid k, t ∈ Meson.IntroTargets intro ∧ ids !! Meson.Name t = Some tid ∧
       linked_call env o2s (indexMapFiles bd) dbn (buildSymbolLookup syms defs).2 (buildSymbolLookup syms defs).1 t k ∧
       e = EdgeRow k.1 k.2 "objdump" (Some tid)) ∧
    (∀ r, r ∈ lt_resolutions tb ↔ ∃ t tid, t ∈ Meson.IntroTargets intro ∧ ids !! Meson.Name t = Some tid ∧
       linked_symbol env o2s (indexMapFiles bd) dbn (buildSymbolLookup syms defs).2 (buildSymbolLookup syms defs).1 t tid r).
Proof.
  unfold Link. rewrite (surjective_pairing (buildSymbolLookup syms defs)).
  destruct (scanBuilddirObjectDefs _ bd) as [dbn|]; [|done]. cbn [mbind result_bind]. intros [He Hr]%link_targets_rows.
  exists dbn. split; [done|]. cbn [lt_edges lt_resolutions] in He, Hr. split.
  - intros e. rewrite He. setoid_rewrite (sort_by_perm Meson.Name). split; [intros [[]%elem_of_nil|H]; exact H|by right].
  - intros r. rewrite Hr. setoid_rewrite (sort_by_perm Meson.Name). split; [intros [[]%elem_of_nil|H]; exact H|by right].
Qed.

Lemma Link_linked env syms defs bd pr intro tbl o2s tb :
  Targets pr intro = Ok tbl →
  Link env syms defs bd intro (tt_ids tbl) o2s = Ok tb →
  linked syms (tt_ids tbl) (sort_by Meson.Name (IntroTargets intro)) tb.
Proof.
  intros Ht. pose proof (Targets_cases pr intro) as Hc. rewrite Ht in Hc. destruct Hc as [Hnd Hok].
  unfold Link. rewrite (surjective_pairing (buildSymbolLookup syms defs)).
  destruct (scanBuilddirObjectDefs _ bd) as [dbn|]; [|done]. cbn [mbind result_bind].
  apply (foldM_inv_pre (linked syms (tt_ids tbl))).
  - split; cbn; [constructor|set_solver..].
  - intros pre t post s s' Hl Hs. apply link_target_ok; [|done]. intros u i Hu Hi Hi'.
    pose proof (targets_ids_inj pr _ _ _ _ _ Hok Hi Hi') as E.
    rewrite <-(sort_by_perm Meson.Name), Hl, fmap_app, fmap_cons in Hnd. apply NoDup_app in Hnd as (_ & Hd & _).
    apply (Hd (Meson.Name u)); [by apply list_elem_of_fmap_2|]. rewrite E. left.
Qed.

(** C20: With the target ids of the targets pass, the pass writes no objdump edge twice;
    its edges join rows of the symbols table, its resolutions name identities of that
    table, every row belongs to a target, and no winner is among its own losers. *)
Theorem Link_rows env syms defs bd pr intro tbl o2s tb :
  Targets pr intro = Ok tbl →
  Link env syms defs bd intro (tt_ids tbl) o2s = Ok tb →
  linked syms (tt_ids tbl) (sort_by Meson.Name (IntroTargets intro)) tb.
Proof. apply Link_linked. Qed.

(** One executable in which [main] calls [helper]. *)
Definition ex_target : Meson.Target :=
  Meson.MkTarget "prog" "prog@exe" "executable" "" ["/b/prog"] [] [] None None [] false "".
Definition ex_intro : Meson.Introspection :=
  Meson.MkIntrospection "1.3" "/p" "/b" [ex_target] (Meson.MkCompilerInfo "gcc" "13" "13.2" [] "ld") [].
Definition ex_symbols : list symbol_row :=
  [SymbolRow 1 "c:@F@main" "main" "function" "external" "" false ["main"];
   SymbolRow 2 "c:@F@helper" "helper" "function" "external" "" false ["helper"]].
Definition ex_env : link_env :=
  LinkEnv (λ _, Some (unlines ["main T 1040 10"; "helper T 1050 8"]))
    (λ _, Some (unlines ["0000000000001040 <main>:"; "    1044:" +:+ str1 "009" +:+ "call   1050 <helper>"]))
    (λ _, None).

Lemma Link_rows_witness :
  ∃ tbl tb, Targets (Resolver.MkPathResolver "/b" "/p") ex_intro = Ok tbl ∧
    Link ex_env ex_symbols [] (Paths.BuildDir.MkBuildDir "/b" [] []) ex_intro (tt_ids tbl) ∅ = Ok tb ∧
    lt_edges tb = [EdgeRow 1 2 "objdump" (Some 1%Z)] ∧ NoDup (lt_edges tb).
Proof.
  do 2 eexists. split; [vm_compute; reflexivity|]. split; [vm_compute; reflexivity|].
  split; [reflexivity|].
  apply (Link_rows ex_env ex_symbols [] (Paths.BuildDir.MkBuildDir "/b" [] []) (Resolver.MkPathResolver "/b" "/p")
           ex_intro (from_ok (TargetsTables [] [] ∅) (Targets (Resolver.MkPathResolver "/b" "/p") ex_intro)) ∅);
    vm_compute; reflexivity.
Defined.
