(* ===== verification/Sources.v ===== *)
(** * Packing the sources ([internal/ingest/sources.go])

    Two passes collect what to store — Meson's target sources, then the headers
    of ninja's deps log — and the write phase puts the contents in the blob
    store, all in one transaction.  [read] and [mtime] are [os.ReadFile] and
    [os.Stat]. *)

From S2P Require Import Prelude GoStrings Paths NinjaDeps Store Meson.
From Stdlib Require Import ZArith Lia.

Import Resolver ExternalGlob BlobStore.

(** ** Data *)

Record SourcesSummary := MkSourcesSummary {
  Files : Z;
  Blobs : Z;
  Duplicates : Z;
  GeneratedCount : Z;
  ExternalFiles : Z;
  ExternalBlobs : Z;
  GeneratedFiles : Z;
  GeneratedBlobs : Z;
}.

Record entry := MkEntry {
  absPath : string;
  isGenerated : bool;
  consumers : list string;
  required : bool;
}.

(** What the two passes collect: [entries] by project-relative path,
    [externalEntries] by absolute path, [generatedEntries] by builddir-relative
    path, and the hits of each pattern. *)
Record pack := Pack {
  entries : gmap string entry;
  externalEntries : gset string;
  generatedEntries : gmap string string;
  globHits : gmap string nat;
}.

Inductive read_result := Content (s : string) | NotExist | ReadFailure.

Inductive sources_error :=
| ErrSourceOutside (target source : string)
| ErrGeneratedOutside (target source : string)
| ErrNinja
| ErrMissing (relPath : string)
| ErrRead (path : string)
| ErrStrictStat (path : string)
| ErrStrict (src obj : string)
| ErrZeroGlobs (patterns : list string)
| ErrCommit.

(** ** Collecting *)

Definition mark (relPath abs : string) (isGen req : bool) (consumer : string) (p : pack) : pack :=
  let e := default (MkEntry abs false [] false) (entries p !! relPath) in
  Pack (<[relPath := MkEntry (absPath e) (isGenerated e || isGen)
            (if String.eqb consumer "" then consumers e else consumers e ++ [consumer])
            (required e || req)]> (entries p))
    (externalEntries p) (generatedEntries p) (globHits p).

Definition markGenerated (root abs : string) (p : pack) : pack :=
  match Rel root abs with
  | None => p
  | Some rel =>
    if HasPrefix rel ".." then p
    else match generatedEntries p !! rel with
    | Some _ => p
    | None => Pack (entries p) (externalEntries p) (<[rel := abs]> (generatedEntries p)) (globHits p)
    end
  end.

Definition isUnderBuildDir (abs bdRoot : string) : bool :=
  match Rel bdRoot abs with
  | None => false
  | Some rel => negb (HasPrefix rel "..") && negb (String.eqb rel ".")
  end.

Section collect.
Context (cwd root : string) (pr : PathResolver) (globs : list ExternalGlob).

Definition project_file (rel : string) : string := PathJoin [ProjectRoot pr; rel].

Definition pack_source (target : string) (p : pack) (abs : string) : result sources_error pack :=
  let r := ToProjectRelative pr abs in
  if negb (InProject r) then Err (ErrSourceOutside target abs)
  else Ok (mark (RelPath r) (project_file (RelPath r)) false true "" p).

Definition pack_generated (target : string) (p : pack) (abs : string) : result sources_error pack :=
  let r := ToProjectRelative pr abs in
  if InProject r then Ok (mark (RelPath r) (project_file (RelPath r)) true true "" p)
  else
    let absNative := Abs cwd abs in
    if negb (isUnderBuildDir absNative root) then Err (ErrGeneratedOutside target abs)
    else Ok (markGenerated root absNative p).

(** Pass 1, one target. *)
Definition pack_target (p : pack) (t : Meson.Target) : result sources_error pack :=
  p ← foldM (pack_source (Meson.Name t)) (Meson.Sources t) p;
  foldM (pack_generated (Meson.Name t)) (Meson.Generated t) p.

Definition hit_external (abs : string) (p : pack) : pack :=
  match List.find (λ g, GlobMatch g abs) globs with
  | None => p
  | Some g =>
    Pack (entries p) ({[abs]} ∪ externalEntries p) (generatedEntries p)
      (<[ExternalGlob.raw g := S (default 0 (globHits p !! ExternalGlob.raw g))]> (globHits p))
  end.

(** Pass 2, one dependency of the object [obj]. *)
Definition pack_dep (obj : string) (p : pack) (dep : string) : pack :=
  let r := ToProjectRelative pr dep in
  if negb (InProject r) then
    let abs := Clean (if IsAbs dep then dep else PathJoin [root; dep]) in
    if isUnderBuildDir abs root then markGenerated root abs p else hit_external abs p
  else
    let abs := project_file (RelPath r) in
    mark (RelPath r) abs (isUnderBuildDir abs root) false obj p.

Definition pack_object (log : Log) (p : pack) (obj : string) : pack :=
  match Rel root obj with
  | None => p
  | Some rel => foldl (pack_dep obj) p (default [] (DepsFor log rel))
  end.

Definition empty_pack : pack :=
  Pack ∅ ∅ ∅ (foldl (λ m g, <[ExternalGlob.raw g := 0]> m) ∅ globs).

Definition collect (targets : list Meson.Target) (objects : list string)
    (fs : string → option string) : result sources_error pack :=
  p ← foldM pack_target targets empty_pack;
  match ReadForBuildDir fs root with
  | (_, Some _) => Err ErrNinja
  | (None, None) => Ok p
  | (Some log, None) => Ok (foldl (pack_object log) p objects)
  end.
End collect.

(** ** Writing *)

Section write.
Context (sha256 zstd : string → string).
Context (read : string → read_result) (mtime : string → option Z) (Strict : bool).

(** The first consumer older than the source. *)
Definition checkStrictMtime (src : string) (objs : list string) : option sources_error :=
  match objs with
  | [] => None
  | _ =>
    match mtime src with
    | None => Some (ErrStrictStat src)
    | Some m =>
      match List.find (λ o, match mtime o with Some n => (n <? m)%Z | None => false end) objs with
      | Some o => Some (ErrStrict src o)
      | None => None
      end
    end
  end.

Abbreviation wstate := (tables * SourcesSummary)%type.

Definition bump (dedup : bool) (n : Z) : Z := if dedup then n else (n + 1)%Z.

Definition write_entry (es : gmap string entry) (st : wstate) (k : string) :
    result sources_error wstate :=
  match es !! k with
  | None => Ok st
  | Some e =>
    match read (absPath e) with
    | NotExist => if required e then Err (ErrMissing k) else Ok st
    | ReadFailure => Err (ErrRead (absPath e))
    | Content c =>
      match (if Strict then checkStrictMtime (absPath e) (consumers e) else None) with
      | Some err => Err err
      | None =>
        let '(w, res) := Put sha256 zstd st.1 k c (isGenerated e) in
        let s := st.2 in
        Ok (w, MkSourcesSummary (Files s + 1) (bump (Deduplicated res) (Blobs s))
                 (bump (negb (Deduplicated res)) (Duplicates s))
                 (bump (negb (isGenerated e)) (GeneratedCount s)) (ExternalFiles s)
                 (ExternalBlobs s) (GeneratedFiles s) (GeneratedBlobs s))
      end
    end
  end.

Definition write_generated (gs : gmap string string) (st : wstate) (k : string) :
    result sources_error wstate :=
  match gs !! k with
  | None => Ok st
  | Some abs =>
    match read abs with
    | NotExist => Ok st
    | ReadFailure => Err (ErrRead abs)
    | Content c =>
      let '(w, res) := PutGenerated sha256 zstd st.1 k c in
      let s := st.2 in
      Ok (w, MkSourcesSummary (Files s) (bump (Deduplicated res) (Blobs s))
               (bump (negb (Deduplicated res)) (Duplicates s)) (GeneratedCount s)
               (ExternalFiles s) (ExternalBlobs s) (GeneratedFiles s + 1)
               (bump (Deduplicated res) (GeneratedBlobs s)))
    end
  end.

Definition write_external (st : wstate) (abs : string) : result sources_error wstate :=
  match read abs with
  | NotExist => Ok st
  | ReadFailure => Err (ErrRead abs)
  | Content c =>
    let '(w, res) := PutExternal sha256 zstd st.1 abs c in
    let s := st.2 in
    Ok (w, MkSourcesSummary (Files s) (bump (Deduplicated res) (Blobs s))
             (bump (negb (Deduplicated res)) (Duplicates s)) (GeneratedCount s)
             (ExternalFiles s + 1) (bump (Deduplicated res) (ExternalBlobs s))
             (GeneratedFiles s) (GeneratedBlobs s))
  end.

(** The patterns that matched nothing, sorted. *)
Definition zero_globs (hits : gmap string nat) : list string :=
  filter (λ g, hits !! g = Some 0) (sorted_keys hits).

Definition write_all (p : pack) (w : tables) : result sources_error wstate :=
  st ← foldM (write_entry (entries p)) (sorted_keys (entries p))
         (w, MkSourcesSummary 0 0 0 0 0 0 0 0);
  st ← foldM (write_generated (generatedEntries p)) (sorted_keys (generatedEntries p)) st;
  st ← foldM write_external (sort_strings (elements (externalEntries p))) st;
  match zero_globs (globHits p) with
  | [] => Ok st
  | zero => Err (ErrZeroGlobs zero)
  end.
End write.

(** [Sources]: the tables after, and what is returned.  On an error the deferred
    [Rollback] leaves the tables of before. *)
Definition Sources (sha256 zstd : string → string) (read : string → read_result)
    (mtime : string → option Z) (Strict : bool) (fs : string → option string) (cwd : string)
    (globs : list ExternalGlob) (pr : PathResolver) (bd : Paths.BuildDir.BuildDir) (intro : Introspection)
    (db : tables) : tables * result sources_error (SourcesSummary * gmap string nat) :=
  match collect cwd (Paths.BuildDir.Root bd) pr globs (IntroTargets intro)
          (Paths.BuildDir.Object <$> Paths.BuildDir.Objects bd) fs with
  | Err e => (db, Err e)
  | Ok p =>
    match write_all sha256 zstd read mtime Strict p db with
    | Err e => ((Rollback (Some db) db).1, Err e)
    | Ok (w, sum) =>
      match (Commit (Some w) db).1 with
      | Ok w => (w, Ok (sum, globHits p))
      | Err _ => ((Rollback None db).1, Err ErrCommit)
      end
    end
  end.

(** ** What the passes collect *)

Section collected.
Context (cwd root : string) (pr : PathResolver) (globs : list ExternalGlob).

(** Every entry is stored from its place under the project root, every external
    entry matches a pattern and lies outside, and every hit is an external
    entry. *)
Record pack_ok (p : pack) : Prop := {
  pk_paths : ∀ k e, entries p !! k = Some e → absPath e = project_file pr k;
  pk_external : ∀ a, a ∈ externalEntries p →
    isUnderBuildDir a root = false ∧ MatchesAnyExternalGlob a globs = true;
  pk_hits : ∀ g n, globHits p !! g = Some (S n) → ∃ a gl, a ∈ externalEntries p ∧
    ExternalGlob.raw gl = g ∧ List.find (λ g, GlobMatch g a) globs = Some gl;
  pk_globs : ∀ gl, gl ∈ globs → is_Some (globHits p !! ExternalGlob.raw gl);
  pk_generated : ∀ k a, generatedEntries p !! k = Some a → Rel root a = Some k ∧ HasPrefix k ".." = false;
}.

(** Flags once set stay set and nothing is forgotten. *)
Definition entry_le (e e' : entry) : Prop :=
  (isGenerated e = true → isGenerated e' = true) ∧ (required e = true → required e' = true) ∧
  consumers e ⊆ consumers e'.
Definition grows (p p' : pack) : Prop :=
  ∀ k e, entries p !! k = Some e → ∃ e', entries p' !! k = Some e' ∧ entry_le e e'.

#[export] Instance grows_preorder : PreOrder grows.
Proof.
  split.
  - intros p k e H. exists e. by repeat split.
  - intros p1 p2 p3 H1 H2 k e He. destruct (H1 k e He) as (e2 & He2 & L1).
    destruct (H2 k e2 He2) as (e3 & He3 & L2). exists e3. split; [done|].
    destruct L1 as (?&?&?), L2 as (?&?&?). repeat split; auto. by etrans.
Qed.

Lemma grows_same p p' : entries p' = entries p → grows p p'.
Proof. intros E k e H. exists e. rewrite E. by repeat split. Qed.

Lemma mark_lookup rel abs g r o p :
  entries (mark rel abs g r o p) !! rel =
    Some (let e := default (MkEntry abs false [] false) (entries p !! rel) in
          MkEntry (absPath e) (isGenerated e || g)
            (if String.eqb o "" then consumers e else consumers e ++ [o]) (required e || r)).
Proof. cbn. by rewrite lookup_insert_eq. Qed.

Lemma mark_grows rel abs g r o p : grows p (mark rel abs g r o p).
Proof.
  intros k e He. destruct (decide (k = rel)) as [->|Hne].
  - rewrite mark_lookup, He. eexists. split; [done|]. cbn. split; [|split]; cbn.
    + by intros ->.
    + by intros ->.
    + destruct (String.eqb o ""); set_solver.
  - cbn. rewrite lookup_insert_ne by done. exists e. by repeat split.
Qed.

Lemma mark_ok rel g r o p : pack_ok p → pack_ok (mark rel (project_file pr rel) g r o p).
Proof.
  intros [Hp He Hh Hg Hgen]. split; [|done..]. intros k e. cbn. rewrite lookup_insert_Some.
  intros [[<- <-]|[_ H]]; [|by apply Hp]. cbn. destruct (entries p !! rel) eqn:E; cbn; [by apply Hp|done].
Qed.

Lemma markGenerated_ok abs p : pack_ok p → pack_ok (markGenerated root abs p) ∧ grows p (markGenerated root abs p).
Proof.
  intros Hp. unfold markGenerated. destruct (Rel root abs) as [rel|] eqn:Er; [|by split].
  destruct (HasPrefix rel "..") eqn:Eh; [by split|]. destruct (generatedEntries p !! rel) eqn:Eg; [by split|].
  split; [|by apply grows_same]. destruct Hp as [Hp He Hh Hg Hgen]. split; [done..|].
  intros k a. cbn. rewrite lookup_insert_Some. intros [[<- <-]|[_ H]]; [done|by apply Hgen].
Qed.

Lemma hit_external_ok abs p :
  pack_ok p → isUnderBuildDir abs root = false →
  pack_ok (hit_external globs abs p) ∧ grows p (hit_external globs abs p).
Proof.
  intros [Hp He Hh Hg Hgen] Hb. unfold hit_external. destruct (List.find _ globs) as [g|] eqn:E; [|by split].
  pose proof (find_some _ _ E) as [Hin%list_elem_of_In Hm]. split; [|by apply grows_same]. split; cbn.
  - done.
  - intros a [->%elem_of_singleton|Ha]%elem_of_union; [|by apply He]. split; [done|].
    unfold MatchesAnyExternalGlob. apply existsb_exists. exists g. by rewrite <-list_elem_of_In.
  - intros g' n. rewrite lookup_insert_Some. intros [[<- _]|[_ H]].
    + exists abs, g. set_solver.
    + destruct (Hh g' n H) as (a & gl & ? & ? & ?). exists a, gl. set_solver.
  - intros gl Hgl. destruct (decide (ExternalGlob.raw g = ExternalGlob.raw gl)) as [->|];
      [by rewrite lookup_insert_eq|rewrite lookup_insert_ne by done; by apply Hg].
  - done.
Qed.

Lemma pack_dep_ok obj p dep :
  pack_ok p → pack_ok (pack_dep root pr globs obj p dep) ∧ grows p (pack_dep root pr globs obj p dep).
Proof.
  intros Hp. unfold pack_dep. destruct (negb _).
  - destruct (isUnderBuildDir _ root) eqn:E; [by apply markGenerated_ok|by apply hit_external_ok].
  - split; [by apply mark_ok|apply mark_grows].
Qed.

Lemma pack_object_ok log p obj :
  pack_ok p → pack_ok (pack_object root pr globs log p obj) ∧ grows p (pack_object root pr globs log p obj).
Proof.
  intros Hp. unfold pack_object. destruct (Rel root obj); [|by split].
  apply (foldl_inv (λ q, pack_ok q ∧ grows p q)); [by split|].
  intros q dep _ [Hq Hg]. destruct (pack_dep_ok obj q dep Hq). split; [done|]. by etrans.
Qed.

Lemma pack_source_ok name p abs p' :
  pack_ok p → pack_source pr name p abs = Ok p' →
  pack_ok p' ∧ grows p p' ∧ InProject (ToProjectRelative pr abs) = true ∧
  ∃ e, entries p' !! RelPath (ToProjectRelative pr abs) = Some e ∧ required e = true.
Proof.
  unfold pack_source. intros Hp. destruct (InProject _); [|done]. intros [= <-].
  split; [by apply mark_ok|]. split; [apply mark_grows|]. split; [done|].
  eexists. rewrite mark_lookup. split; [done|]. cbn. by rewrite orb_true_r.
Qed.

Lemma pack_generated_ok name p abs p' :
  pack_ok p → pack_generated cwd root pr name p abs = Ok p' → pack_ok p' ∧ grows p p'.
Proof.
  unfold pack_generated. intros Hp. destruct (InProject _).
  - intros [= <-]. split; [by apply mark_ok|apply mark_grows].
  - case_match; [done|]. intros [= <-]. by apply markGenerated_ok.
Qed.

(** Whether [p] has a required entry for the source [abs]. *)
Definition packed (abs : string) (p : pack) : Prop :=
  InProject (ToProjectRelative pr abs) = true ∧
  ∃ e, entries p !! RelPath (ToProjectRelative pr abs) = Some e ∧ required e = true.

Lemma packed_grows abs p p' : packed abs p → grows p p' → packed abs p'.
Proof.
  intros [Hin (e & He & Hr)] Hg. destruct (Hg _ _ He) as (e' & He' & _ & Hr' & _). split; [done|]. eauto.
Qed.

Lemma pack_target_ok p t p' :
  pack_ok p → pack_target cwd root pr p t = Ok p' →
  pack_ok p' ∧ grows p p' ∧ ∀ abs, abs ∈ Meson.Sources t → packed abs p'.
Proof.
  intros Hp. unfold pack_target. destruct (foldM _ (Meson.Sources t) p) as [q|] eqn:E; [|done]. cbn.
  assert (pack_ok q ∧ grows p q ∧ ∀ abs, abs ∈ Meson.Sources t → packed abs q) as (Hq & Hg & Hall).
  { revert E. apply (foldM_inv_pre (λ pre q, pack_ok q ∧ grows p q ∧ ∀ abs, abs ∈ pre → packed abs q)).
    { split; [done|]. split; [done|set_solver]. }
    intros pre abs post s s' _ (Hs & Hg & Hall) Hstep.
    destruct (pack_source_ok _ _ _ _ Hs Hstep) as (Hs' & Hg' & Hin & He).
    split; [done|]. split; [by etrans|]. intros a [Ha|Ha%list_elem_of_singleton]%elem_of_app.
    - eapply packed_grows; [by apply Hall|done].
    - subst a. by split. }
  apply (foldM_inv (λ q', pack_ok q' ∧ grows p q' ∧ ∀ abs, abs ∈ Meson.Sources t → packed abs q')).
  { by split. }
  intros abs s s' _ (Hs & Hg' & Hall') Hstep. destruct (pack_generated_ok _ _ _ _ Hs Hstep) as [Hs' Hg''].
  split; [done|]. split; [by etrans|]. intros a Ha. eapply packed_grows; [by apply Hall'|done].
Qed.

Lemma empty_pack_ok : pack_ok (empty_pack globs).
Proof.
  assert (∀ g n, globHits (empty_pack globs) !! g = Some n → n = 0) as H0.
  { intros g n. cbn. apply (foldl_inv (λ m : gmap string nat, m !! g = Some n → n = 0)).
    { by rewrite lookup_empty. }
    intros m gl _ IH. rewrite lookup_insert_Some. intros [[_ <-]|[_ H]]; auto. }
  split.
  - intros k e. cbn. by rewrite lookup_empty.
  - cbn. set_solver.
  - intros g n H. by apply H0 in H.
  - intros gl Hgl. cbn. revert Hgl.
    apply (foldl_inv_pre (λ pre (m : gmap string nat), gl ∈ pre → is_Some (m !! ExternalGlob.raw gl))).
    { set_solver. }
    intros pre g m _ IH Hin. destruct (decide (ExternalGlob.raw g = ExternalGlob.raw gl)) as [->|Hne];
      [by rewrite lookup_insert_eq|]. rewrite lookup_insert_ne by done. apply IH.
    apply elem_of_app in Hin as [Hin|Hin]; [done|]. apply list_elem_of_singleton in Hin. by subst.
  - intros k a. cbn. by rewrite lookup_empty.
Qed.

Lemma collect_ok targets objects fs p :
  collect cwd root pr globs targets objects fs = Ok p →
  pack_ok p ∧ ∀ t abs, t ∈ targets → abs ∈ Meson.Sources t → packed abs p.
Proof.
  unfold collect. destruct (foldM _ targets _) as [q|] eqn:E; [|done]. cbn.
  assert (pack_ok q ∧ ∀ t abs, t ∈ targets → abs ∈ Meson.Sources t → packed abs q) as [Hq Hall].
  { revert E. apply (foldM_inv_pre (λ pre q, pack_ok q ∧
      ∀ t abs, t ∈ pre → abs ∈ Meson.Sources t → packed abs q)).
    { split; [apply empty_pack_ok|set_solver]. }
    intros pre t post s s' _ [Hs Hall] Hstep. destruct (pack_target_ok _ _ _ Hs Hstep) as (Hs' & Hg & Hnew).
    split; [done|]. intros u a [Hu|Hu%list_elem_of_singleton]%elem_of_app Ha.
    - eapply packed_grows; [by eapply Hall|done].
    - subst u. by apply Hnew. }
  destruct (ReadForBuildDir fs root) as [[log|] [err|]]; intros [= <-]; [|done].
  enough (pack_ok (foldl (pack_object root pr globs log) q objects) ∧
          grows q (foldl (pack_object root pr globs log) q objects)) as [H1 H2].
  { split; [done|]. intros t a Ht Ha. eapply packed_grows; [by eapply Hall|done]. }
  apply (foldl_inv (λ q', pack_ok q' ∧ grows q q')); [by split|].
  intros q' obj _ [Hq' Hg]. destruct (pack_object_ok log q' obj Hq'). split; [done|]. by etrans.
Qed.

(** *** Where the external entries come from

    Pass 1 makes none; pass 2 makes one of a dependency outside the project and
    outside the build directory. *)

Definition outside_dep (dep a : string) : Prop :=
  InProject (ToProjectRelative pr dep) = false ∧
  a = Clean (if IsAbs dep then dep else PathJoin [root; dep]) ∧ isUnderBuildDir a root = false.

Lemma mark_external rel abs g r o p : externalEntries (mark rel abs g r o p) = externalEntries p.
Proof. done. Qed.

Lemma markGenerated_external abs p : externalEntries (markGenerated root abs p) = externalEntries p.
Proof. unfold markGenerated. by repeat case_match. Qed.

Lemma pack_target_external p t p' :
  pack_target cwd root pr p t = Ok p' → externalEntries p' = externalEntries p.
Proof.
  unfold pack_target. destruct (foldM _ (Meson.Sources t) p) as [q|] eqn:E; [|done]. cbn.
  assert (externalEntries q = externalEntries p) as <-.
  { revert E. apply (foldM_inv (λ q, externalEntries q = externalEntries p)); [done|].
    intros abs s s' _ <-. unfold pack_source. case_match; [done|]. by intros [= <-]. }
  apply (foldM_inv (λ q', externalEntries q' = externalEntries q)); [done|].
  intros abs s s' _ <-. unfold pack_generated. case_match; [by intros [= <-]|].
  case_match; [done|]. intros [= <-]. apply markGenerated_external.
Qed.

Lemma pack_dep_external obj p dep a :
  a ∈ externalEntries (pack_dep root pr globs obj p dep) → a ∈ externalEntries p ∨ outside_dep dep a.
Proof.
  unfold pack_dep. destruct (InProject _) eqn:Ei; cbn [negb]; [by left|].
  destruct (isUnderBuildDir _ root) eqn:Eb; [rewrite markGenerated_external; by left|].
  unfold hit_external. destruct (List.find _ globs); [|by left].
  cbn. intros [->%elem_of_singleton|?]%elem_of_union; [by right|by left].
Qed.

Lemma pack_object_external log p obj a :
  a ∈ externalEntries (pack_object root pr globs log p obj) →
  a ∈ externalEntries p ∨ ∃ r dep, Rel root obj = Some r ∧ dep ∈ default [] (DepsFor log r) ∧ outside_dep dep a.
Proof.
  unfold pack_object. destruct (Rel root obj) as [r|]; [|by left].
  apply (foldl_inv (λ q, a ∈ externalEntries q → a ∈ externalEntries p ∨ _)); [by left|].
  intros q dep Hdep IH [Ha|Ha]%pack_dep_external; [by apply IH|]. right. by exists r, dep.
Qed.

Lemma collect_external targets objects fs p a :
  collect cwd root pr globs targets objects fs = Ok p → a ∈ externalEntries p →
  ∃ log obj r dep, ReadForBuildDir fs root = (Some log, None) ∧ obj ∈ objects ∧
    Rel root obj = Some r ∧ dep ∈ default [] (DepsFor log r) ∧ outside_dep dep a.
Proof.
  unfold collect. destruct (foldM _ targets _) as [q|] eqn:E; [|done]. cbn.
  assert (externalEntries q = ∅) as Hq.
  { revert E. apply (foldM_inv (λ q, externalEntries q = ∅)); [done|].
    intros t s s' _ <-. apply pack_target_external. }
  destruct (ReadForBuildDir fs root) as [[log|] [err|]]; intros [= <-]; [|by rewrite Hq].
  apply (foldl_inv (λ s, a ∈ externalEntries s → ∃ log' obj r dep, (Some log, None) = (Some log', None) ∧ _));
    [by rewrite Hq|].
  intros s obj Hobj IH [Ha|(r & dep & Hr & Hdep & Ho)]%pack_object_external; [by apply IH|].
  by exists log, obj, r, dep.
Qed.

(** *** The consumers of a source *)

Definition consumed (rel obj : string) (p : pack) : Prop :=
  ∃ e, entries p !! rel = Some e ∧ obj ∈ consumers e.

Lemma consumed_grows rel obj p p' : consumed rel obj p → grows p p' → consumed rel obj p'.
Proof. intros (e & He & Ho) Hg. destruct (Hg _ _ He) as (e' & He' & _ & _ & Hc). exists e'. set_solver. Qed.

(** What one round of a loop establishes holds at the end if the loop only adds. *)
Lemma foldl_consumed {A} (f : pack → A → pack) l x rel obj p :
  x ∈ l → pack_ok p → (∀ q x, pack_ok q → pack_ok (f q x) ∧ grows q (f q x)) →
  (∀ q, pack_ok q → consumed rel obj (f q x)) → consumed rel obj (foldl f p l).
Proof.
  intros (l1 & l2 & ->)%list_elem_of_split Hp Hf Hx. rewrite foldl_app. cbn [foldl].
  assert (pack_ok (foldl f p l1)) as H1 by (apply foldl_inv; [done|]; intros q y _ Hq; by apply Hf).
  assert (pack_ok (f (foldl f p l1) x)) as H2 by by apply Hf.
  apply (consumed_grows _ _ _ _ (Hx _ H1)).
  apply (foldl_inv (λ q, pack_ok q ∧ grows (f (foldl f p l1) x) q)); [done|].
  intros q y _ [Hq Hg]. destruct (Hf q y Hq). split; [done|]. by etrans.
Qed.

Lemma pack_dep_consumed obj p dep rel :
  obj ≠ "" → ToProjectRelative pr dep = MkResolvedPath rel true → consumed rel obj (pack_dep root pr globs obj p dep).
Proof.
  intros Ho Hd. unfold pack_dep, consumed. rewrite Hd. cbn [InProject RelPath negb]. rewrite mark_lookup.
  eexists. split; [done|]. apply String.eqb_neq in Ho. cbn. rewrite Ho. set_solver.
Qed.

Lemma collect_consumed targets objects fs p log obj r dep rel :
  collect cwd root pr globs targets objects fs = Ok p → ReadForBuildDir fs root = (Some log, None) →
  obj ∈ objects → obj ≠ "" → Rel root obj = Some r → dep ∈ default [] (DepsFor log r) →
  ToProjectRelative pr dep = MkResolvedPath rel true → consumed rel obj p.
Proof.
  intros Hc Hlog Hobj Hne Hr Hdep Hrel. unfold collect in Hc.
  destruct (foldM _ targets _) as [q|] eqn:E; [|done]. cbn in Hc. rewrite Hlog in Hc. injection Hc as <-.
  assert (pack_ok q) as Hq.
  { revert E. apply (foldM_inv pack_ok); [apply empty_pack_ok|]. intros t s s' _ Hs Hstep.
    by destruct (pack_target_ok _ _ _ Hs Hstep). }
  apply (foldl_consumed _ _ obj); [done|done|intros; by apply pack_object_ok|]. intros s Hs. unfold pack_object.
  rewrite Hr. apply (foldl_consumed _ _ dep); [done|done|intros; by apply pack_dep_ok|]. intros s' _.
  by apply pack_dep_consumed.
Qed.
End collected.

(** ** What the write phase stores *)

Section written.
Context (sha256 zstd : string → string).
Context (read : string → read_result) (mtime : string → option Z) (Strict : bool).

Lemma Put_sources w k c g :
  sources (Put sha256 zstd w k c g).1 = <[k := SourceRow (sha256 c) g]> (sources w).
Proof. unfold Put, putBlob. by destruct (blobs w !! sha256 c). Qed.
Lemma Put_external w k c g :
  external_sources (Put sha256 zstd w k c g).1 = external_sources w.
Proof. unfold Put, putBlob. by destruct (blobs w !! sha256 c). Qed.
Lemma PutGenerated_sources w k c : sources (PutGenerated sha256 zstd w k c).1 = sources w.
Proof. unfold PutGenerated, putBlob. by destruct (blobs w !! sha256 c). Qed.
Lemma PutGenerated_external w k c :
  external_sources (PutGenerated sha256 zstd w k c).1 = external_sources w.
Proof. unfold PutGenerated, putBlob. by destruct (blobs w !! sha256 c). Qed.
Lemma PutExternal_sources w k c : sources (PutExternal sha256 zstd w k c).1 = sources w.
Proof. unfold PutExternal, putBlob. by destruct (blobs w !! sha256 c). Qed.

(** The books: each stored file is a new blob or a duplicate. *)
Definition balanced (w0 : tables) (st : tables * SourcesSummary) : Prop :=
  (Files st.2 + GeneratedFiles st.2 + ExternalFiles st.2 = Blobs st.2 + Duplicates st.2)%Z ∧
  Z.of_nat (size (blobs st.1)) = (Z.of_nat (size (blobs w0)) + Blobs st.2)%Z ∧
  blobs w0 ⊆ blobs st.1.

Lemma putBlob_size w c :
  let '(w', r) := putBlob sha256 zstd w c in
  Z.of_nat (size (blobs w')) =
    (Z.of_nat (size (blobs w)) + if Deduplicated r then 0 else 1)%Z ∧ blobs w ⊆ blobs w'.
Proof.
  unfold putBlob. destruct (blobs w !! sha256 c) eqn:E; cbn; [split; [lia|done]|].
  rewrite map_size_insert_None by done. split; [lia|by apply insert_subseteq].
Qed.

Lemma write_entry_balanced es w0 st k st' :
  balanced w0 st → write_entry sha256 zstd read mtime Strict es st k = Ok st' → balanced w0 st'.
Proof.
  intros (H1 & H2 & H3). unfold write_entry. destruct (es !! k) as [e|]; [|by intros [= <-]].
  destruct (read (absPath e)) as [c| |]; [|destruct (required e); [done|by intros [= <-]]|done].
  destruct (if Strict then _ else _); [done|]. unfold Put.
  pose proof (putBlob_size st.1 c) as Hp. destruct (putBlob sha256 zstd st.1 c) as [w r].
  destruct Hp as [Hs Hb]. intros [= <-]. unfold balanced, bump. cbn.
  destruct (Deduplicated r); cbn; (split; [lia|]); (split; [lia|]); by etrans.
Qed.

Lemma write_generated_balanced gs w0 st k st' :
  balanced w0 st → write_generated sha256 zstd read gs st k = Ok st' →
  balanced w0 st' ∧ sources st'.1 = sources st.1 ∧ external_sources st'.1 = external_sources st.1.
Proof.
  intros (H1 & H2 & H3). unfold write_generated. destruct (gs !! k) as [a|]; [|by intros [= <-]].
  destruct (read a) as [c| |]; [|by intros [= <-]|done]. unfold PutGenerated.
  pose proof (putBlob_size st.1 c) as Hp. pose proof (PutGenerated_sources st.1 k c) as Hsrc.
  pose proof (PutGenerated_external st.1 k c) as Hext. unfold PutGenerated in *.
  destruct (putBlob sha256 zstd st.1 c) as [w r].
  destruct Hp as [Hs Hb]. intros [= <-]. split; [|done]. unfold balanced, bump. cbn.
  destruct (Deduplicated r); cbn; (split; [lia|]); (split; [lia|]); by etrans.
Qed.

Lemma write_external_balanced w0 st a st' :
  balanced w0 st → write_external sha256 zstd read st a = Ok st' →
  balanced w0 st' ∧ sources st'.1 = sources st.1 ∧
  ∀ q, is_Some (external_sources st'.1 !! q) → q = a ∨ is_Some (external_sources st.1 !! q).
Proof.
  intros (H1 & H2 & H3). unfold write_external.
  destruct (read a) as [c| |]; [|intros [= <-]; split; [done|]; split; [done|auto]|done].
  pose proof (putBlob_size st.1 c) as Hp. pose proof (PutExternal_sources st.1 a c) as Hsrc.
  unfold PutExternal, putBlob in *.
  destruct (blobs st.1 !! sha256 c); cbn in *; destruct Hp as [Hs Hb]; intros [= <-];
    unfold balanced, bump; cbn; (split; [split; [lia|]; split; [lia|by etrans]|]); (split; [done|]);
    intros q [->|[_ ?]]%lookup_insert_is_Some; auto.
Qed.

(** What one external entry's turn establishes, and that the others leave it alone. *)
Definition external_stored (a : string) (w : tables) : Prop :=
  ∀ c, read a = Content c → external_sources w !! a = Some (sha256 c).

Lemma write_external_stored st a st' :
  write_external sha256 zstd read st a = Ok st' →
  external_stored a st'.1 ∧ ∀ b, external_stored b st.1 → external_stored b st'.1.
Proof.
  unfold write_external, external_stored. destruct (read a) as [c| |] eqn:E; [|by intros [= <-]|done].
  assert (external_sources (PutExternal sha256 zstd st.1 a c).1 = <[a := sha256 c]> (external_sources st.1)) as Hx.
  { unfold PutExternal, putBlob. by destruct (blobs st.1 !! sha256 c). }
  destruct (PutExternal _ _ _ _ _) as [w r]. intros [= <-]. cbn in *. rewrite Hx. split.
  - intros c' [= <-]. by rewrite lookup_insert_eq.
  - intros b Hb c' Hc'. destruct (decide (b = a)) as [->|];
      [rewrite lookup_insert_eq; congruence|rewrite lookup_insert_ne by done; by apply Hb].
Qed.

Lemma write_externals_stored l st st' :
  foldM (write_external sha256 zstd read) l st = Ok st' → ∀ a, a ∈ l → external_stored a st'.1.
Proof.
  intros H. revert H. apply (foldM_inv_pre (λ pre st, ∀ a, a ∈ pre → external_stored a st.1)); [set_solver|].
  intros pre b post s s' _ IH [Hb Hk]%write_external_stored a [Ha| ->%list_elem_of_singleton]%elem_of_app; auto.
Qed.

(** Storing a key leaves the rows of the others alone. *)
Lemma write_entry_other es st k st' k' :
  k' ≠ k → write_entry sha256 zstd read mtime Strict es st k = Ok st' →
  sources st'.1 !! k' = sources st.1 !! k'.
Proof.
  intros Hne. unfold write_entry. destruct (es !! k) as [e|]; [|by intros [= <-]].
  destruct (read (absPath e)) as [c| |]; [|destruct (required e); [done|by intros [= <-]]|done].
  destruct (if Strict then _ else _); [done|].
  pose proof (Put_sources st.1 k c (isGenerated e)) as Hs. destruct (Put _ _ _ _ _ _) as [w r].
  intros [= <-]. cbn in *. by rewrite Hs, lookup_insert_ne.
Qed.

(** What one entry's turn establishes. *)
Definition entry_stored (e : entry) (k : string) (w : tables) : Prop :=
  match read (absPath e) with
  | Content c =>
    sources w !! k = Some (SourceRow (sha256 c) (isGenerated e)) ∧
    (Strict = true → ∀ o n, o ∈ consumers e → mtime o = Some n →
       ∃ m, mtime (absPath e) = Some m ∧ (m ≤ n)%Z)
  | NotExist => required e = false
  | ReadFailure => False
  end.

Lemma checkStrictMtime_None src objs o n :
  checkStrictMtime mtime src objs = None → o ∈ objs → mtime o = Some n →
  ∃ m, mtime src = Some m ∧ (m ≤ n)%Z.
Proof.
  unfold checkStrictMtime. intros H Ho Hn. destruct objs as [|x l]; [set_solver|].
  destruct (mtime src) as [m|]; [|done]. exists m. split; [done|].
  destruct (List.find _ (x :: l)) eqn:E; [done|]. apply list_elem_of_In in Ho.
  pose proof (find_none _ _ E o Ho) as Hlt. cbn in Hlt. rewrite Hn in Hlt. apply Z.ltb_ge in Hlt. lia.
Qed.

Lemma write_entry_stored es st k st' e :
  es !! k = Some e → write_entry sha256 zstd read mtime Strict es st k = Ok st' → entry_stored e k st'.1.
Proof.
  intros He. unfold write_entry, entry_stored. rewrite He.
  destruct (read (absPath e)) as [c| |]; [|by destruct (required e)|done].
  destruct (if Strict then _ else _) eqn:Es; [done|].
  pose proof (Put_sources st.1 k c (isGenerated e)) as Hs. destruct (Put _ _ _ _ _ _) as [w r].
  intros [= <-]. cbn in *. rewrite Hs, lookup_insert_eq. split; [done|]. intros HS. rewrite HS in Es.
  intros o n Ho Hn. by eapply checkStrictMtime_None.
Qed.

Lemma entry_stored_ext e k w w' : sources w' !! k = sources w !! k → entry_stored e k w → entry_stored e k w'.
Proof. unfold entry_stored. intros ->. done. Qed.

Lemma write_entries_stored es w0 ks st st' :
  NoDup ks → balanced w0 st → foldM (write_entry sha256 zstd read mtime Strict es) ks st = Ok st' →
  balanced w0 st' ∧ ∀ k e, k ∈ ks → es !! k = Some e → entry_stored e k st'.1.
Proof.
  intros Hnd Hb. apply (foldM_inv_pre (λ pre st, balanced w0 st ∧
    ∀ k e, k ∈ pre → es !! k = Some e → entry_stored e k st.1)); [split; [done|set_solver]|].
  intros pre k post s s' -> [Hbal IH] Hstep. split; [by eapply write_entry_balanced|].
  intros k' e [Hk|Hk%list_elem_of_singleton]%elem_of_app He.
  - apply (entry_stored_ext e k' s.1); [|by apply IH]. apply (write_entry_other es s k); [|done].
    intros ->. apply NoDup_app in Hnd as (_ & Hd & _). apply (Hd k Hk). left.
  - subst k'. by eapply write_entry_stored.
Qed.
End written.

(** A pass that succeeds, taken apart. *)
Record packing sha256 zstd read mtime Strict fs cwd globs pr bd intro (db w : tables) (sum : SourcesSummary)
    (p : pack) (st1 st2 : tables * SourcesSummary) : Prop := {
  pa_collect : collect cwd (Paths.BuildDir.Root bd) pr globs (IntroTargets intro)
    (Paths.BuildDir.Object <$> Paths.BuildDir.Objects bd) fs = Ok p;
  pa_entries : foldM (write_entry sha256 zstd read mtime Strict (entries p)) (sorted_keys (entries p))
    (db, MkSourcesSummary 0 0 0 0 0 0 0 0) = Ok st1;
  pa_generated : foldM (write_generated sha256 zstd read (generatedEntries p)) (sorted_keys (generatedEntries p)) st1 = Ok st2;
  pa_external : foldM (write_external sha256 zstd read) (sort_strings (elements (externalEntries p))) st2 = Ok (w, sum);
  pa_globs : zero_globs (globHits p) = [];
}.

Lemma Sources_packing sha256 zstd read mtime Strict fs cwd globs pr bd intro db w sum hits :
  Sources sha256 zstd read mtime Strict fs cwd globs pr bd intro db = (w, Ok (sum, hits)) →
  ∃ p st1 st2, packing sha256 zstd read mtime Strict fs cwd globs pr bd intro db w sum p st1 st2.
Proof.
  unfold Sources. destruct (collect _ _ _ _ _ _ _) as [p|] eqn:Ec; [|done].
  destruct (write_all _ _ _ _ _ p db) as [[w' sum']|] eqn:Ew; [|done]. cbn. intros [= -> -> _].
  unfold write_all in Ew. destruct (foldM (write_entry _ _ _ _ _ _) _ _) as [st1|] eqn:E1; [|done].
  cbn [mbind result_bind] in Ew.
  destruct (foldM (write_generated _ _ _ _) _ st1) as [st2|] eqn:E2; [|done]. cbn [mbind result_bind] in Ew.
  destruct (foldM (write_external _ _ _) _ st2) as [st3|] eqn:E3; [|done]. cbn [mbind result_bind] in Ew.
  destruct (zero_globs (globHits p)) eqn:Ez; [|done]. injection Ew as ->. by exists p, st1, st2.
Qed.

(** *** What is in the store comes from the files

    Writing is a sequence of the store's operations, each with the contents of the
    file its key stands for. *)

Section provenance.
Context (sha256 zstd : string → string) (read : string → read_result) (pr : PathResolver) (root : string).

Definition op_from (o : op) : Prop :=
  match o with
  | OpPut k c _ => read (project_file pr k) = Content c
  | OpExternal a c => read a = Content c
  | OpGenerated k c => ∃ a, Rel root a = Some k ∧ HasPrefix k ".." = false ∧ read a = Content c
  end.

Definition reaches (w w' : tables) : Prop :=
  ∃ ops, Forall op_from ops ∧ w' = foldl (apply_op sha256 zstd) w ops.

#[export] Instance reaches_preorder : PreOrder reaches.
Proof.
  split.
  - intros w. by exists [].
  - intros w w1 w2 (l & Hl & ->) (k & Hk & ->). exists (l ++ k). by rewrite Forall_app, foldl_app.
Qed.

Lemma reaches_op w o : op_from o → reaches w (apply_op sha256 zstd w o).
Proof. intros Ho. exists [o]. split; [by constructor|done]. Qed.

(** What a store reached from the empty one holds. *)
Record from_files (w : tables) : Prop := {
  ff_sources : ∀ k r, sources w !! k = Some r →
    ∃ c, read (project_file pr k) = Content c ∧ src_blob r = sha256 c;
  ff_generated : ∀ k h, generated_sources w !! k = Some h →
    ∃ a c, Rel root a = Some k ∧ HasPrefix k ".." = false ∧ read a = Content c ∧ h = sha256 c;
  ff_external : ∀ a h, external_sources w !! a = Some h → ∃ c, read a = Content c ∧ h = sha256 c;
  ff_blobs : ∀ h b, blobs w !! h = Some b → ∃ a c, read a = Content c ∧ sha256 c = h ∧ b_content b = zstd c;
}.

Lemma from_files_op w o : op_from o → from_files w → from_files (apply_op sha256 zstd w o).
Proof.
  intros Ho [Hs Hg He Hb].
  assert (∃ a, read a = Content (op_content o)) as [a Ha].
  { destruct o as [k c g|a c|k c]; cbn in *; [by eexists|by eexists|]. destruct Ho as (a & _ & _ & ?). by exists a. }
  assert (∀ h b, blobs (putBlob sha256 zstd w (op_content o)).1 !! h = Some b →
    ∃ a c, read a = Content c ∧ sha256 c = h ∧ b_content b = zstd c) as Hb'.
  { intros h b. unfold putBlob. destruct (blobs w !! sha256 (op_content o)); [by apply Hb|]. cbn.
    rewrite lookup_insert_Some. intros [[<- <-]|[_ H]]; [by exists a, (op_content o)|by apply Hb]. }
  destruct o as [k c g|x c|k c]; cbn [apply_op op_content op_from] in *;
    unfold Put, PutExternal, PutGenerated, putBlob in *; destruct (blobs w !! sha256 c) eqn:E; cbn in Hb' |- *;
    split; cbn; try done; intros k' r; rewrite lookup_insert_Some; intros [[<- <-]|[_ H]]; cbn; eauto;
    destruct Ho as (x & ? & ? & ?); by exists x, c.
Qed.

Lemma from_files_reaches w w' : reaches w w' → from_files w → from_files w'.
Proof.
  intros (ops & Hops & ->) Hw. apply (foldl_inv from_files); [done|]. intros w'' o Ho. apply from_files_op.
  by eapply Forall_forall.
Qed.

Lemma wf_reaches w w' : reaches w w' → wf sha256 zstd w → wf sha256 zstd w'.
Proof. intros (ops & _ & ->) Hw. apply (foldl_inv (wf sha256 zstd)); [done|]. intros w'' o _. apply apply_op_wf. Qed.

Lemma from_files_empty : from_files empty_tables.
Proof. split; cbn; intros ??; by rewrite lookup_empty. Qed.

(** The steps of the write phase. *)
Lemma write_entry_reaches mtime Strict es st k st' :
  (∀ k e, es !! k = Some e → absPath e = project_file pr k) →
  write_entry sha256 zstd read mtime Strict es st k = Ok st' → reaches st.1 st'.1.
Proof.
  intros He. unfold write_entry. destruct (es !! k) as [e|] eqn:E; [|by intros [= <-]].
  destruct (read (absPath e)) as [c| |] eqn:Er; [|destruct (required e); [done|by intros [= <-]]|done].
  destruct (if Strict then _ else _); [done|].
  pose proof (reaches_op st.1 (OpPut k c (isGenerated e))) as H. cbn in H. rewrite <-(He _ _ E) in H.
  destruct (Put _ _ _ _ _ _). intros [= <-]. by apply H.
Qed.

Lemma write_generated_reaches gs st k st' :
  (∀ k a, gs !! k = Some a → Rel root a = Some k ∧ HasPrefix k ".." = false) →
  write_generated sha256 zstd read gs st k = Ok st' → reaches st.1 st'.1.
Proof.
  intros Hg. unfold write_generated. destruct (gs !! k) as [a|] eqn:E; [|by intros [= <-]].
  destruct (read a) as [c| |] eqn:Er; [|by intros [= <-]|done].
  pose proof (reaches_op st.1 (OpGenerated k c)) as H. cbn in H.
  destruct (PutGenerated _ _ _ _ _). intros [= <-]. apply H. destruct (Hg _ _ E). by exists a.
Qed.

Lemma write_external_reaches st a st' : write_external sha256 zstd read st a = Ok st' → reaches st.1 st'.1.
Proof.
  unfold write_external. destruct (read a) as [c| |] eqn:Er; [|by intros [= <-]|done].
  pose proof (reaches_op st.1 (OpExternal a c) Er) as H. cbn in H. destruct (PutExternal _ _ _ _ _). by intros [= <-].
Qed.

Lemma foldM_reaches {E A B} (f : tables * B → A → result E (tables * B)) l st st' :
  foldM f l st = Ok st' → (∀ st x st', f st x = Ok st' → reaches st.1 st'.1) → reaches st.1 st'.1.
Proof.
  intros H Hf. revert H. apply (foldM_inv (λ s, reaches st.1 s.1)); [done|]. intros x s s' _ Hs Hstep. etrans; [exact Hs|by eapply Hf].
Qed.
End provenance.

Lemma packing_reaches sha256 zstd read mtime Strict fs cwd globs pr bd intro db w sum p st1 st2 :
  packing sha256 zstd read mtime Strict fs cwd globs pr bd intro db w sum p st1 st2 →
  reaches sha256 zstd read pr (Paths.BuildDir.Root bd) db w.
Proof.
  intros [Hc H1 H2 H3 _]. apply collect_ok in Hc as [Hp _]. etrans; [|etrans].
  - apply (foldM_reaches _ _ _ _ _ _ _ _ _ H1). intros st k st'. apply write_entry_reaches, (pk_paths _ _ _ _ Hp).
  - apply (foldM_reaches _ _ _ _ _ _ _ _ _ H2). intros st k st'. apply write_generated_reaches, (pk_generated _ _ _ _ Hp).
  - apply (foldM_reaches _ _ _ _ _ _ _ _ _ H3). intros st k st'. apply write_external_reaches.
Qed.

Lemma Sources_reaches sha256 zstd read mtime Strict fs cwd globs pr bd intro db w r :
  Sources sha256 zstd read mtime Strict fs cwd globs pr bd intro db = (w, Ok r) →
  reaches sha256 zstd read pr (Paths.BuildDir.Root bd) db w.
Proof. destruct r as [sum hits]. intros (p & st1 & st2 & Hp)%Sources_packing. by eapply packing_reaches. Qed.

(** What the tables of a successful pass are, between its write loops. *)
Lemma packing_tables sha256 zstd read mtime Strict fs cwd globs pr bd intro db w sum p st1 st2 :
  packing sha256 zstd read mtime Strict fs cwd globs pr bd intro db w sum p st1 st2 →
  balanced db (w, sum) ∧ ∀ k e, entries p !! k = Some e → entry_stored sha256 read mtime Strict e k w.
Proof.
  intros [_ E1 E2 E3 _]. apply (write_entries_stored _ _ _ _ _ _ db) in E1 as [Hb1 Hst];
    [|apply NoDup_sorted_keys|split; [done|split; [cbn; lia|done]]].
  assert (balanced db st2 ∧ sources st2.1 = sources st1.1) as [Hb2 Hs2].
  { revert E2. apply (foldM_inv (λ st, balanced db st ∧ sources st.1 = sources st1.1)); [done|].
    intros k s s' _ [Hb Hs] Hw. destruct (write_generated_balanced _ _ _ _ _ _ _ _ Hb Hw) as (? & Hs' & _).
    split; [done|congruence]. }
  assert (balanced db (w, sum) ∧ sources w = sources st1.1) as [Hb3 Hs3].
  { revert E3. apply (foldM_inv (λ st, balanced db st ∧ sources st.1 = sources st1.1)); [done|].
    intros k s s' _ [Hb Hs] Hw. destruct (write_external_balanced _ _ _ _ _ _ _ Hb Hw) as (? & Hs' & _).
    split; [done|congruence]. }
  split; [done|]. intros k e He. apply (entry_stored_ext _ _ _ _ _ _ st1.1); [by rewrite Hs3|].
  apply Hst; [|done]. apply elem_of_sorted_keys. by eexists.
Qed.

(** The objects whose deps, in a log that could be read, name the file [rel] of the
    project. *)
Definition consumer (fs : string → option string) (pr : PathResolver) (bd : Paths.BuildDir.BuildDir)
    (rel obj : string) : Prop :=
  obj ∈ Paths.BuildDir.Object <$> Paths.BuildDir.Objects bd ∧ obj ≠ "" ∧
  ∃ log r dep, ReadForBuildDir fs (Paths.BuildDir.Root bd) = (Some log, None) ∧
    Rel (Paths.BuildDir.Root bd) obj = Some r ∧ dep ∈ default [] (DepsFor log r) ∧
    ToProjectRelative pr dep = MkResolvedPath rel true.

(** The files outside the project and the build directory that a dependency of an
    object of the build names, in a log that could be read. *)
Definition header (fs : string → option string) (pr : PathResolver) (bd : Paths.BuildDir.BuildDir)
    (a : string) : Prop :=
  ∃ log obj r dep, ReadForBuildDir fs (Paths.BuildDir.Root bd) = (Some log, None) ∧
    obj ∈ Paths.BuildDir.Object <$> Paths.BuildDir.Objects bd ∧
    Rel (Paths.BuildDir.Root bd) obj = Some r ∧ dep ∈ default [] (DepsFor log r) ∧
    outside_dep (Paths.BuildDir.Root bd) pr dep a.

Lemma Sources_stored sha256 zstd read mtime Strict fs cwd globs pr bd intro db w sum hits :
  Sources sha256 zstd read mtime Strict fs cwd globs pr bd intro db = (w, Ok (sum, hits)) →
  ∀ t abs, t ∈ IntroTargets intro → abs ∈ Meson.Sources t →
    let rel := RelPath (ToProjectRelative pr abs) in
    InProject (ToProjectRelative pr abs) = true ∧
    ∃ c gen, read (project_file pr rel) = Content c ∧ sources w !! rel = Some (SourceRow (sha256 c) gen).
Proof.
  intros (p & st1 & st2 & Hp)%Sources_packing t abs Ht Ha. pose proof (packing_tables _ _ _ _ _ _ _ _ _ _ _ _ _ _ _ _ _ Hp) as [_ Hst].
  destruct Hp as [[Hok Hpacked]%collect_ok _ _ _ _]. destruct (Hpacked t abs Ht Ha) as [Hin (e & He & Hreq)].
  split; [done|]. pose proof (Hst _ _ He) as H. unfold entry_stored in H. rewrite (pk_paths _ _ _ _ Hok _ _ He) in H.
  destruct (read _) as [c| |]; [|by rewrite Hreq in H|done]. destruct H as [H _]. by exists c, (isGenerated e).
Qed.

(** C19: When the pass succeeds, every target source is inside the project and stored
    with its current content; in strict mode no stored file of the project is newer
    than an object whose deps name it; every pattern is the first to match some header
    that the deps log names for an object of the build, outside the project and the
    build directory, and that header is stored with its current content if it can be
    read; and each stored file is accounted for as a new blob or a duplicate of one. *)
Theorem Sources_ok sha256 zstd read mtime Strict fs cwd globs pr bd intro db w sum hits :
  Sources sha256 zstd read mtime Strict fs cwd globs pr bd intro db = (w, Ok (sum, hits)) →
  (∀ t abs, t ∈ IntroTargets intro → abs ∈ Meson.Sources t →
     let rel := RelPath (ToProjectRelative pr abs) in
     InProject (ToProjectRelative pr abs) = true ∧
     ∃ c gen, read (project_file pr rel) = Content c ∧ sources w !! rel = Some (SourceRow (sha256 c) gen)) ∧
  (Strict = true → ∀ rel obj c n, consumer fs pr bd rel obj → read (project_file pr rel) = Content c →
     mtime obj = Some n → ∃ m, mtime (project_file pr rel) = Some m ∧ (m ≤ n)%Z) ∧
  (∀ g, g ∈ globs → ∃ a gl, header fs pr bd a ∧
     List.find (λ g, GlobMatch g a) globs = Some gl ∧ ExternalGlob.raw gl = ExternalGlob.raw g ∧
     ∀ c, read a = Content c → external_sources w !! a = Some (sha256 c)) ∧
  (Files sum + GeneratedFiles sum + ExternalFiles sum = Blobs sum + Duplicates sum)%Z ∧
  Z.of_nat (size (blobs w)) = (Z.of_nat (size (blobs db)) + Blobs sum)%Z.
Proof.
  intros HS. split; [by eapply Sources_stored|]. apply Sources_packing in HS as (p & st1 & st2 & Hp).
  pose proof (packing_tables _ _ _ _ _ _ _ _ _ _ _ _ _ _ _ _ _ Hp) as [(Hsum & Hsize & _) Hst].
  destruct Hp as [Hc _ _ Ex Ez]. pose proof (collect_ok _ _ _ _ _ _ _ _ Hc) as [Hok _].
  cbn in Hsum, Hsize. split; [|split; [|done]].
  - intros HStrict rel obj c n (Hobj & Hne & log & r & dep & Hlog & Hr & Hdep & Hrel) Hread Hm.
    destruct (collect_consumed _ _ _ _ _ _ _ _ _ _ _ _ _ Hc Hlog Hobj Hne Hr Hdep Hrel) as (e & He & Ho).
    pose proof (Hst _ _ He) as H. unfold entry_stored in H. rewrite (pk_paths _ _ _ _ Hok _ _ He), Hread in H.
    destruct H as [_ H]. by eapply H.
  - intros g Hg. destruct (pk_globs _ _ _ _ Hok g Hg) as [n Hn]. destruct n as [|n].
    + exfalso. apply (not_elem_of_nil (ExternalGlob.raw g)). rewrite <-Ez. unfold zero_globs.
      apply list_elem_of_filter. split; [done|]. apply elem_of_sorted_keys. by eexists.
    + destruct (pk_hits _ _ _ _ Hok _ _ Hn) as (a & gl & Hin & Hr & Hm). exists a, gl.
      split; [by eapply collect_external|]. split; [done|]. split; [done|].
      apply (write_externals_stored _ _ _ _ _ _ Ex a). by rewrite elem_of_sort_strings, elem_of_elements.
Qed.

(** A project of one source file, whose object includes a header outside it that the
    one pattern matches, packed into an empty store. *)
Definition ex_intro : Introspection :=
  MkIntrospection "1.3" "/p" "/b"
    [MkTarget "prog" "prog@exe" "executable" "" ["/b/prog"] ["/p/a.c"] [] None None [] false ""]
    (MkCompilerInfo "gcc" "13" "13.2" [] "ld") [].
Definition ex_deps (p : string) : option string :=
  if String.eqb p "/b/.ninja_deps"
  then Some (encode_log [RPath "a.o"; RPath "/usr/include/x.h"; RDeps 0 5 0 [1]]) else None.
Definition ex_globs : list ExternalGlob := [MkExternalGlob "/usr/include/**" "/usr/include"].
Definition ex_bd : Paths.BuildDir.BuildDir :=
  Paths.BuildDir.MkBuildDir "/b" [Paths.BuildDir.MkObjectArtifacts "/b/a.o" "" "" "" "" "" ""] [].
Definition ex_sources : tables * result sources_error (SourcesSummary * gmap string nat) :=
  Sources (λ s, s) (λ s, s) (λ _, Content "int a;") (λ _, Some 1%Z) true ex_deps "/" ex_globs
    (MkPathResolver "/b" "/p") ex_bd ex_intro empty_tables.

Definition ex_packed : SourcesSummary * gmap string nat :=
  match ex_sources.2 with Ok r => r | Err _ => (MkSourcesSummary 0 0 0 0 0 0 0 0, ∅) end.

Lemma Sources_ok_witness :
  ex_sources = (ex_sources.1, Ok ex_packed) ∧ Files ex_packed.1 = 1%Z ∧
  (Files ex_packed.1 + GeneratedFiles ex_packed.1 + ExternalFiles ex_packed.1 =
     Blobs ex_packed.1 + Duplicates ex_packed.1)%Z ∧
  ∃ a, header ex_deps (MkPathResolver "/b" "/p") ex_bd a ∧ external_sources ex_sources.1 !! a = Some "int a;".
Proof.
  assert (ex_sources = (ex_sources.1, Ok (ex_packed.1, ex_packed.2))) as E by (vm_compute; reflexivity).
  split; [vm_compute; reflexivity|]. split; [vm_compute; reflexivity|].
  destruct (Sources_ok (λ s, s) (λ s, s) (λ _, Content "int a;") (λ _, Some 1%Z) true ex_deps "/" ex_globs
            (MkPathResolver "/b" "/p") ex_bd ex_intro empty_tables _ _ _ E) as (_ & _ & Hg & Hsum & _).
  split; [exact Hsum|].
  destruct (Hg (MkExternalGlob "/usr/include/**" "/usr/include")) as (a & gl & Ha & _ & _ & Hs).
  { apply elem_of_cons. by left. }
  exists a. split; [exact Ha|]. by apply Hs.
Defined.

(** A pass that fails leaves the tables exactly as they were. *)
Theorem Sources_rollback sha256 zstd read mtime Strict fs cwd globs pr bd intro db w e :
  Sources sha256 zstd read mtime Strict fs cwd globs pr bd intro db = (w, Err e) → w = db.
Proof.
  unfold Sources. destruct (collect _ _ _ _ _ _ _) as [p|]; [|by intros [= <- _]].
  destruct (write_all _ _ _ _ _ p db) as [[w' sum']|]; [done|by intros [= <- _]].
Qed.

Definition ex_stored : tables := Tables {["h" := BlobRow 1 "x"]} ∅ ∅ ∅.
Definition ex_failed : tables * result sources_error (SourcesSummary * gmap string nat) :=
  Sources (λ s, s) (λ s, s) (λ _, NotExist) (λ _, None) false (λ _, None) "/" []
    (MkPathResolver "/b" "/p") (Paths.BuildDir.MkBuildDir "/b" [] []) ex_intro ex_stored.

Lemma Sources_rollback_witness :
  ∃ w, ex_failed = (w, Err (ErrMissing "a.c")) ∧ w = ex_stored.
Proof.
  eexists. split; [vm_compute; reflexivity|].
  apply (Sources_rollback (λ s, s) (λ s, s) (λ _, NotExist) (λ _, None) false (λ _, None) "/" []
    (MkPathResolver "/b" "/p") (Paths.BuildDir.MkBuildDir "/b" [] []) ex_intro ex_stored _ (ErrMissing "a.c")).
  vm_compute; reflexivity.
Defined.
