(* ===== verification/CallGraph.v ===== *)
(** * Call-graph queries ([internal/mcp/callgraph_source_tools.go],
    [internal/mcp/callgraph_runtime_tools.go])

    The handlers over the tables of an index: neighbours in the compiler's and in
    the linked graph, and the enumeration of call paths.  A query with DISTINCT,
    ORDER BY and LIMIT is [remove_dups], [sort_by] and [take]; SQLite leaves the
    order of equal keys open, here they keep the order of the rows. *)

From S2P Require Import Prelude GoStrings Store.
From Stdlib Require Import ZArith Lia.

Record index := Index {
  ix_symbols : list symbol_row;
  ix_targets : list target_row;
  ix_edges : list edge_row;
  ix_resolutions : list link_resolution_row;
}.

Record SymbolRef := MkSymbolRef { USR : string; Name : string; Kind : string; Signature : string }.

#[export] Instance SymbolRef_eq_dec : EqDecision SymbolRef.
Proof. solve_decision. Defined.

Inductive query_error := ErrNoSymbol (usr : string) | ErrUnknownTarget (name : string).

Definition callGraphNeighborLimit : nat := 500.
Definition callPathDefaultDepth : Z := 6.
Definition callPathMaxDepth : Z := 16.
Definition callPathResultLimit : nat := 50.

Definition ref_of (s : symbol_row) : SymbolRef := MkSymbolRef (s_usr s) (s_name s) (s_kind s) (s_signature s).

Section queries.
Context (ix : index).

Definition symbolIDByUSR (usr : string) : result query_error Z :=
  match List.find (λ s, String.eqb (s_usr s) usr) (ix_symbols ix) with
  | Some s => Ok (s_id s)
  | None => Err (ErrNoSymbol usr)
  end.

Definition targetIDByName (name : string) : result query_error Z :=
  match List.find (λ t, String.eqb (t_name t) name) (ix_targets ix) with
  | Some t => Ok (t_id t)
  | None => Err (ErrUnknownTarget name)
  end.

(** The view [symbol_reachability] joined with the targets' names. *)
Definition reachable_in (s : symbol_row) (target : string) : bool :=
  existsb (λ lr, String.eqb (lr_usr lr) (s_usr s) &&
    existsb (λ t, (t_id t =? lr_target lr)%Z && String.eqb (t_name t) target) (ix_targets ix))
    (ix_resolutions ix).

(** The rows of the batch query, by target name: a symbol among [usrs] and a target it
    is reachable in. *)
Definition reachability_rows (usrs : list string) : list (string * string) :=
  sort_by snd (ix_symbols ix ≫= λ s,
    if bool_decide (s_usr s ∈ usrs) then
      ix_resolutions ix ≫= λ lr,
        if String.eqb (lr_usr lr) (s_usr s) then
          ix_targets ix ≫= λ t, if (t_id t =? lr_target lr)%Z then [(s_usr s, t_name t)] else []
        else []
    else []).

Definition usrsOf (refs : list SymbolRef) : list string := USR <$> refs.

(** [out[u] = append(out[u], t)] *)
Definition append_target (out : gmap string (list string)) (row : string * string) : gmap string (list string) :=
  <[row.1 := default [] (out !! row.1) ++ [row.2]]> out.

Definition targetsByReachability (usrs : list string) : gmap string (list string) :=
  match usrs with
  | [] => ∅
  | _ => foldl append_target ∅ (reachability_rows usrs)
  end.

(** The rows of the edges that [keep] selects, joined with the symbol at [far]. *)
Definition neighbor_query (keep : edge_row → bool) (far : edge_row → Z) (also : symbol_row → bool) :
    list SymbolRef :=
  sort_by Name (remove_dups
    (List.filter keep (ix_edges ix) ≫= λ e,
       ref_of <$> List.filter (λ s, (s_id s =? far e)%Z && also s) (ix_symbols ix))).

Definition in_target (target : string) (s : symbol_row) : bool :=
  String.eqb target "" || reachable_in s target.

(** The edges of the source view that end, or begin, at [id]. *)
Definition cgraph_edge (near : edge_row → Z) (id : Z) (e : edge_row) : bool :=
  (near e =? id)%Z && String.eqb (e_source e) "compiler_cgraph".

Definition neighbors (near far : edge_row → Z) (usr target : string) :
    result query_error (list (SymbolRef * list string) * bool) :=
  id ← symbolIDByUSR usr;
  let refs := take (callGraphNeighborLimit + 1)
                (neighbor_query (cgraph_edge near id) far (in_target target)) in
  let truncated := callGraphNeighborLimit <? length refs in
  let refs := if truncated then take callGraphNeighborLimit refs else refs in
  let targetsByUSR := targetsByReachability (usrsOf refs) in
  Ok ((λ r, (r, default [] (targetsByUSR !! USR r))) <$> refs, truncated).

Definition handleListCallers (callee_usr target : string) := neighbors e_callee e_caller callee_usr target.
Definition handleListCallees (caller_usr target : string) := neighbors e_caller e_callee caller_usr target.

(** The edges of one binary. *)
Definition objdump_edge (near : edge_row → Z) (id tid : Z) (e : edge_row) : bool :=
  (near e =? id)%Z && String.eqb (e_source e) "objdump" && bool_decide (e_target e = Some tid).

Definition linked_neighbors (near far : edge_row → Z) (usr target : string) :
    result query_error (list SymbolRef) :=
  id ← symbolIDByUSR usr;
  tid ← targetIDByName target;
  Ok (neighbor_query (objdump_edge near id tid) far (λ _, true)).

Definition handleListLinkedCallers (callee_usr target : string) :=
  linked_neighbors e_callee e_caller callee_usr target.
Definition handleListLinkedCallees (caller_usr target : string) :=
  linked_neighbors e_caller e_callee caller_usr target.

(** *** Call paths *)

(** [byID]: the symbols, or those reachable in [target]. *)
Definition path_symbols (target : string) : gmap Z SymbolRef :=
  list_to_map ((λ s, (s_id s, ref_of s)) <$> reverse (List.filter (in_target target) (ix_symbols ix))).

Definition add_adj (byID : gmap Z SymbolRef) (target : string)
    (st : gmap Z (list Z) * gset (Z * Z)) (e : edge_row) : gmap Z (list Z) * gset (Z * Z) :=
  let k := (e_caller e, e_callee e) in
  if negb (String.eqb target "") &&
     negb (bool_decide (is_Some (byID !! e_caller e)) && bool_decide (is_Some (byID !! e_callee e)))
  then st
  else if bool_decide (k ∈ st.2) then st
  else (<[e_caller e := default [] (st.1 !! e_caller e) ++ [e_callee e]]> st.1, {[k]} ∪ st.2).

Definition id_name (byID : gmap Z SymbolRef) (id : Z) : string :=
  match byID !! id with Some r => Name r | None => "" end.

Definition loadCgraphAdjacency (target : string) : gmap Z (list Z) * gmap Z SymbolRef :=
  let byID := path_symbols target in
  let adj := (foldl (add_adj byID target) (∅, ∅)
                (List.filter (λ e, String.eqb (e_source e) "compiler_cgraph") (ix_edges ix))).1 in
  (sort_by (id_name byID) <$> adj, byID).
End queries.

(** The depth-first search: [d] edges may still be taken, [stack] is the path so far,
    last first.  The stack and the visited set are restored after every
    iteration, so they are arguments; [out] is threaded. *)
Section dfs.
Context (adj : Z → list Z) (end_ : Z) (limit : nat).

Fixpoint dfs (d : nat) (last : Z) (stack : list Z) (visited : gset Z) (out : list (list Z)) :
    list (list Z) :=
  if limit <=? length out then out
  else match d with
  | 0 => out
  | S d =>
    (fix each (ns : list Z) (out : list (list Z)) : list (list Z) :=
       match ns with
       | [] => out
       | n :: ns =>
         if bool_decide (n ∈ visited) then each ns out
         else if (n =? end_)%Z then
           let out := out ++ [reverse (n :: stack)] in
           if limit <=? length out then out else each ns out
         else each ns (dfs d n (n :: stack) ({[n]} ∪ visited) out)
       end) (adj last) out
  end.
End dfs.

Definition enumeratePaths (adj : gmap Z (list Z)) (start end_ : Z) (maxDepth limit : nat) : list (list Z) :=
  if (start =? end_)%Z then [[start]]
  else dfs (λ n, default [] (adj !! n)) end_ limit maxDepth start [start] {[start]} [].

Definition path_depth (max_depth : Z) : Z :=
  if (max_depth <=? 0)%Z || (callPathMaxDepth <? max_depth)%Z then callPathDefaultDepth else max_depth.

Record ListCallPathsResponse := MkListCallPathsResponse {
  MaxDepth : Z;
  Paths : list (Z * list SymbolRef);
  Truncated : bool;
}.

Definition handleListCallPaths (ix : index) (from_usr to_usr : string) (max_depth : Z) (target : string) :
    result query_error ListCallPathsResponse :=
  let maxDepth := path_depth max_depth in
  fromID ← symbolIDByUSR ix from_usr;
  toID ← symbolIDByUSR ix to_usr;
  let '(adj, byID) := loadCgraphAdjacency ix target in
  let paths := enumeratePaths adj fromID toID (Z.to_nat maxDepth) (callPathResultLimit + 1) in
  let truncated := callPathResultLimit <? length paths in
  let paths := if truncated then take callPathResultLimit paths else paths in
  Ok (MkListCallPathsResponse maxDepth
        ((λ p, ((Z.of_nat (length p) - 1)%Z,
                (λ id, default (MkSymbolRef "" "" "" "") (byID !! id)) <$> p)) <$> paths)
        truncated).

(** ** The search enumerates the simple paths *)

Section enumeration.
Context (adj : Z → list Z) (end_ : Z).

(** The search without its cap. *)
Fixpoint all_paths (d : nat) (last : Z) (stack : list Z) (visited : gset Z) : list (list Z) :=
  match d with
  | 0 => []
  | S d => adj last ≫= λ n,
      if bool_decide (n ∈ visited) then []
      else if (n =? end_)%Z then [reverse (n :: stack)]
      else all_paths d n (n :: stack) ({[n]} ∪ visited)
  end.

Lemma take_agree_app {A} k (r1 r2 f1 f2 : list A) :
  take k r1 = take k f1 → take (k - length r1) r2 = take (k - length r1) f2 →
  take k (r1 ++ r2) = take k (f1 ++ f2).
Proof.
  intros H1 H2. rewrite !take_app. destruct (decide (length r1 < k)) as [Hlt|Hge].
  - assert (f1 = r1) as ->.
    { rewrite (take_ge r1) in H1 by lia. rewrite H1. rewrite take_ge; [done|].
      apply (f_equal length) in H1. rewrite length_take in H1. lia. }
    by rewrite H2.
  - assert (k ≤ length f1) as Hf.
    { apply (f_equal length) in H1. rewrite !length_take in H1. lia. }
    replace (k - length r1) with 0 by lia. replace (k - length f1) with 0 by lia. by rewrite H1.
Qed.

(** The cap does not change the paths below it. *)
Lemma dfs_agrees limit d last stack visited out :
  ∃ r, dfs adj end_ limit d last stack visited out = out ++ r ∧
    take (limit - length out) r = take (limit - length out) (all_paths d last stack visited).
Proof.
  revert last stack visited out; induction d as [|d IH]; intros last stack visited out; cbn [dfs].
  { destruct (limit <=? length out); exists []; by rewrite app_nil_r. }
  destruct (Nat.leb_spec limit (length out)) as [Hle|Hlt].
  { exists []. rewrite app_nil_r. by replace (limit - length out) with 0 by lia. }
  clear Hlt. cbn [all_paths]. generalize (adj last). intros ns. revert out.
  induction ns as [|n ns IHn]; intros out; [exists []; by rewrite app_nil_r|]. cbn [mbind list_bind].
  case_bool_decide as Hv; [apply IHn|]. destruct (n =? end_)%Z.
  - set (p := reverse (n :: stack)).
    assert (length (out ++ [p]) = S (length out)) as Hl by (rewrite length_app; cbn; lia).
    destruct (Nat.leb_spec limit (length (out ++ [p]))) as [Hle|Hlt].
    + exists [p]. split; [done|]. destruct (limit - length out) as [|[|k]] eqn:E; [done|done|lia].
    + destruct (IHn (out ++ [p])) as (r & -> & Hr). exists (p :: r). split; [by rewrite <-app_assoc|].
      cbn [app]. replace (limit - length out) with (S (limit - length (out ++ [p]))) by lia.
      cbn [take]. by rewrite Hr.
  - destruct (IH n (n :: stack) ({[n]} ∪ visited) out) as (r1 & -> & H1).
    destruct (IHn (out ++ r1)) as (r2 & -> & H2). exists (r1 ++ r2). split; [by rewrite app_assoc|].
    apply take_agree_app; [done|]. rewrite length_app in H2.
    by replace (limit - length out - length r1) with (limit - (length out + length r1)) by lia.
Qed.

(** The walk [l] from [x], every step an edge. *)
Fixpoint follows (x : Z) (l : list Z) : Prop :=
  match l with [] => True | y :: l => y ∈ adj x ∧ follows y l end.

(** A way on from [x]: at most [d] edges to [end_], nothing visited twice. *)
Definition route (d : nat) (x : Z) (visited : gset Z) (l : list Z) : Prop :=
  follows x l ∧ NoDup l ∧ (∀ y, y ∈ l → y ∉ visited) ∧ last l = Some end_ ∧ length l ≤ d.

Lemma all_paths_route d x stack visited p :
  p ∈ all_paths d x stack visited ↔ ∃ l, route d x visited l ∧ p = reverse stack ++ l.
Proof.
  revert x stack visited p; induction d as [|d IH]; intros x stack visited p; cbn [all_paths].
  { split; [set_solver|]. intros ([|y l] & (_ & _ & _ & Hlast & Hlen) & _); [done|cbn in Hlen; lia]. }
  rewrite list_elem_of_bind. split.
  - intros (n & Hp & Hn). case_bool_decide as Hv; [set_solver|].
    destruct (Z.eqb_spec n end_) as [E|Hne].
    + apply list_elem_of_singleton in Hp. rewrite Hp, E in *. exists [end_]. rewrite reverse_cons. split; [|done].
      split; [done|]. split; [apply NoDup_singleton|]. split; [set_solver|]. split; [done|cbn; lia].
    + apply IH in Hp as (l & (Hf & Hnd & Hd & Hlast & Hlen) & ->). exists (n :: l).
      rewrite reverse_cons, <-app_assoc. split; [|done]. split; [done|]. split.
      { constructor; [|done]. intros Hin. apply (Hd n Hin). set_solver. }
      split; [set_solver|]. split; [by destruct l|cbn; lia].
  - intros ([|n l] & (Hf & Hnd & Hd & Hlast & Hlen) & ->); [done|]. destruct Hf as [Hn Hf].
    exists n. split; [|done]. rewrite bool_decide_false by set_solver.
    apply NoDup_cons in Hnd as [Hnl Hnd]. destruct (Z.eqb_spec n end_) as [E|Hne].
    + rewrite E in *. assert (l = []) as ->.
      { destruct l as [|y l]; [done|]. exfalso. apply Hnl. 
        change (last (end_ :: y :: l)) with (last (y :: l)) in Hlast.
        apply last_Some in Hlast as [k Hk]. rewrite Hk. set_solver. }
      rewrite reverse_cons. by apply list_elem_of_singleton.
    + apply IH. exists l. rewrite reverse_cons, <-app_assoc. split; [|done]. split; [done|].
      split; [done|]. split; [set_solver|]. split; [|cbn in Hlen; lia].
      destruct l; [cbn in Hlast; congruence|done].
Qed.

Lemma all_paths_NoDup d x stack visited :
  (∀ y, NoDup (adj y)) → NoDup (all_paths d x stack visited).
Proof.
  intros Hadj. revert x stack visited; induction d as [|d IH]; intros x stack visited; cbn; [constructor|].
  assert (∀ n p, p ∈ (if bool_decide (n ∈ visited) then [] else if (n =? end_)%Z
      then [reverse (n :: stack)] else all_paths d n (n :: stack) ({[n]} ∪ visited)) →
    ∃ l, p = reverse stack ++ n :: l) as Hpre.
  { intros n p. case_bool_decide; [set_solver|]. destruct (n =? end_)%Z.
    - intros ->%list_elem_of_singleton. exists []. by rewrite reverse_cons.
    - intros (l & _ & ->)%all_paths_route. exists l. by rewrite reverse_cons, <-app_assoc. }
  apply NoDup_bind; [..|apply Hadj].
  - intros n1 n2 p _ _ (l1 & ->)%Hpre (l2 & E)%Hpre. apply (inj (app _)) in E. by injection E.
  - intros n _. case_bool_decide; [constructor|]. destruct (n =? end_)%Z; [apply NoDup_singleton|apply IH].
Qed.
End enumeration.

(** A path of at most [d] edges that visits no symbol twice. *)
Definition simple_path {A} (edge : A → A → Prop) (start end_ : A) (d : nat) (p : list A) : Prop :=
  NoDup p ∧ head p = Some start ∧ last p = Some end_ ∧ length p ≤ S d ∧
  ∀ i x y, p !! i = Some x → p !! S i = Some y → edge x y.

(** Every node of a path between two different ones is at an end of an edge. *)
Lemma simple_path_step {A} (edge : A → A → Prop) a b d q x :
  a ≠ b → simple_path edge a b d q → x ∈ q → ∃ y, edge x y ∨ edge y x.
Proof.
  intros Hne (_ & Ha & Hb & _ & Hstep) [[|k] Hk]%list_elem_of_lookup.
  - destruct q as [|z [|y q]]; [done|cbn in *; congruence|]. injection Hk as ->. exists y. left. by apply (Hstep 0).
  - destruct (lookup_lt_is_Some_2 q k) as [y Hy]; [apply lookup_lt_Some in Hk; lia|]. exists y. right. by apply (Hstep k).
Qed.

(** The same paths under another naming of the nodes [D]. *)
Section rename.
Context {A B : Type} (f : A → B) (R : A → A → Prop) (T : B → B → Prop) (D : A → Prop).
Context (Hinj : ∀ x y, D x → D y → f x = f y → x = y) (Hedge : ∀ x y, D x → D y → (R x y ↔ T (f x) (f y))).

Lemma simple_path_fmap a b d p :
  Forall D p → D a → D b → (simple_path R a b d p ↔ simple_path T (f a) (f b) d (f <$> p)).
Proof.
  intros Hp Ha Hb. unfold simple_path. rewrite length_fmap, fmap_last.
  assert (∀ i x, p !! i = Some x → D x) as HD by (intros i x Hi; by eapply Forall_lookup_1).
  assert (NoDup p ↔ NoDup (f <$> p)) as ->.
  { split; [|apply NoDup_fmap_1]. intros Hnd. apply NoDup_alt. intros i j y. rewrite !list_lookup_fmap.
    destruct (p !! i) as [x|] eqn:Ei, (p !! j) as [x'|] eqn:Ej; try done. intros [= <-] [= E].
    apply Hinj in E as ->; [by eapply NoDup_lookup|by eapply HD..]. }
  assert (∀ c x, D c → (x : option A) = head p ∨ x = last p → (x = Some c ↔ f <$> x = Some (f c))) as Hend.
  { intros c x Hc Hx. split; [by intros ->|]. destruct x as [x|]; [|done]. intros [= E]. f_equal. apply Hinj; [|done|done].
    destruct Hx as [Hx|Hx]; [destruct p; [done|]; injection Hx as ->; by apply (HD 0)|].
    symmetry in Hx. rewrite last_lookup in Hx. by eapply HD. }
  assert (head (f <$> p) = f <$> head p) as -> by by destruct p.
  rewrite (Hend a (head p)), (Hend b (last p)) by auto.
  do 4 apply and_iff_compat_l. split.
  - intros H i x y. rewrite !list_lookup_fmap. destruct (p !! i) eqn:Ei, (p !! S i) eqn:Ej; try done.
    intros [= <-] [= <-]. apply Hedge; [by eapply HD..|by eapply H].
  - intros H i x y Hi Hj. apply Hedge; [by eapply HD..|]. eapply (H i); by rewrite list_lookup_fmap, ?Hi, ?Hj.
Qed.

(** A path of at least one edge whose ends are in the image is the image of one. *)
Lemma simple_path_lift a b d q :
  (∀ x y, T x y → ∃ x' y', D x' ∧ D y' ∧ f x' = x ∧ f y' = y) → a ≠ b → simple_path T a b d q →
  ∃ p, Forall D p ∧ q = f <$> p.
Proof.
  intros Himg Hne Hq.
  assert (∀ y, y ∈ q → ∃ y', D y' ∧ f y' = y) as H.
  { intros y (z & [Hz|Hz])%(simple_path_step _ _ _ _ _ _ Hne Hq); apply Himg in Hz as (x' & y' & ? & ? & ? & ?);
      [by exists x'|by exists y']. }
  clear -H. induction q as [|x q IH]; [by exists []|]. destruct (H x) as (x' & Hx & <-); [left|].
  destruct IH as (p & Hp & ->); [intros y Hy; apply H; by right|]. exists (x' :: p). by split; [constructor|].
Qed.
End rename.

Lemma follows_edges adj x l :
  follows adj x l ↔ ∀ i a b, (x :: l) !! i = Some a → (x :: l) !! S i = Some b → b ∈ adj a.
Proof.
  revert x; induction l as [|y l IH]; intros x; cbn [follows].
  { split; [|done]. intros _ i a b _. by destruct i. }
  rewrite IH. split.
  - intros [Hy H] [|i] a b Ha Hb; [by simplify_eq/=|]. by apply (H i).
  - intros H. split; [by apply (H 0)|]. intros i a b Ha Hb. by apply (H (S i)).
Qed.

Lemma route_simple adj end_ d start l :
  start ≠ end_ →
  route adj end_ d start {[start]} l ↔ simple_path (λ x y, y ∈ adj x) start end_ d (start :: l).
Proof.
  intros Hne. unfold route, simple_path. rewrite follows_edges, NoDup_cons. cbn [head length].
  assert (last (start :: l) = Some end_ ↔ last l = Some end_) as Hlast.
  { destruct l; [|done]. cbn. split; congruence. }
  rewrite Hlast. split.
  - intros (Hf & Hnd & Hv & Hl & Hlen). split; [split; [|done]|].
    + intros Hin. apply (Hv start Hin). set_solver.
    + split; [done|]. split; [done|]. split; [lia|done].
  - intros ((Hin & Hnd) & _ & Hl & Hlen & Hf). split; [done|]. split; [done|]. split; [set_solver|].
    split; [done|lia].
Qed.

(** Some list of all the simple paths agrees with the search up to the cap. *)
Lemma enumeratePaths_spec adj start end_ d limit :
  start ≠ end_ → (∀ x, NoDup (default [] (adj !! x))) →
  ∃ full, NoDup full ∧
    (∀ p, p ∈ full ↔ simple_path (λ x y, y ∈ default [] (adj !! x)) start end_ d p) ∧
    take limit (enumeratePaths adj start end_ d limit) = take limit full.
Proof.
  intros Hne Hadj. unfold enumeratePaths. apply Z.eqb_neq in Hne as Hb. rewrite Hb.
  set (nb := λ n, default [] (adj !! n)). exists (all_paths nb end_ d start [start] {[start]}).
  split; [by apply all_paths_NoDup|]. split.
  - intros p. rewrite all_paths_route. split.
    + intros (l & Hr & ->). by apply route_simple in Hr.
    + intros Hp. destruct p as [|x l]; [by destruct Hp as (_ & ? & _)|].
      assert (x = start) as -> by (destruct Hp as (_ & [= ->] & _); done).
      exists l. split; [by apply route_simple|done].
  - destruct (dfs_agrees nb end_ limit d start [start] {[start]} []) as (r & -> & Hr). cbn in Hr |- *.
    by rewrite Nat.sub_0_r in Hr.
Qed.

(** A search capped at one path can return more: the cap is tested again only
    where a path ends, not on the way back up. *)
Theorem enumeratePaths_exceeds_limit :
  length (enumeratePaths (<[1%Z := [2%Z; 3%Z]]> (<[2%Z := [3%Z]]> ∅)) 1 3 6 1) = 2.
Proof. vm_compute. done. Qed.

(** ** The adjacency and the answer of [list_call_paths] *)

Section adjacency.
Context (ix : index) (target : string).
Let byID := path_symbols ix target.

(** A call of the compiler's graph; a target keeps those between its symbols. *)
Definition call_edge (x y : Z) : Prop :=
  (∃ e, e ∈ ix_edges ix ∧ e_source e = "compiler_cgraph" ∧ e_caller e = x ∧ e_callee e = y) ∧
  (target ≠ "" → ∀ i, i ∈ [x; y] → ∃ s, s ∈ ix_symbols ix ∧ s_id s = i ∧ reachable_in ix s target = true).

Lemma path_symbols_dom i :
  is_Some (byID !! i) ↔ ∃ s, s ∈ ix_symbols ix ∧ s_id s = i ∧ in_target ix target s = true.
Proof.
  unfold byID, path_symbols. rewrite <-elem_of_dom, dom_list_to_map_L, elem_of_list_to_set.
  rewrite <-list_fmap_compose. rewrite list_elem_of_fmap. setoid_rewrite elem_of_reverse.
  setoid_rewrite list_elem_of_In. setoid_rewrite filter_In. cbn. split.
  - intros (s & -> & Hin & Hb). eauto.
  - intros (s & Hin & <- & Hb). eauto.
Qed.

Lemma ex_snoc {A} (pre : list A) (e : A) (P : A → Prop) :
  (∃ x, x ∈ pre ++ [e] ∧ P x) ↔ (∃ x, x ∈ pre ∧ P x) ∨ P e.
Proof.
  setoid_rewrite elem_of_app. setoid_rewrite list_elem_of_singleton. split.
  - intros (x & [Hx| ->] & HP); [left; by exists x|by right].
  - intros [(x & Hx & HP)|HP]; [exists x|exists e]; auto.
Qed.

Lemma adj_fold es :
  let st := foldl (add_adj byID target) (∅, ∅) es in
  let ok e := target = "" ∨ is_Some (byID !! e_caller e) ∧ is_Some (byID !! e_callee e) in
  (∀ x, NoDup (default [] (st.1 !! x))) ∧
  (∀ x y, y ∈ default [] (st.1 !! x) ↔ (x, y) ∈ st.2) ∧
  ∀ x y, (x, y) ∈ st.2 ↔ ∃ e, e ∈ es ∧ e_caller e = x ∧ e_callee e = y ∧ ok e.
Proof.
  cbn zeta. apply (foldl_inv_pre (λ pre st, (∀ x, NoDup (default [] (st.1 !! x))) ∧
    (∀ x y, y ∈ default [] (st.1 !! x) ↔ (x, y) ∈ st.2) ∧
    ∀ x y, (x, y) ∈ st.2 ↔ ∃ e, e ∈ pre ∧ e_caller e = x ∧ e_callee e = y ∧
      (target = "" ∨ is_Some (byID !! e_caller e) ∧ is_Some (byID !! e_callee e)))).
  { split; [intros x; cbn; rewrite lookup_empty; constructor|].
    split; [intros x y; cbn; rewrite lookup_empty; set_solver|set_solver]. }
  intros pre e [adj seen] _ (Hnd & Hs & Hin). cbn [fst snd] in *. unfold add_adj. cbn [fst snd].
  destruct (negb (String.eqb target "") && _) eqn:Eb.
  - split; [done|]. split; [done|]. intros x y. rewrite Hin, ex_snoc. apply andb_true_iff in Eb as [Ht Hb].
    apply negb_true_iff, String.eqb_neq in Ht. apply negb_true_iff, andb_false_iff in Hb.
    rewrite !bool_decide_eq_false in Hb. split; [by left|]. intros [H|(_ & _ & [?|[? ?]])]; [done|done|].
    by destruct Hb.
  - assert (target = "" ∨ is_Some (byID !! e_caller e) ∧ is_Some (byID !! e_callee e)) as Hok.
    { apply andb_false_iff in Eb as [Eb|Eb]; [left; by apply negb_false_iff, String.eqb_eq in Eb|right].
      apply negb_false_iff, andb_true_iff in Eb. by rewrite !bool_decide_eq_true in Eb. }
    clear Eb. case_bool_decide as Hk; cbn [fst snd].
    + split; [done|]. split; [done|]. intros x y. rewrite ex_snoc, <-Hin. split; [by left|].
      intros [H|(<- & <- & _)]; done.
    + split; [|split].
      * intros x. destruct (decide (x = e_caller e)) as [->|Hne]; [|by rewrite lookup_insert_ne].
        rewrite lookup_insert_eq. cbn. apply NoDup_app. split; [done|]. split; [|apply NoDup_singleton].
        intros y Hy Hy'%list_elem_of_singleton. subst. by apply Hk, Hs.
      * intros x y. rewrite elem_of_union, elem_of_singleton.
        destruct (decide (x = e_caller e)) as [->|Hne].
        -- rewrite lookup_insert_eq. cbn. rewrite elem_of_app, Hs, list_elem_of_singleton.
           split; [intros [?| ->]; [by right|by left]|intros [[= ->]|?]; [by right|by left]].
        -- rewrite lookup_insert_ne by done. rewrite Hs. split; [by right|]. intros [[= -> _]|?]; done.
      * intros x y. rewrite elem_of_union, Hin, elem_of_singleton, ex_snoc.
        split; [intros [[= -> ->]|?]; [by right|by left]|intros [?|(<- & <- & _)]; [by right|by left]].
Qed.

Lemma loadCgraphAdjacency_spec :
  let adj := (loadCgraphAdjacency ix target).1 in
  (∀ x, NoDup (default [] (adj !! x))) ∧ ∀ x y, y ∈ default [] (adj !! x) ↔ call_edge x y.
Proof.
  unfold loadCgraphAdjacency. cbn zeta. cbn [fst]. fold byID. set (es := List.filter _ (ix_edges ix)). destruct (adj_fold es) as (Hnd & Hs & Hin).
  set (st := foldl _ _ _) in *.
  assert (∀ x, default [] ((sort_by (id_name byID) <$> st.1) !! x) ≡ₚ default [] (st.1 !! x)) as Hp.
  { intros x. rewrite lookup_fmap. destruct (st.1 !! x); cbn; [apply sort_by_perm|done]. }
  split; [intros x; by rewrite Hp|]. intros x y. rewrite Hp, Hs, Hin. unfold call_edge.
  assert (∀ e, e ∈ es ↔ e ∈ ix_edges ix ∧ e_source e = "compiler_cgraph") as Hes.
  { intros e. subst es. rewrite list_elem_of_In, filter_In, <-list_elem_of_In, String.eqb_eq. done. }
  setoid_rewrite Hes. setoid_rewrite path_symbols_dom. unfold in_target.
  destruct (String.eqb_spec target "") as [E|Ht]; cbn [orb].
  { split; [intros (e & [? ?] & ? & ? & _); split; [by exists e|done]|].
    intros [(e & ? & ? & ? & ?) _]. exists e. auto. }
  split.
  - intros (e & [Hin' Hsrc] & <- & <- & [?|[H1 H2]]); [done|]. split; [eauto|].
    intros _ i. rewrite !elem_of_cons. intros [->|[->|Hi]]; [done|done|set_solver].
  - intros [(e & He & Hsrc & <- & <-) Hr]. exists e. do 3 (split; [done|]). right.
    split; apply Hr; set_solver.
Qed.
End adjacency.

(** What is shown is the enumeration's paths, as symbols. *)
Lemma list_call_paths_answer ix from_usr to_usr max_depth target a b :
  symbolIDByUSR ix from_usr = Ok a → symbolIDByUSR ix to_usr = Ok b → a ≠ b →
  ∃ full resp, handleListCallPaths ix from_usr to_usr max_depth target = Ok resp ∧
    NoDup full ∧
    (∀ p, p ∈ full ↔ simple_path (call_edge ix target) a b (Z.to_nat (path_depth max_depth)) p) ∧
    Paths resp = (λ p, ((Z.of_nat (length p) - 1)%Z,
      (λ id, default (MkSymbolRef "" "" "" "") (path_symbols ix target !! id)) <$> p)) <$> take callPathResultLimit full ∧
    Truncated resp = (callPathResultLimit <? length full).
Proof.
  intros Ha Hb Hne. unfold handleListCallPaths. rewrite Ha, Hb. cbn [mbind result_bind].
  destruct (loadCgraphAdjacency_spec ix target) as [Hnd Hadj].
  assert ((loadCgraphAdjacency ix target).2 = path_symbols ix target) as Hby by done.
  destruct (loadCgraphAdjacency ix target) as [adj byID]. cbn [fst snd] in *. subst byID.
  destruct (enumeratePaths_spec adj a b (Z.to_nat (path_depth max_depth)) (callPathResultLimit + 1) Hne Hnd)
    as (full & Hfn & Hf & Htake).
  set (ps := enumeratePaths _ _ _ _ _) in *. exists full. eexists. split; [done|]. split; [done|].
  cbn [Paths Truncated]. split; [|split].
  - intros p. rewrite Hf. unfold simple_path. by setoid_rewrite Hadj.
  - enough ((if callPathResultLimit <? length ps then take callPathResultLimit ps else ps) =
            take callPathResultLimit full) as -> by done.
    apply (f_equal (take callPathResultLimit)) in Htake. rewrite !take_take in Htake.
    replace (callPathResultLimit `min` (callPathResultLimit + 1)) with callPathResultLimit in Htake by lia.
    rewrite <-Htake. destruct (Nat.ltb_spec callPathResultLimit (length ps)); [done|]. by rewrite take_ge by lia.
  - apply (f_equal length) in Htake. rewrite !length_take in Htake.
    destruct (Nat.ltb_spec callPathResultLimit (length ps)), (Nat.ltb_spec callPathResultLimit (length full)); lia || done.
Qed.

(** A path that ends where it begins has no call. *)
Lemma simple_path_self {A} (edge : A → A → Prop) a d p : simple_path edge a a d p ↔ p = [a].
Proof.
  split.
  - intros (Hnd & Hh & Hl & _). destruct p as [|x p]; [done|]. injection Hh as ->. destruct p as [|y p]; [done|].
    exfalso. apply NoDup_cons in Hnd as [Hn _]. apply Hn. change (last (y :: p) = Some a) in Hl.
    rewrite last_lookup in Hl. by apply list_elem_of_lookup_2 in Hl.
  - intros ->. split; [apply NoDup_singleton|]. do 2 (split; [done|]). split; [cbn; lia|]. intros [|i] x y; [done|]. by destruct i.
Qed.

(** What stands for an id in a path: a symbol row with that id, among those of the
    target; the empty reference only where there is none. *)
Definition step_of (ix : index) (target : string) (id : Z) (r : SymbolRef) : Prop :=
  (∃ s, s ∈ ix_symbols ix ∧ s_id s = id ∧ in_target ix target s = true ∧ r = ref_of s) ∨
  (r = MkSymbolRef "" "" "" "" ∧ ∀ s, s ∈ ix_symbols ix → s_id s = id → in_target ix target s = false).

Lemma path_symbols_step ix target id :
  step_of ix target id (default (MkSymbolRef "" "" "" "") (path_symbols ix target !! id)).
Proof.
  unfold step_of. destruct (path_symbols ix target !! id) as [r|] eqn:E; cbn [default].
  - left. unfold path_symbols in E. apply elem_of_list_to_map_2, list_elem_of_fmap in E as (s & [= -> ->] & Hs).
    apply elem_of_reverse, list_elem_of_In, filter_In in Hs as [Hs Ht]. apply list_elem_of_In in Hs. eauto 10.
  - right. split; [done|]. intros s Hs Hid. destruct (in_target ix target s) eqn:Et; [|done].
    assert (is_Some (path_symbols ix target !! id)) as [x Hx] by (apply path_symbols_dom; eauto). by rewrite E in Hx.
Qed.

(** C23: [list_call_paths] answers with the first fifty, in one fixed enumeration
    without repetition, of all the call paths between two symbols that visit no
    symbol twice and have at most the allowed number of calls — of one symbol to
    itself, the path without a call; each is given by its number of calls and its
    symbols from the first to the last, and "truncated" says exactly that there are
    more. *)
Theorem list_call_paths_complete ix from_usr to_usr max_depth target a b :
  symbolIDByUSR ix from_usr = Ok a → symbolIDByUSR ix to_usr = Ok b →
  ∃ full resp, handleListCallPaths ix from_usr to_usr max_depth target = Ok resp ∧
    NoDup full ∧
    (∀ p, p ∈ full ↔ simple_path (call_edge ix target) a b (Z.to_nat (path_depth max_depth)) p) ∧
    Forall2 (λ p answer, answer.1 = (Z.of_nat (length p) - 1)%Z ∧ Forall2 (step_of ix target) p answer.2)
      (take callPathResultLimit full) (Paths resp) ∧
    Truncated resp = (callPathResultLimit <? length full).
Proof.
  intros Ha Hb.
  assert (∃ full resp, handleListCallPaths ix from_usr to_usr max_depth target = Ok resp ∧ NoDup full ∧
    (∀ p, p ∈ full ↔ simple_path (call_edge ix target) a b (Z.to_nat (path_depth max_depth)) p) ∧
    Paths resp = (λ p, ((Z.of_nat (length p) - 1)%Z,
      (λ id, default (MkSymbolRef "" "" "" "") (path_symbols ix target !! id)) <$> p)) <$> take callPathResultLimit full ∧
    Truncated resp = (callPathResultLimit <? length full)) as (full & resp & Hr & Hnd & Hf & Hp & Ht).
  { destruct (decide (a = b)) as [->|Hne]; [|by apply list_call_paths_answer].
    exists [[b]]. eexists. split; [unfold handleListCallPaths; rewrite Ha, Hb; cbn [mbind result_bind]|].
    { destruct (loadCgraphAdjacency ix target) as [adj byID] eqn:E.
      assert (byID = path_symbols ix target) as -> by (by injection E).
      unfold enumeratePaths. by rewrite Z.eqb_refl. }
    split; [apply NoDup_singleton|]. split; [|done].
    intros p. rewrite simple_path_self. apply list_elem_of_singleton. }
  exists full, resp. do 3 (split; [done|]). split; [|done]. rewrite Hp. apply Forall2_fmap_r, Forall_Forall2_diag.
  apply Forall_true. intros p. split; [done|]. cbn [snd]. apply Forall2_fmap_r, Forall_Forall2_diag, Forall_true.
  intros id. apply path_symbols_step.
Qed.

(** Three functions; the first calls the other two, the second calls the third. *)
Definition ex_symbol (id : Z) (name : string) : symbol_row :=
  SymbolRow id ("c:@F@" +:+ name) name "function" "external" "" false [name].
Definition ex_index : index :=
  Index [ex_symbol 1 "f"; ex_symbol 2 "g"; ex_symbol 3 "h"] []
    [EdgeRow 1 2 "compiler_cgraph" None; EdgeRow 1 3 "compiler_cgraph" None;
     EdgeRow 2 3 "compiler_cgraph" None] [].

Lemma list_call_paths_complete_witness :
  symbolIDByUSR ex_index "c:@F@f" = Ok 1%Z ∧ symbolIDByUSR ex_index "c:@F@h" = Ok 3%Z ∧
  ∃ resp, handleListCallPaths ex_index "c:@F@f" "c:@F@h" 0 "" = Ok resp ∧
    Paths resp = [(2, ref_of <$> [ex_symbol 1 "f"; ex_symbol 2 "g"; ex_symbol 3 "h"]);
                  (1, ref_of <$> [ex_symbol 1 "f"; ex_symbol 3 "h"])]%Z ∧ Truncated resp = false.
Proof.
  split; [reflexivity|]. split; [reflexivity|].
  destruct (list_call_paths_complete ex_index "c:@F@f" "c:@F@h" 0 "" 1 3)
    as (full & resp & Hr & _); [reflexivity|reflexivity|].
  exists resp. split; [exact Hr|]. vm_compute in Hr. injection Hr as <-. split; vm_compute; reflexivity.
Defined.

(** ** The batch lookup of targets *)

Section targets.
Context (ix : index).

(** The target names one symbol is reachable in, one per row of the view, sorted. *)
Definition reachable_targets (usr : string) : list string :=
  sort_strings (ix_symbols ix ≫= λ s,
    if String.eqb (s_usr s) usr then
      ix_resolutions ix ≫= λ lr,
        if String.eqb (lr_usr lr) usr then
          ix_targets ix ≫= λ t, if (t_id t =? lr_target lr)%Z then [t_name t] else []
        else []
    else []).

Lemma append_targets rows out u :
  default [] (foldl append_target out rows !! u) =
    default [] (out !! u) ++ (snd <$> List.filter (λ r : string * string, String.eqb r.1 u) rows).
Proof.
  revert out; induction rows as [|[k t] rows IH]; intros out; cbn [foldl List.filter]; [by rewrite app_nil_r|].
  rewrite IH. unfold append_target. cbn [fst snd]. destruct (String.eqb_spec k u) as [->|Hne].
  - rewrite lookup_insert_eq. cbn. by rewrite <-app_assoc.
  - by rewrite lookup_insert_ne.
Qed.

Lemma filter_bind_pair {A} (f : A → list (string * string)) (g : A → list string) u l :
  (∀ x, x ∈ l → snd <$> List.filter (λ r : string * string, String.eqb r.1 u) (f x) = g x) →
  snd <$> List.filter (λ r : string * string, String.eqb r.1 u) (l ≫= f) = l ≫= g.
Proof.
  induction l as [|x l IH]; intros H; [done|]. cbn [mbind list_bind]. rewrite List.filter_app, fmap_app.
  rewrite (H x) by left. f_equal. apply IH. intros y Hy. apply H. by right.
Qed.

Lemma filter_perm {A} (p : A → bool) l k : l ≡ₚ k → List.filter p l ≡ₚ List.filter p k.
Proof.
  induction 1 as [|x l k _ IH|x y l|l k j _ IH1 _ IH2]; cbn; [done| | |by etrans].
  - destruct (p x); [by constructor|done].
  - destruct (p x), (p y); [constructor|done..].
Qed.

(** Rows in the order of their names are in it key by key. *)
Lemma filter_sorted u (l : list (string * string)) :
  snd <$> List.filter (λ r, String.eqb r.1 u) (sort_by snd l) = sort_strings (snd <$> List.filter (λ r, String.eqb r.1 u) l).
Proof.
  apply (StronglySorted_unique String.le); [|apply sort_strings_sorted|].
  - assert (StronglySorted String.le (snd <$> sort_by snd l)) as H by (rewrite sort_by_keys; apply sort_strings_sorted).
    induction (sort_by snd l) as [|[k t] rows IH]; [constructor|]. cbn in H |- *. apply StronglySorted_inv in H as [H1 H2].
    destruct (String.eqb k u); [|by apply IH]. cbn. constructor; [by apply IH|].
    rewrite Forall_forall in H2 |- *. intros x (r & -> & Hr)%list_elem_of_fmap. apply H2, list_elem_of_fmap_2.
    apply list_elem_of_In, filter_In in Hr as [Hr _]. by apply list_elem_of_In.
  - rewrite sort_strings_perm. apply fmap_Permutation, filter_perm, sort_by_perm.
Qed.

Lemma reachability_map usrs u :
  u ∈ usrs → default [] (foldl append_target ∅ (reachability_rows ix usrs) !! u) = reachable_targets u.
Proof.
  intros Hu.
  rewrite append_targets, lookup_empty. cbn [default app]. unfold reachability_rows, reachable_targets.
  rewrite filter_sorted. f_equal. apply filter_bind_pair. intros s _. destruct (String.eqb_spec (s_usr s) u) as [->|Hne].
  - rewrite bool_decide_true by done. apply filter_bind_pair. intros lr _. destruct (String.eqb (lr_usr lr) u); [|done].
    apply filter_bind_pair. intros t _. destruct (_ =? _)%Z; cbn; [by rewrite String.eqb_refl|done].
  - assert (∀ k l, (∀ r : string * string, r ∈ l → r.1 = k) → k ≠ u → List.filter (λ r : string * string, String.eqb r.1 u) l = []) as Hnone.
    { intros k l. induction l as [|r l IH]; [done|]. intros Hk Hku. cbn. rewrite (Hk r) by left.
      rewrite (proj2 (String.eqb_neq _ _) Hku). apply IH; [|done]. intros r' Hr'. apply Hk. by right. }
    rewrite (Hnone (s_usr s)); [done| |done]. intros r. case_bool_decide; [|by intros ?%elem_of_nil].
    rewrite list_elem_of_bind. intros (lr & Hr & _). destruct (String.eqb _ _); [|by apply elem_of_nil in Hr].
    apply list_elem_of_bind in Hr as (t & Hr & _). destruct (_ =? _)%Z; [|by apply elem_of_nil in Hr].
    by apply list_elem_of_singleton in Hr as ->.
Qed.

(** The batch gives every symbol of it the targets a query of its own would. *)
Lemma targetsByReachability_one usrs u :
  u ∈ usrs → default [] (targetsByReachability ix usrs !! u) = reachable_targets u.
Proof. destruct usrs as [|v usrs]; [by intros ?%elem_of_nil|]. apply reachability_map. Qed.
End targets.

(** ** Callers and callees *)

Lemma elem_of_neighbor_query ix keep far also r :
  r ∈ neighbor_query ix keep far also ↔
  ∃ e s, e ∈ ix_edges ix ∧ keep e = true ∧ s ∈ ix_symbols ix ∧ s_id s = far e ∧ also s = true ∧ r = ref_of s.
Proof.
  unfold neighbor_query. rewrite (sort_by_perm Name), elem_of_remove_dups, list_elem_of_bind.
  setoid_rewrite list_elem_of_fmap. setoid_rewrite list_elem_of_In. setoid_rewrite filter_In.
  setoid_rewrite andb_true_iff. setoid_rewrite Z.eqb_eq. naive_solver.
Qed.

Lemma neighbors_ids ix near far usr target l :
  neighbors ix near far usr target = Ok (l, false) →
  ∃ id, symbolIDByUSR ix usr = Ok id ∧
    ∀ r, r ∈ l.*1 ↔ r ∈ neighbor_query ix (cgraph_edge near id) far (in_target ix target).
Proof.
  unfold neighbors. destruct (symbolIDByUSR ix usr) as [id|]; [|done]. cbn [mbind result_bind].
  set (q := neighbor_query _ _ _ _). destruct (Nat.ltb_spec callGraphNeighborLimit
    (length (take (callGraphNeighborLimit + 1) q))) as [|Hle]; [done|]. intros [= <-].
  exists id. split; [done|]. intros r. rewrite <-list_fmap_compose. cbn.
  rewrite (list_fmap_id (take _ q)). rewrite length_take in Hle. unfold callGraphNeighborLimit in Hle.
  by rewrite take_ge by lia.
Qed.

(** What the tools rely on of the tables they are given: the keys of symbols and
    targets are unique, so that looking one up is the inverse of its row.  The
    passes of a collect establish it. *)
Class Keyed (ix : index) : Prop := {
  keyed_ids : NoDup (s_id <$> ix_symbols ix);
  keyed_usrs : NoDup (s_usr <$> ix_symbols ix);
  keyed_targets : NoDup (t_name <$> ix_targets ix);
  keyed_target_ids : NoDup (t_id <$> ix_targets ix);
}.

(** The first row with a unique key is the row with that key. *)
Lemma find_key {A} (key : A → string) l k x :
  NoDup (key <$> l) → (List.find (λ a, String.eqb (key a) k) l = Some x ↔ x ∈ l ∧ key x = k).
Proof.
  intros Hnd. split.
  - intros [Hin <-%String.eqb_eq]%List.find_some. by apply list_elem_of_In in Hin.
  - intros [Hx <-]. induction l as [|a l IH]; [set_solver|]. rewrite fmap_cons, NoDup_cons in Hnd. destruct Hnd as [Hn Hnd].
    cbn. apply elem_of_cons in Hx as [->|Hx]; [by rewrite String.eqb_refl|].
    destruct (String.eqb_spec (key a) (key x)) as [E|]; [|by apply IH]. exfalso. apply Hn. rewrite E. by apply list_elem_of_fmap_2.
Qed.

Section keyed.
Context (ix : index) `{!Keyed ix}.

Lemma symbolIDByUSR_Ok usr id :
  symbolIDByUSR ix usr = Ok id ↔ ∃ s, s ∈ ix_symbols ix ∧ s_usr s = usr ∧ s_id s = id.
Proof.
  unfold symbolIDByUSR. pose proof (λ x, find_key s_usr (ix_symbols ix) usr x keyed_usrs) as Hf.
  destruct (List.find _ _) as [s|].
  - destruct (proj1 (Hf s) eq_refl) as [Hs Hu]. split; [intros [= <-]; by exists s|].
    intros (s' & Hs' & Hu' & <-). assert (Some s = Some s') as [= <-] by by apply Hf. done.
  - split; [done|]. intros (s & Hs & Hu & _). by assert (None = Some s) by by apply Hf.
Qed.

Lemma targetIDByName_Ok name tid :
  targetIDByName ix name = Ok tid ↔ ∃ t, t ∈ ix_targets ix ∧ t_name t = name ∧ t_id t = tid.
Proof.
  unfold targetIDByName. pose proof (λ x, find_key t_name (ix_targets ix) name x keyed_targets) as Hf.
  destruct (List.find _ _) as [t|].
  - destruct (proj1 (Hf t) eq_refl) as [Hs Hu]. split; [intros [= <-]; by exists t|].
    intros (t' & Ht' & Hu' & <-). assert (Some t = Some t') as [= <-] by by apply Hf. done.
  - split; [done|]. intros (t & Ht & Hu & _). by assert (None = Some t) by by apply Hf.
Qed.

(** Rows are told apart by their keys. *)
Lemma symbol_by_id s t : s ∈ ix_symbols ix → t ∈ ix_symbols ix → s_id s = s_id t → s = t.
Proof. apply (NoDup_fmap_inj_on s_id), keyed_ids. Qed.
Lemma symbol_by_usr s t : s ∈ ix_symbols ix → t ∈ ix_symbols ix → s_usr s = s_usr t → s = t.
Proof. apply (NoDup_fmap_inj_on s_usr), keyed_usrs. Qed.
Lemma target_by_id s t : s ∈ ix_targets ix → t ∈ ix_targets ix → t_id s = t_id t → s = t.
Proof. apply (NoDup_fmap_inj_on t_id), keyed_target_ids. Qed.
End keyed.

(** The two source views agree: one symbol is listed among the callers of another
    exactly when the other is among its callees, as long as neither list is cut. *)
Theorem callers_callees_converse ix s t ls lt :
  Keyed ix → s ∈ ix_symbols ix → t ∈ ix_symbols ix →
  handleListCallers ix (s_usr t) "" = Ok (ls, false) →
  handleListCallees ix (s_usr s) "" = Ok (lt, false) →
  ref_of s ∈ ls.*1 ↔ ref_of t ∈ lt.*1.
Proof.
  intros Hk Hs Ht (i & Ei & Hl)%neighbors_ids (j & Ej & Hr)%neighbors_ids.
  apply symbolIDByUSR_Ok in Ei as (t' & Ht' & Et & <-), Ej as (s' & Hs' & Es & <-); [|done..].
  apply (symbol_by_usr ix) in Et as ->, Es as ->; [|done..].
  rewrite Hl, Hr, !elem_of_neighbor_query.
  assert (∀ a b, a ∈ ix_symbols ix → b ∈ ix_symbols ix → ref_of a = ref_of b → a = b) as Href.
  { intros a b Ha Hb [= E _ _ _]. by apply (symbol_by_usr ix). }
  unfold cgraph_edge, in_target. cbn. setoid_rewrite andb_true_iff. setoid_rewrite Z.eqb_eq.
  split; intros (e & x & He & [Hn Hsrc] & Hx & Hfar & _ & E); apply Href in E as <-; try done;
    eexists e, _; repeat split; eauto.
Qed.

Lemma callers_callees_converse_witness :
  Keyed ex_index ∧ ref_of (ex_symbol 1 "f") ∈ [ref_of (ex_symbol 1 "f")] ∧
  ∃ ls lt, handleListCallers ex_index "c:@F@h" "" = Ok (ls, false) ∧
    handleListCallees ex_index "c:@F@f" "" = Ok (lt, false) ∧
    ref_of (ex_symbol 1 "f") ∈ ls.*1 ∧ ref_of (ex_symbol 3 "h") ∈ lt.*1.
Proof.
  assert (Keyed ex_index) as Hk by (split; by_decide).
  split; [done|]. split; [left|].
  do 2 eexists. split; [vm_compute; reflexivity|]. split; [vm_compute; reflexivity|].
  match goal with |- ?P ∧ _ => assert P as H by by_decide end.
  split; [exact H|]. revert H.
  apply (callers_callees_converse ex_index (ex_symbol 1 "f") (ex_symbol 3 "h"));
    [exact Hk|left|right; right; left|vm_compute; reflexivity..].
Defined.
