(* ===== verification/SourceTools.v ===== *)
(** * The source plane of the server ([internal/mcp/location.go],
    [internal/mcp/source_tools.go])

    Reading, listing, verifying and searching the stored sources.  An index is
    the blob store's tables with the targets; [unzstd] is the codec and
    [read_file] the live file system. *)

From S2P Require Import Prelude GoStrings Paths Store.
From Stdlib Require Import ZArith Lia.

Import BlobStore.

(** ** Lines *)

(** [bytes.Split] at newlines without the empty piece a final newline leaves. *)
Definition file_lines (content : string) : list string :=
  let lines := SplitByte NL content in
  match last lines with
  | Some "" => removelast lines
  | _ => lines
  end.

Record Snippet := MkSnippet { StartLine : Z; EndLine : Z; Text : string }.

Definition snippetContext : Z := 5.

(** [lines[start-1:end]], joined. *)
Definition line_range (lines : list string) (start end_ : Z) : string :=
  Join (take (Z.to_nat end_ - Z.to_nat (start - 1)) (drop (Z.to_nat (start - 1)) lines)) (str1 NL).

Definition extractSnippet (content : string) (line context : Z) : option Snippet :=
  if (line <=? 0)%Z then None
  else
    let lines := file_lines content in
    let n := Z.of_nat (length lines) in
    if (n =? 0)%Z then None
    else
      let start := Z.max (line - context) 1 in
      let end_ := Z.min (line + context) n in
      if (end_ <? start)%Z then None
      else Some (MkSnippet start end_ (line_range lines start end_)).

Definition sliceLines (content : string) (start end_ : Z) : string * Z :=
  let lines := file_lines content in
  let total := Z.of_nat (length lines) in
  if (total =? 0)%Z then ("", 0%Z)
  else
    let start := if (start <=? 0)%Z then 1%Z else start in
    let end_ := if (end_ <=? 0)%Z || (total <? end_)%Z then total else end_ in
    if (end_ <? start)%Z then ("", total) else (line_range lines start end_, total).

Definition clampRange (v lo hi : Z) : Z :=
  if (v <? lo)%Z then lo else if (hi <? v)%Z then hi else v.

(** ** Paths and kinds *)

(** [filepath.Ext] *)
Definition Ext (p : string) : string :=
  let base := match LastIndex p "/" with Some i => sdrop (i + 1) p | None => p end in
  match LastIndex base "." with Some i => sdrop i base | None => "" end.

Definition isCSourceExt (p : string) : bool :=
  bool_decide (ToLower (Ext p) ∈ [".c"; ".cc"; ".cpp"; ".cxx"; ".c++"; ".m"; ".mm"]).
Definition isHeaderExt (p : string) : bool :=
  bool_decide (ToLower (Ext p) ∈ [".h"; ".hh"; ".hpp"; ".hxx"; ".h++"; ".inc"]).

Definition matchesKind (kind path : string) (isGenerated : bool) : bool :=
  if bool_decide (kind ∈ [""; "any"; "all"]) then true
  else if String.eqb kind "generated" then isGenerated
  else if String.eqb kind "source" then isCSourceExt path
  else if String.eqb kind "header" then isHeaderExt path
  else true.

Definition searchDirOf (path : string) : string :=
  match LastIndex path "/" with
  | Some (S i) => stake (S i) path
  | _ => "."
  end.

(** ** The index *)

Record source_index := SourceIndex {
  si_tables : tables;
  si_targets : list target_row;
  si_target_sources : list target_source_row;
}.

Inductive source_error :=
| ErrBlobMissing (hash : string)
| ErrDecode (hash : string)
| ErrNoRows
| ErrNotIndexed (path : string)
| ErrUnknownTarget (target : string)
| ErrNothingToCompare
| ErrNoProjectRoot
| ErrReadLive (path : string)
| ErrEmptyPattern
| ErrRegexCompile.

Inductive table := TSources | TGenerated | TExternal.

Inductive live_file := Live (content : string) | LiveMissing | LiveError.

Section server.
Context (unzstd : string → option string) (ix : source_index) (ProjectRoot : string).

Let w := si_tables ix.

Definition readBlob (hash : string) : result source_error string :=
  match blobs w !! hash with
  | None => Err (ErrBlobMissing hash)
  | Some b => match unzstd (b_content b) with Some c => Ok c | None => Err (ErrDecode hash) end
  end.

(** The [blob_hash] of a key in one of the three tables. *)
Definition hash_of (t : table) (key : string) : option string :=
  match t with
  | TSources => src_blob <$> sources w !! key
  | TGenerated => generated_sources w !! key
  | TExternal => external_sources w !! key
  end.

Definition readByColumn (t : table) (key : string) : result source_error (string * string) :=
  match hash_of t key with
  | None => Err ErrNoRows
  | Some hash => content ← readBlob hash; Ok (content, hash)
  end.

Definition readSourceByPath (path : string) : result source_error (string * string) :=
  if HasPrefix path "/" then readByColumn TExternal path
  else match readByColumn TSources path with
  | Err ErrNoRows =>
    match readByColumn TGenerated path with
    | Err ErrNoRows => Err (ErrNotIndexed path)
    | r => r
    end
  | r => r
  end.

(** *** Locations *)

Record Location := MkLocation {
  Path : string;
  Line : Z;
  Column : Z;
  BlobHash : string;
  LocSnippet : option Snippet;
  AbsolutePath : string;
}.

Definition absolutePathFor (path : string) : string :=
  if String.eqb ProjectRoot "" || IsAbs path then "" else PathJoin [ProjectRoot; path].

Definition enrichLocation (loc : Location) (includeSnippet : bool) : Location :=
  if String.eqb (Path loc) "" then loc
  else
    let abs := if negb (String.eqb ProjectRoot "") && negb (IsAbs (Path loc))
               then PathJoin [ProjectRoot; Path loc] else AbsolutePath loc in
    let hash := if String.eqb (BlobHash loc) ""
                then default "" (src_blob <$> sources w !! Path loc) else BlobHash loc in
    let snippet :=
      if negb includeSnippet || (Line loc =? 0)%Z || String.eqb hash "" then LocSnippet loc
      else match readBlob hash with
           | Ok content => extractSnippet content (Line loc) snippetContext
           | Err _ => LocSnippet loc
           end in
    MkLocation (Path loc) (Line loc) (Column loc) hash snippet abs.

(** *** [read_source] *)

Record ReadSourceResponse := MkReadSourceResponse {
  rs_Path : string;
  rs_BlobHash : string;
  rs_LineCount : Z;
  rs_StartLine : Z;
  rs_EndLine : Z;
  rs_Content : string;
}.

Definition handleReadSource (path : string) (start end_ : Z) : result source_error ReadSourceResponse :=
  '(content, hash) ← readSourceByPath path;
  let '(body, total) := sliceLines content start end_ in
  Ok (MkReadSourceResponse path hash total (if (0 <? start)%Z then start else 0%Z)
        (if (0 <? end_)%Z then end_ else 0%Z) body).

(** *** Targets *)

Definition filesForTarget (target : string) : result source_error (gset string) :=
  let files : gset string := list_to_set (si_target_sources ix ≫= λ ts,
    if existsb (λ t, (t_id t =? ts_target_id ts)%Z && String.eqb (t_name t) target) (si_targets ix)
    then [ts_file ts] else []) in
  if bool_decide (files = ∅) then Err (ErrUnknownTarget target) else Ok files.

Definition targetsByFile (file : string) : list string :=
  sort_strings (si_target_sources ix ≫= λ ts,
    if String.eqb (ts_file ts) file
    then t_name <$> List.filter (λ t, (t_id t =? ts_target_id ts)%Z) (si_targets ix) else []).

(** The target filter: [None] when no target is asked for. *)
Definition wanted_files (target : string) : result source_error (option (gset string)) :=
  if String.eqb target "" then Ok None else Some <$> filesForTarget target.

Definition wanted (files : option (gset string)) (path : string) : bool :=
  match files with None => true | Some fs => bool_decide (path ∈ fs) end.

(** The rows of a table, in key order. *)
Definition table_keys (t : table) : list string :=
  match t with
  | TSources => sorted_keys (sources w)
  | TGenerated => sorted_keys (generated_sources w)
  | TExternal => sorted_keys (external_sources w)
  end.

(** *** [list_source_files] *)

Record SourceFile := MkSourceFile {
  sf_Path : string;
  sf_BlobHash : string;
  sf_Size : Z;
  sf_IsGenerated : bool;
  sf_Targets : list string;
}.

Definition blob_size (hash : string) : Z :=
  match blobs w !! hash with Some b => b_size b | None => 0%Z end.

(** One of the three loops over a table's keys in order. *)
Definition list_table (t : table) (files : option (gset string)) (prefix kind : string) : list SourceFile :=
  table_keys t ≫= λ k,
    let hash := default "" (hash_of t k) in
    let gen := match t with
               | TSources => match sources w !! k with Some r => src_generated r | None => false end
               | TGenerated => true
               | TExternal => false
               end in
    if (String.eqb prefix "" || HasPrefix k prefix) && wanted files k && matchesKind kind k gen
    then [MkSourceFile k hash (blob_size hash) gen (match t with TSources => targetsByFile k | _ => [] end)]
    else [].

(** The tables a filter leaves: a target has only members of [sources]. *)
Definition tables_for (files : option (gset string)) (includeExternal : bool) : list table :=
  match files with
  | Some _ => [TSources]
  | None => TSources :: TGenerated :: (if includeExternal then [TExternal] else [])
  end.

Definition handleListSourceFiles (target prefix kind : string) (includeExternal : bool) :
    result source_error (list SourceFile) :=
  files ← wanted_files target;
  Ok (tables_for files includeExternal ≫= λ t, list_table t files prefix (ToLower kind)).

(** *** [verify_source] and [list_source_drift] *)

Record VerifySourceResponse := MkVerifySourceResponse {
  vs_IndexedHash : string;
  vs_ExpectedHash : string;
  vs_LiveHash : string;
  vs_Matches : bool;
  vs_LiveMissing : bool;
  vs_Source : string;
}.

Context (sha256 : string → string) (read_file : string → live_file).

Definition handleVerifySource (path expected : string) : result source_error VerifySourceResponse :=
  match hash_of TSources path with
  | None => Err (ErrNotIndexed path)
  | Some indexed =>
    if negb (String.eqb expected "")
    then Ok (MkVerifySourceResponse indexed expected "" (EqualFold indexed expected) false "expected_hash")
    else if String.eqb ProjectRoot "" then Err ErrNothingToCompare
    else
      let abs := PathJoin [ProjectRoot; path] in
      match read_file abs with
      | LiveMissing => Ok (MkVerifySourceResponse indexed "" "" false true "live_file")
      | LiveError => Err (ErrReadLive abs)
      | Live data => Ok (MkVerifySourceResponse indexed "" (sha256 data)
                           (String.eqb (sha256 data) indexed) false "live_file")
      end
  end.

Record DriftEntry := MkDriftEntry {
  de_Path : string;
  de_IndexedHash : string;
  de_LiveHash : string;
  de_LiveMissing : bool;
}.

(** The body of the loop over the rows of [sources]. *)
Definition drift_step (files : option (gset string)) (prefix : string) (st : list DriftEntry * Z)
    (path : string) : result source_error (list DriftEntry * Z) :=
  let indexed := default "" (hash_of TSources path) in
  if negb (String.eqb prefix "" || HasPrefix path prefix) || negb (wanted files path) then Ok st
  else
    let abs := PathJoin [ProjectRoot; path] in
    match read_file abs with
    | LiveError => Err (ErrReadLive abs)
    | LiveMissing => Ok (st.1 ++ [MkDriftEntry path indexed "" true], (st.2 + 1)%Z)
    | Live data =>
      let live := sha256 data in
      Ok (if String.eqb live indexed then st.1 else st.1 ++ [MkDriftEntry path indexed live false],
          (st.2 + 1)%Z)
    end.

Definition handleListSourceDrift (target prefix : string) : result source_error (list DriftEntry * Z) :=
  if String.eqb ProjectRoot "" then Err ErrNoProjectRoot
  else
    files ← wanted_files target;
    '(drifted, checked) ← foldM (drift_step files prefix) (sorted_keys (sources w)) ([], 0%Z);
    Ok (sort_by de_Path drifted, checked).

(** *** [search_source] *)

Record SearchMatch := MkSearchMatch {
  sm_Path : string;
  sm_Line : Z;
  sm_Column : Z;
  sm_Snippet : option Snippet;
  sm_MatchText : string;
}.

Record SearchFile := MkSearchFile {
  sx_Path : string;
  sx_BlobHash : string;
  sx_AbsolutePath : string;
  sx_Matches : nat;
}.

Record SearchResponse := MkSearchResponse {
  sr_Files : list SearchFile;
  sr_Matches : list SearchMatch;
  sr_Total : nat;
  sr_Returned : nat;
  sr_FilesWithMatches : nat;
  sr_ByFile : gmap string nat;
  sr_ByDir : gmap string nat;
  sr_Truncated : bool;
  sr_ScanTruncated : bool;
  sr_FilesScanned : nat;
}.

Definition searchSourceDefaultLimit : Z := 200.
Definition searchSourceMaxLimit : Z := 2000.
Definition searchSourceMaxContext : Z := 20.
Definition searchSourceScanLimit : N := 100000.
Definition searchSourceMaxByFile : nat := 200.

(** The occurrences of a literal in a line that do not overlap, as (column, text);
    a round consumes at least one byte. *)
Fixpoint literal_hits (fuel : nat) (pattern line : string) (start : nat) : list (Z * string) :=
  match fuel with
  | 0 => []
  | S fuel =>
    match Index (sdrop start line) pattern with
    | None => []
    | Some idx =>
      (Z.of_nat (start + idx + 1), pattern)
        :: literal_hits fuel pattern line (start + idx + String.length pattern)
    end
  end.

(** The hits of a line: [re] is [FindAllIndex] of the compiled pattern. *)
Definition line_hits (re : option (string → list (nat * nat))) (pattern line : string) :
    list (Z * string) :=
  match re with
  | Some find => (λ h, (Z.of_nat (h.1 + 1), stake (h.2 - h.1) (sdrop h.1 line))) <$> find line
  | None => literal_hits (S (String.length line)) pattern line 0
  end.

Definition blob_hits (re : option (string → list (nat * nat))) (pattern content : string) :
    list (Z * Z * string) :=
  mjoin (imap (λ i line, (λ h, (Z.of_nat (i + 1), h.1, h.2)) <$> line_hits re pattern line)
           (file_lines content)).

Definition buildSearchMatch (path : string) (content : string) (ctx : Z) (is_regex : bool)
    (h : Z * Z * string) : SearchMatch :=
  let '(line, col, text) := h in
  MkSearchMatch path line col (extractSnippet content line ctx) (if is_regex then text else "").

(** [searchInBlob]: the matches returned so far, the hits of this file, and whether
    the ceiling of the scan was reached; [total] counts the files before. *)
Fixpoint record_hits (mk : Z * Z * string → SearchMatch) (limit : nat) (total : nat)
    (hits : list (Z * Z * string)) (ms : list SearchMatch) (n : nat) : list SearchMatch * nat * bool :=
  match hits with
  | [] => (ms, n, false)
  | h :: hits =>
    let n := S n in
    let ms := if length ms <? limit then ms ++ [mk h] else ms in
    if (searchSourceScanLimit <=? N.of_nat (total + n))%N then (ms, n, true)
    else record_hits mk limit total hits ms n
  end.

Record search_state := SearchState {
  ss_files : list SearchFile;
  ss_matches : list SearchMatch;
  ss_total : nat;
  ss_byFile : gmap string nat;
  ss_byDir : gmap string nat;
  ss_scanned : nat;
  ss_full : bool;
}.

Definition bump (k : string) (n : nat) (m : gmap string nat) : gmap string nat :=
  <[k := default 0 (m !! k) + n]> m.

(** One row; after [scanFull] the loops have been left. *)
Definition search_file (re : option (string → list (nat * nat))) (pattern kind prefix : string)
    (files : option (gset string)) (ctx : Z) (limit : nat) (t : table) (st : search_state)
    (k : string) : search_state :=
  if ss_full st then st
  else
    let hash := default "" (hash_of t k) in
    let gen := match t with TGenerated => true | _ => false end in
    if negb (String.eqb prefix "" || HasPrefix k prefix) || negb (wanted files k)
       || negb (matchesKind kind k gen)
    then st
    else match readBlob hash with
    | Err _ => st
    | Ok content =>
      let '(ms, n, full) :=
        record_hits (buildSearchMatch k content ctx (match re with Some _ => true | None => false end))
          limit (ss_total st) (blob_hits re pattern content) (ss_matches st) 0 in
      if n =? 0 then
        SearchState (ss_files st) ms (ss_total st) (ss_byFile st) (ss_byDir st) (S (ss_scanned st)) full
      else
        SearchState
          (if default 0 (ss_byFile st !! k) =? 0
           then ss_files st ++ [MkSearchFile k hash (absolutePathFor k) 0] else ss_files st)
          ms (ss_total st + n) (bump k n (ss_byFile st)) (bump (searchDirOf k) n (ss_byDir st))
          (S (ss_scanned st)) full
    end.

(** The highest counts first, ties by key. *)
Definition count_le (a b : string * nat) : Prop := b.2 < a.2 ∨ a.2 = b.2 ∧ String.le a.1 b.1.
#[export] Instance count_le_dec : RelDecision count_le.
Proof. intros a b. unfold count_le. apply _. Defined.

Definition topCounts (m : gmap string nat) (n : nat) : gmap string nat :=
  list_to_map (take n (merge_sort count_le (map_to_list m))).

Definition search_all (re : option (string → list (nat * nat))) (pattern kind prefix : string)
    (files : option (gset string)) (includeExternal : bool) (ctx : Z) (limit : nat) : search_state :=
  foldl (λ st t, foldl (search_file re pattern kind prefix files ctx limit t) st (table_keys t))
    (SearchState [] [] 0 ∅ ∅ 0 false) (tables_for files includeExternal).

(** [compile] is [regexp.Compile], giving [FindAllIndex]. *)
Definition handleSearchSource (compile : string → option (string → list (nat * nat)))
    (pattern : string) (useRegex : bool) (target prefix kind : string) (includeExternal : bool)
    (context limit : Z) : result source_error SearchResponse :=
  if String.eqb pattern "" then Err ErrEmptyPattern
  else
    let ctx := clampRange context 0 searchSourceMaxContext in
    let limit := Z.to_nat (clampRange limit 1 searchSourceMaxLimit) in
    re ← (if useRegex
          then match compile pattern with Some f => Ok (Some f) | None => Err ErrRegexCompile end
          else Ok None);
    files ← wanted_files target;
    let st := search_all re pattern (ToLower kind) prefix files includeExternal ctx limit in
    let returned := length (ss_matches st) in
    Ok (MkSearchResponse
          ((λ f, MkSearchFile (sx_Path f) (sx_BlobHash f) (sx_AbsolutePath f)
                   (default 0 (ss_byFile st !! sx_Path f))) <$> ss_files st)
          (ss_matches st) (ss_total st) returned (length (ss_files st))
          (topCounts (ss_byFile st) searchSourceMaxByFile)
          (topCounts (ss_byDir st) searchSourceMaxByFile)
          (returned <? ss_total st) (ss_full st) (ss_scanned st)).
End server.

(** ** Lines: properties *)

Lemma file_lines_clean content : Forall (λ w, lacks NL w = true) (file_lines content).
Proof.
  assert (∀ l, l ⊆ SplitByte NL content → Forall (λ w, lacks NL w = true) l) as H.
  { intros l Hl. apply Forall_forall. intros w Hw. by apply (SplitByte_no_sep NL content), Hl. }
  unfold file_lines. repeat case_match; apply H; try done.
  intros w Hw. rewrite (app_removelast_last "" (SplitByte_nonempty NL content)).
  apply elem_of_app. by left.
Qed.

(** A range of lines splits back into those lines. *)
Lemma line_range_split content a b :
  (1 ≤ a)%Z → (a ≤ b)%Z → (b ≤ Z.of_nat (length (file_lines content)))%Z →
  SplitByte NL (line_range (file_lines content) a b) =
    take (Z.to_nat b - Z.to_nat (a - 1)) (drop (Z.to_nat (a - 1)) (file_lines content)).
Proof.
  intros Ha Hab Hb. unfold line_range. apply SplitByte_Join.
  - intros E. apply (f_equal length) in E. rewrite length_take, length_drop in E. cbn in E. lia.
  - apply Forall_take, Forall_drop, file_lines_clean.
Qed.

(** A snippet around a line of the file contains that line, stays inside the file
    and at most the context away, and its text is exactly the lines it names. *)
Theorem extractSnippet_window content line ctx :
  (1 ≤ line ≤ Z.of_nat (length (file_lines content)))%Z → (0 ≤ ctx)%Z →
  ∃ sn, extractSnippet content line ctx = Some sn ∧
    (1 ≤ StartLine sn ≤ line)%Z ∧ (line ≤ EndLine sn ≤ Z.of_nat (length (file_lines content)))%Z ∧
    (line - ctx ≤ StartLine sn)%Z ∧ (EndLine sn ≤ line + ctx)%Z ∧
    SplitByte NL (Text sn) =
      take (Z.to_nat (EndLine sn - StartLine sn + 1))
        (drop (Z.to_nat (StartLine sn - 1)) (file_lines content)).
Proof.
  intros Hl Hc. unfold extractSnippet. set (n := Z.of_nat (length (file_lines content))) in *.
  rewrite (proj2 (Z.leb_gt line 0)), (proj2 (Z.eqb_neq n 0)), (proj2 (Z.ltb_ge _ _)) by lia.
  eexists. split; [done|]. cbn [StartLine EndLine Text]. do 4 (split; [lia|]).
  rewrite line_range_split by lia. f_equal. lia.
Qed.

Definition ex_text : string := unlines ["int a;"; "int b;"; "int c;"].

Lemma extractSnippet_window_witness :
  (1 ≤ 3 ≤ Z.of_nat (length (file_lines ex_text)))%Z ∧
  ∃ sn, extractSnippet ex_text 3 2 = Some sn ∧ (3 - 2 ≤ StartLine sn)%Z ∧ (EndLine sn ≤ 3 + 2)%Z.
Proof.
  split; [by_decide|].
  destruct (extractSnippet_window ex_text 3 2) as (sn & H & _ & _ & Hs & He & _);
    [by_decide|by_decide|]. exists sn. split; [exact H|]. split; [exact Hs|exact He].
Defined.

Lemma Join_app l k sep : l ≠ [] → k ≠ [] → Join (l ++ k) sep = Join l sep +:+ sep +:+ Join k sep.
Proof.
  intros Hl Hk. induction l as [|x l IH]; [done|]. cbn [app].
  destruct l as [|y l]; [by rewrite Join_cons|].
  rewrite !Join_cons by done. rewrite IH by done. by rewrite !sapp_assoc.
Qed.

(** Reading a file in two pages loses nothing and repeats nothing: the page up to
    a line and the page from the next one make up the whole read. *)
Theorem sliceLines_pages content k :
  (1 ≤ k < Z.of_nat (length (file_lines content)))%Z →
  (sliceLines content 0 0).1 =
    (sliceLines content 1 k).1 +:+ str1 NL +:+ (sliceLines content (k + 1) 0).1.
Proof.
  intros Hk. unfold sliceLines. set (ls := file_lines content) in *. set (n := Z.of_nat (length ls)) in *.
  rewrite (proj2 (Z.eqb_neq n 0)) by lia. cbn [Z.leb Z.compare orb].
  rewrite (proj2 (Z.leb_gt k 0)), (proj2 (Z.leb_gt (k + 1) 0)) by lia. cbn [orb].
  rewrite (proj2 (Z.ltb_ge n k)), (proj2 (Z.ltb_ge k 1)), (proj2 (Z.ltb_ge n 1)),
    (proj2 (Z.ltb_ge n (k + 1))) by lia. cbn [fst]. unfold line_range.
  replace (Z.to_nat (1 - 1)) with 0 by lia. replace (Z.to_nat (k + 1 - 1)) with (Z.to_nat k) by lia.
  rewrite !drop_0, !Nat.sub_0_r. subst n. rewrite Nat2Z.id.
  rewrite (take_ge ls) by lia. rewrite (take_ge (drop _ ls)) by (rewrite length_drop; lia).
  rewrite <-Join_app.
  - by rewrite take_drop.
  - intros E. apply (f_equal length) in E. rewrite length_take in E. cbn in E. lia.
  - intros E. apply (f_equal length) in E. rewrite length_drop in E. cbn in E. lia.
Qed.

Lemma sliceLines_pages_witness :
  (1 ≤ 2 < Z.of_nat (length (file_lines ex_text)))%Z ∧
  (sliceLines ex_text 0 0).1 = (sliceLines ex_text 1 2).1 +:+ str1 NL +:+ (sliceLines ex_text 3 0).1.
Proof.
  split; [by_decide|]. apply (sliceLines_pages ex_text 2). by_decide.
Defined.

(** ** Search: the hits of a line *)

(** [pattern] is found in [line] at byte [p]. *)
Definition occurs (pattern line : string) (p : nat) : Prop := HasPrefix (sdrop p line) pattern = true.

Lemma occurs_length pattern line p : pattern ≠ "" → occurs pattern line p → p < String.length line.
Proof.
  unfold occurs. intros Hne [r Hr]%HasPrefix_true. apply (f_equal String.length) in Hr. rewrite slen_sdrop, slen_app in Hr.
  destruct pattern; [done|]. cbn in Hr. lia.
Qed.

(** Every literal hit is an occurrence, and every occurrence overlaps a hit that starts
    no later: the scan is to the right and does not run out of rounds. *)
Lemma literal_hits_sound fuel pattern line start c t :
  (c, t) ∈ literal_hits fuel pattern line start → t = pattern ∧ ∃ q, c = Z.of_nat (q + 1) ∧ occurs pattern line q.
Proof.
  revert start; induction fuel as [|fuel IH]; intros start; cbn [literal_hits]; [by intros ?%elem_of_nil|].
  destruct (Index _ _) as [i|] eqn:E; [|by intros ?%elem_of_nil]. intros [[= -> ->]|H]%elem_of_cons; [|by eapply IH].
  split; [done|]. exists (start + i). split; [done|]. unfold occurs. rewrite <-sdrop_sdrop. by apply Index_first in E as [H _].
Qed.

Lemma literal_hits_complete fuel pattern line start p :
  pattern ≠ "" → String.length line - start < fuel → start ≤ p → occurs pattern line p →
  ∃ q, (Z.of_nat (q + 1), pattern) ∈ literal_hits fuel pattern line start ∧ q ≤ p < q + String.length pattern.
Proof.
  intros Hne. revert start; induction fuel as [|fuel IH]; intros start Hf Hs Ho; [lia|]. cbn [literal_hits].
  pose proof (occurs_length _ _ _ Hne Ho) as Hl.
  assert (HasPrefix (sdrop (p - start) (sdrop start line)) pattern = true) as Ho'.
  { rewrite sdrop_sdrop. by replace (start + (p - start)) with p by lia. }
  destruct (Index (sdrop start line) pattern) as [i|] eqn:E; [|by rewrite (Index_None _ _ E) in Ho'].
  apply Index_first in E as [_ Hno]. assert (i ≤ p - start) as Hi.
  { destruct (decide (i ≤ p - start)); [done|]. by rewrite Hno in Ho' by lia. }
  destruct (decide (p < start + i + String.length pattern)) as [Hlt|Hge].
  { exists (start + i). split; [apply elem_of_cons; by left|lia]. }
  assert (0 < String.length pattern) by (destruct pattern; [done|cbn; lia]).
  destruct (IH (start + i + String.length pattern)) as (q & Hq & Hb); [lia|lia|done|].
  exists q. split; [apply elem_of_cons; by right|done].
Qed.

(** The literal hits of a file, by line. *)
Lemma blob_hits_literal pattern content n c t :
  (n, c, t) ∈ blob_hits None pattern content →
  t = pattern ∧ ∃ i line q, n = Z.of_nat (i + 1) ∧ c = Z.of_nat (q + 1) ∧ file_lines content !! i = Some line ∧
    occurs pattern line q.
Proof.
  unfold blob_hits. intros (l & Hl & Hin)%list_elem_of_join. apply elem_of_lookup_imap in Hin as (i & line & -> & Hi).
  apply list_elem_of_fmap in Hl as ([c' t'] & [= -> -> ->] & Hh). apply literal_hits_sound in Hh as (-> & q & -> & Ho).
  split; [done|]. by exists i, line, q.
Qed.

Lemma blob_hits_found pattern content i line p :
  pattern ≠ "" → file_lines content !! i = Some line → occurs pattern line p →
  ∃ q, (Z.of_nat (i + 1), Z.of_nat (q + 1), pattern) ∈ blob_hits None pattern content ∧ q ≤ p < q + String.length pattern.
Proof.
  intros Hne Hi Ho. destruct (literal_hits_complete (S (String.length line)) pattern line 0 p) as (q & Hq & Hb);
    [done|lia|lia|done|].
  exists q. split; [|done]. unfold blob_hits. apply list_elem_of_join. eexists. split; cycle 1.
  - apply elem_of_lookup_imap. exists i, line. split; [reflexivity|done].
  - apply list_elem_of_fmap. exists (Z.of_nat (q + 1), pattern). done.
Qed.

(** ** Search: the row limit does not touch the totals *)

Lemma returned_fewer {A} (cap : nat) (l : list A) : (length (take cap l) <? length l) = (cap <? length l).
Proof. rewrite length_take. destruct (Nat.ltb_spec (cap `min` length l) (length l)), (Nat.ltb_spec cap (length l)); lia || done. Qed.

Section search.
Context (unzstd : string → option string) (ix : source_index) (ProjectRoot : string).
Context (re : option (string → list (nat * nat))) (pattern kind prefix : string).
Context (files : option (gset string)) (includeExternal : bool) (ctx : Z) (limit : nat).

Lemma record_hits_spec mk total hits ms n :
  match record_hits mk limit total hits ms n with
  | (ms', n', false) => n' = n + length hits ∧ ms' = ms ++ take (limit - length ms) (mk <$> hits)
  | (ms', n', true) => n < n' ≤ n + length hits ∧ length ms' ≤ Nat.max (length ms) limit
  end.
Proof.
  revert ms n; induction hits as [|h hits IH]; intros ms n; cbn [record_hits].
  { cbn. rewrite take_nil, app_nil_r. lia || (split; [lia|done]). }
  set (ms1 := if length ms <? limit then ms ++ [mk h] else ms).
  assert (length ms1 ≤ Nat.max (length ms) limit) as Hl.
  { subst ms1. destruct (Nat.ltb_spec (length ms) limit); rewrite ?length_app; cbn; lia. }
  destruct (_ <=? _)%N; [cbn; lia|].
  specialize (IH ms1 (S n)). destruct (record_hits _ _ _ _ _ _) as [[ms' n'] []]; cbn [length].
  - lia.
  - destruct IH as [-> ->]. split; [lia|]. subst ms1. rewrite fmap_cons.
    destruct (Nat.ltb_spec (length ms) limit) as [Hlt|Hge].
    + rewrite length_app, <-app_assoc. cbn [length].
      replace (limit - length ms) with (S (limit - (length ms + 1))) by lia. done.
    + by replace (limit - length ms) with 0 by lia.
Qed.

(** What a row contributes when the filters admit it and its blob reads. *)
Definition row_matches (t : table) (k : string) : list SearchMatch :=
  if negb (String.eqb prefix "" || HasPrefix k prefix) || negb (wanted files k)
     || negb (matchesKind kind k (match t with TGenerated => true | _ => false end))
  then []
  else match readBlob unzstd ix (default "" (hash_of ix t k)) with
  | Ok content =>
    buildSearchMatch k content ctx (match re with Some _ => true | None => false end)
      <$> blob_hits re pattern content
  | Err _ => []
  end.

Definition all_matches : list SearchMatch :=
  tables_for files includeExternal ≫= λ t, table_keys ix t ≫= row_matches t.

Definition search_inv (ms : list SearchMatch) (st : search_state) : Prop :=
  ss_full st = false → ss_total st = length ms ∧ ss_matches st = take limit ms.

Lemma search_file_inv t st k ms :
  search_inv ms st →
  search_inv (ms ++ row_matches t k)
    (search_file unzstd ix ProjectRoot re pattern kind prefix files ctx limit t st k).
Proof.
  intros Hinv. unfold search_file, row_matches. destruct (ss_full st) eqn:Ef; [by intros ?; congruence|].
  destruct (Hinv Ef) as [Ht Hm].
  destruct (_ || _); [intros _; by rewrite app_nil_r|].
  destruct (readBlob _ _ _) as [content|]; [|intros _; by rewrite app_nil_r].
  set (mk := buildSearchMatch _ _ _ _). set (hits := blob_hits _ _ _).
  pose proof (record_hits_spec mk (ss_total st) hits (ss_matches st) 0) as Hr.
  destruct (record_hits _ _ _ _ _ _) as [[ms' n] full]. 
  assert (full = false → ms' = take limit (ms ++ (mk <$> hits)) ∧ ss_total st + n = length (ms ++ (mk <$> hits)))
    as Hend.
  { intros ->. destruct Hr as [-> ->]. rewrite Ht, Hm, length_take, take_app, length_app, length_fmap.
    split; [|lia]. f_equal.
    destruct (decide (length ms ≤ limit)); [by rewrite Nat.min_r by lia|].
    rewrite Nat.min_l by lia. by replace (limit - length ms) with (limit - limit) by lia. }
  destruct (Nat.eqb_spec n 0) as [->|]; intros Hf; cbn in Hf |- *; destruct (Hend Hf) as [H1 H2]; [|done].
  split; [lia|done].
Qed.

Lemma search_all_inv :
  search_inv all_matches
    (search_all unzstd ix ProjectRoot re pattern kind prefix files includeExternal ctx limit).
Proof.
  unfold search_all, all_matches.
  apply (foldl_inv_pre (λ ts st, search_inv (ts ≫= λ t, table_keys ix t ≫= row_matches t) st)).
  { intros _. cbn. by rewrite take_nil. }
  intros pre t st _ Hst. rewrite bind_app. cbn [mbind list_bind]. rewrite app_nil_r.
  apply (foldl_inv_pre (λ ks st, search_inv ((pre ≫= λ t, table_keys ix t ≫= row_matches t) ++ (ks ≫= row_matches t)) st)).
  { cbn. by rewrite app_nil_r. }
  intros ks k st' _ IH. rewrite bind_app. cbn [mbind list_bind]. rewrite app_nil_r, app_assoc.
  by apply search_file_inv.
Qed.
End search.

(** A literal search without a target: the first of all matches, up to the limit. *)
Lemma literal_search unzstd ix root compile pattern prefix kind ext context limit resp :
  handleSearchSource unzstd ix root compile pattern false "" prefix kind ext context limit = Ok resp →
  sr_ScanTruncated resp = false →
  let cap := Z.to_nat (clampRange limit 1 searchSourceMaxLimit) in
  let all := all_matches unzstd ix None pattern (ToLower kind) prefix None ext (clampRange context 0 searchSourceMaxContext) in
  pattern ≠ "" ∧ sr_Matches resp = take cap all ∧ sr_Truncated resp = (cap <? length all).
Proof.
  unfold handleSearchSource. destruct (String.eqb_spec pattern ""); [done|]. cbn [mbind result_bind wanted_files String.eqb].
  intros [= <-] Hf. cbn [sr_ScanTruncated sr_Matches sr_Truncated] in *.
  destruct (search_all_inv unzstd ix root None pattern (ToLower kind) prefix None ext
    (clampRange context 0 searchSourceMaxContext) (Z.to_nat (clampRange limit 1 searchSourceMaxLimit)) Hf) as [-> ->].
  split; [done|]. split; [done|]. by rewrite returned_fewer.
Qed.

(** C24: Unless the scan ceiling was reached, a search — by the compiled expression when
    one is asked for, and by the text itself when not — reports the true number of
    matches over every file its filters admit, returns the first of them up to the
    row limit, and says it is truncated exactly when some are missing.  (The kind
    "generated" admits the table of the build directory's files only: the flag of a
    project source is not read, see [search_kind_generated].) *)
Theorem search_source_exact unzstd ix root compile pattern useRegex target prefix kind ext context limit resp :
  handleSearchSource unzstd ix root compile pattern useRegex target prefix kind ext context limit = Ok resp →
  sr_ScanTruncated resp = false →
  ∃ re files, let cap := Z.to_nat (clampRange limit 1 searchSourceMaxLimit) in
    let all := all_matches unzstd ix re pattern (ToLower kind) prefix files ext
                 (clampRange context 0 searchSourceMaxContext) in
    wanted_files ix target = Ok files ∧
    (if useRegex then ∃ f, compile pattern = Some f ∧ re = Some f else re = None) ∧
    sr_Total resp = length all ∧ sr_Matches resp = take cap all ∧
    sr_Truncated resp = (cap <? length all).
Proof.
  unfold handleSearchSource. destruct (String.eqb pattern ""); [done|].
  destruct (if useRegex then _ else _) as [re|] eqn:Er; [|done]. cbn [mbind result_bind].
  destruct (wanted_files ix target) as [files|] eqn:Ew; [|done]. cbn [mbind result_bind].
  intros [= <-]. cbn [sr_ScanTruncated sr_Total sr_Matches sr_Truncated]. intros Hf.
  exists re, files. cbn zeta. split; [done|].
  split; [destruct useRegex; [destruct (compile pattern) as [f|]; [injection Er as <-; by exists f|done]|by injection Er]|].
  destruct (search_all_inv unzstd ix root re pattern (ToLower kind) prefix files ext
    (clampRange context 0 searchSourceMaxContext) (Z.to_nat (clampRange limit 1 searchSourceMaxLimit)) Hf) as [-> ->].
  split; [done|]. split; [done|]. by rewrite returned_fewer.
Qed.

(** Two stored files; the store keeps contents as they are. *)
Definition ex_store : source_index :=
  SourceIndex (Tables {["h1" := BlobRow 6 "int a;"; "h2" := BlobRow 13 "int a, aa;"]}
                 {["a.c" := SourceRow "h1" false; "b.c" := SourceRow "h2" false]} ∅ ∅) [] [].

(** An expression that matches one letter anywhere. *)
Definition ex_compile (p : string) : option (string → list (nat * nat)) :=
  if String.eqb p "[a]" then Some (λ s, omap (λ n, if String.eqb (stake 1 (sdrop n s)) "a" then Some (n, S n) else None) (seq 0 (String.length s)))
  else None.

Lemma search_source_exact_witness :
  (∃ resp, handleSearchSource Some ex_store "/p" ex_compile "a" false "" "" "" false 0 2 = Ok resp ∧
    sr_ScanTruncated resp = false ∧ sr_Total resp = 4 ∧
    sr_Truncated resp = (Z.to_nat (clampRange 2 1 searchSourceMaxLimit) <? sr_Total resp)) ∧
  (∃ resp f, handleSearchSource Some ex_store "/p" ex_compile "[a]" true "" "" "" false 0 200 = Ok resp ∧
    ex_compile "[a]" = Some f ∧
    sr_Total resp = length (all_matches Some ex_store (Some f) "[a]" "" "" None false 0) ∧ sr_Total resp = 4).
Proof.
  split.
  - eexists. split; [vm_compute; reflexivity|]. split; [reflexivity|]. split; [reflexivity|].
    edestruct (search_source_exact Some ex_store "/p" ex_compile "a" false "" "" "" false 0 2)
      as (re & files & Hex); [vm_compute; reflexivity|reflexivity|].
    cbv zeta in Hex. destruct Hex as (_ & _ & Ht & _ & Htr). rewrite Htr, Ht. reflexivity.
  - do 2 eexists. split; [vm_compute; reflexivity|]. split; [reflexivity|].
    edestruct (search_source_exact Some ex_store "/p" ex_compile "[a]" true "" "" "" false 0 200)
      as (re & files & Hex); [vm_compute; reflexivity|reflexivity|].
    cbv zeta in Hex. destruct Hex as (Hw & (f & Hf & Hre) & Ht & _ & _).
    injection Hf as <-. subst re. injection Hw as <-. split; [exact Ht|reflexivity].
Defined.

(** The filters of [search_source] are documented as those of [list_source_files], and
    "generated" as the flag of the row, but of the project's sources the search never
    sees the flag: a generated source is listed, and never searched, as one. *)
Theorem search_kind_generated :
  let ix := SourceIndex (Tables {["h1" := BlobRow 6 "int a;"]} {["a.c" := SourceRow "h1" true]} ∅ ∅) [] [] in
  (∃ fs, handleListSourceFiles ix "" "" "generated" false = Ok fs ∧ length fs = 1) ∧
  (∃ resp, handleSearchSource Some ix "/p" (λ _, None) "a" false "" "" "generated" false 0 200 = Ok resp ∧ sr_Total resp = 0).
Proof. split; eexists; (split; [vm_compute; reflexivity|reflexivity]). Qed.

(** ** Reading what was stored *)

(** A path that [sources] holds is read from there with the stored bytes, whatever
    the table of generated files holds under the same name. *)
Theorem readSourceByPath_sources unzstd ix path r b content :
  HasPrefix path "/" = false →
  sources (si_tables ix) !! path = Some r → blobs (si_tables ix) !! src_blob r = Some b →
  unzstd (b_content b) = Some content →
  readSourceByPath unzstd ix path = Ok (content, src_blob r).
Proof.
  intros Hp Hr Hb Hc. unfold readSourceByPath, readByColumn, hash_of, readBlob. rewrite Hp, Hr. cbn.
  by rewrite Hb, Hc.
Qed.

(** The drift report lists exactly the stored sources the filters admit whose live
    file is missing or has another digest. *)
Theorem source_drift_exact ix root sha256 read_file target prefix drifted checked :
  handleListSourceDrift ix root sha256 read_file target prefix = Ok (drifted, checked) →
  ∃ files, wanted_files ix target = Ok files ∧
    ∀ path, path ∈ de_Path <$> drifted ↔
      ∃ r, sources (si_tables ix) !! path = Some r ∧
        (String.eqb prefix "" || HasPrefix path prefix) = true ∧ wanted files path = true ∧
        match read_file (PathJoin [root; path]) with
        | Live data => sha256 data ≠ src_blob r
        | LiveMissing => True
        | LiveError => False
        end.
Proof.
  unfold handleListSourceDrift. destruct (String.eqb root ""); [done|].
  destruct (wanted_files ix target) as [files|]; [|done]. cbn [mbind result_bind].
  destruct (foldM _ _ _) as [[dr n]|] eqn:E; [|done]. cbn [mbind result_bind]. intros [= <- <-].
  exists files. split; [done|]. intros path. rewrite sort_by_keys, elem_of_sort_strings.
  set (bad := λ path, (String.eqb prefix "" || HasPrefix path prefix) = true ∧ wanted files path = true ∧
    match read_file (PathJoin [root; path]) with
    | Live data => sha256 data ≠ default "" (hash_of ix TSources path)
    | LiveMissing => True | LiveError => False end).
  assert (∀ p, p ∈ de_Path <$> dr ↔ p ∈ sorted_keys (sources (si_tables ix)) ∧ bad p) as H.
  { revert E. apply (foldM_inv_pre (λ pre (st : list DriftEntry * Z), ∀ p, p ∈ de_Path <$> st.1 ↔ p ∈ pre ∧ bad p)).
    { set_solver. }
    intros pre k post [ds c] [ds' c'] _ IH Hstep p. cbn [fst] in *. rewrite elem_of_app, list_elem_of_singleton.
    unfold drift_step in Hstep. cbn [fst snd] in Hstep.
    assert (p ∈ de_Path <$> ds' ↔ p ∈ de_Path <$> ds ∨ p = k ∧ bad k) as ->; [|rewrite IH; naive_solver].
    subst bad. cbv beta. destruct (String.eqb prefix "" || HasPrefix k prefix), (wanted files k);
      cbn [negb orb] in Hstep; try (injection Hstep as <- _; naive_solver).
    assert (∀ e, p ∈ de_Path <$> ds ++ [e] ↔ p ∈ de_Path <$> ds ∨ p = de_Path e) as Hsnoc.
    { intros e. rewrite fmap_app, elem_of_app. cbn [fmap list_fmap]. by rewrite list_elem_of_singleton. }
    destruct (read_file _) as [data| |]; [|injection Hstep as <- _; rewrite Hsnoc; cbn; clear; intuition|done].
    injection Hstep as <- _.
    change (hash_of ix TSources k) with (src_blob <$> sources (si_tables ix) !! k).
    destruct (String.eqb_spec (sha256 data) (default "" (src_blob <$> sources (si_tables ix) !! k))) as [Eh|Eh];
      rewrite ?Hsnoc; cbn [de_Path]; clear -Eh; intuition. }
  rewrite H, elem_of_sorted_keys. subst bad. cbv beta. unfold hash_of. split.
  - intros [[r Hr] Hb]. exists r. rewrite Hr in Hb. done.
  - intros (r & Hr & Hb). split; [by exists r|]. rewrite Hr. done.
Qed.

Lemma source_drift_exact_witness :
  ∃ drifted checked,
    handleListSourceDrift ex_store "/p" (λ s, s) (λ p, if String.eqb p "/p/a.c" then Live "h1" else LiveMissing) "" ""
      = Ok (drifted, checked) ∧
    "b.c" ∈ de_Path <$> drifted.
Proof.
  do 2 eexists. split; [vm_compute; reflexivity|].
  edestruct (source_drift_exact ex_store "/p" (λ s, s)
    (λ p, if String.eqb p "/p/a.c" then Live "h1" else LiveMissing) "" "") as (files & Hf & H);
    [vm_compute; reflexivity|].
  injection Hf as <-. apply H. eexists. split; [reflexivity|]. split; [reflexivity|].
  split; reflexivity.
Defined.
