(* ===== verification/Inlining.v ===== *)
(** * The inlining tools ([internal/mcp/callgraph_runtime_tools.go])

    What happened to the calls of a function: GCC's records, the instances that
    survived into the objects, the cgraph's decisions, and the verdict
    [explain_call] draws from them. *)

From S2P Require Import Prelude GoStrings Store CallGraph SourceTools.
From Stdlib Require Import ZArith Lia.

(** ** Data *)

Record inline_index := InlineIndex {
  in_index : index;
  in_sources : source_index;
  in_decisions : list inline_decision_row;
  in_records : list inline_record_row;
  in_instances : list inline_instance_row;
}.

Record inlineQuery := InlineQuery { q_limit : nat; q_snippets : bool }.

Definition inlineRowDefaultLimit : Z := 50.
Definition inlineRowMaxLimit : Z := 1000.
Definition verdictScanLimit : N := 10000.

Record InlineRecordRow := MkInlineRecordRow {
  rr_Caller : SymbolRef;
  rr_Callee : SymbolRef;
  rr_Pass : string;
  rr_Inlined : bool;
  rr_Reason : string;
  rr_Location : Location;
  rr_Object : string;
}.

Record InlineInstanceRow := MkInstanceRow {
  ri_Caller : SymbolRef;
  ri_Callee : SymbolRef;
  ri_Depth : Z;
  ri_ParentCallee : option SymbolRef;
  ri_Location : Location;
  ri_Object : string;
}.

Record ObjectInlineVerdict := MkVerdict {
  v_Object : string;
  v_Verdict : string;
  v_Pass : string;
  v_Reason : string;
}.

Definition VerdictInlinedAndPresent : string := "inlined_and_present".
Definition VerdictInlinedThenFolded : string := "inlined_then_folded".
Definition VerdictDeclined : string := "declined".
Definition VerdictNoDecisionLogged : string := "no_decision_logged".
Definition VerdictMixed : string := "mixed".

(** ** Verdicts *)

Record acc := Acc { hasInstance : bool; inlined : bool; declPass : string; declReason : string }.

Definition get (m : gmap string acc) (obj : string) : acc :=
  default (Acc false false "" "") (m !! obj).

Definition add_instance (m : gmap string acc) (obj : string) : gmap string acc :=
  let a := get m obj in <[obj := Acc true (inlined a) (declPass a) (declReason a)]> m.

(** One record: its object, pass, whether it inlined, and the reason. *)
Definition add_verdict_record (m : gmap string acc) (r : InlineRecordRow) : gmap string acc :=
  let a := get m (rr_Object r) in
  <[rr_Object r :=
      if rr_Inlined r then Acc (hasInstance a) true (declPass a) (declReason a)
      else if negb (String.eqb (declPass a) "inline")
           then Acc (hasInstance a) (inlined a) (rr_Pass r) (rr_Reason r)
           else a]> m.

Definition object_verdict (obj : string) (a : acc) : ObjectInlineVerdict :=
  if hasInstance a then MkVerdict obj VerdictInlinedAndPresent "" ""
  else if inlined a then MkVerdict obj VerdictInlinedThenFolded "" ""
  else MkVerdict obj VerdictDeclined (declPass a) (declReason a).

Definition perObjectVerdicts (records : list InlineRecordRow) (instances : list InlineInstanceRow) :
    list ObjectInlineVerdict :=
  let byObject := foldl add_verdict_record (foldl add_instance ∅ (ri_Object <$> instances)) records in
  (λ obj, object_verdict obj (get byObject obj)) <$> sorted_keys byObject.

Definition overallVerdict (per : list ObjectInlineVerdict) : string * string :=
  match per with
  | [] => (VerdictNoDecisionLogged, "")
  | p :: rest =>
    if existsb (λ q, negb (String.eqb (v_Verdict q) (v_Verdict p))) rest then (VerdictMixed, "")
    else if String.eqb (v_Verdict p) VerdictDeclined then (v_Verdict p, v_Reason p)
    else (v_Verdict p, "")
  end.

(** ** Queries *)

Section server.
Context (unzstd : string → option string) (ix : inline_index) (ProjectRoot : string).

(** The symbol a row refers to: none for a dangling id, which the join drops. *)
Definition sym (id : Z) : option symbol_row :=
  List.find (λ s, (s_id s =? id)%Z) (ix_symbols (in_index ix)).

Definition locate (file : string) (line col : Z) (snippets : bool) : Location :=
  enrichLocation unzstd (in_sources ix) ProjectRoot (MkLocation file line col "" None "") snippets.

Definition record_row (snippets : bool) (r : inline_record_row) : option InlineRecordRow :=
  cr ← sym (ir_caller r); ce ← sym (ir_callee r);
  Some (MkInlineRecordRow (ref_of cr) (ref_of ce) (ir_pass r) (ir_inlined r) (ir_reason r)
          (locate (ir_file r) (ir_line r) (ir_column r) snippets) (ir_object r)).

(** The body inlined around it: named without its signature, which is not selected. *)
Definition parent_ref (s : symbol_row) : option SymbolRef :=
  if String.eqb (s_usr s) "" then None else Some (MkSymbolRef (s_usr s) (s_name s) (s_kind s) "").

Definition instance_row (snippets : bool) (i : inline_instance_row) : option InlineInstanceRow :=
  cr ← sym (ii_caller i); ce ← sym (ii_callee i);
  Some (MkInstanceRow (ref_of cr) (ref_of ce) (ii_depth i) (p ← ii_parent i; s ← sym p; parent_ref s)
          (locate (ii_file i) (ii_line i) (ii_column i) snippets) (ii_object i)).

Definition inlineRecords (q : inlineQuery) (p : inline_record_row → bool) : list InlineRecordRow * bool :=
  cut (q_limit q)
    (order_by (λ r, [inl (rr_Pass r); inl (Name (rr_Callee r));
                                  inl (Path (rr_Location r)); inr (Line (rr_Location r))])
       (omap (record_row (q_snippets q)) (List.filter p (in_records ix)))).

Definition inlineInstances (q : inlineQuery) (p : inline_instance_row → bool) :
    list InlineInstanceRow * bool :=
  cut (q_limit q)
    (order_by (λ r, [inr (ri_Depth r); inl (Name (ri_Callee r));
                                  inl (Path (ri_Location r)); inr (Line (ri_Location r))])
       (omap (instance_row (q_snippets q)) (List.filter p (in_instances ix)))).

(** *** Summary *)

Record InliningSummary := MkInliningSummary {
  is_Records : nat;
  is_RecordsInlined : nat;
  is_RecordsDeclined : nat;
  is_RecordsByPass : gmap string nat;
  is_Instances : nat;
  is_InstancesByDepth : gmap string nat;
  is_CgraphEdges : nat;
}.

(** GROUP BY with its counts. *)
Definition group_by {A} `{EqDecision A} (l : list A) : list (A * nat) :=
  (λ k, (k, length (filter (λ x, x = k) l))) <$> remove_dups l.

(** One row of the first query: (pass, inlined) and its count. *)
Definition sum_group (s : InliningSummary) (g : (string * bool) * nat) : InliningSummary :=
  let '((pass, yes), n) := g in
  MkInliningSummary (is_Records s + n)
    (if yes then is_RecordsInlined s + n else is_RecordsInlined s)
    (if yes then is_RecordsDeclined s else is_RecordsDeclined s + n)
    (<[pass := default 0 (is_RecordsByPass s !! pass) + n]> (is_RecordsByPass s))
    (is_Instances s) (is_InstancesByDepth s) (is_CgraphEdges s).

Definition sum_depth (s : InliningSummary) (g : Z * nat) : InliningSummary :=
  MkInliningSummary (is_Records s) (is_RecordsInlined s) (is_RecordsDeclined s) (is_RecordsByPass s)
    (is_Instances s + g.2) (<[dec g.1 := g.2]> (is_InstancesByDepth s)) (is_CgraphEdges s).

(** [col] is the caller's or the callee's id. *)
Definition inliningSummary (col : inline_record_row → Z) (icol : inline_instance_row → Z)
    (dcol : inline_decision_row → Z) (id : Z) : InliningSummary :=
  let recs := List.filter (λ r, (col r =? id)%Z) (in_records ix) in
  let insts := List.filter (λ i, (icol i =? id)%Z) (in_instances ix) in
  let s := foldl sum_group (MkInliningSummary 0 0 0 ∅ 0 ∅ 0)
             (group_by ((λ r, (ir_pass r, ir_inlined r)) <$> recs)) in
  let s := foldl sum_depth s (group_by (ii_depth <$> insts)) in
  MkInliningSummary (is_Records s) (is_RecordsInlined s) (is_RecordsDeclined s) (is_RecordsByPass s)
    (is_Instances s) (is_InstancesByDepth s)
    (length (List.filter (λ d, (dcol d =? id)%Z) (in_decisions ix))).

(** *** The handlers *)

Record DescribeInliningResponse := MkDescribeInliningResponse {
  di_Summary : InliningSummary;
  di_Records : list InlineRecordRow;
  di_Instances : list InlineInstanceRow;
  di_CgraphEdges : list (SymbolRef * bool);
  di_Truncated : bool;
}.

Definition query_limit (limit : Z) : nat := Z.to_nat (clampRange limit 1 inlineRowMaxLimit).

Definition handleDescribeInlining (caller_usr : string) (limit : Z) (snippets : bool) :
    result query_error DescribeInliningResponse :=
  id ← symbolIDByUSR (in_index ix) caller_usr;
  let out := sort_by (λ e : SymbolRef * bool, Name e.1)
    (omap (λ d, (λ c, (ref_of c, id_inlined d)) <$> sym (id_callee d))
       (List.filter (λ d, (id_caller d =? id)%Z) (in_decisions ix))) in
  let q := InlineQuery (query_limit limit) snippets in
  let '(records, recTrunc) := inlineRecords q (λ r, (ir_caller r =? id)%Z) in
  let '(instances, instTrunc) := inlineInstances q (λ i, (ii_caller i =? id)%Z) in
  let edgesTrunc := q_limit q <? length out in
  Ok (MkDescribeInliningResponse (inliningSummary ir_caller ii_caller id_caller id) records instances
        (if edgesTrunc then take (q_limit q) out else out) (recTrunc || instTrunc || edgesTrunc)).

Record ListInlineInstancesResponse := MkListInlineInstancesResponse {
  li_Summary : InliningSummary;
  li_Instances : list InlineInstanceRow;
  li_Records : list InlineRecordRow;
  li_Truncated : bool;
}.

Definition handleListInlineInstances (callee_usr : string) (limit : Z) (snippets : bool) :
    result query_error ListInlineInstancesResponse :=
  id ← symbolIDByUSR (in_index ix) callee_usr;
  let q := InlineQuery (query_limit limit) snippets in
  let '(instances, instTrunc) := inlineInstances q (λ i, (ii_callee i =? id)%Z) in
  let '(records, recTrunc) := inlineRecords q (λ r, (ir_callee r =? id)%Z) in
  Ok (MkListInlineInstancesResponse (inliningSummary ir_callee ii_callee id_callee id)
        instances records (instTrunc || recTrunc)).

Record ExplainCallResponse := MkExplainCallResponse {
  ec_Verdict : string;
  ec_Reason : string;
  ec_PerObject : list ObjectInlineVerdict;
  ec_Records : list InlineRecordRow;
  ec_Instances : list InlineInstanceRow;
  ec_CgraphEdgeInlined : option bool;
  ec_LinkedEdge : bool;
  ec_Truncated : bool;
}.

Definition enrich_record (r : InlineRecordRow) : InlineRecordRow :=
  MkInlineRecordRow (rr_Caller r) (rr_Callee r) (rr_Pass r) (rr_Inlined r) (rr_Reason r)
    (enrichLocation unzstd (in_sources ix) ProjectRoot (rr_Location r) true) (rr_Object r).
Definition enrich_instance (i : InlineInstanceRow) : InlineInstanceRow :=
  MkInstanceRow (ri_Caller i) (ri_Callee i) (ri_Depth i) (ri_ParentCallee i)
    (enrichLocation unzstd (in_sources ix) ProjectRoot (ri_Location i) true) (ri_Object i).

Definition pair_records (a b : Z) : list InlineRecordRow :=
  (inlineRecords (InlineQuery (N.to_nat verdictScanLimit) false)
     (λ r, (ir_caller r =? a)%Z && (ir_callee r =? b)%Z)).1.
Definition pair_instances (a b : Z) : list InlineInstanceRow :=
  (inlineInstances (InlineQuery (N.to_nat verdictScanLimit) false)
     (λ i, (ii_caller i =? a)%Z && (ii_callee i =? b)%Z)).1.

Definition handleExplainCall (caller_usr callee_usr target : string) (limit : Z) (snippets : bool) :
    result query_error ExplainCallResponse :=
  a ← symbolIDByUSR (in_index ix) caller_usr;
  b ← symbolIDByUSR (in_index ix) callee_usr;
  let records := pair_records a b in
  let instances := pair_instances a b in
  let lim := query_limit limit in
  let rs := if lim <? length records then take lim records else records in
  let is_ := if lim <? length instances then take lim instances else instances in
  let ds := List.filter (λ d, (id_caller d =? a)%Z && (id_callee d =? b)%Z) (in_decisions ix) in
  let cgraph := match ds with [] => None | _ => Some (existsb id_inlined ds) end in
  let on_target e := String.eqb target "" ||
    match List.find (λ t, String.eqb (t_name t) target) (ix_targets (in_index ix)) with
    | Some t => bool_decide (e_target e = Some (t_id t))
    | None => false
    end in
  let linked := existsb (λ e, (e_caller e =? a)%Z && (e_callee e =? b)%Z &&
                              String.eqb (e_source e) "objdump" && on_target e)
                  (ix_edges (in_index ix)) in
  let per := perObjectVerdicts records instances in
  let '(verdict, reason) := overallVerdict per in
  Ok (MkExplainCallResponse verdict reason per
        (if snippets then enrich_record <$> rs else rs)
        (if snippets then enrich_instance <$> is_ else is_)
        cgraph linked ((lim <? length records) || (lim <? length instances))).
End server.

(** ** The verdict of an object *)

Definition in_object (obj : string) (rs : list InlineRecordRow) : list InlineRecordRow :=
  filter (λ r, rr_Object r = obj) rs.

Definition declined (rs : list InlineRecordRow) : list InlineRecordRow :=
  filter (λ r, rr_Inlined r = false) rs.

(** The record whose pass and reason a declined object shows: the first of the IPA
    pass, else the last. *)
Definition decisive (rs : list InlineRecordRow) : option InlineRecordRow :=
  match List.find (λ r, String.eqb (rr_Pass r) "inline") rs with
  | Some r => Some r
  | None => last rs
  end.

Lemma decisive_snoc rs r :
  decisive (rs ++ [r]) =
    match decisive rs with
    | Some d => if String.eqb (rr_Pass d) "inline" then Some d else Some r
    | None => Some r
    end.
Proof.
  unfold decisive. rewrite last_snoc.
  assert (List.find (λ r, String.eqb (rr_Pass r) "inline") (rs ++ [r]) =
    match List.find (λ r, String.eqb (rr_Pass r) "inline") rs with
    | Some y => Some y | None => if String.eqb (rr_Pass r) "inline" then Some r else None end) as ->.
  { clear. induction rs as [|x rs IH]; [done|]. cbn. by destruct (String.eqb (rr_Pass x) "inline"). }
  destruct (List.find _ rs) as [d|] eqn:E.
  - apply find_some in E as [_ ->]. done.
  - destruct (last rs) as [d|] eqn:El; [|by destruct (String.eqb (rr_Pass r) "inline")].
    assert (String.eqb (rr_Pass d) "inline" = false) as ->.
    { apply last_Some in El as [k ->]. apply (find_none _ _ E). apply list_elem_of_In. set_solver. }
    by destruct (String.eqb (rr_Pass r) "inline").
Qed.

(** What the accumulator of an object holds after the instances and the records. *)
Definition acc_of (insts : list string) (rs : list InlineRecordRow) (obj : string) : acc :=
  let d := decisive (declined (in_object obj rs)) in
  Acc (bool_decide (obj ∈ insts)) (existsb rr_Inlined (in_object obj rs))
    (default "" (rr_Pass <$> d)) (default "" (rr_Reason <$> d)).

Lemma add_instances_spec insts :
  let m := foldl add_instance ∅ insts in
  (∀ obj, obj ∈ dom m ↔ obj ∈ insts) ∧ ∀ obj, get m obj = acc_of insts [] obj.
Proof.
  apply (foldl_inv_pre (λ pre (m : gmap string acc),
    (∀ obj, obj ∈ dom m ↔ obj ∈ pre) ∧ ∀ obj, get m obj = acc_of pre [] obj)).
  { split; [set_solver|]. intros obj. unfold get. by rewrite lookup_empty. }
  intros pre o m _ [Hd Hg]. unfold add_instance. split.
  - intros obj. rewrite dom_insert_L, elem_of_union, elem_of_singleton, Hd, elem_of_app, list_elem_of_singleton.
    tauto.
  - intros obj. unfold get at 1. destruct (decide (obj = o)) as [->|Hne].
    + rewrite lookup_insert_eq, Hg. cbn. unfold acc_of. cbn. by rewrite bool_decide_true by set_solver.
    + rewrite lookup_insert_ne by done. change (get m obj = acc_of (pre ++ [o]) [] obj). rewrite Hg.
      unfold acc_of. f_equal. apply bool_decide_ext. set_solver.
Qed.

Lemma add_records_spec insts rs :
  let m := foldl add_verdict_record (foldl add_instance ∅ insts) rs in
  (∀ obj, obj ∈ dom m ↔ obj ∈ insts ∨ obj ∈ rr_Object <$> rs) ∧ ∀ obj, get m obj = acc_of insts rs obj.
Proof.
  destruct (add_instances_spec insts) as [Hd0 Hg0]. cbn in Hd0, Hg0.
  apply (foldl_inv_pre (λ pre (m : gmap string acc),
    (∀ obj, obj ∈ dom m ↔ obj ∈ insts ∨ obj ∈ rr_Object <$> pre) ∧ ∀ obj, get m obj = acc_of insts pre obj)).
  { split; [|done]. intros obj. rewrite Hd0. set_solver. }
  intros pre r m _ [Hd Hg]. unfold add_verdict_record. split.
  - intros obj. rewrite dom_insert_L, elem_of_union, elem_of_singleton, Hd, fmap_app, elem_of_app.
    cbn [fmap list_fmap]. rewrite list_elem_of_singleton. tauto.
  - intros obj. unfold get at 1. unfold acc_of, in_object, declined. rewrite filter_app, filter_cons, filter_nil.
    destruct (decide (obj = rr_Object r)) as [->|Hne].
    + rewrite lookup_insert_eq, decide_True, Hg by done. cbn [default]. unfold acc_of, in_object, declined.
      cbn [hasInstance inlined declPass declReason].
      set (ms := filter (λ r0, rr_Object r0 = rr_Object r) pre). rewrite existsb_app, filter_app, filter_cons, filter_nil.
      cbn [existsb]. destruct (rr_Inlined r) eqn:Ei.
      * rewrite decide_False by congruence. rewrite app_nil_r. cbn. by rewrite orb_true_r.
      * rewrite decide_True, decisive_snoc by done. cbn [orb]. rewrite orb_false_r.
        set (ds := filter _ ms). destruct (decisive ds) as [d|] eqn:Ed; cbn; [|done].
        by destruct (String.eqb (rr_Pass d) "inline"); cbn.
    + rewrite lookup_insert_ne by done. rewrite decide_False, app_nil_r by congruence. apply Hg.
Qed.

(** Every object that an instance or a record names gets one verdict, in order: a
    surviving body wins, then any record that inlined; an object that only
    declined shows the words of its first IPA-pass record, or of the last record
    when that pass said nothing. *)
Theorem perObjectVerdicts_spec records instances :
  v_Object <$> perObjectVerdicts records instances =
    sort_strings (remove_dups ((ri_Object <$> instances) ++ (rr_Object <$> records))) ∧
  ∀ v, v ∈ perObjectVerdicts records instances →
    let rs := in_object (v_Object v) records in
    (v_Verdict v = VerdictInlinedAndPresent ↔ v_Object v ∈ ri_Object <$> instances) ∧
    (v_Verdict v = VerdictInlinedThenFolded ↔
       (v_Object v ∉ ri_Object <$> instances) ∧ ∃ r, r ∈ rs ∧ rr_Inlined r = true) ∧
    (v_Verdict v = VerdictDeclined ↔
       (v_Object v ∉ ri_Object <$> instances) ∧ ∀ r, r ∈ rs → rr_Inlined r = false) ∧
    (v_Verdict v = VerdictDeclined →
       ∃ r, decisive rs = Some r ∧ v_Pass v = rr_Pass r ∧ v_Reason v = rr_Reason r).
Proof.
  unfold perObjectVerdicts. destruct (add_records_spec (ri_Object <$> instances) records) as [Hd Hg].
  set (m := foldl add_verdict_record _ records) in *. cbn zeta in Hd, Hg.
  assert (∀ obj, v_Object (object_verdict obj (get m obj)) = obj) as Hobj.
  { intros obj. unfold object_verdict. by repeat case_match. }
  split.
  - rewrite <-list_fmap_compose. rewrite (list_fmap_ext _ id (sorted_keys m)) by (intros; apply Hobj).
    rewrite list_fmap_id. unfold sorted_keys. apply sort_strings_proper, NoDup_Permutation.
    + apply NoDup_fst_map_to_list.
    + apply NoDup_remove_dups.
    + intros x. rewrite elem_of_remove_dups, elem_of_app, <-Hd, <-elem_of_sort_strings.
      change (sort_strings (map_to_list m).*1) with (sorted_keys m). by rewrite elem_of_sorted_keys, elem_of_dom.
  - intros v (obj & -> & Hin)%list_elem_of_fmap. rewrite Hobj. cbn zeta.
    apply elem_of_sorted_keys, elem_of_dom, Hd in Hin. rewrite Hg. unfold object_verdict, acc_of. cbn [hasInstance inlined].
    set (rs := in_object obj records).
    assert (existsb rr_Inlined rs = true ↔ ∃ r, r ∈ rs ∧ rr_Inlined r = true) as He.
    { rewrite existsb_exists. by setoid_rewrite list_elem_of_In. }
    case_bool_decide as Hi.
    { cbn. split; [tauto|]. split; [split; [done|tauto]|]. split; [split; [done|tauto]|done]. }
    destruct (existsb rr_Inlined rs) eqn:Eb.
    { cbn. split; [split; [done|tauto]|]. split; [tauto|]. destruct (proj1 He eq_refl) as (r & Hr & Ht).
      split; [|done]. split; [done|]. intros [_ H]. specialize (H r Hr). congruence. }
    assert (∀ r, r ∈ rs → rr_Inlined r = false) as Hall.
    { intros r Hr. destruct (rr_Inlined r) eqn:E; [|done]. assert (false = true) by (apply He; eauto). done. }
    assert (declined rs = rs) as Hdec.
    { unfold declined. clear -Hall. induction rs as [|r rs IH]; [done|].
      rewrite filter_cons, decide_True by (apply Hall; by left). f_equal. apply IH. intros. apply Hall. by right. }
    rewrite Hdec. cbn. split; [split; [done|tauto]|]. split.
    { split; [done|]. intros [_ (r & Hr & Ht)]. rewrite Hall in Ht; done. }
    split; [tauto|]. intros _. destruct (decisive rs) as [r|] eqn:Ed; [by exists r|]. exfalso.
    destruct Hin as [?|Hin]; [done|]. apply list_elem_of_fmap in Hin as (r & Er & Hr).
    assert (r ∈ rs) as Hrs by (apply list_elem_of_filter; done).
    unfold decisive in Ed. destruct (List.find _ rs); [done|]. apply last_None in Ed. rewrite Ed in Hrs. set_solver.
Qed.

(** ** The verdict of a call *)

(** The overall verdict says no decision was logged exactly when no row is about
    the call, "mixed" exactly when two objects differ, and otherwise is the
    verdict of every object. *)
Theorem overallVerdict_spec records instances :
  let per := perObjectVerdicts records instances in
  let verdict := (overallVerdict per).1 in
  (verdict = VerdictNoDecisionLogged ↔ records = [] ∧ instances = []) ∧
  (verdict = VerdictMixed ↔ ∃ v w, v ∈ per ∧ w ∈ per ∧ v_Verdict v ≠ v_Verdict w) ∧
  (verdict ≠ VerdictMixed → ∀ v, v ∈ per → v_Verdict v = verdict).
Proof.
  cbn zeta. assert (perObjectVerdicts records instances = [] ↔ records = [] ∧ instances = []) as Hnil.
  { destruct (add_records_spec (ri_Object <$> instances) records) as [Hd _]. unfold perObjectVerdicts.
    set (m := foldl add_verdict_record _ records) in *. cbn zeta in Hd. split.
    - intros E%fmap_nil_inv.
      assert (∀ o, o ∉ dom m) as Hno.
      { intros o Ho. apply (not_elem_of_nil o). rewrite <-E. by apply elem_of_sorted_keys, elem_of_dom. }
      split.
      + destruct records as [|r rs]; [done|]. destruct (Hno (rr_Object r)). apply Hd. right. left.
      + destruct instances as [|i is_]; [done|]. destruct (Hno (ri_Object i)). apply Hd. left. left.
    - intros [-> ->]. done. }
  assert (∀ v, v ∈ perObjectVerdicts records instances →
    v_Verdict v ≠ VerdictNoDecisionLogged ∧ v_Verdict v ≠ VerdictMixed) as Hv.
  { unfold perObjectVerdicts. intros v (o & -> & _)%list_elem_of_fmap. unfold object_verdict.
    by repeat case_match. }
  set (per := perObjectVerdicts records instances) in *. clearbody per. unfold overallVerdict.
  destruct per as [|p rest].
  { cbn. split; [tauto|]. split; [|set_solver]. split; [done|]. intros (v & w & Hin & _). set_solver. }
  assert (¬ (records = [] ∧ instances = [])) as Hne by (rewrite <-Hnil; done).
  destruct (existsb _ rest) eqn:Ex.
  - apply existsb_exists in Ex as (q & Hq & Hne'). apply list_elem_of_In in Hq.
    apply negb_true_iff, String.eqb_neq in Hne'. cbn. split; [split; [done|tauto]|]. split; [|done].
    split; [|done]. intros _. exists q, p. set_solver.
  - assert (∀ q, q ∈ rest → v_Verdict q = v_Verdict p) as Hall.
    { intros q Hq. apply list_elem_of_In in Hq. destruct (String.eqb_spec (v_Verdict q) (v_Verdict p)) as [|Hd]; [done|].
      exfalso. apply not_true_iff_false in Ex. apply Ex, existsb_exists. exists q. split; [done|].
      by apply negb_true_iff, String.eqb_neq. }
    assert (∀ v, v ∈ p :: rest → v_Verdict v = v_Verdict p) as Hall'.
    { intros v [->|H]%elem_of_cons; [done|by apply Hall]. }
    assert ((if String.eqb (v_Verdict p) VerdictDeclined then (v_Verdict p, v_Reason p)
             else (v_Verdict p, "")).1 = v_Verdict p) as -> by (by case_match).
    destruct (Hv p) as [Hp1 Hp2]; [left|]. split; [tauto|]. split; [|done]. split; [done|].
    intros (v & w & Hin1 & Hin2 & Hd). exfalso. apply Hd. by rewrite (Hall' v), (Hall' w).
Qed.

(** ** The summary counts every row *)

Definition sum_if {A} (f : A → bool) (gs : list (A * nat)) : nat :=
  foldr (λ g n, (if f g.1 then g.2 else 0) + n) 0 gs.

Lemma sum_if_cons {A} (f : A → bool) g gs :
  sum_if f (g :: gs) = (if f g.1 then g.2 else 0) + sum_if f gs.
Proof. done. Qed.

Lemma sum_if_counts {A} `{EqDecision A} (f : A → bool) (ks l : list A) :
  NoDup ks → (∀ x, x ∈ l → x ∈ ks) →
  sum_if f ((λ k, (k, length (filter (λ x, x = k) l))) <$> ks) = length (List.filter f l).
Proof.
  intros Hnd. induction l as [|x l IH]; intros Hin.
  - cbn [List.filter length]. clear. induction ks as [|k ks IH]; [done|]. rewrite fmap_cons.
    cbn [sum_if foldr fst snd]. change (foldr _ 0 ?l) with (sum_if f l). rewrite IH. by destruct (f k).
  - cbn [List.filter]. specialize (IH ltac:(intros; apply Hin; by right)).
    assert (sum_if f ((λ k, (k, length (filter (λ y, y = k) (x :: l)))) <$> ks) =
      sum_if f ((λ k, (k, length (filter (λ y, y = k) l))) <$> ks) +
      (if f x then if bool_decide (x ∈ ks) then 1 else 0 else 0)) as ->.
    { clear Hin IH. induction ks as [|k ks IHk]; [cbn; by destruct (f x)|].
      apply NoDup_cons in Hnd as [Hk Hnd]. rewrite !fmap_cons. cbn [sum_if foldr fst snd].
      change (foldr _ 0 ?l) with (sum_if f l). rewrite (IHk Hnd), filter_cons.
      destruct (decide (x = k)) as [->|Hne].
      - rewrite (bool_decide_false (k ∈ ks)), (bool_decide_true (k ∈ k :: ks)) by set_solver.
        cbn [length]. destruct (f k); lia.
      - rewrite (bool_decide_ext (x ∈ k :: ks) (x ∈ ks)) by set_solver. lia. }
    rewrite IH, bool_decide_true by (apply Hin; by left). destruct (f x); cbn; lia.
Qed.

Lemma group_by_sum {A} `{EqDecision A} (f : A → bool) (l : list A) :
  sum_if f (group_by l) = length (List.filter f l).
Proof.
  apply sum_if_counts; [apply NoDup_remove_dups|]. intros x. by rewrite elem_of_remove_dups.
Qed.

Lemma sum_groups gs s :
  let s' := foldl sum_group s gs in
  is_Records s' = is_Records s + sum_if (λ _, true) gs ∧
  is_RecordsInlined s' = is_RecordsInlined s + sum_if snd gs ∧
  is_RecordsDeclined s' = is_RecordsDeclined s + sum_if (negb ∘ snd) gs ∧
  (∀ p, default 0 (is_RecordsByPass s' !! p) =
        default 0 (is_RecordsByPass s !! p) + sum_if (λ k, String.eqb k.1 p) gs) ∧
  is_Instances s' = is_Instances s.
Proof.
  revert s; induction gs as [|[[pass yes] n] gs IH]; intros s; cbn zeta.
  { cbn. rewrite !Nat.add_0_r. split_and!; done. }
  cbn [foldl]. destruct (IH (sum_group s (pass, yes, n))) as (H1 & H2 & H3 & H4 & H5).
  rewrite H1, H2, H3, H5, !sum_if_cons. cbn [fst snd compose negb sum_group is_Records is_RecordsInlined
    is_RecordsDeclined is_RecordsByPass is_Instances]. split; [lia|].
  split; [destruct yes; cbn [negb]; lia|]. split; [destruct yes; cbn [negb]; lia|]. split; [|done].
  intros p. rewrite H4, sum_if_cons. cbn [fst snd sum_group is_RecordsByPass].
  destruct (String.eqb_spec pass p) as [->|Hne]; [rewrite lookup_insert_eq|rewrite lookup_insert_ne by done];
    cbn [from_option id]; lia.
Qed.

Lemma sum_depths gs s :
  let s' := foldl sum_depth s gs in
  is_Instances s' = is_Instances s + sum_if (λ _, true) gs ∧
  is_Records s' = is_Records s ∧ is_RecordsInlined s' = is_RecordsInlined s ∧
  is_RecordsDeclined s' = is_RecordsDeclined s ∧ is_RecordsByPass s' = is_RecordsByPass s.
Proof.
  revert s; induction gs as [|[d n] gs IH]; intros s; cbn zeta; [cbn; by rewrite Nat.add_0_r|].
  cbn [foldl]. destruct (IH (sum_depth s (d, n))) as (-> & -> & -> & -> & ->). rewrite sum_if_cons.
  cbn [fst snd sum_depth is_Instances]. split; [lia|done].
Qed.

Lemma filter_all {A} (l : list A) : List.filter (λ _, true) l = l.
Proof. induction l as [|x l IH]; cbn; congruence. Qed.

Lemma length_filter_map {A B} (g : A → B) (f : B → bool) l :
  length (List.filter f (g <$> l)) = length (List.filter (f ∘ g) l).
Proof. induction l as [|x l IH]; cbn; [done|]. destruct (f (g x)); cbn; congruence. Qed.

(** The summary counts every row of the three planes, whatever the row limit: the
    records, how many inlined and declined, how many per pass, the surviving
    instances and the cgraph edges. *)
Theorem inliningSummary_counts ix col icol dcol id :
  let s := inliningSummary ix col icol dcol id in
  let recs := List.filter (λ r, (col r =? id)%Z) (in_records ix) in
  is_Records s = length recs ∧
  is_RecordsInlined s = length (List.filter ir_inlined recs) ∧
  is_RecordsDeclined s = length (List.filter (negb ∘ ir_inlined) recs) ∧
  (∀ p, default 0 (is_RecordsByPass s !! p) = length (List.filter (λ r, String.eqb (ir_pass r) p) recs)) ∧
  is_Instances s = length (List.filter (λ i, (icol i =? id)%Z) (in_instances ix)) ∧
  is_CgraphEdges s = length (List.filter (λ d, (dcol d =? id)%Z) (in_decisions ix)).
Proof.
  unfold inliningSummary. set (recs := List.filter (λ r, (col r =? id)%Z) _).
  set (insts := List.filter (λ i, (icol i =? id)%Z) _).
  set (s0 := foldl sum_group _ _). cbn -[s0].
  destruct (sum_depths (group_by (ii_depth <$> insts)) s0) as (-> & -> & -> & -> & ->).
  subst s0. destruct (sum_groups (group_by ((λ r, (ir_pass r, ir_inlined r)) <$> recs))
    (MkInliningSummary 0 0 0 ∅ 0 ∅ 0)) as (-> & -> & -> & H4 & ->).
  setoid_rewrite H4. rewrite !group_by_sum, !filter_all, !length_fmap, !length_filter_map.
  split_and!; try done. intros p. cbn [is_RecordsByPass]. by rewrite lookup_empty, group_by_sum, length_filter_map.
Qed.
