(* ===== verification/Reload.v ===== *)
(** * The served index and its reload ([internal/mcp/mcp.go],
    [internal/mcp/reload_tool.go], [internal/store/store.go])

    Tool calls and reloads as threads over the server's two locks.  [advance] is
    one atomic action of one thread, [None] when it is blocked; [step] interleaves
    them with the outside world, which may start a call or put another file at
    the index path at any moment.  A handle answers from the file it was opened
    on. *)

From S2P Require Import Prelude GoStrings Store.
From Stdlib Require Import ZArith Lia.
From stdpp Require Import relations.

(** ** The file at the index path *)

(** What the queries of [describeIndex] find: the [meta] table and the counts of
    [symbols], [targets] and [sources] ([None]: no such table). *)
Record index_file := IndexFile {
  f_meta : gmap string string;
  f_symbols : option nat;
  f_targets : option nat;
  f_sources : option nat;
}.

(** A file that SQLite opens without being able to read it is a [Database] none of
    whose queries answers. *)
Inductive path_state :=
| NoFile
| CannotStat
| Directory
| EmptyFile
| NotPermitted
| CannotOpen
| NotADatabase
| Database (f : index_file).

Inductive diagnosis := DiagMissing | DiagStat | DiagDirectory | DiagEmpty | DiagPermission | DiagRead.

Definition DiagnosePath (d : path_state) : option diagnosis :=
  match d with
  | NoFile => Some DiagMissing
  | CannotStat => Some DiagStat
  | Directory => Some DiagDirectory
  | EmptyFile => Some DiagEmpty
  | NotPermitted => Some DiagPermission
  | CannotOpen => Some DiagRead
  | NotADatabase | Database _ => None
  end.

(** Opening and the ping: only a database answers. *)
Definition OpenReadOnly (d : path_state) : option index_file :=
  match d with Database f => Some f | _ => None end.

(** ** What a reload answers *)

Record ReloadResponse := MkReloadResponse {
  Path : string;
  ResponseSchema : string;
  IndexedAt : string;
  PreviousIndexedAt : string;
  Changed : bool;
  Symbols : nat;
  Targets : nat;
  SourceFiles : nat;
}.

Inductive reload_error :=
| ErrNoPath
| ErrDiagnosed (d : diagnosis)
| ErrOpen
| ErrNotIndex
| ErrSchema (found : string)
| ErrNoStamp
| ErrCount (table : string).

Definition describeIndex (f : index_file) (path : string) : result reload_error ReloadResponse :=
  match f_meta f !! "schema_version" with
  | None => Err ErrNotIndex
  | Some v =>
    if negb (String.eqb v SchemaVersion) then Err (ErrSchema v)
    else match f_meta f !! "indexed_at" with
    | None => Err ErrNoStamp
    | Some stamp =>
      match f_symbols f, f_targets f, f_sources f with
      | None, _, _ => Err (ErrCount "symbols")
      | _, None, _ => Err (ErrCount "targets")
      | _, _, None => Err (ErrCount "sources")
      | Some a, Some b, Some c => Ok (MkReloadResponse path v stamp "" false a b c)
      end
    end
  end.

(** The stamp of the served index, "" when it cannot be read. *)
Definition indexedAt (f : option index_file) : string := default "" (f ≫= λ f, f_meta f !! "indexed_at").

(** [resp.PreviousIndexedAt = …; resp.Changed = …] *)
Definition with_previous (prev : string) (r : ReloadResponse) : ReloadResponse :=
  MkReloadResponse (Path r) (ResponseSchema r) (IndexedAt r) prev
    (negb (String.eqb (IndexedAt r) prev)) (Symbols r) (Targets r) (SourceFiles r).

(** ** The server *)

(** [db] is the served handle, [mu] its read-write lock — the readers inside, and
    the writer that has announced itself, which keeps new readers out — and
    [reloadMu] the owner of the reload mutex.  [opened] are the handles not yet
    closed, [content] the file each handle was opened on. *)
Record shared := Shared {
  db : nat;
  opened : gset nat;
  content : gmap nat index_file;
  next_handle : nat;
  readers : gset nat;
  writer : option nat;
  reloadMu : option nat;
  at_path : path_state;
}.

Inductive outcome_of_call :=
| Answered (handles : list nat)
| Reloaded (r : result reload_error ReloadResponse).

(** Where a thread is.  A pinned call has [n] queries to run and has run one on
    each handle of [seen]. *)
Inductive pc :=
| CallStart (name : string) (n : nat)
| CallPinned (n : nat) (seen : list nat)
| ReloadStart
| ReloadLocked
| ReloadOpening
| ReloadDescribe (next : nat)
| ReloadClosing (next : nat) (e : reload_error)
| ReloadStamp (next : nat) (r : ReloadResponse)
| ReloadStamping (next : nat) (r : ReloadResponse)
| ReloadSwap (next : nat) (r : ReloadResponse)
| ReloadWaiting (next : nat) (r : ReloadResponse)
| ReloadInstall (next : nat) (r : ReloadResponse)
| ReloadInstalled (old : nat) (r : ReloadResponse)
| ReloadCloseOld (old : nat) (r : ReloadResponse)
| ReloadUnlock (r : result reload_error ReloadResponse)
| Finished (o : outcome_of_call).

Definition reloadToolName : string := "reload_index".

Definition set_readers (f : gset nat → gset nat) (g : shared) : shared :=
  Shared (db g) (opened g) (content g) (next_handle g) (f (readers g)) (writer g) (reloadMu g) (at_path g).
Definition set_writer (w : option nat) (g : shared) : shared :=
  Shared (db g) (opened g) (content g) (next_handle g) (readers g) w (reloadMu g) (at_path g).
Definition set_reloadMu (o : option nat) (g : shared) : shared :=
  Shared (db g) (opened g) (content g) (next_handle g) (readers g) (writer g) o (at_path g).
Definition open_handle (f : index_file) (g : shared) : shared :=
  Shared (db g) ({[next_handle g]} ∪ opened g) (<[next_handle g := f]> (content g)) (S (next_handle g))
    (readers g) (writer g) (reloadMu g) (at_path g).
Definition close_handle (h : nat) (g : shared) : shared :=
  Shared (db g) (opened g ∖ {[h]}) (content g) (next_handle g) (readers g) (writer g) (reloadMu g) (at_path g).
Definition set_db (h : nat) (g : shared) : shared :=
  Shared h (opened g) (content g) (next_handle g) (readers g) (writer g) (reloadMu g) (at_path g).

Definition advance (IndexPath : string) (t : nat) (p : pc) (g : shared) : option (pc * shared) :=
  match p with
  | CallStart name n =>
    if String.eqb name reloadToolName then Some (ReloadStart, g)
    else if bool_decide (writer g = None) then Some (CallPinned n [], set_readers (union {[t]}) g)
    else None
  | CallPinned (S n) seen => Some (CallPinned n (seen ++ [db g]), g)
  | CallPinned 0 seen => Some (Finished (Answered seen), set_readers (λ rs, rs ∖ {[t]}) g)
  | ReloadStart =>
    if bool_decide (reloadMu g = None) then Some (ReloadLocked, set_reloadMu (Some t) g) else None
  | ReloadLocked =>
    if String.eqb IndexPath "" then Some (ReloadUnlock (Err ErrNoPath), g)
    else match DiagnosePath (at_path g) with
    | Some d => Some (ReloadUnlock (Err (ErrDiagnosed d)), g)
    | None => Some (ReloadOpening, g)
    end
  | ReloadOpening =>
    match OpenReadOnly (at_path g) with
    | None => Some (ReloadUnlock (Err ErrOpen), g)
    | Some f => Some (ReloadDescribe (next_handle g), open_handle f g)
    end
  | ReloadDescribe next =>
    match content g !! next with
    | None => None
    | Some f => match describeIndex f IndexPath with
                | Err e => Some (ReloadClosing next e, g)
                | Ok r => Some (ReloadStamp next r, g)
                end
    end
  | ReloadClosing next e => Some (ReloadUnlock (Err e), close_handle next g)
  | ReloadStamp next r =>
    if bool_decide (writer g = None) then Some (ReloadStamping next r, set_readers (union {[t]}) g) else None
  | ReloadStamping next r =>
    Some (ReloadSwap next (with_previous (indexedAt (content g !! db g)) r), set_readers (λ rs, rs ∖ {[t]}) g)
  | ReloadSwap next r =>
    if bool_decide (writer g = None) then Some (ReloadWaiting next r, set_writer (Some t) g) else None
  | ReloadWaiting next r =>
    if bool_decide (readers g = ∅) then Some (ReloadInstall next r, g) else None
  | ReloadInstall next r => Some (ReloadInstalled (db g) r, set_db next g)
  | ReloadInstalled old r => Some (ReloadCloseOld old r, set_writer None g)
  | ReloadCloseOld old r => Some (ReloadUnlock (Ok r), close_handle old g)
  | ReloadUnlock r => Some (Finished (Reloaded r), set_reloadMu None g)
  | Finished _ => None
  end.

Record state := State { global : shared; threads : gmap nat pc }.

Definition collect (d : path_state) (g : shared) : shared :=
  Shared (db g) (opened g) (content g) (next_handle g) (readers g) (writer g) (reloadMu g) d.

Inductive thread_step (path : string) : state → state → Prop :=
| thread_step_intro s t p p' g' :
    threads s !! t = Some p → advance path t p (global s) = Some (p', g') →
    thread_step path s (State g' (<[t := p']> (threads s))).

Inductive step (path : string) : state → state → Prop :=
| step_thread s s' : thread_step path s s' → step path s s'
| step_collect s d : step path s (State (collect d (global s)) (threads s))
| step_call s t name n :
    threads s !! t = None →
    step path s (State (global s) (<[t := CallStart name n]> (threads s))).

(** [New] over the handle that [serve] opened on the file [f]. *)
Definition New (f : index_file) (d : path_state) : state :=
  State (Shared 0 {[0]} {[0 := f]} 1 ∅ None None d) ∅.

Inductive serve_error := ErrServeDiagnosed (d : diagnosis) | ErrServeOpen | ErrServeNotIndex | ErrServeSchema (found : string).

(** What [serve] checks before it builds the server. *)
Definition runServe (d : path_state) : result serve_error state :=
  match DiagnosePath d with
  | Some e => Err (ErrServeDiagnosed e)
  | None =>
    match OpenReadOnly d with
    | None => Err ErrServeOpen
    | Some f =>
      match f_meta f !! "schema_version" with
      | None => Err ErrServeNotIndex
      | Some v => if String.eqb v SchemaVersion then Ok (New f d) else Err (ErrServeSchema v)
      end
    end
  end.

(** The states of a server that [serve] started. *)
Definition reachable (path : string) (s : state) : Prop :=
  ∃ d s0, runServe d = Ok s0 ∧ rtc (step path) s0 s.

(** ** The invariant *)

Definition reading (p : pc) : bool :=
  match p with CallPinned _ _ | ReloadStamping _ _ => true | _ => false end.
Definition writing (p : pc) : bool :=
  match p with ReloadWaiting _ _ | ReloadInstall _ _ | ReloadInstalled _ _ => true | _ => false end.
Definition exclusive (p : pc) : bool :=
  match p with ReloadInstall _ _ | ReloadInstalled _ _ => true | _ => false end.
Definition reloading (p : pc) : bool :=
  match p with CallStart _ _ | CallPinned _ _ | ReloadStart | Finished _ => false | _ => true end.

(** The handle, other than the served one, that a reload still has to close or
    install. *)
Definition held (p : pc) : gset nat :=
  match p with
  | ReloadDescribe h | ReloadClosing h _ | ReloadStamp h _ | ReloadStamping h _ | ReloadSwap h _
  | ReloadWaiting h _ | ReloadInstall h _ | ReloadInstalled h _ | ReloadCloseOld h _ => {[h]}
  | _ => ∅
  end.

(** [r] is what [describeIndex] says of the file of the handle [h]. *)
Definition described (path : string) (g : shared) (h : nat) (prev : string) (r : ReloadResponse) : Prop :=
  ∃ f r0, content g !! h = Some f ∧ describeIndex f path = Ok r0 ∧ r = with_previous prev r0.

(** What the locals of a thread are. *)
Definition locals_ok (path : string) (g : shared) (p : pc) : Prop :=
  match p with
  | CallPinned _ seen => Forall (λ h, h = db g) seen
  | Finished (Answered seen) => ∃ h, Forall (λ h', h' = h) seen
  | ReloadDescribe h => is_Some (content g !! h)
  | ReloadStamp h r | ReloadStamping h r =>
    ∃ f, content g !! h = Some f ∧ describeIndex f path = Ok r
  | ReloadSwap h r | ReloadWaiting h r | ReloadInstall h r =>
    described path g h (indexedAt (content g !! db g)) r
  | ReloadInstalled old r | ReloadCloseOld old r =>
    described path g (db g) (indexedAt (content g !! old)) r
  | _ => True
  end.

Record thread_ok (path : string) (g : shared) (t : nat) (p : pc) : Prop := {
  tk_reading : reading p = true ↔ t ∈ readers g;
  tk_writing : writing p = true ↔ writer g = Some t;
  tk_reloading : reloading p = true ↔ reloadMu g = Some t;
  tk_exclusive : exclusive p = true → readers g = ∅;
  tk_held : reloading p = true → opened g = {[db g]} ∪ held p ∧ db g ∉ held p;
  tk_locals : locals_ok path g p;
}.

Definition serves_schema (g : shared) : Prop :=
  ∃ f, content g !! db g = Some f ∧ f_meta f !! "schema_version" = Some SchemaVersion.

Record shared_ok (g : shared) : Prop := {
  sk_idle : reloadMu g = None → opened g = {[db g]};
  sk_fresh : ∀ h, h ∈ dom (content g) → h < next_handle g;
  sk_opened : opened g ⊆ dom (content g);
  sk_schema : serves_schema g;
}.

Definition no_thread (g : shared) (t : nat) : Prop :=
  (t ∉ readers g) ∧ writer g ≠ Some t ∧ reloadMu g ≠ Some t.

Record state_ok (path : string) (s : state) : Prop := {
  st_shared : shared_ok (global s);
  st_threads : ∀ t p, threads s !! t = Some p → thread_ok path (global s) t p;
  st_absent : ∀ t, threads s !! t = None → no_thread (global s) t;
}.

Lemma describeIndex_Ok f path r :
  describeIndex f path = Ok r →
  f_meta f !! "schema_version" = Some SchemaVersion ∧ f_meta f !! "indexed_at" = Some (IndexedAt r) ∧
  ResponseSchema r = SchemaVersion ∧ f_symbols f = Some (Symbols r) ∧ f_targets f = Some (Targets r) ∧
  f_sources f = Some (SourceFiles r).
Proof.
  unfold describeIndex. destruct (f_meta f !! _) as [v|]; [|done].
  destruct (String.eqb_spec v SchemaVersion) as [->|]; [|done]. simpl.
  destruct (f_meta f !! _); [|done]. repeat case_match; try done. by intros [= <-].
Qed.

(** An action's cases, with the new state spelled out. *)
Ltac advance_cases H :=
  simpl in H; repeat case_match; try discriminate H; simplify_eq/=;
  repeat match goal with Hb : bool_decide _ = true |- _ => apply bool_decide_eq_true in Hb end.

Lemma advance_own path t p g p' g' :
  thread_ok path g t p → shared_ok g → advance path t p g = Some (p', g') → thread_ok path g' t p'.
Proof.
  intros [Hr Hw Hm Hx Hh Hl] [Hidle Hfresh Hop Hs] H.
  assert (t ∈ {[t]} ∪ readers g) as Hin by set_solver.
  assert (t ∉ readers g ∖ {[t]}) as Hout by set_solver.
  assert (next_handle g ∉ dom (content g)) as Hn by (intros Hd; apply Hfresh in Hd; lia).
  destruct p; advance_cases H; constructor; simpl in *; try tauto; try (intuition congruence).
  - constructor.
  - eauto.
  - apply Forall_app. split; [done|]. by constructor.
  - intros _. rewrite Hidle by done. set_solver.
  - intros _. destruct (Hh eq_refl) as [He _]. rewrite He in *. set_solver.
  - rewrite lookup_insert_eq. eauto.
  - eauto.
  - intros _. destruct (Hh eq_refl) as [-> ?]. set_solver.
  - destruct Hl as (f & Hf & Hd). exists f, r. auto.
  - intros _. destruct (Hh eq_refl) as [-> ?]. set_solver.
  - intros _. destruct (Hh eq_refl) as [-> ?]. set_solver.
Qed.

Lemma advance_shared path t p g p' g' :
  thread_ok path g t p → shared_ok g → advance path t p g = Some (p', g') → shared_ok g'.
Proof.
  intros [Hr Hw Hm Hx Hh Hl] [Hidle Hfresh Hop Hs] H.
  destruct p; advance_cases H; constructor; simpl in *; try done; try (intuition congruence).
  - intros h. rewrite dom_insert, elem_of_union, elem_of_singleton. intros [->|Hd%Hfresh]; lia.
  - rewrite dom_insert. set_solver.
  - destruct Hs as (f & Hf & Hv). exists f. split; [|done]. simpl. rewrite lookup_insert_ne; [done|].
    apply elem_of_dom_2, Hfresh in Hf. lia.
  - set_solver.
  - destruct Hl as (f & r0 & Hf & Hd & _). exists f. split; [done|]. by apply (describeIndex_Ok f path r0).
  - set_solver.
  - intros _. destruct (Hh eq_refl) as [-> _]. set_solver.
Qed.

(** An action changes nothing another thread relies on: at most this thread's own
    membership in the locks; the handles and the served one only when this thread
    owns the reload; the served one only when nobody reads. *)
Lemma advance_frame path t p g p' g' :
  thread_ok path g t p → advance path t p g = Some (p', g') →
  (∀ u, u ≠ t → u ∈ readers g' ↔ u ∈ readers g) ∧
  (∀ u, u ≠ t → writer g' = Some u ↔ writer g = Some u) ∧
  (∀ u, u ≠ t → reloadMu g' = Some u ↔ reloadMu g = Some u) ∧
  (readers g' ⊆ readers g ∨ writer g = None) ∧
  (reloading p = false → opened g' = opened g ∧ content g' = content g ∧ db g' = db g) ∧
  (db g' = db g ∨ readers g = ∅).
Proof.
  intros [Hr Hw Hm Hx Hh Hl] H. clear Hh Hl.
  destruct p; advance_cases H; simpl in *; repeat split; try done; try (intros; congruence);
    try (by left); try (by right); try (right; by apply Hx);
    try (intros ? ?; set_solver); try (left; set_solver).
  all: try (intros; destruct (Hw) as [Hw1 _]; specialize (Hw1 eq_refl); congruence).
  all: try (intros; destruct (Hm) as [Hm1 _]; specialize (Hm1 eq_refl); congruence).
  all: clear - H; set_solver.
Qed.

Lemma advance_other path t p g p' g' t' p2 :
  thread_ok path g t p → advance path t p g = Some (p', g') → t' ≠ t →
  thread_ok path g t' p2 → thread_ok path g' t' p2.
Proof.
  intros Ht H Hne [Hr2 Hw2 Hm2 Hx2 Hh2 Hl2].
  destruct (advance_frame _ _ _ _ _ _ Ht H) as (Hr & Hw & Hm & Hsub & Hsame & Hdb).
  assert (reloading p2 = true → reloading p = false) as Hown.
  { intros Hp. destruct (reloading p) eqn:E; [|done].
    apply (tk_reloading _ _ _ _ Ht) in E. apply Hm2 in Hp. congruence. }
  assert (exclusive p2 = true → writing p2 = true) as Hew by by destruct p2.
  constructor.
  - by rewrite Hr.
  - by rewrite Hw.
  - by rewrite Hm.
  - intros Hx. destruct Hsub as [Hsub|Hn]; [|apply Hew, Hw2 in Hx; congruence].
    specialize (Hx2 Hx). set_solver.
  - intros Hp. destruct (Hsame (Hown Hp)) as (-> & _ & ->). auto.
  - destruct (reloading p2) eqn:E.
    + destruct (Hsame (Hown eq_refl)) as (_ & Hc & Hd).
      destruct p2; try discriminate E; simpl in *; unfold described in *; by rewrite ?Hc, ?Hd.
    + destruct p2; try discriminate E; try done. simpl in *. destruct Hdb as [->|Hdb]; [done|].
      exfalso. rewrite Hdb in Hr2. pose proof (proj1 Hr2 eq_refl). set_solver.
Qed.

Lemma advance_absent path t p g p' g' u :
  thread_ok path g t p → advance path t p g = Some (p', g') → u ≠ t → no_thread g u → no_thread g' u.
Proof.
  intros Ht H Hne (H1 & H2 & H3).
  destruct (advance_frame _ _ _ _ _ _ Ht H) as (Hr & Hw & Hm & _).
  split; [by rewrite Hr|]. split; [by rewrite Hw|by rewrite Hm].
Qed.

Lemma collect_state_ok path d g :
  shared_ok g → shared_ok (collect d g) ∧
  (∀ t p, thread_ok path g t p → thread_ok path (collect d g) t p) ∧
  ∀ t, no_thread g t → no_thread (collect d g) t.
Proof.
  intros []. split; [by constructor|]. split; [|done]. intros t p []. constructor; try done.
Qed.

Lemma step_ok path s s' : state_ok path s → step path s s' → state_ok path s'.
Proof.
  intros [Hs Ht Ha] Hstep. destruct Hstep as [s s' Hstep|s d|s t name n Hn].
  - destruct Hstep as [s t p p' g' Hp Hadv]. pose proof (Ht t p Hp) as Hok. constructor; cbn [global threads].
    + by eapply advance_shared.
    + intros u q. rewrite lookup_insert_Some. intros [[<- <-]|[Hne Hq]]; [by eapply advance_own|].
      eapply advance_other; eauto.
    + intros u. rewrite lookup_insert_None. intros [Hq Hne]. eapply advance_absent; eauto.
  - destruct (collect_state_ok path d (global s) Hs) as (H1 & H2 & H3). constructor; cbn [global threads]; eauto.
  - constructor; cbn [global threads]; [done| |].
    + intros u q. rewrite lookup_insert_Some. intros [[<- <-]|[Hne Hq]]; [|by apply Ht].
      destruct (Ha t Hn) as (H1 & H2 & H3). constructor; simpl; done.
    + intros u. rewrite lookup_insert_None. intros [Hq Hne]. auto.
Qed.

Lemma runServe_ok path d s : runServe d = Ok s → state_ok path s.
Proof.
  unfold runServe. destruct (DiagnosePath d); [done|]. destruct (OpenReadOnly d) as [f|]; [|done].
  destruct (f_meta f !! _) as [v|] eqn:Ev; [|done].
  destruct (String.eqb_spec v SchemaVersion) as [->|]; [|done]. intros [= <-].
  constructor; cbn [New global threads].
  - constructor; simpl; [done| | |].
    + intros h. rewrite dom_singleton. set_solver by lia.
    + by rewrite dom_singleton.
    + exists f. simpl. by rewrite lookup_singleton_eq.
  - intros t p. simpl. by rewrite lookup_empty.
  - intros t _. split; [simpl; set_solver|done].
Qed.

Lemma reachable_ok path s : reachable path s → state_ok path s.
Proof.
  intros (d & s0 & H0 & Hrtc). apply runServe_ok with (path := path) in H0.
  induction Hrtc as [|s s1 s2 Hstep _ IH]; [done|]. eauto using step_ok.
Qed.

Lemma served_open path s : state_ok path s → db (global s) ∈ opened (global s).
Proof.
  intros [Hs Ht Ha]. destruct (reloadMu (global s)) as [t|] eqn:E; [|rewrite (sk_idle _ Hs E); set_solver].
  destruct (threads s !! t) as [p|] eqn:Ep; [|destruct (Ha t Ep) as (_ & _ & H); congruence].
  destruct (Ht t p Ep). destruct tk_held0 as [-> _]; [by apply tk_reloading0|set_solver].
Qed.

(** ** Properties *)

(** C26: Every query of a tool call runs on the same handle, and while the call runs
    that handle is the served one and is open: a reload neither closes nor swaps
    the index under it. *)
Theorem calls_see_one_index path s t p :
  reachable path s → threads s !! t = Some p →
  match p with
  | CallPinned _ seen => Forall (λ h, h = db (global s)) seen ∧ db (global s) ∈ opened (global s)
  | Finished (Answered seen) => ∃ h, Forall (λ h', h' = h) seen
  | _ => True
  end.
Proof.
  intros Hs%reachable_ok Hp. pose proof (st_threads _ _ Hs t p Hp) as Ht. pose proof (tk_locals _ _ _ _ Ht) as Hl.
  destruct p as [| n seen| | | | | | | | | | | | | |o]; try done.
  split; [exact Hl|]. by apply served_open with path.
Qed.

Lemma size_held p : size (held p) ≤ 1.
Proof. destruct p; unfold held; first [rewrite size_singleton; lia | rewrite size_empty; lia]. Qed.

(** No handle leaks: at most two are open, the served one among them, and it is
    the only one when no reload is in progress. *)
Theorem no_handle_leak path s :
  reachable path s →
  db (global s) ∈ opened (global s) ∧ size (opened (global s)) ≤ 2 ∧
  (reloadMu (global s) = None → opened (global s) = {[db (global s)]}) ∧
  serves_schema (global s).
Proof.
  intros Hs%reachable_ok. split; [by apply served_open with path|].
  destruct Hs as [Hs Ht Ha]. split; [|split; [apply Hs|apply Hs]].
  destruct (reloadMu (global s)) as [t|] eqn:E.
  - destruct (threads s !! t) as [p|] eqn:Ep; [|destruct (Ha t Ep) as (_ & _ & H); congruence].
    destruct (Ht t p Ep). destruct tk_held0 as [-> Hd]; [by apply tk_reloading0|].
    pose proof (size_held p). rewrite size_union, size_singleton by set_solver. lia.
  - rewrite (sk_idle _ Hs E), size_singleton. lia.
Qed.

(** What a reload answers is about the index it installed: the counts and the
    stamp are that file's, the previous stamp is that of the index it replaced,
    and "changed" says whether the two differ. *)
Theorem reload_response path s t old r :
  reachable path s → threads s !! t = Some (ReloadCloseOld old r) →
  let cur := content (global s) !! db (global s) in
  IndexedAt r = indexedAt cur ∧ PreviousIndexedAt r = indexedAt (content (global s) !! old) ∧
  (Changed r = true ↔ indexedAt cur ≠ indexedAt (content (global s) !! old)) ∧
  ResponseSchema r = SchemaVersion ∧
  ∃ f, cur = Some f ∧ f_symbols f = Some (Symbols r) ∧ f_targets f = Some (Targets r) ∧
       f_sources f = Some (SourceFiles r).
Proof.
  intros Hs%reachable_ok Hp cur. pose proof (tk_locals _ _ _ _ (st_threads _ _ Hs t _ Hp)) as Hl.
  destruct Hl as (f & r0 & Hf & Hd & ->). fold cur in Hf. rewrite Hf. simpl.
  apply describeIndex_Ok in Hd as (_ & Hst & Hv & Hcounts).
  assert (indexedAt (Some f) = IndexedAt r0) as -> by (unfold indexedAt; simpl; by rewrite Hst).
  split; [done|]. split; [done|].
  split; [by rewrite negb_true_iff, String.eqb_neq|]. split; [done|]. by exists f.
Qed.

(** *** A failed reload changes nothing *)

(** A reload on its way to an error, and one that has passed the last check. *)
Definition failing (p : pc) : bool :=
  match p with
  | ReloadLocked | ReloadOpening | ReloadDescribe _ | ReloadClosing _ _ | ReloadUnlock (Err _) => true
  | _ => false
  end.
Definition past_checks (p : pc) : bool :=
  match p with
  | ReloadStamp _ _ | ReloadStamping _ _ | ReloadSwap _ _ | ReloadWaiting _ _ | ReloadInstall _ _
  | ReloadInstalled _ _ | ReloadCloseOld _ _ | ReloadUnlock (Ok _) | Finished _ => true
  | _ => false
  end.

Lemma advance_failing path t p g p' g' :
  advance path t p g = Some (p', g') →
  (failing p = true → db g' = db g ∧ (failing p' = true ∨ past_checks p' = true)) ∧
  (past_checks p = true → past_checks p' = true).
Proof. intros H. destruct p; advance_cases H; simpl; auto; by destruct r. Qed.

Lemma step_failing path s s' t p :
  state_ok path s → step path s s' → threads s !! t = Some p →
  ∃ p', threads s' !! t = Some p' ∧ (past_checks p = true → past_checks p' = true) ∧
    (failing p = true → db (global s') = db (global s) ∧ (failing p' = true ∨ past_checks p' = true)).
Proof.
  intros Hs Hstep Hp. destruct Hstep as [s s' Hstep|s d|s u name n Hn]; cbn [global threads].
  - destruct Hstep as [s u q q' g' Hq Hadv]; cbn [global threads]. destruct (decide (u = t)) as [->|Hne].
    + rewrite lookup_insert_eq. rewrite Hp in Hq. injection Hq as <-.
      destruct (advance_failing _ _ _ _ _ _ Hadv). eauto.
    + rewrite lookup_insert_ne by done. exists p. split; [done|]. split; [done|]. intros Hf. split; [|by left].
      pose proof (st_threads _ _ Hs t p Hp) as Ht. pose proof (st_threads _ _ Hs u q Hq) as Hu.
      apply (advance_frame _ _ _ _ _ _ Hu Hadv). destruct (reloading q) eqn:E; [|done].
      apply (tk_reloading _ _ _ _ Hu) in E. assert (reloading p = true) as Hr by by destruct p.
      apply (tk_reloading _ _ _ _ Ht) in Hr. congruence.
  - eauto 10.
  - exists p. rewrite lookup_insert_ne by congruence. auto.
Qed.

Lemma failing_kept path s s' t :
  state_ok path s → threads s !! t = Some ReloadLocked → rtc (step path) s s' →
  state_ok path s' ∧ ∃ p, threads s' !! t = Some p ∧
    (past_checks p = true ∨ failing p = true ∧ db (global s') = db (global s)).
Proof.
  intros Hs Hp. revert s'. apply rtc_ind_r; [by eauto 10|].
  intros s1 s2 _ Hstep (Hs1 & p1 & Hp1 & Hc). split; [by eapply step_ok|].
  destruct (step_failing path s1 s2 t p1 Hs1 Hstep Hp1) as (p2 & Hp2 & Hpast & Hfail).
  exists p2. split; [done|]. destruct Hc as [Hc|[Hc Hd]]; [auto|].
  destruct (Hfail Hc) as [Hd' [H|H]]; [right; split; [done|congruence]|by left].
Qed.

(** A reload that fails — no path, a missing or unreadable file, another schema
    version, a table that is not there — ends with the index that was served when
    it began still served, and with no other handle open. *)
Theorem failed_reload_keeps path s s' t e :
  reachable path s → threads s !! t = Some ReloadLocked → rtc (step path) s s' →
  threads s' !! t = Some (ReloadUnlock (Err e)) →
  db (global s') = db (global s) ∧ opened (global s') = {[db (global s)]}.
Proof.
  intros Hs%reachable_ok Hp Hrtc He. pose proof (failing_kept path s s' t Hs Hp Hrtc) as (Hs' & p & Hp' & Hc).
  rewrite He in Hp'. injection Hp' as <-. destruct Hc as [|[_ Hdb]]; [done|].
  split; [done|]. destruct (st_threads _ _ Hs' t _ He). destruct tk_held0 as [-> _]; [done|].
  rewrite Hdb. simpl. set_solver.
Qed.

(** *** Every call finishes *)

Definition rank (p : pc) : nat :=
  match p with
  | CallStart _ n => 13 + n
  | CallPinned n _ => S n
  | ReloadStart => 12
  | ReloadLocked => 11
  | ReloadOpening => 10
  | ReloadDescribe _ => 9
  | ReloadStamp _ _ => 8
  | ReloadStamping _ _ => 7
  | ReloadSwap _ _ => 6
  | ReloadWaiting _ _ => 5
  | ReloadInstall _ _ => 4
  | ReloadInstalled _ _ => 3
  | ReloadClosing _ _ | ReloadCloseOld _ _ => 2
  | ReloadUnlock _ => 1
  | Finished _ => 0
  end.

Definition work (ts : gmap nat pc) : nat := map_fold (λ _ p n, rank p + n) 0 ts.

Lemma work_delete ts t p : ts !! t = Some p → work ts = rank p + work (delete t ts).
Proof.
  intros H. unfold work. rewrite (map_fold_delete_L _ _ t p ts); [done| |done]. intros; lia.
Qed.

Lemma advance_rank path t p g p' g' : advance path t p g = Some (p', g') → rank p' < rank p.
Proof. intros H. destruct p; advance_cases H; simpl; lia. Qed.

Lemma thread_step_work path s s' : thread_step path s s' → work (threads s') < work (threads s).
Proof.
  intros [s0 t p p' g' Hp Hadv]. cbn [threads]. rewrite (work_delete _ t p Hp).
  rewrite (work_delete _ t p') by apply lookup_insert_eq. rewrite delete_insert_eq.
  apply advance_rank in Hadv. lia.
Qed.

Definition finished (p : pc) : Prop := match p with Finished _ => True | _ => False end.

(** Nobody waits for ever: when no thread can move, all have finished. *)
Lemma stuck_finished path s t p :
  state_ok path s → (∀ s', ¬ thread_step path s s') → threads s !! t = Some p → finished p.
Proof.
  intros [Hs Ht Ha] Hstuck.
  assert (∀ u q, threads s !! u = Some q → advance path u q (global s) = None) as Hno.
  { intros u q Hq. destruct (advance path u q (global s)) as [[q' g']|] eqn:E; [|done].
    destruct (Hstuck _ (thread_step_intro path s u q q' g' Hq E)). }
  assert (∀ u, is_Some (threads s !! u) ∨ no_thread (global s) u) as Hdom.
  { intros u. destruct (threads s !! u) eqn:E; eauto. }
  assert (readers (global s) = ∅) as Hr.
  { apply set_eq. intros u. split; [|set_solver]. intros Hu.
    destruct (Hdom u) as [[q Hq]|(Hn & _)]; [|done].
    apply (tk_reading _ _ _ _ (Ht u q Hq)) in Hu. specialize (Hno u q Hq).
    destruct q as [|[]| | | | | | | | | | | | | |]; done. }
  assert (writer (global s) = None) as Hw.
  { destruct (writer (global s)) as [u|] eqn:E; [|done].
    destruct (Hdom u) as [[q Hq]|(_ & Hn & _)]; [|done].
    apply (tk_writing _ _ _ _ (Ht u q Hq)) in E. specialize (Hno u q Hq).
    destruct q; try discriminate E; try discriminate Hno. simpl in Hno. by rewrite bool_decide_true in Hno. }
  assert (reloadMu (global s) = None) as Hm.
  { destruct (reloadMu (global s)) as [u|] eqn:E; [|done].
    destruct (Hdom u) as [[q Hq]|(_ & _ & Hn)]; [|done].
    apply (tk_reloading _ _ _ _ (Ht u q Hq)) in E. specialize (Hno u q Hq).
    pose proof (tk_locals _ _ _ _ (Ht u q Hq)) as Hl.
    destruct q; try discriminate E; simpl in Hno; rewrite ?bool_decide_true in Hno by done; try discriminate Hno.
    - repeat case_match; discriminate Hno.
    - case_match; discriminate Hno.
    - destruct Hl as [f Hf]. rewrite Hf in Hno. case_match; discriminate Hno. }
  intros Hp. specialize (Hno t p Hp). pose proof (Ht t p Hp) as [H1 H2 H3 _ _ _].
  rewrite Hr in H1. rewrite Hw in H2. rewrite Hm in H3.
  destruct p; simpl in *; try done; try discriminate (proj1 H3 eq_refl); try (by destruct n).
  - rewrite bool_decide_true in Hno by done. by case_match.
  - by rewrite bool_decide_true in Hno.
Qed.

(** C27: No deadlock and no starvation: whatever calls and reloads are in progress,
    their actions end after finitely many steps, and they end with every thread
    finished and a single handle open. *)
Theorem every_call_finishes path s :
  reachable path s →
  sn (thread_step path) s ∧
  ∀ s', rtc (thread_step path) s s' → (∀ s'', ¬ thread_step path s' s'') →
    (∀ t p, threads s' !! t = Some p → finished p) ∧ opened (global s') = {[db (global s')]}.
Proof.
  intros Hs%reachable_ok. split.
  - remember (work (threads s)) as n eqn:En. assert (work (threads s) ≤ n) as Hn by lia. clear En Hs.
    revert s Hn. induction n as [|n IH]; intros s Hn; constructor; intros s' Hstep;
      apply thread_step_work in Hstep; [lia|]. apply IH. lia.
  - intros s' Hrtc Hstuck. assert (state_ok path s') as Hs'.
    { induction Hrtc as [|s s1 s2 Hstep _ IH]; [done|]. apply IH; [|done].
      eapply step_ok; [done|]. by apply step_thread. }
    split; [intros t p; by apply (stuck_finished path s' t p)|].
    apply (sk_idle _ (st_shared _ _ Hs')). destruct (reloadMu (global s')) as [u|] eqn:E; [|done].
    destruct (threads s' !! u) as [q|] eqn:Eq; [|destruct (st_absent _ _ Hs' u Eq) as (_ & _ & H); congruence].
    pose proof (stuck_finished path s' u q Hs' Hstuck Eq) as Hq.
    apply (tk_reloading _ _ _ _ (st_threads _ _ Hs' u q Eq)) in E. by destruct q.
Qed.

(** ** Witnesses: one session, run *)

(** The actions of the named threads, in that order. *)
Fixpoint run (path : string) (ts : list nat) (s : state) : option state :=
  match ts with
  | [] => Some s
  | t :: ts =>
    p ← threads s !! t;
    '(p', g') ← advance path t p (global s);
    run path ts (State g' (<[t := p']> (threads s)))
  end.

Lemma run_steps path ts s s' : run path ts s = Some s' → rtc (thread_step path) s s'.
Proof.
  revert s; induction ts as [|t ts IH]; intros s; simpl; [by intros [= <-]|].
  destruct (threads s !! t) as [p|] eqn:Ep; [|done]. simpl.
  destruct (advance path t p (global s)) as [[p' g']|] eqn:E; [|done]. simpl. intros H.
  eapply rtc_l; [by econstructor|]. by apply IH.
Qed.

Lemma run_reachable path d s0 s ts s' :
  runServe d = Ok s0 → rtc (step path) s0 s → run path ts s = Some s' → reachable path s'.
Proof.
  intros H0 Hs Hrun%run_steps. exists d, s0. split; [done|]. transitivity s; [done|].
  eapply rtc_congruence with (f := id); [|exact Hrun]. intros. by apply step_thread.
Qed.

Definition ex_file (stamp : string) : index_file :=
  IndexFile {["schema_version" := "10"; "indexed_at" := stamp]} (Some 3) (Some 1) (Some 2).

(** Served from the first file; then the second one is put in its place, and a call
    of two queries and a reload begin. *)
Definition ex_session : state :=
  State (collect (Database (ex_file "t1")) (global (New (ex_file "t0") (Database (ex_file "t0")))))
    {[2 := CallStart reloadToolName 0; 1 := CallStart "find_symbol" 2]}.

Lemma ex_session_steps : rtc (step "/i.hbr") (New (ex_file "t0") (Database (ex_file "t0"))) ex_session.
Proof.
  eapply rtc_l; [apply (step_collect _ _ (Database (ex_file "t1")))|].
  eapply rtc_l; [by apply (step_call _ _ 1 "find_symbol" 2)|].
  eapply rtc_l; [by apply (step_call _ _ 2 reloadToolName 0)|]. apply rtc_refl.
Qed.

Definition ex_after (ts : list nat) : state := default ex_session (run "/i.hbr" ts ex_session).

Lemma ex_after_reachable ts :
  is_Some (run "/i.hbr" ts ex_session) → reachable "/i.hbr" (ex_after ts).
Proof.
  intros [s Hs]. apply (run_reachable "/i.hbr" (Database (ex_file "t0")) (New (ex_file "t0") (Database (ex_file "t0")))
    ex_session ts); [reflexivity|apply ex_session_steps|].
  unfold ex_after. by rewrite Hs.
Qed.

Lemma ex_reachable ts :
  bool_decide (is_Some (run "/i.hbr" ts ex_session)) = true → reachable "/i.hbr" (ex_after ts).
Proof. intros H%bool_decide_eq_true. by apply ex_after_reachable. Qed.

Lemma calls_see_one_index_witness :
  reachable "/i.hbr" (ex_after [1; 2; 2; 2; 1]) ∧
  threads (ex_after [1; 2; 2; 2; 1]) !! 1 = Some (CallPinned 1 [0]) ∧
  Forall (λ h, h = 0) [0] ∧ 0 ∈ opened (global (ex_after [1; 2; 2; 2; 1])).
Proof.
  assert (reachable "/i.hbr" (ex_after [1; 2; 2; 2; 1])) as H by (apply ex_reachable; vm_compute; reflexivity).
  assert (threads (ex_after [1; 2; 2; 2; 1]) !! 1 = Some (CallPinned 1 [0])) as Hp by (vm_compute; reflexivity).
  split; [exact H|]. split; [exact Hp|]. exact (calls_see_one_index _ _ _ _ H Hp).
Defined.

Lemma no_handle_leak_witness :
  reachable "/i.hbr" (ex_after [2; 2; 2; 2]) ∧ size (opened (global (ex_after [2; 2; 2; 2]))) ≤ 2 ∧
  opened (global (ex_after [2; 2; 2; 2])) = {[0; 1]}.
Proof.
  assert (reachable "/i.hbr" (ex_after [2; 2; 2; 2])) as H by (apply ex_reachable; vm_compute; reflexivity).
  split; [exact H|]. split; [apply (no_handle_leak _ _ H)|]. by_decide.
Defined.

(** The reload up to the closing of the old handle. *)
Definition ex_reload : list nat := [2; 2; 2; 2; 2; 2; 2; 2; 2; 2; 2].

Lemma reload_response_witness :
  reachable "/i.hbr" (ex_after ex_reload) ∧
  ∃ r, threads (ex_after ex_reload) !! 2 = Some (ReloadCloseOld 0 r) ∧
    IndexedAt r = "t1" ∧ PreviousIndexedAt r = "t0" ∧ Changed r = true.
Proof.
  assert (reachable "/i.hbr" (ex_after ex_reload)) as H by (apply ex_reachable; vm_compute; reflexivity).
  split; [exact H|]. eexists. split; [vm_compute; reflexivity|].
  edestruct (reload_response "/i.hbr" (ex_after ex_reload) 2 0) as (H1 & H2 & H3 & _);
    [exact H|vm_compute; reflexivity|].
  rewrite H1, H2. split; [vm_compute; reflexivity|]. split; [vm_compute; reflexivity|].
  apply H3. vm_compute. discriminate.
Defined.

Lemma every_call_finishes_witness :
  reachable "/i.hbr" ex_session ∧ sn (thread_step "/i.hbr") ex_session.
Proof.
  assert (reachable "/i.hbr" ex_session) as H.
  { exists (Database (ex_file "t0")), (New (ex_file "t0") (Database (ex_file "t0"))).
    split; [reflexivity|exact ex_session_steps]. }
  split; [exact H|]. exact (proj1 (every_call_finishes _ _ H)).
Defined.

(** A reload that finds an empty path configuration. *)
Lemma failed_reload_keeps_witness :
  ∃ s s', reachable "" s ∧ threads s !! 2 = Some ReloadLocked ∧ rtc (step "") s s' ∧
    threads s' !! 2 = Some (ReloadUnlock (Err ErrNoPath)) ∧ db (global s') = db (global s).
Proof.
  set (s0 := New (ex_file "t0") (Database (ex_file "t0"))).
  set (s1 := State (global s0) (<[2 := CallStart reloadToolName 0]> (threads s0))).
  assert (rtc (step "") s0 s1) as H1 by (eapply rtc_l; [by apply step_call|apply rtc_refl]).
  assert (∃ s, run "" [2; 2] s1 = Some s ∧ threads s !! 2 = Some ReloadLocked ∧
    ∃ s', run "" [2] s = Some s' ∧ threads s' !! 2 = Some (ReloadUnlock (Err ErrNoPath)))
    as (s & Hrun & Hp & s' & Hrun' & Hp').
  { eexists. split; [vm_compute; reflexivity|]. split; [vm_compute; reflexivity|].
    eexists. split; vm_compute; reflexivity. }
  assert (reachable "" s) as Hs by (eapply (run_reachable "" (Database (ex_file "t0")) s0 s1); [reflexivity|exact H1|exact Hrun]).
  assert (rtc (step "") s s') as Hsteps.
  { eapply rtc_congruence with (f := id); [|exact (run_steps _ _ _ _ Hrun')]. intros. by apply step_thread. }
  exists s, s'. split; [exact Hs|]. split; [exact Hp|]. split; [exact Hsteps|]. split; [exact Hp'|].
  exact (proj1 (failed_reload_keeps _ _ _ _ _ Hs Hp Hsteps Hp')).
Defined.
