(* ===== verification/Dwarf.v ===== *)
(** * Debugging entries as [debug/dwarf] gives them

    The part of Go's standard [debug/dwarf] that [internal/dwarfingest] uses: the
    decoded entries in file order, a reader over them, and the direct children of
    the entry a reader has just returned.  [die] is the tree those entries spell. *)

From S2P Require Import Prelude.
From Stdlib Require Import ZArith Lia.

(** ** Entries *)

Inductive tag :=
| TagNull
| TagCompileUnit | TagSubprogram | TagInlinedSubroutine | TagCallSite
| TagStructType | TagUnionType | TagClassType | TagArrayType | TagEnumerationType | TagEnumerator
| TagTypedef | TagVariable | TagMember | TagFormalParameter | TagUnspecifiedParameters
| TagBaseType | TagUnspecifiedType | TagPointerType | TagConstType | TagVolatileType | TagRestrictType
| TagSubroutineType | TagOther (code : Z).

Inductive attr :=
| AttrName | AttrLinkageName | AttrCompDir | AttrType | AttrAbstractOrigin
| AttrDeclFile | AttrDeclLine | AttrDeclColumn | AttrByteSize | AttrLowpc | AttrDeclaration | AttrInline
| AttrExternal | AttrCallFile | AttrCallLine | AttrCallColumn | AttrCallReturnPC | AttrCallTarget
| AttrCallOrigin | AttrDataMemberLoc | AttrConstValue | AttrEncoding | AttrPrototyped.

#[export] Instance tag_eq_dec : EqDecision tag.
Proof. solve_decision. Defined.
#[export] Instance attr_eq_dec : EqDecision attr.
Proof. solve_decision. Defined.

(** The Go type of a field's value: [string], [int64], [uint64] (an address),
    [bool], [[]byte], [dwarf.Offset]. *)
Inductive value :=
| VString (s : string)
| VInt64 (z : Z)
| VUint64 (z : Z)
| VBool (b : bool)
| VBytes (b : list Z)
| VOffset (o : Z).

Record Entry := MkEntry {
  Offset : Z;
  Tag : tag;
  Children : bool;
  Fields : list (attr * value);
}.

Definition Entry_Val (e : Entry) (a : attr) : option value :=
  snd <$> List.find (λ f, bool_decide (f.1 = a)) (Fields e).

(** [e.Val(a).(T)] with its [ok]. *)
Definition string_at (e : Entry) (a : attr) : option string :=
  match Entry_Val e a with Some (VString s) => Some s | _ => None end.
Definition int64_at (e : Entry) (a : attr) : option Z :=
  match Entry_Val e a with Some (VInt64 z) => Some z | _ => None end.
Definition uint64_at (e : Entry) (a : attr) : option Z :=
  match Entry_Val e a with Some (VUint64 z) => Some z | _ => None end.
Definition bool_at (e : Entry) (a : attr) : option bool :=
  match Entry_Val e a with Some (VBool b) => Some b | _ => None end.
Definition bytes_at (e : Entry) (a : attr) : option (list Z) :=
  match Entry_Val e a with Some (VBytes b) => Some b | _ => None end.
Definition offset_at (e : Entry) (a : attr) : option Z :=
  match Entry_Val e a with Some (VOffset o) => Some o | _ => None end.

(** ** The reader *)

(** The line table of a unit: its files ([None] a nil entry) and the row of a
    program counter. *)
Record line_table := LineTable {
  lt_Files : list (option string);
  lt_SeekPC : Z → option (option string * Z * Z);
}.

(** The entries up to the first that does not decode; [d_broken] says there is
    one. *)
Record Data := MkData {
  d_entries : list Entry;
  d_broken : bool;
  d_lines : Z → option line_table;
}.

(** A reader is what it has still to return; [None] one that has failed. *)
Abbreviation reader := (option (list Entry)).

Fixpoint from_offset (l : list Entry) (off : Z) : reader :=
  match l with
  | [] => None
  | e :: l' => if (Offset e =? off)%Z then Some l else from_offset l' off
  end.

(** Offset 0 is the first unit. *)
Definition Seek (dw : Data) (off : Z) : reader :=
  if (off =? 0)%Z then Some (d_entries dw) else from_offset (d_entries dw) off.

Inductive next_result := NextError | NextEnd | Next (e : Entry) (rest : list Entry).

Definition reader_next (dw : Data) (r : reader) : next_result :=
  match r with
  | None => NextError
  | Some [] => if d_broken dw then NextError else NextEnd
  | Some (e :: rest) => Next e rest
  end.

(** The entry at an offset and what follows it: a fresh reader, [Seek], [Next];
    nothing on an error or at the end. *)
Definition entry_at (dw : Data) (off : Z) : option (Entry * list Entry) :=
  match reader_next dw (Seek dw off) with Next e rest => Some (e, rest) | _ => None end.

Definition is_null (e : Entry) : bool := bool_decide (Tag e = TagNull).

(** The loop [for { c := r.Next(); …; if c.Children { r.SkipChildren() } }] that
    every walk over children is: the entries it visits, and what is left.  Entries
    at [depth] above 0 are skipped. *)
Fixpoint children_from (depth : nat) (l : list Entry) : list Entry * list Entry :=
  match l with
  | [] => ([], [])
  | e :: rest =>
    if is_null e then
      match depth with 0 => ([], rest) | S depth => children_from depth rest end
    else
      let r := children_from (if Children e then S depth else depth) rest in
      (match depth with 0 => e :: r.1 | _ => r.1 end, r.2)
  end.

Definition children (l : list Entry) : list Entry * list Entry := children_from 0 l.

(** ** Trees *)

(** A tree of entries; [Children] of the root entry says whether a list of
    children, ended by a null entry, follows it. *)
Inductive die := Die (e : Entry) (kids : list die).

Definition null_entry (off : Z) : Entry := MkEntry off TagNull false [].

Definition root_of (d : die) : Entry := let '(Die e _) := d in e.

Fixpoint flatten_die (d : die) : list Entry :=
  let '(Die e kids) := d in
  e :: (if Children e then mjoin (flatten_die <$> kids) ++ [null_entry 0] else []).

Definition flatten (ds : list die) : list Entry := mjoin (flatten_die <$> ds).

(** No null entry is a node, and only an entry that says so has children. *)
Fixpoint die_ok (d : die) : Prop :=
  let '(Die e kids) := d in
  is_null e = false ∧ (Children e = false → kids = []) ∧ foldr (λ k P, die_ok k ∧ P) True kids.

Lemma die_ind' (P : die → Prop) :
  (∀ e kids, Forall P kids → P (Die e kids)) → ∀ d, P d.
Proof.
  intros H. fix IH 1. intros [e kids]. apply H. induction kids as [|k kids IHk]; constructor; [apply IH|apply IHk].
Qed.

Definition dies_ok (ds : list die) : Prop := foldr (λ k P, die_ok k ∧ P) True ds.

Lemma dies_ok_Forall ds : dies_ok ds ↔ Forall die_ok ds.
Proof. unfold dies_ok. induction ds as [|d ds IH]; simpl; [by split|]. by rewrite Forall_cons, IH. Qed.

(** ** Lemmas *)

Lemma flatten_cons d ds : flatten (d :: ds) = flatten_die d ++ flatten ds.
Proof. done. Qed.

Lemma flatten_die_eq e kids :
  flatten_die (Die e kids) = e :: (if Children e then flatten kids ++ [null_entry 0] else []).
Proof. done. Qed.

(** A subtree below the level of interest is skipped. *)
Lemma children_skip_die d depth l :
  die_ok d → children_from (S depth) (flatten_die d ++ l) = children_from (S depth) l.
Proof.
  revert depth l. induction d as [e kids IH] using die_ind'. intros depth l (Hn & Hk & Hkids).
  rewrite flatten_die_eq. cbn [app children_from]. rewrite Hn. destruct (Children e).
  - rewrite <-app_assoc. fold (dies_ok kids) in Hkids. rewrite dies_ok_Forall in Hkids.
    assert (∀ d l, children_from (S d) (flatten kids ++ l) = children_from (S d) l) as ->.
    { clear Hk. induction kids as [|k kids IHk]; [done|]. intros d l'. inversion IH; inversion Hkids; subst.
      rewrite flatten_cons, <-app_assoc. rewrite H1 by done. by apply IHk. }
    simpl. by destruct (children_from (S depth) l).
  - simpl. by destruct (children_from (S depth) l).
Qed.

(** Walking the children of a node visits exactly its direct children. *)
Lemma children_flatten kids l :
  dies_ok kids → children (flatten kids ++ null_entry 0 :: l) = (root_of <$> kids, l).
Proof.
  rewrite dies_ok_Forall. unfold children. induction kids as [|[e ks] kids IH]; intros Hok; [done|].
  inversion Hok as [|? ? Hd Hks]; subst. pose proof Hd as (Hn & Hkd & Hkk).
  rewrite flatten_cons, flatten_die_eq. cbn [app children_from]. rewrite Hn. destruct (Children e).
  - rewrite <-!app_assoc. fold (dies_ok ks) in Hkk. rewrite dies_ok_Forall in Hkk.
    assert (∀ l, children_from 1 (flatten ks ++ l) = children_from 1 l) as ->.
    { clear -Hkk. intros l. induction Hkk as [|k ks Hk _ IHk]; [done|].
      rewrite flatten_cons, <-app_assoc. by rewrite children_skip_die. }
    cbn [app children_from is_null null_entry]. simpl. by rewrite IH.
  - cbn [app]. by rewrite IH.
Qed.

Lemma children_length depth l : length (children_from depth l).2 ≤ length l.
Proof.
  revert depth; induction l as [|e l IH]; intros depth; simpl; [done|].
  destruct (is_null e); [destruct depth; [simpl; lia|]|]; simpl; etrans; eauto.
Qed.
