(* ===== verification/Signature.v ===== *)
(** * Rendering C types ([internal/dwarfingest/signature.go])

    [renderNoCache] is written once, over any monad, with the recursive call as an
    argument: [render] runs it over the memo table of [typeCache], [type_text]
    without one.  The two agree wherever the types below an offset have no cycle,
    and the memo table makes [render] terminate on every graph of types. *)

From S2P Require Import Prelude GoStrings Dwarf.
From Stdlib Require Import ZArith Lia.

(** ** Parameter lists *)

Definition prototyped (e : Entry) : bool := default false (bool_at e AttrPrototyped).

Definition paramList (params : list string) (variadic proto : bool) : string :=
  match params with
  | [] => if negb proto then "()" else if variadic then "(...)" else "(void)"
  | _ => if variadic then "(" +:+ Join params ", " +:+ ", ...)" else "(" +:+ Join params ", " +:+ ")"
  end.

(** ** One type, given how to render the others *)

Section render.
Context {M : Type → Type} `{!MRet M, !MBind M} (dw : Data) (render : Z → M string).

Definition render_or (o : option Z) (none : string) : M string :=
  match o with Some to => render to | None => mret none end.

Fixpoint walkParams (cs : list Entry) : M (list string * bool) :=
  match cs with
  | [] => mret ([], false)
  | c :: cs =>
    match Tag c with
    | TagFormalParameter =>
      p ← render_or (offset_at c AttrType) "";
      r ← walkParams cs;
      mret ((if String.eqb p "" then "?" else p) :: r.1, r.2)
    | TagUnspecifiedParameters => r ← walkParams cs; mret (r.1, true)
    | _ => walkParams cs
    end
  end.

(** The children are read without asking whether the entry has any. *)
Definition renderSubroutineType (off : Z) (e : Entry) : M string :=
  ret ← render_or (offset_at e AttrType) "void";
  match entry_at dw off with
  | None => mret (ret +:+ " ()")
  | Some (_, rest) =>
    r ← walkParams (children rest).1;
    mret (ret +:+ " " +:+ paramList r.1 r.2 (prototyped e))
  end.

(** A pointer to what renders as [inner]. *)
Definition pointer_to (inner : string) : string :=
  if String.eqb inner "" then "void *"
  else
    let plain := if HasSuffix inner "*" then inner +:+ "*" else inner +:+ " *" in
    if HasSuffix inner ")" && Contains inner "(" && negb (HasSuffix inner "*") then
      match Index inner "(" with
      | Some (S n) => stake (S n) inner +:+ "(*)" +:+ sdrop (S n) inner
      | _ => plain
      end
    else plain.

Definition tagged (kind : string) (e : Entry) : string :=
  match string_at e AttrName with
  | Some n => if String.eqb n "" then kind else kind +:+ " " +:+ n
  | None => kind
  end.

Definition qualified (kind : string) (e : Entry) : M string :=
  match offset_at e AttrType with
  | Some to => s ← render to; mret (kind +:+ " " +:+ s)
  | None => mret kind
  end.

Definition renderNoCache (off : Z) : M string :=
  match entry_at dw off with
  | None => mret ""
  | Some (e, _) =>
    match Tag e with
    | TagPointerType => inner ← render_or (offset_at e AttrType) ""; mret (pointer_to inner)
    | TagConstType => qualified "const" e
    | TagVolatileType => qualified "volatile" e
    | TagStructType => mret (tagged "struct" e)
    | TagUnionType => mret (tagged "union" e)
    | TagEnumerationType => mret (tagged "enum" e)
    | TagArrayType =>
      match offset_at e AttrType with
      | Some to => s ← render to; mret (s +:+ "[]")
      | None => mret "[]"
      end
    | TagSubroutineType => renderSubroutineType off e
    | _ => mret (default "" (string_at e AttrName))
    end
  end.

Definition buildSignature (e : Entry) : M string :=
  ret ← render_or (offset_at e AttrType) "void";
  if negb (Children e) then mret (ret +:+ " " +:+ paramList [] false (prototyped e))
  else match entry_at dw (Offset e) with
  | None => mret (ret +:+ " ()")
  | Some (_, rest) =>
    r ← walkParams (children rest).1;
    mret (ret +:+ " " +:+ paramList r.1 r.2 (prototyped e))
  end.
End render.

(** ** The memo table *)

(** A computation over the memo table; [None] when the fuel runs out. *)
Definition cached (A : Type) : Type := gmap Z string → option (A * gmap Z string).

#[export] Instance cached_ret : MRet cached := λ A a c, Some (a, c).
#[export] Instance cached_bind : MBind cached := λ A B f m c,
  match m c with Some (a, c') => f a c' | None => None end.

Fixpoint render (dw : Data) (fuel : nat) (off : Z) : cached string := λ c,
  match fuel with
  | 0 => None
  | S fuel =>
    match c !! off with
    | Some s => Some (s, c)
    | None =>
      match renderNoCache dw (render dw fuel) off (<[off := ""]> c) with
      | Some (s, c') => Some (s, <[off := s]> c')
      | None => None
      end
    end
  end.

(** Enough for every offset there is. *)
Definition type_fuel (dw : Data) : nat := 2 + length (d_entries dw).

(** Without a table. *)
Fixpoint type_text (dw : Data) (fuel : nat) (off : Z) : option string :=
  match fuel with
  | 0 => None
  | S fuel => renderNoCache dw (type_text dw fuel) off
  end.

(** ** Relating two runs of the renderer

    Whatever relation between two monads [mret] and [≫=] respect, the renderer
    respects it too. *)

Section related.
Context {M1 M2 : Type → Type} `{!MRet M1, !MBind M1, !MRet M2, !MBind M2} (dw : Data).
Context (R : ∀ A, M1 A → M2 A → Prop).
Hypothesis R_ret : ∀ A (a : A), R A (mret a) (mret a).
Hypothesis R_bind : ∀ A B (m1 : M1 A) (m2 : M2 A) (f1 : A → M1 B) (f2 : A → M2 B),
  R A m1 m2 → (∀ a, R B (f1 a) (f2 a)) → R B (m1 ≫= f1) (m2 ≫= f2).
Context (rec1 : Z → M1 string) (rec2 : Z → M2 string).
Hypothesis R_rec : ∀ off, R string (rec1 off) (rec2 off).

Lemma render_or_related o none : R string (render_or rec1 o none) (render_or rec2 o none).
Proof. destruct o; simpl; auto. Qed.

Lemma walkParams_related cs : R _ (walkParams rec1 cs) (walkParams rec2 cs).
Proof.
  induction cs as [|c cs IH]; simpl; [auto|].
  destruct (Tag c); try done; repeat (apply R_bind; intros); auto using render_or_related.
Qed.

Lemma renderSubroutineType_related off e :
  R string (renderSubroutineType dw rec1 off e) (renderSubroutineType dw rec2 off e).
Proof.
  unfold renderSubroutineType. apply R_bind; [apply render_or_related|]. intros ret.
  destruct (entry_at dw off) as [[e' rest]|]; [|auto].
  apply R_bind; [apply walkParams_related|]. auto.
Qed.

Lemma renderNoCache_related off : R string (renderNoCache dw rec1 off) (renderNoCache dw rec2 off).
Proof.
  unfold renderNoCache, qualified. destruct (entry_at dw off) as [[e rest]|]; [|auto].
  destruct (Tag e); try apply R_ret; try apply renderSubroutineType_related;
    repeat case_match; repeat (apply R_bind; intros); auto using render_or_related.
Qed.

Lemma buildSignature_related e : R string (buildSignature dw rec1 e) (buildSignature dw rec2 e).
Proof.
  unfold buildSignature. apply R_bind; [apply render_or_related|]. intros ret.
  destruct (negb (Children e)); [auto|]. destruct (entry_at dw (Offset e)) as [[e' rest]|]; [|auto].
  apply R_bind; [apply walkParams_related|]. auto.
Qed.
End related.

(** *** More fuel changes nothing *)

Lemma type_text_mono dw n off s : type_text dw n off = Some s → type_text dw (S n) off = Some s.
Proof.
  revert off s. induction n as [|n IH]; intros off s; [done|]. intros H.
  revert s H. change (type_text dw (S n) off) with (renderNoCache dw (type_text dw n) off).
  change (type_text dw (S (S n)) off) with (renderNoCache dw (type_text dw (S n)) off).
  apply (renderNoCache_related dw (λ A (m1 m2 : option A), ∀ a, m1 = Some a → m2 = Some a)); try done.
  intros A B m1 m2 f1 f2 Hm Hf b. destruct m1 as [a|]; [|done]. rewrite (Hm a eq_refl). apply Hf.
Qed.

Lemma type_text_le dw n m off s : n ≤ m → type_text dw n off = Some s → type_text dw m off = Some s.
Proof. induction 1; auto using type_text_mono. Qed.

Lemma type_text_det dw n m off s s' :
  type_text dw n off = Some s → type_text dw m off = Some s' → s = s'.
Proof.
  intros H H'. apply (type_text_le _ _ (n `max` m)) in H; [|lia].
  apply (type_text_le _ _ (n `max` m)) in H'; [|lia]. congruence.
Qed.

Lemma render_mono dw n off c r : render dw n off c = Some r → render dw (S n) off c = Some r.
Proof.
  revert off c r. induction n as [|n IH]; intros off c r; [done|].
  change (render dw (S n) off c) with
    (match c !! off with Some s => Some (s, c) | None =>
       match renderNoCache dw (render dw n) off (<[off := ""]> c) with
       | Some (s, c') => Some (s, <[off := s]> c') | None => None end end).
  change (render dw (S (S n)) off c) with
    (match c !! off with Some s => Some (s, c) | None =>
       match renderNoCache dw (render dw (S n)) off (<[off := ""]> c) with
       | Some (s, c') => Some (s, <[off := s]> c') | None => None end end).
  destruct (c !! off); [done|].
  assert (∀ r, renderNoCache dw (render dw n) off (<[off:=""]> c) = Some r →
               renderNoCache dw (render dw (S n)) off (<[off:=""]> c) = Some r) as Hb.
  { generalize (<[off:=""]> c). intros c0.
    apply (renderNoCache_related dw (λ A (m1 m2 : cached A), ∀ c r, m1 c = Some r → m2 c = Some r)); try done.
    intros A B m1 m2 f1 f2 Hm Hf c1 b. unfold mbind, cached_bind. destruct (m1 c1) as [[a c2]|] eqn:E; [|done].
    rewrite (Hm _ _ E). apply Hf. }
  destruct (renderNoCache dw (render dw n) off _) as [[s c']|]; [|done]. by rewrite (Hb _ eq_refl).
Qed.

(** *** The memo table and the plain renderer agree *)

(** What a table may hold while types resolved within [n] are rendered: right
    answers, and places reserved for types that enclose them. *)
Definition memo_ok (dw : Data) (n : nat) (c : gmap Z string) : Prop :=
  ∀ o s, c !! o = Some s → (∃ m, type_text dw m o = Some s) ∨ type_text dw n o = None.

(** A run whose new entries are right. *)
Definition extends_right (dw : Data) (c c' : gmap Z string) : Prop :=
  ∀ o s, c' !! o = Some s → c !! o = Some s ∨ ∃ m, type_text dw m o = Some s.

Definition agrees (dw : Data) (n : nat) (A : Type) (m1 : option A) (m2 : cached A) : Prop :=
  ∀ a, m1 = Some a → ∀ c, memo_ok dw n c → ∃ c', m2 c = Some (a, c') ∧ extends_right dw c c'.

Lemma extends_memo_ok dw n c c' : memo_ok dw n c → extends_right dw c c' → memo_ok dw n c'.
Proof. intros Hc He o s H. apply He in H as [H|H]; auto. Qed.

Lemma agrees_bind dw n A B (m1 : option A) (m2 : cached A) f1 f2 :
  agrees dw n A m1 m2 → (∀ a, agrees dw n B (f1 a) (f2 a)) → agrees dw n B (m1 ≫= f1) (m2 ≫= f2).
Proof.
  intros Hm Hf b. destruct m1 as [a|] eqn:E; [|done]. intros Hb c Hc.
  destruct (Hm a eq_refl c Hc) as (c1 & H1 & He1).
  destruct (Hf a b Hb c1) as (c2 & H2 & He2); [by eapply extends_memo_ok|].
  exists c2. unfold mbind, cached_bind. rewrite H1. split; [done|].
  intros o s H. apply He2 in H as [H|H]; auto.
Qed.

Lemma render_agrees dw n off : agrees dw n string (type_text dw n off) (render dw n off).
Proof.
  revert off. induction n as [|n IH]; intros off s Hs c Hc; [done|].
  destruct (c !! off) as [s'|] eqn:Ec.
  { exists c. split; [|by left]. simpl. rewrite Ec. do 2 f_equal.
    destruct (Hc off s' Ec) as [[m Hm]|Hn]; [by eapply type_text_det|congruence]. }
  assert (memo_ok dw n c) as Hcn.
  { intros o t Ho. destruct (Hc o t Ho) as [|Hn]; [by left|right].
    destruct (type_text dw n o) eqn:E; [|done]. apply type_text_mono in E. congruence. }
  destruct (type_text dw n off) as [s0|] eqn:En.
  - assert (s0 = s) as -> by (eapply type_text_det; eauto).
    destruct (IH off s En c Hcn) as (c' & H & He). exists c'. split; [by apply render_mono|done].
  - assert (memo_ok dw n (<[off := ""]> c)) as Hr.
    { intros o t. rewrite lookup_insert_Some. intros [[<- _]|[_ Ho]]; [by right|by apply Hcn]. }
    destruct (renderNoCache_related dw (agrees dw n)) with (rec1 := type_text dw n) (rec2 := render dw n)
      (off := off) (a := s) (c := <[off := ""]> c) as (c1 & H1 & He1);
      [intros A a b [= <-] c0 _; exists c0; split; [done|by left]
      |intros; by apply agrees_bind|exact IH|exact Hs|exact Hr|].
    exists (<[off := s]> c1). split; [simpl; by rewrite Ec, H1|].
    intros o t. rewrite lookup_insert_Some. intros [[<- <-]|[Hne Ho]]; [right; by exists (S n)|].
    apply He1 in Ho as [Ho|Ho]; [|by right]. rewrite lookup_insert_ne in Ho by done. by left.
Qed.

(** *** Rendering terminates *)

(** The offsets not in the table. *)
Definition missing (dw : Data) (c : gmap Z string) : nat :=
  size ((list_to_set (0%Z :: (Offset <$> d_entries dw)) : gset Z) ∖ dom c).

Definition answers (dw : Data) (n : nat) (A : Type) (m : cached A) : Prop :=
  ∀ c, missing dw c < n → ∃ a c', m c = Some (a, c') ∧ dom c ⊆ dom c'.

Lemma missing_mono dw (c c' : gmap Z string) : dom c ⊆ dom c' → missing dw c' ≤ missing dw c.
Proof. intros H. apply subseteq_size. set_solver. Qed.

Lemma answers_bind dw n A B (m : cached A) (f : A → cached B) :
  answers dw n A m → (∀ a, answers dw n B (f a)) → answers dw n B (m ≫= f).
Proof.
  intros Hm Hf c Hc. destruct (Hm c Hc) as (a & c1 & H1 & Hd1).
  destruct (Hf a c1) as (b & c2 & H2 & Hd2); [pose proof (missing_mono dw _ _ Hd1); lia|].
  exists b, c2. unfold mbind, cached_bind. rewrite H1. split; [done|]. by etrans.
Qed.

Lemma from_offset_elem l off r : from_offset l off = Some r → off ∈ Offset <$> l.
Proof.
  induction l as [|e l IH]; simpl; [done|]. destruct (Z.eqb_spec (Offset e) off) as [->|]; [left|right; auto].
Qed.

Lemma entry_at_elem dw off e : entry_at dw off = Some e → off ∈ 0%Z :: (Offset <$> d_entries dw).
Proof.
  unfold entry_at, Seek. destruct (Z.eqb_spec off 0) as [->|]; [left|].
  destruct (from_offset _ off) as [r|] eqn:E; [|done]. apply from_offset_elem in E. by right.
Qed.

Lemma size_insert (o : Z) (X : gset Z) : o ∉ X → size ({[o]} ∪ X) = S (size X).
Proof. intros H. rewrite size_union by set_solver. by rewrite size_singleton. Qed.

Lemma size_list_le (l : list Z) : size (list_to_set l : gset Z) ≤ length l.
Proof.
  induction l as [|o l IH]; [done|]. rewrite list_to_set_cons, length_cons.
  destruct (decide (o ∈ (list_to_set l : gset Z))).
  - rewrite subseteq_union_1_L by set_solver. lia.
  - rewrite size_insert by done. lia.
Qed.

Lemma missing_reserve dw c off e :
  entry_at dw off = Some e → c !! off = None → S (missing dw (<[off := ""]> c)) = missing dw c.
Proof.
  intros He%entry_at_elem Hc%not_elem_of_dom. unfold missing. rewrite dom_insert_L.
  set (U := list_to_set _ : gset Z). assert (off ∈ U) as Hu by (by apply elem_of_list_to_set).
  replace (U ∖ dom c) with ({[off]} ∪ U ∖ ({[off]} ∪ dom c)).
  - by rewrite size_insert by set_solver.
  - apply leibniz_equiv. intros o. destruct (decide (o = off)) as [->|]; set_solver.
Qed.

Lemma render_answers dw n off : answers dw n string (render dw n off).
Proof.
  revert off. induction n as [|n IH]; intros off c Hc; [lia|]. simpl.
  destruct (c !! off) as [s|] eqn:Ec; [eauto|].
  destruct (entry_at dw off) as [e|] eqn:Ee.
  - pose proof (missing_reserve dw c off e Ee Ec) as Hm.
    destruct (renderNoCache_related (M1 := cached) dw (λ A _ m, answers dw n A m)) with (rec1 := render dw n) (rec2 := render dw n)
      (off := off) (c := <[off := ""]> c) as (s & c1 & H1 & Hd);
      [intros A a c0 _; by exists a, c0|intros; by apply answers_bind|exact IH|lia|].
    rewrite H1. exists s. eexists. split; [done|]. rewrite dom_insert in *. set_solver.
  - unfold renderNoCache. rewrite Ee. exists "". eexists. split; [done|]. rewrite !dom_insert. set_solver.
Qed.

Lemma missing_fuel dw c : missing dw c < type_fuel dw.
Proof.
  unfold missing, type_fuel. set (U := list_to_set _ : gset Z).
  assert (size (U ∖ dom c) ≤ size U) as H by (apply subseteq_size; set_solver).
  pose proof (size_list_le (0%Z :: (Offset <$> d_entries dw))) as H'. fold U in H'.
  rewrite length_cons, length_fmap in H'. lia.
Qed.

Lemma render_total dw off c : is_Some (render dw (type_fuel dw) off c).
Proof. destruct (render_answers dw (type_fuel dw) off c (missing_fuel dw c)) as (s & c' & -> & _). eauto. Qed.

(** A computation that answers whatever the table holds. *)
Definition total {A} (m : cached A) : Prop := ∀ c, is_Some (m c).

Lemma total_ret {A} (a : A) : total (mret a).
Proof. intros c. by eexists. Qed.

Lemma total_bind {A B} (m : cached A) (f : A → cached B) : total m → (∀ a, total (f a)) → total (m ≫= f).
Proof. intros Hm Hf c. unfold mbind, cached_bind. destruct (Hm c) as [[a c'] ->]. apply Hf. Qed.

Section total.
Context (dw : Data).
Abbreviation rec := (render dw (type_fuel dw)).

Lemma buildSignature_total e : total (buildSignature dw rec e).
Proof.
  apply (buildSignature_related (M1 := cached) dw (λ A _ m, @total A m)) with (rec1 := rec);
    [intros; apply total_ret|intros; by apply total_bind|intros off c; apply render_total].
Qed.

Lemma renderSubroutineType_total off e : total (renderSubroutineType dw rec off e).
Proof.
  apply (renderSubroutineType_related (M1 := cached) dw (λ A _ m, @total A m)) with (rec1 := rec);
    [intros; apply total_ret|intros; by apply total_bind|intros o c; apply render_total].
Qed.
End total.

(** ** Properties *)

(** C34: Rendering a type terminates on every graph of entries, cyclic ones included,
    whatever the memo table holds. *)
Theorem render_terminates dw off c : is_Some (render dw (type_fuel dw) off c).
Proof. apply render_total. Qed.

Lemma render_det dw n m off c r r' :
  render dw n off c = Some r → render dw m off c = Some r' → r = r'.
Proof.
  assert (∀ k n r, render dw n off c = Some r → render dw (k + n) off c = Some r) as Hle.
  { intros k. induction k as [|k IH]; intros n0 r0 H; [done|]. by apply render_mono, IH. }
  intros H H'. apply (Hle m) in H. apply (Hle n) in H'. rewrite Nat.add_comm in H'. congruence.
Qed.

(** C33: Where the types below an offset have no cycle, the memoised renderer gives
    what rendering without a table gives, and adds only right answers to it. *)
Theorem render_memo dw n off s c :
  (∀ o t, c !! o = Some t → ∃ m, type_text dw m o = Some t) → type_text dw n off = Some s →
  ∃ c', render dw (type_fuel dw) off c = Some (s, c') ∧
    ∀ o t, c' !! o = Some t → ∃ m, type_text dw m o = Some t.
Proof.
  intros Hc Hs. destruct (render_agrees dw n off s Hs c) as (c' & H & He).
  { intros o t Ho. left. by apply Hc. }
  exists c'. destruct (render_total dw off c) as [r Hr].
  rewrite Hr. split; [f_equal; by eapply render_det|].
  intros o t Ho. apply He in Ho as [Ho|]; auto.
Qed.

(** A list node that points to its own kind, and a callback that takes a pointer to
    one. *)
Definition node_graph : Data :=
  MkData
    [MkEntry 11 TagCompileUnit true [];
     MkEntry 20 TagBaseType false [(AttrName, VString "int")];
     MkEntry 30 TagStructType true [(AttrName, VString "node")];
     MkEntry 31 TagMember false [(AttrName, VString "next"); (AttrType, VOffset 40)]; null_entry 0;
     MkEntry 40 TagPointerType false [(AttrType, VOffset 30)];
     MkEntry 50 TagSubroutineType true [(AttrPrototyped, VBool true); (AttrType, VOffset 20)];
     MkEntry 51 TagFormalParameter false [(AttrType, VOffset 40)]; null_entry 0;
     MkEntry 60 TagPointerType false [(AttrType, VOffset 50)];
     MkEntry 70 TagSubprogram true
       [(AttrName, VString "visit"); (AttrPrototyped, VBool true); (AttrType, VOffset 20)];
     MkEntry 71 TagFormalParameter false [(AttrName, VString "n"); (AttrType, VOffset 40)];
     MkEntry 72 TagVariable false [(AttrName, VString "i"); (AttrType, VOffset 20)]; null_entry 0;
     MkEntry 80 TagPointerType false [(AttrType, VOffset 81)];
     MkEntry 81 TagConstType false [(AttrType, VOffset 80)]; null_entry 0]
    false (λ _, None).

Lemma render_memo_witness :
  type_text node_graph 4 60 = Some "int (*)(struct node *)" ∧
  ∃ c', render node_graph (type_fuel node_graph) 60 ∅ = Some ("int (*)(struct node *)", c') ∧
    ∀ o t, c' !! o = Some t → ∃ m, type_text node_graph m o = Some t.
Proof.
  split; [by_decide|]. apply (render_memo node_graph 4); [|by_decide].
  intros o t. rewrite lookup_empty. done.
Defined.

Definition is_parameter (c : Entry) : bool :=
  match Tag c with TagFormalParameter | TagUnspecifiedParameters => true | _ => false end.

(** What a parameter list is read from: the other children do not matter. *)
Definition parameters (rest : list Entry) : list (tag * option Z) :=
  (λ c, (Tag c, offset_at c AttrType)) <$> List.filter is_parameter (children rest).1.

Lemma walkParams_filter {M} `{!MRet M, !MBind M} (rec : Z → M string) cs :
  walkParams rec cs = walkParams rec (List.filter is_parameter cs).
Proof.
  induction cs as [|c cs IH]; [done|]. simpl. unfold is_parameter at 1.
  destruct (Tag c) eqn:E; try exact IH; simpl; by rewrite E, IH.
Qed.

(** A definition and a function type with the same return type, prototype flag and
    parameters render the same text, whatever else is declared among their children;
    this is what lets call sites be matched with candidate functions. *)
Theorem signature_join {M} `{!MRet M, !MBind M} dw (rec : Z → M string) e rest o s rest' :
  entry_at dw (Offset e) = Some (e, rest) → entry_at dw o = Some (s, rest') → Children e = true →
  offset_at e AttrType = offset_at s AttrType → prototyped e = prototyped s →
  parameters rest = parameters rest' →
  buildSignature dw rec e = renderSubroutineType dw rec o s.
Proof.
  intros He Hs Hk Ht Hp Hcs. unfold buildSignature, renderSubroutineType. rewrite He, Hs, Hk, Ht, Hp. simpl.
  rewrite (walkParams_filter _ (children rest).1), (walkParams_filter _ (children rest').1).
  assert (walkParams rec (List.filter is_parameter (children rest).1) =
          walkParams rec (List.filter is_parameter (children rest').1)) as ->; [|done].
  revert Hcs. unfold parameters. generalize (List.filter is_parameter (children rest).1).
  generalize (List.filter is_parameter (children rest').1). clear. intros cs' cs. revert cs'.
  induction cs as [|c cs IH]; intros [|c' cs']; simpl; try done. intros [= Htag Hty Hcs].
  by rewrite Htag, Hty, (IH cs').
Qed.

Lemma signature_join_witness :
  buildSignature node_graph (type_text node_graph 4)
    (MkEntry 70 TagSubprogram true
       [(AttrName, VString "visit"); (AttrPrototyped, VBool true); (AttrType, VOffset 20)]) =
  renderSubroutineType node_graph (type_text node_graph 4) 50
    (MkEntry 50 TagSubroutineType true [(AttrPrototyped, VBool true); (AttrType, VOffset 20)]).
Proof.
  eapply (signature_join node_graph (type_text node_graph 4)); vm_compute; reflexivity.
Defined.

(** A function type without children takes the parameters of whatever follows it:
    nothing asks whether it has any. *)
Theorem childless_function_type :
  let param := MkEntry 9 TagFormalParameter false [(AttrType, VOffset 5)] in
  let int := MkEntry 5 TagBaseType false [(AttrName, VString "int")] in
  let fn := MkEntry 7 TagSubroutineType false [(AttrPrototyped, VBool true)] in
  type_text (MkData [int; fn; param; null_entry 10] false (λ _, None)) 2 7 = Some "void (int)".
Proof. vm_compute. reflexivity. Qed.

Example render_ex1 : pointer_to "int (int, char *)" = "int (*)(int, char *)".
Proof. reflexivity. Qed.
(** The code splices at the first parenthesis. *)
Example render_ex2 : pointer_to (pointer_to "int (int)") = "int (*)(*)(int)".
Proof. reflexivity. Qed.
