(* ===== verification/DwarfRead.v ===== *)
(** * Reading an object's debug information ([internal/dwarfingest/reader.go], [types.go])

    One pass over the entries of an object with the stack of the enclosing ones.
    [fileFromIdx] can panic: a file table may hold nil entries.  A stack is a list
    with the innermost frame first. *)

From S2P Require Import Prelude GoStrings Dwarf Signature.
From Stdlib Require Import ZArith Lia.

(** ** Data ([types.go]) *)

Record Subprogram := MkSubprogram {
  sp_Name : string;
  sp_LinkageName : string;
  sp_DeclFile : string;
  sp_DeclLine : Z;
  sp_DeclColumn : Z;
  sp_Signature : string;
  sp_Definition : bool;
  sp_Declaration : bool;
  sp_External : bool;
  sp_AbstractInline : bool;
}.

Record CallSite := MkCallSite {
  EnclosingName : string;
  SourceCallerName : string;
  cs_File : string;
  cs_Line : Z;
  cs_Column : Z;
  Indirect : bool;
  cs_CalleeName : string;
  CalleeType : string;
  FieldHint : string;
  returnPC : Z;
  callTarget : list Z;
  enclosingOff : Z;
}.

Record InlineInstance := MkInlineInstance {
  ii_CalleeName : string;
  ii_CallerName : string;
  ParentCalleeName : string;
  Depth : Z;
  ii_File : string;
  ii_Line : Z;
  ii_Column : Z;
}.

Record FieldInfo := MkFieldInfo { fi_Name : string; fi_Type : string; ByteOffset : Z }.

Record StructInfo := MkStructInfo {
  st_Name : string;
  st_Kind : string;
  st_DeclFile : string;
  st_DeclLine : Z;
  st_DeclColumn : Z;
  st_ByteSize : Z;
  StructFields : list FieldInfo;
}.

Record TypedefInfo := MkTypedefInfo { td_Name : string; td_DeclFile : string; td_DeclLine : Z; Target : string }.

Record EnumConstant := MkEnumConstant { ec_Name : string; ec_Value : Z }.

Record EnumInfo := MkEnumInfo {
  en_Name : string;
  en_DeclFile : string;
  en_DeclLine : Z;
  en_DeclColumn : Z;
  en_ByteSize : Z;
  Constants : list EnumConstant;
}.

Record VariableInfo := MkVariableInfo { vi_Name : string; vi_DeclFile : string; vi_DeclLine : Z; vi_Type : string }.

Record Info := MkInfo {
  CompDir : string;
  CUFile : string;
  Subprograms : list Subprogram;
  CallSites : list CallSite;
  InlineInstances : list InlineInstance;
  Structs : list StructInfo;
  Typedefs : list TypedefInfo;
  Enums : list EnumInfo;
  Variables : list VariableInfo;
}.

Record frame := Frame {
  f_tag : tag;
  subprogramName : string;
  inlinedFromName : string;
  f_offset : Z;
}.

(** ** Computations that render types and may panic *)

Definition typed (A : Type) : Type := gmap Z string → outcome (A * gmap Z string).

#[export] Instance typed_ret : MRet typed := λ A a c, Val (a, c).
#[export] Instance typed_bind : MBind typed := λ A B f m c,
  match m c with Val (a, c') => f a c' | Panic => Panic end.

Lemma typed_bind_eq {A B} (m : typed A) (f : A → typed B) c :
  (m ≫= f) c = match m c with Val (a, c') => f a c' | Panic => Panic end.
Proof. done. Qed.

Definition lift {A} (o : outcome A) : typed A := λ c, match o with Val a => Val (a, c) | Panic => Panic end.

(** [tc.render] with fuel for all its offsets ([Signature.render_terminates]). *)
Definition with_types {A} (m : cached A) : typed A := λ c, match m c with Some r => Val r | None => Panic end.

Definition tc_render (dw : Data) (off : Z) : typed string := with_types (render dw (type_fuel dw) off).

(** ** Helpers *)

(** An index past the table, negative or past the end, gives "", an index of a nil
    entry a nil dereference. *)
Definition fileFromIdx (files : list (option string)) (idx : Z) : outcome string :=
  if (idx <? 0)%Z || (Z.of_nat (length files) <=? idx)%Z then Val ""
  else match files !! Z.to_nat idx with Some (Some name) => Val name | _ => Panic end.

Definition file_at (files : list (option string)) (e : Entry) (a : attr) : outcome string :=
  match int64_at e a with Some idx => fileFromIdx files idx | None => Val "" end.

Definition name_of (e : Entry) : string := default "" (string_at e AttrName).
Definition int_of (e : Entry) (a : attr) : Z := default 0%Z (int64_at e a).

Definition lookupName (dw : Data) (off : Z) : string :=
  match entry_at dw off with Some (e, _) => name_of e | None => "" end.

(** The name of the entry an attribute refers to. *)
Definition name_behind (dw : Data) (e : Entry) (a : attr) : string :=
  match offset_at e a with Some off => lookupName dw off | None => "" end.

Definition newFrame (dw : Data) (e : Entry) : frame :=
  match Tag e with
  | TagSubprogram =>
    Frame TagSubprogram
      (if String.eqb (name_of e) "" then name_behind dw e AttrAbstractOrigin else name_of e) "" (Offset e)
  | TagInlinedSubroutine => Frame TagInlinedSubroutine "" (name_behind dw e AttrAbstractOrigin) (Offset e)
  | t => Frame t "" "" (Offset e)
  end.

(** ** One entry *)

Section parse.
Context (dw : Data) (files : list (option string)).

Definition type_of (e : Entry) : typed string := render_or (tc_render dw) (offset_at e AttrType) "".

Definition parseSubprogram (e : Entry) : typed Subprogram :=
  file ← lift (file_at files e AttrDeclFile);
  let decl := default false (bool_at e AttrDeclaration) in
  let abstract := bool_decide (is_Some (int64_at e AttrInline)) && negb decl in
  sig ← with_types (buildSignature dw (render dw (type_fuel dw)) e);
  mret (MkSubprogram (name_of e) (default "" (string_at e AttrLinkageName)) file
          (int_of e AttrDeclLine) (int_of e AttrDeclColumn) sig
          (bool_decide (is_Some (uint64_at e AttrLowpc)) || abstract) decl
          (default false (bool_at e AttrExternal)) abstract).

(** The walk outward from an inlined body: parent, depth, physical caller. *)
Fixpoint enclosing_inline (stack : list frame) (parent : string) (depth : Z) : string * Z * string :=
  match stack with
  | [] => (parent, depth, "")
  | f :: stack =>
    match f_tag f with
    | TagInlinedSubroutine =>
      enclosing_inline stack (if String.eqb parent "" then inlinedFromName f else parent) (depth + 1)
    | TagSubprogram => (parent, depth, subprogramName f)
    | _ => enclosing_inline stack parent depth
    end
  end.

Definition parseInlineInstance (stack : list frame) (e : Entry) : outcome (option InlineInstance) :=
  match offset_at e AttrAbstractOrigin with
  | None => Val None
  | Some off =>
    let callee := lookupName dw off in
    if String.eqb callee "" then Val None
    else
      file ← file_at files e AttrCallFile;
      let '(parent, depth, caller) := enclosing_inline stack "" 1 in
      Val (if String.eqb caller "" then None
           else Some (MkInlineInstance callee caller parent depth file
                        (int_of e AttrCallLine) (int_of e AttrCallColumn)))
  end.

(** The walk outward from a call: physical caller and its offset, source caller. *)
Fixpoint enclosing_call (stack : list frame) (source : string) : string * Z * string :=
  match stack with
  | [] => ("", 0%Z, source)
  | f :: stack =>
    match f_tag f with
    | TagInlinedSubroutine =>
      enclosing_call stack (if String.eqb source "" then inlinedFromName f else source)
    | TagSubprogram =>
      (subprogramName f, f_offset f, if String.eqb source "" then subprogramName f else source)
    | _ => enclosing_call stack source
    end
  end.

(** [resolveLine]: the position of the byte before the return address. *)
Definition resolveLine (lr : option line_table) (pc : Z) (pos : string * Z * Z) : string * Z * Z :=
  let '(file, line, _) := pos in
  match lr with
  | Some lt =>
    if (String.eqb file "" || (line =? 0)%Z) && (0 <? pc)%Z then
      match lt_SeekPC lt (pc - 1) with
      | Some (f, l, c) => (default file f, l, c)
      | None => pos
      end
    else pos
  | None => pos
  end.

Definition parseCallSite (lr : option line_table) (stack : list frame) (e : Entry) : outcome CallSite :=
  file ← file_at files e AttrCallFile;
  let pc := default 0%Z (uint64_at e AttrCallReturnPC) in
  let '(file, line, col) := resolveLine lr pc (file, int_of e AttrCallLine, int_of e AttrCallColumn) in
  let '(enclosing, off, source) := enclosing_call stack "" in
  Val (MkCallSite enclosing source file line col
         (bool_decide (offset_at e AttrCallOrigin = None)) (name_behind dw e AttrCallOrigin) "" ""
         pc (default [] (bytes_at e AttrCallTarget)) off).

Fixpoint struct_fields (cs : list Entry) : typed (list FieldInfo) :=
  match cs with
  | [] => mret []
  | c :: cs =>
    match Tag c with
    | TagMember =>
      t ← type_of c;
      fs ← struct_fields cs;
      mret (MkFieldInfo (name_of c) t (int_of c AttrDataMemberLoc) :: fs)
    | _ => struct_fields cs
    end
  end.

(** The children [parseStruct] and [parseEnum] read: [rest] is what the reader has
    still to return. *)
Definition own_children (e : Entry) (rest : list Entry) : list Entry :=
  if Children e then (children rest).1 else [].

Definition parseStruct (e : Entry) (kids : list Entry) : typed StructInfo :=
  file ← lift (file_at files e AttrDeclFile);
  fields ← struct_fields kids;
  mret (MkStructInfo (name_of e) (match Tag e with TagUnionType => "union" | _ => "struct" end) file
          (int_of e AttrDeclLine) (int_of e AttrDeclColumn) (int_of e AttrByteSize) fields).

Definition enum_constant (c : Entry) : option EnumConstant :=
  match Tag c with
  | TagEnumerator =>
    if String.eqb (name_of c) "" then None else Some (MkEnumConstant (name_of c) (int_of c AttrConstValue))
  | _ => None
  end.

Definition parseEnum (e : Entry) (kids : list Entry) : outcome EnumInfo :=
  file ← file_at files e AttrDeclFile;
  Val (MkEnumInfo (name_of e) file (int_of e AttrDeclLine) (int_of e AttrDeclColumn) (int_of e AttrByteSize)
         (omap enum_constant kids)).

Definition parseTypedef (e : Entry) : typed TypedefInfo :=
  file ← lift (file_at files e AttrDeclFile);
  t ← type_of e;
  mret (MkTypedefInfo (name_of e) file (int_of e AttrDeclLine) t).

Definition parseVariable (e : Entry) : typed VariableInfo :=
  file ← lift (file_at files e AttrDeclFile);
  t ← type_of e;
  mret (MkVariableInfo (name_of e) file (int_of e AttrDeclLine) t).
End parse.

(** ** The pass *)

(** What the loop accumulates beside the stack. *)
Record walk := Walk {
  w_info : Info;
  w_files : list (option string);
  w_lr : option line_table;
  w_varTypes : gmap string Z;
}.

Definition add_unit (compdir cufile : string) (i : Info) : Info :=
  MkInfo compdir cufile (Subprograms i) (CallSites i) (InlineInstances i) (Structs i) (Typedefs i) (Enums i) (Variables i).
Definition add_subprogram (x : Subprogram) (i : Info) : Info :=
  MkInfo (CompDir i) (CUFile i) (Subprograms i ++ [x]) (CallSites i) (InlineInstances i) (Structs i) (Typedefs i) (Enums i) (Variables i).
Definition set_callsites (xs : list CallSite) (i : Info) : Info :=
  MkInfo (CompDir i) (CUFile i) (Subprograms i) xs (InlineInstances i) (Structs i) (Typedefs i) (Enums i) (Variables i).
Definition add_instance (x : InlineInstance) (i : Info) : Info :=
  MkInfo (CompDir i) (CUFile i) (Subprograms i) (CallSites i) (InlineInstances i ++ [x]) (Structs i) (Typedefs i) (Enums i) (Variables i).
Definition add_struct (x : StructInfo) (i : Info) : Info :=
  MkInfo (CompDir i) (CUFile i) (Subprograms i) (CallSites i) (InlineInstances i) (Structs i ++ [x]) (Typedefs i) (Enums i) (Variables i).
Definition add_typedef (x : TypedefInfo) (i : Info) : Info :=
  MkInfo (CompDir i) (CUFile i) (Subprograms i) (CallSites i) (InlineInstances i) (Structs i) (Typedefs i ++ [x]) (Enums i) (Variables i).
Definition add_enum (x : EnumInfo) (i : Info) : Info :=
  MkInfo (CompDir i) (CUFile i) (Subprograms i) (CallSites i) (InlineInstances i) (Structs i) (Typedefs i) (Enums i ++ [x]) (Variables i).
Definition add_variable (x : VariableInfo) (i : Info) : Info :=
  MkInfo (CompDir i) (CUFile i) (Subprograms i) (CallSites i) (InlineInstances i) (Structs i) (Typedefs i) (Enums i) (Variables i ++ [x]).

Definition with_info (f : Info → Info) (w : walk) : walk :=
  Walk (f (w_info w)) (w_files w) (w_lr w) (w_varTypes w).

Section walk.
Context (dw : Data).

(** A variable's entry: its type's offset by name, and the variable itself, for the
    unit's own variables only. *)
Definition visit_variable (stack : list frame) (w : walk) (e : Entry) : typed walk :=
  let top := length stack <=? 1 in
  let types :=
    match offset_at e AttrType with
    | Some off => if top && negb (String.eqb (name_of e) "") then <[name_of e := off]> (w_varTypes w) else w_varTypes w
    | None => w_varTypes w
    end in
  v ← parseVariable dw (w_files w) e;
  mret (Walk (if negb (String.eqb (vi_Name v) "") && negb (String.eqb (vi_DeclFile v) "") && top
              then add_variable v (w_info w) else w_info w)
          (w_files w) (w_lr w) types).

(** The [switch] on one entry with its children. *)
Definition visit (stack : list frame) (w : walk) (e : Entry) (kids : list Entry) : typed walk :=
  match Tag e with
  | TagCompileUnit =>
    let info := add_unit (default "" (string_at e AttrCompDir)) (name_of e) (w_info w) in
    mret (match d_lines dw (Offset e) with
          | Some lt => Walk info (lt_Files lt) (Some lt) (w_varTypes w)
          | None => Walk info (w_files w) (w_lr w) (w_varTypes w)
          end)
  | TagSubprogram => sp ← parseSubprogram dw (w_files w) e; mret (with_info (add_subprogram sp) w)
  | TagInlinedSubroutine =>
    ii ← lift (parseInlineInstance dw (w_files w) stack e);
    mret (match ii with Some ii => with_info (add_instance ii) w | None => w end)
  | TagCallSite =>
    cs ← lift (parseCallSite dw (w_files w) (w_lr w) stack e);
    mret (if negb (String.eqb (cs_File cs) "") || negb (cs_Line cs =? 0)%Z
          then with_info (λ i, set_callsites (CallSites i ++ [cs]) i) w else w)
  | TagStructType | TagUnionType => s ← parseStruct dw (w_files w) e kids; mret (with_info (add_struct s) w)
  | TagEnumerationType => en ← lift (parseEnum (w_files w) e kids); mret (with_info (add_enum en) w)
  | TagTypedef =>
    t ← parseTypedef dw (w_files w) e;
    mret (if String.eqb (td_Name t) "" then w else with_info (add_typedef t) w)
  | TagVariable => visit_variable stack w e
  | _ => mret w
  end.

(** The entries whose children their own parser has read. *)
Definition consumes (e : Entry) : bool :=
  match Tag e with TagStructType | TagUnionType | TagEnumerationType => true | _ => false end.

(** The loop.  [skip] is the depth inside the children that [parseStruct] or
    [parseEnum] has read already. *)
Fixpoint read_loop (skip : option nat) (stack : list frame) (w : walk) (l : list Entry) :
    typed (result unit walk) :=
  match l with
  | [] => mret (if d_broken dw then Err () else Ok w)
  | e :: rest =>
    match skip with
    | Some d =>
      if is_null e then read_loop (match d with 0 => None | S d => Some d end) stack w rest
      else read_loop (Some (if Children e then S d else d)) stack w rest
    | None =>
      if is_null e then read_loop None (tail stack) w rest
      else
        w' ← visit stack w e (own_children e rest);
        if consumes e then read_loop (if Children e then Some 0 else None) stack w' rest
        else read_loop None (if Children e then newFrame dw e :: stack else stack) w' rest
    end
  end.

Definition new_walk : walk := Walk (MkInfo "" "" [] [] [] [] [] [] []) [] None ∅.

(** ** The pass over a tree *)

(** The entries the pass visits below [stack], each with the frames that enclose it
    and its children; the children of records and enumerations are not visited. *)
Fixpoint visits (stack : list frame) (d : die) : list (list frame * Entry * list Entry) :=
  let '(Die e kids) := d in
  (stack, e, root_of <$> kids) ::
    (if consumes e then [] else mjoin (visits (newFrame dw e :: stack) <$> kids)).

Fixpoint visit_all (w : walk) (vs : list (list frame * Entry * list Entry)) : typed walk :=
  match vs with
  | [] => mret w
  | (stack, e, kids) :: vs => w' ← visit stack w e kids; visit_all w' vs
  end.

Lemma skip_flatten ds depth stack w l c :
  Forall die_ok ds →
  read_loop (Some depth) stack w (flatten ds ++ l) c = read_loop (Some depth) stack w l c.
Proof.
  assert (∀ d, die_ok d → ∀ depth l, read_loop (Some depth) stack w (flatten_die d ++ l) c =
    read_loop (Some depth) stack w l c) as Hd.
  { induction d as [e kids IH] using die_ind'. intros (Hn & Hk & Hkids) dp l'.
    rewrite flatten_die_eq. cbn [app read_loop]. rewrite Hn. destruct (Children e); [|done].
    fold (dies_ok kids) in Hkids. rewrite dies_ok_Forall in Hkids. rewrite <-app_assoc.
    assert (∀ dp l, read_loop (Some dp) stack w (flatten kids ++ l) c = read_loop (Some dp) stack w l c) as ->; [|done].
    clear -IH Hkids. induction kids as [|k kids IHk]; [done|]. intros dp l. inversion IH; inversion Hkids; subst.
    rewrite flatten_cons, <-app_assoc. rewrite H1 by done. by apply IHk. }
  induction 1 as [|d ds Hok _ IH]; [done|]. rewrite flatten_cons, <-app_assoc. by rewrite Hd.
Qed.

Lemma visit_all_app w vs vs' c :
  visit_all w (vs ++ vs') c = (w' ← visit_all w vs; visit_all w' vs') c.
Proof.
  revert w c; induction vs as [|[[stack e] kids] vs IH]; intros w c; [done|].
  cbn [app visit_all]. rewrite !typed_bind_eq. destruct (visit stack w e kids c) as [[w' c']|]; [|done]. apply IH.
Qed.

Lemma read_loop_flatten ds stack w l c :
  Forall die_ok ds →
  read_loop None stack w (flatten ds ++ l) c =
    (w' ← visit_all w (mjoin (visits stack <$> ds)); read_loop None stack w' l) c.
Proof.
  assert (∀ d, die_ok d → ∀ stack w l c, read_loop None stack w (flatten_die d ++ l) c =
    (w' ← visit_all w (visits stack d); read_loop None stack w' l) c) as Hd.
  { induction d as [e kids IH] using die_ind'. intros (Hn & Hk & Hkids) st w0 l' c0.
    rewrite flatten_die_eq. cbn [app read_loop visits visit_all]. rewrite Hn.
    fold (dies_ok kids) in Hkids.
    assert (own_children e ((if Children e then flatten kids ++ [null_entry 0] else []) ++ l') = root_of <$> kids) as ->.
    { unfold own_children. destruct (Children e); [|by rewrite Hk].
      rewrite <-app_assoc. cbn [app]. by rewrite children_flatten. }
    rewrite !typed_bind_eq. destruct (visit st w0 e (root_of <$> kids) c0) as [[w1 c1]|]; [|done].
    rewrite dies_ok_Forall in Hkids. destruct (consumes e).
    - cbn [visit_all]. destruct (Children e); [|done]. rewrite <-app_assoc. cbn [app].
      rewrite skip_flatten by done. done.
    - destruct (Children e) eqn:Ec; [|by rewrite Hk]. rewrite <-app_assoc. cbn [app].
      assert (∀ w l c, read_loop None (newFrame dw e :: st) w (flatten kids ++ l) c =
        (w' ← visit_all w (mjoin (visits (newFrame dw e :: st) <$> kids));
         read_loop None (newFrame dw e :: st) w' l) c) as Hkk.
      { clear -IH Hkids. induction kids as [|k kids IHk]; [done|]. intros w l c. inversion IH; inversion Hkids; subst.
        rewrite flatten_cons, <-app_assoc. rewrite H1 by done. rewrite fmap_cons. cbn [mjoin list_join].
        rewrite !typed_bind_eq. rewrite visit_all_app. rewrite !typed_bind_eq.
        destruct (visit_all w (visits (newFrame dw e :: st) k) c) as [[w' c']|]; [|done]. by apply IHk. }
      rewrite Hkk. rewrite !typed_bind_eq. by destruct (visit_all w1 _ c1) as [[w' c']|]. }
  intros Hok. revert w c. induction Hok as [|d ds Hok' _ IH]; intros w c; [done|].
  rewrite flatten_cons, <-app_assoc. rewrite Hd by done. rewrite fmap_cons. cbn [mjoin list_join].
  rewrite !typed_bind_eq. rewrite visit_all_app. rewrite !typed_bind_eq.
  destruct (visit_all w (visits stack d) c) as [[w' c']|]; [|done]. by apply IH.
Qed.
End walk.

(** ** Computations that answer

    [ensures m Q]: [m] does not panic, and its answer satisfies [Q]. *)

Definition ensures {A} (m : typed A) (Q : A → Prop) : Prop := ∀ c, ∃ a c', m c = Val (a, c') ∧ Q a.

Lemma ensures_ret {A} (a : A) (Q : A → Prop) : Q a → ensures (mret a) Q.
Proof. intros H c. by exists a, c. Qed.

Lemma ensures_bind {A B} (m : typed A) (f : A → typed B) P Q :
  ensures m P → (∀ a, P a → ensures (f a) Q) → ensures (m ≫= f) Q.
Proof.
  intros Hm Hf c. destruct (Hm c) as (a & c1 & H1 & Ha). destruct (Hf a Ha c1) as (b & c2 & H2 & Hb).
  exists b, c2. by rewrite typed_bind_eq, H1.
Qed.

Lemma ensures_lift {A} (o : outcome A) (Q : A → Prop) : (∃ a, o = Val a ∧ Q a) → ensures (lift o) Q.
Proof. intros (a & -> & Ha) c. by exists a, c. Qed.

Lemma ensures_types {A} (m : cached A) : total m → ensures (with_types m) (λ _, True).
Proof. intros H c. unfold with_types. destruct (H c) as [[a c'] ->]. by exists a, c'. Qed.

Lemma ensures_type_of dw e : ensures (type_of dw e) (λ _, True).
Proof.
  unfold type_of, render_or. destruct (offset_at e _); [|by apply ensures_ret].
  apply ensures_types. intros c. apply render_total.
Qed.

Lemma ensures_struct_fields dw cs : ensures (struct_fields dw cs) (λ _, True).
Proof.
  induction cs as [|c cs IH]; [by apply ensures_ret|]. simpl. destruct (Tag c); try exact IH.
  eapply ensures_bind; [apply ensures_type_of|]. intros t _.
  eapply ensures_bind; [apply IH|]. intros fs _. by apply ensures_ret.
Qed.

(** A file table without nil entries. *)
Definition table_ok (files : list (option string)) : Prop := Forall is_Some files.

Lemma fileFromIdx_ok files idx : table_ok files → ∃ s, fileFromIdx files idx = Val s.
Proof.
  intros Hok. unfold fileFromIdx. destruct (_ || _) eqn:E; [eauto|].
  apply orb_false_iff in E as [H0%Z.ltb_ge Hl%Z.leb_gt].
  destruct (lookup_lt_is_Some_2 files (Z.to_nat idx)) as [x Hx]; [lia|].
  rewrite Hx. pose proof (Forall_lookup_1 _ _ _ _ Hok Hx) as [s ->]. eauto.
Qed.

Lemma file_at_ok files e a : table_ok files → ∃ s, file_at files e a = Val s ∧ True.
Proof.
  intros Hok. unfold file_at. destruct (int64_at e a) as [idx|]; [|eauto].
  destruct (fileFromIdx_ok files idx Hok) as [s ->]. eauto.
Qed.

(** What the pass keeps: no nil file, and of every call site a property of the entry
    it was read from. *)
Record walk_ok (T : list Z → Prop) (w : walk) : Prop := {
  wo_files : table_ok (w_files w);
  wo_sites : Forall (λ cs, T (callTarget cs)) (CallSites (w_info w));
}.

Section walk_ok.
Context (dw : Data) (T : list Z → Prop).
Hypothesis tables : ∀ off lt, d_lines dw off = Some lt → table_ok (lt_Files lt).
Hypothesis T_nil : T [].

Definition target_ok (e : Entry) : Prop := ∀ b, bytes_at e AttrCallTarget = Some b → T b.

Lemma parseCallSite_ok files lr stack e :
  table_ok files → target_ok e → ∃ cs, parseCallSite dw files lr stack e = Val cs ∧ T (callTarget cs).
Proof.
  intros Hf Ht. unfold parseCallSite. destruct (file_at_ok files e AttrCallFile Hf) as (s & -> & _).
  cbn [mbind outcome_bind]. destruct (resolveLine _ _ _) as [[file line] col].
  destruct (enclosing_call stack "") as [[encl off] source]. eexists. split; [done|]. simpl.
  destruct (bytes_at e AttrCallTarget) eqn:E; simpl; auto.
Qed.

Lemma parseInlineInstance_ok files stack e :
  table_ok files → ∃ ii, parseInlineInstance dw files stack e = Val ii ∧ True.
Proof.
  intros Hf. unfold parseInlineInstance. destruct (offset_at e _); [|eauto].
  destruct (String.eqb _ ""); [eauto|]. destruct (file_at_ok files e AttrCallFile Hf) as (s & -> & _).
  cbn [mbind outcome_bind]. destruct (enclosing_inline stack "" 1) as [[p d] c]. eauto.
Qed.

Lemma with_info_ok f w :
  walk_ok T w → CallSites (f (w_info w)) = CallSites (w_info w) → walk_ok T (with_info f w).
Proof. intros [H1 H2] H. split; [done|]. simpl. by rewrite H. Qed.

Lemma visit_ok stack w e kids : walk_ok T w → target_ok e → ensures (visit dw stack w e kids) (walk_ok T).
Proof.
  intros Hw Ht. pose proof Hw as [Hf Hs]. unfold visit. destruct (Tag e); try (by apply ensures_ret).
  - apply ensures_ret. destruct (d_lines dw (Offset e)) eqn:E; split; simpl; eauto.
  - eapply (ensures_bind _ _ (λ _, True)); [|intros sp _; apply ensures_ret; by apply with_info_ok].
    unfold parseSubprogram. eapply ensures_bind; [apply ensures_lift, file_at_ok, Hf|]. intros file _.
    eapply ensures_bind; [apply ensures_types, buildSignature_total|]. intros sig _. by apply ensures_ret.
  - eapply ensures_bind; [apply ensures_lift, parseInlineInstance_ok, Hf|]. intros ii _. apply ensures_ret.
    destruct ii; [by apply with_info_ok|done].
  - eapply ensures_bind; [apply ensures_lift, parseCallSite_ok; [exact Hf|exact Ht]|]. intros cs Hcs.
    apply ensures_ret. destruct (_ || _); [|done]. split; [done|]. simpl. apply Forall_app; auto.
  - eapply (ensures_bind _ _ (λ _, True)); [|intros st _; apply ensures_ret; by apply with_info_ok].
    unfold parseStruct. eapply ensures_bind; [apply ensures_lift, file_at_ok, Hf|]. intros file _.
    eapply ensures_bind; [apply ensures_struct_fields|]. intros fs _. by apply ensures_ret.
  - eapply (ensures_bind _ _ (λ _, True)); [|intros st _; apply ensures_ret; by apply with_info_ok].
    unfold parseStruct. eapply ensures_bind; [apply ensures_lift, file_at_ok, Hf|]. intros file _.
    eapply ensures_bind; [apply ensures_struct_fields|]. intros fs _. by apply ensures_ret.
  - eapply (ensures_bind _ _ (λ _, True)); [|intros en _; apply ensures_ret; by apply with_info_ok].
    apply ensures_lift. unfold parseEnum. destruct (file_at_ok (w_files w) e AttrDeclFile Hf) as (s & -> & _). eauto.
  - eapply (ensures_bind _ _ (λ _, True)).
    { unfold parseTypedef. eapply ensures_bind; [apply ensures_lift, file_at_ok, Hf|]. intros file _.
      eapply ensures_bind; [apply ensures_type_of|]. intros t _. by apply ensures_ret. }
    intros t _. apply ensures_ret. destruct (String.eqb _ ""); [done|by apply with_info_ok].
  - unfold visit_variable. eapply (ensures_bind _ _ (λ _, True)).
    { unfold parseVariable. eapply ensures_bind; [apply ensures_lift, file_at_ok, Hf|]. intros file _.
      eapply ensures_bind; [apply ensures_type_of|]. intros t _. by apply ensures_ret. }
    intros v _. apply ensures_ret. split; [done|]. simpl. destruct (_ && _); done.
Qed.

Lemma read_loop_ok skip stack w l :
  walk_ok T w → Forall target_ok l →
  ensures (read_loop dw skip stack w l) (λ r, if d_broken dw then r = Err () else ∃ w', r = Ok w' ∧ walk_ok T w').
Proof.
  intros Hw Hl. revert skip stack w Hw. induction Hl as [|e l He _ IH]; intros skip stack w Hw; cbn [read_loop].
  { apply ensures_ret. destruct (d_broken dw); eauto. }
  destruct skip as [d|].
  - destruct (is_null e); by apply IH.
  - destruct (is_null e); [by apply IH|]. eapply ensures_bind; [by apply visit_ok|].
    intros w' Hw'. destruct (consumes e); by apply IH.
Qed.
End walk_ok.

(** ** Properties *)

(** C31: On the entries of any trees the pass is the traversal of those trees: each
    entry is handled once, in preorder, with exactly the frames of the entries that
    enclose it, and the children of records and enumerations by their parent
    alone. *)
Theorem read_loop_tree dw ds c :
  dies_ok ds → d_broken dw = false →
  read_loop dw None [] new_walk (flatten ds) c =
    (w ← visit_all dw new_walk (mjoin (visits dw [] <$> ds)); mret (Ok w)) c.
Proof.
  intros Hok%dies_ok_Forall Hb. pose proof (read_loop_flatten dw ds [] new_walk [] c Hok) as H.
  rewrite app_nil_r in H. rewrite H. rewrite !typed_bind_eq.
  destruct (visit_all dw new_walk _ c) as [[w c']|]; [|done]. simpl. by rewrite Hb.
Qed.

(** A unit with a function [f] that has inlined [g], which has inlined [h]. *)
Definition example_dies : list die :=
  [Die (MkEntry 11 TagCompileUnit true [(AttrName, VString "a.c"); (AttrCompDir, VString "/b")])
    [Die (MkEntry 20 TagSubprogram false [(AttrName, VString "g"); (AttrInline, VInt64 1)]) [];
     Die (MkEntry 30 TagSubprogram false [(AttrName, VString "h"); (AttrInline, VInt64 1)]) [];
     Die (MkEntry 40 TagStructType true [(AttrName, VString "node")])
       [Die (MkEntry 41 TagMember false [(AttrName, VString "next")]) []];
     Die (MkEntry 50 TagSubprogram true [(AttrName, VString "f"); (AttrLowpc, VUint64 0)])
       [Die (MkEntry 60 TagInlinedSubroutine true [(AttrAbstractOrigin, VOffset 20); (AttrCallLine, VInt64 7)])
         [Die (MkEntry 70 TagInlinedSubroutine false [(AttrAbstractOrigin, VOffset 30); (AttrCallLine, VInt64 3)]) [];
          Die (MkEntry 80 TagCallSite false [(AttrCallTarget, VBytes [0x55]%Z); (AttrCallLine, VInt64 4)]) []]]]].

Definition example_data : Data := MkData (flatten example_dies) false (λ _, None).

Lemma read_loop_tree_witness :
  dies_ok example_dies ∧ d_broken example_data = false ∧
  read_loop example_data None [] new_walk (flatten example_dies) ∅ =
    (w ← visit_all example_data new_walk (mjoin (visits example_data [] <$> example_dies)); mret (Ok w)) ∅.
Proof.
  assert (dies_ok example_dies) as Hok by (cbn; repeat split; done).
  split; [exact Hok|]. split; [reflexivity|]. by apply (read_loop_tree example_data).
Defined.

(** Resolving a file index panics exactly when it names a nil entry of the file
    table, as index 0 does in the tables of DWARF 4 and older. *)
Theorem fileFromIdx_panics files idx :
  fileFromIdx files idx = Panic ↔ ∃ n, idx = Z.of_nat n ∧ files !! n = Some None.
Proof.
  unfold fileFromIdx. destruct (Z.ltb_spec idx 0); simpl; [split; [done|]; intros (n & -> & _); lia|].
  destruct (Z.leb_spec (Z.of_nat (length files)) idx).
  - split; [done|]. intros (n & -> & Hn). apply lookup_lt_Some in Hn. lia.
  - destruct (files !! Z.to_nat idx) as [[name|]|] eqn:E.
    + split; [done|]. intros (n & -> & Hn). rewrite Nat2Z.id in E. congruence.
    + split; [|done]. intros _. exists (Z.to_nat idx). split; [lia|done].
    + apply lookup_ge_None in E. lia.
Qed.

Definition is_inlined (f : frame) : bool := match f_tag f with TagInlinedSubroutine => true | _ => false end.
Definition is_subprogram (f : frame) : bool := match f_tag f with TagSubprogram => true | _ => false end.

Lemma enclosing_inline_spec ins f rest parent depth :
  Forall (λ g, is_subprogram g = false) ins → is_subprogram f = true →
  enclosing_inline (ins ++ f :: rest) parent depth =
    (foldl (λ p g, if is_inlined g && String.eqb p "" then inlinedFromName g else p) parent ins,
     (depth + Z.of_nat (length (List.filter is_inlined ins)))%Z, subprogramName f).
Proof.
  intros Hins Hf. revert parent depth. induction Hins as [|g ins Hg _ IH]; intros parent depth.
  - cbn [app enclosing_inline]. unfold is_subprogram in Hf. destruct (f_tag f); try done. simpl. do 2 f_equal. lia.
  - cbn [app enclosing_inline foldl List.filter]. unfold is_subprogram, is_inlined in *.
    destruct (f_tag g); try done; rewrite IH; simpl; try done. do 2 f_equal; lia.
Qed.

(** An inlined body is attributed to the innermost enclosing function, at a depth
    one more than the number of inlined bodies between them, with the innermost
    named one of these as its parent. *)
Theorem parseInlineInstance_attribution dw files e ins f rest ii :
  Forall (λ g, is_subprogram g = false) ins → is_subprogram f = true →
  parseInlineInstance dw files (ins ++ f :: rest) e = Val (Some ii) →
  ii_CallerName ii = subprogramName f ∧ ii_CallerName ii ≠ "" ∧
  ii_CalleeName ii = name_behind dw e AttrAbstractOrigin ∧ ii_CalleeName ii ≠ "" ∧
  Depth ii = (1 + Z.of_nat (length (List.filter is_inlined ins)))%Z ∧
  ParentCalleeName ii =
    default "" (inlinedFromName <$> List.find (λ g, is_inlined g && negb (String.eqb (inlinedFromName g) "")) ins).
Proof.
  intros Hins Hf. unfold parseInlineInstance, name_behind. destruct (offset_at e _) as [off|]; [|done].
  destruct (String.eqb_spec (lookupName dw off) "") as [|Hcallee]; [done|].
  destruct (file_at files e AttrCallFile) as [file|]; [|done]. cbn [mbind outcome_bind].
  rewrite enclosing_inline_spec by done. destruct (String.eqb_spec (subprogramName f) "") as [|Hcaller]; [done|].
  intros [= <-]. cbn. repeat split; try done.
  clear. assert (∀ ins p, p ≠ "" →
    foldl (λ p g, if is_inlined g && String.eqb p "" then inlinedFromName g else p) p ins = p) as Hkeep.
  { clear. intros ins p Hp. induction ins as [|g ins IH]; [done|]. simpl. apply String.eqb_neq in Hp as Hp'.
    by rewrite Hp', andb_false_r. }
  induction ins as [|g ins IH]; [done|]. simpl. rewrite andb_true_r. destruct (is_inlined g); simpl; [|done].
  destruct (String.eqb_spec (inlinedFromName g) "") as [Hg|Hne]; simpl; [by rewrite Hg|]. by apply Hkeep.
Qed.

Lemma parseInlineInstance_attribution_witness :
  parseInlineInstance example_data []
    ([Frame TagInlinedSubroutine "" "g" 60] ++
     Frame TagSubprogram "f" "" 50 :: [Frame TagCompileUnit "" "" 11])
    (MkEntry 70 TagInlinedSubroutine false [(AttrAbstractOrigin, VOffset 30); (AttrCallLine, VInt64 3)]) =
    Val (Some (MkInlineInstance "h" "f" "g" 2 "" 3 0)) ∧
  Depth (MkInlineInstance "h" "f" "g" 2 "" 3 0) =
    (1 + Z.of_nat (length (List.filter is_inlined [Frame TagInlinedSubroutine "" "g" 60])))%Z.
Proof.
  split; [vm_compute; reflexivity|].
  by apply (parseInlineInstance_attribution example_data []
    (MkEntry 70 TagInlinedSubroutine false [(AttrAbstractOrigin, VOffset 30); (AttrCallLine, VInt64 3)])
    [Frame TagInlinedSubroutine "" "g" 60] (Frame TagSubprogram "f" "" 50) [Frame TagCompileUnit "" "" 11]);
    [repeat constructor|..].
Defined.
