(* ===== verification/CallTarget.v ===== *)
(** * Resolving indirect calls ([internal/dwarfingest/calltarget.go])

    The two routes from a call without a named callee to the type it calls
    through: the register of [DW_AT_call_target], and the relocation of the call
    instruction.  Bytes are integers below 256, words are cut to their width, and a
    slice expression out of range panics. *)

From S2P Require Import Prelude GoStrings Dwarf Signature DwarfRead.
From Stdlib Require Import ZArith Lia.

(** ** Location expressions *)

Definition opReg0 : Z := 0x50.
Definition opReg31 : Z := 0x6f.
Definition opRegx : Z := 0x90.
Definition opEntryValue : Z := 0xa3.

(** [uleb]: the value, cut to 64 bits, and the bytes read (0: cut short, or longer
    than ten bytes). *)
Fixpoint uleb_loop (shift : Z) (v : Z) (i : nat) (b : list Z) : Z * nat :=
  match b with
  | [] => (0%Z, 0)
  | c :: b =>
    if (64 <=? shift)%Z then (0%Z, 0)
    else
      let v := Z.lor v (word64 (Z.shiftl (Z.land c 127) shift)) in
      if (Z.land c 128 =? 0)%Z then (v, S i) else uleb_loop (shift + 7) v (S i) b
  end.
Definition uleb (b : list Z) : Z * nat := uleb_loop 0 0 0 b.

(** [expr[1+w : 1+w+int(n)]]: a negative [int(n)] passes the length check and makes
    the slice bounds decrease. *)
Fixpoint decodeRegExpr_fuel (fuel : nat) (expr : list Z) : outcome (option Z) :=
  match fuel, expr with
  | 0, _ | _, [] => Val None
  | S fuel, op :: args =>
    if (op =? opEntryValue)%Z then
      let '(n, w) := uleb args in
      if (w =? 0) || (Z.of_nat (length args) - Z.of_nat w <? wrap64 n)%Z then Val None
      else if (wrap64 n <? 0)%Z then Panic
      else decodeRegExpr_fuel fuel (take (Z.to_nat (wrap64 n)) (drop w args))
    else if (opReg0 <=? op)%Z && (op <=? opReg31)%Z && bool_decide (args = []) then Val (Some (op - opReg0)%Z)
    else if (op =? opRegx)%Z then
      let '(n, w) := uleb args in
      if (w =? 0) || negb (w =? length args) then Val None else Val (Some n)
    else Val None
  end.
Definition decodeRegExpr (expr : list Z) : outcome (option Z) := decodeRegExpr_fuel (S (length expr)) expr.

(** ** Argument registers *)

Definition argRegOrder : list Z := [5; 4; 1; 2; 8; 9]%Z.

Fixpoint arg_index (i : nat) (integerClass : list bool) (reg : Z) : option nat :=
  match integerClass with
  | [] => None
  | isInt :: rest =>
    if negb isInt || (length argRegOrder <=? i) then None
    else if bool_decide (argRegOrder !! i = Some reg) then Some i
    else arg_index (S i) rest reg
  end.
(** [None] for -1. *)
Definition argIndexForReg (integerClass : list bool) (reg : Z) : option nat := arg_index 0 integerClass reg.

(** ** The object file *)

Record elf_symbol := ElfSymbol { sym_Name : string; sym_Info : Z; sym_Section : Z; sym_Value : Z; sym_Size : Z }.
Record elf_section := ElfSection { sec_Type : Z; sec_Info : Z; sec_Flags : Z; sec_Data : option (list Z) }.
Record elf_file := ElfFile {
  elf_Machine : Z;
  elf_Class : Z;
  elf_Symbols : option (list elf_symbol);
  elf_Sections : list elf_section;
}.

Definition EM_X86_64 : Z := 62.
Definition ELFCLASS64 : Z := 2.
Definition STT_FUNC : Z := 2.
Definition SHT_RELA : Z := 4.
Definition SHF_EXECINSTR : Z := 4.

Record callTargetReloc := MkReloc { rel_sym : string; rel_addend : Z }.

Record indirectResolver := MkResolver {
  ir_dw : Data;
  sysvAMD64 : bool;
  funcSyms : gmap string elf_symbol;
  relocs : gmap Z (gmap Z callTargetReloc);
  varTypes : gmap string Z;
}.

(** [binary.LittleEndian.Uint64]. *)
Definition uint64_le (b : list Z) : Z := foldr (λ c acc, c + 256 * acc)%Z 0%Z (take 8 b).

(** One entry of 24 bytes: offset, symbol and type, addend. *)
Definition load_reloc (syms : list elf_symbol) (byOff : gmap Z callTargetReloc) (b : list Z) :
    gmap Z callTargetReloc :=
  let symIdx := (Z.shiftr (uint64_le (drop 8 b)) 32 - 1)%Z in
  if (symIdx <? 0)%Z then byOff
  else match syms !! Z.to_nat symIdx with
  | Some s => <[uint64_le b := MkReloc (sym_Name s) (wrap64 (uint64_le (drop 16 b)))]> byOff
  | None => byOff
  end.

Fixpoint load_entries (fuel : nat) (syms : list elf_symbol) (byOff : gmap Z callTargetReloc) (data : list Z) :
    gmap Z callTargetReloc :=
  match fuel with
  | 0 => byOff
  | S fuel =>
    if length data <? 24 then byOff
    else load_entries fuel syms (load_reloc syms byOff data) (drop 24 data)
  end.

Definition load_section (sections : list elf_section) (syms : list elf_symbol)
    (rs : gmap Z (gmap Z callTargetReloc)) (sec : elf_section) : gmap Z (gmap Z callTargetReloc) :=
  if negb (sec_Type sec =? SHT_RELA)%Z then rs
  else match sections !! Z.to_nat (sec_Info sec) with
  | None => rs
  | Some target =>
    if (Z.land (sec_Flags target) SHF_EXECINSTR =? 0)%Z then rs
    else match sec_Data sec with
    | None => rs
    | Some data =>
      <[sec_Info sec := load_entries (length data) syms (default ∅ (rs !! sec_Info sec)) data]> rs
    end
  end.

Definition loadRelocs (f : elf_file) (syms : list elf_symbol) : gmap Z (gmap Z callTargetReloc) :=
  foldl (load_section (elf_Sections f) syms) ∅ (elf_Sections f).

Definition add_func (m : gmap string elf_symbol) (s : elf_symbol) : gmap string elf_symbol :=
  if (Z.land (sym_Info s) 15 =? STT_FUNC)%Z && negb (String.eqb (sym_Name s) "")
  then match m !! sym_Name s with Some _ => m | None => <[sym_Name s := s]> m end
  else m.

Definition newIndirectResolver (f : elf_file) (dw : Data) (vars : gmap string Z) : indirectResolver :=
  let sysv := (elf_Machine f =? EM_X86_64)%Z && (elf_Class f =? ELFCLASS64)%Z in
  match elf_Symbols f with
  | None => MkResolver dw sysv ∅ ∅ vars
  | Some syms =>
    MkResolver dw sysv (foldl add_func ∅ syms) (if sysv then loadRelocs f syms else ∅) vars
  end.

(** ** Types behind an offset *)

Section resolver.
Context (ir : indirectResolver).
Let dw := ir_dw ir.

Definition is_qualifier (e : Entry) : bool :=
  match Tag e with TagConstType | TagVolatileType | TagTypedef | TagRestrictType => true | _ => false end.

Fixpoint strip (n : nat) (off : Z) : Z * option Entry :=
  match n with
  | 0 => (off, None)
  | S n =>
    match entry_at dw off with
    | None => (off, None)
    | Some (e, _) =>
      if is_qualifier e then
        match offset_at e AttrType with
        | Some next => strip n next
        | None => (off, Some e)
        end
      else (off, Some e)
    end
  end.
(** At most thirty-two links. *)
Definition stripQualifiers (off : Z) : Z * option Entry := strip 32 off.

Definition isIntegerClass (off : Z) : bool :=
  match (stripQualifiers off).2 with
  | None => false
  | Some e =>
    match Tag e with
    | TagPointerType | TagEnumerationType => true
    | TagBaseType =>
      match int64_at e AttrEncoding with
      | Some enc =>
        bool_decide (enc ∈ [0x01; 0x02; 0x05; 0x06; 0x07; 0x08]%Z) &&
        match int64_at e AttrByteSize with Some sz => (sz <=? 8)%Z | None => false end
      | None => false
      end
    | _ => false
    end
  end.

Definition isAggregate (off : Z) : bool :=
  if (off =? 0)%Z then false
  else match (stripQualifiers off).2 with
  | None => false
  | Some e => match Tag e with TagStructType | TagUnionType | TagArrayType | TagClassType => true | _ => false end
  end.

Definition returnTypeOff (spOff : Z) : Z :=
  match entry_at dw spOff with Some (e, _) => default 0%Z (offset_at e AttrType) | None => 0%Z end.

Record formalParam := MkFormalParam { fp_name : string; fp_typeOff : Z }.

Definition formal_param (c : Entry) : option formalParam :=
  match Tag c with
  | TagFormalParameter => Some (MkFormalParam (name_of c) (default 0%Z (offset_at c AttrType)))
  | _ => None
  end.
Definition formalParams (spOff : Z) : list formalParam :=
  match entry_at dw spOff with
  | Some (_, rest) => omap formal_param (children rest).1
  | None => []
  end.

Definition intArgIndex (params : list formalParam) (reg : Z) : option nat :=
  argIndexForReg ((λ p, isIntegerClass (fp_typeOff p)) <$> params) reg.

Definition fnPtrSignature (off : Z) : typed (option string) :=
  match (stripQualifiers off).2 with
  | None => mret None
  | Some e =>
    match Tag e, offset_at e AttrType with
    | TagPointerType, Some to =>
      match stripQualifiers to with
      | (sub, Some se) =>
        match Tag se with
        | TagSubroutineType =>
          sig ← with_types (renderSubroutineType dw (render dw (type_fuel dw)) sub se);
          mret (if String.eqb sig "" || negb (Contains sig "(") then None else Some sig)
        | _ => mret None
        end
      | (_, None) => mret None
      end
    | _, _ => mret None
    end
  end.

(** ** The two routes *)

(** A route's answer: [CalleeType] and [FieldHint]. *)
Definition resolveViaCallTarget (cs : CallSite) : typed (option (string * string)) :=
  r ← lift (decodeRegExpr (callTarget cs));
  match r with
  | None => mret None
  | Some reg =>
    if (enclosingOff cs =? 0)%Z || isAggregate (returnTypeOff (enclosingOff cs)) then mret None
    else
      let params := formalParams (enclosingOff cs) in
      match intArgIndex params reg ≫= (λ i, params !! i) with
      | None => mret None
      | Some p => sig ← fnPtrSignature (fp_typeOff p); mret ((λ s, (s, fp_name p)) <$> sig)
      end
  end.

(** The first member at the offset decides. *)
Definition member_at (byteOff : Z) (c : Entry) : bool :=
  match Tag c with TagMember => (int_of c AttrDataMemberLoc =? byteOff)%Z | _ => false end.

Definition resolveMember (varName : string) (typeOff byteOff : Z) : typed (option (string * string)) :=
  match stripQualifiers typeOff with
  | (_, None) => mret None
  | (base, Some e) =>
    whole ← (if (byteOff =? 0)%Z then fnPtrSignature base else mret None);
    match whole with
    | Some sig => mret (Some (sig, varName))
    | None =>
      match Tag e, entry_at dw base with
      | (TagStructType | TagUnionType), Some (_, rest) =>
        match List.find (member_at byteOff) (children rest).1 with
        | None => mret None
        | Some c =>
          match offset_at c AttrType with
          | None => mret None
          | Some mt =>
            sig ← fnPtrSignature mt;
            mret (match sig with
                  | Some sig =>
                    if String.eqb (name_of c) "" then None
                    else Some (sig, (if String.eqb (name_of e) "" then varName else name_of e) +:+ "." +:+ name_of c)
                  | None => None
                  end)
          end
        end
      | _, _ => mret None
      end
    end
  end.

Definition resolveViaReloc (cs : CallSite) : typed (option (string * string)) :=
  if (returnPC cs <? 4)%Z || String.eqb (EnclosingName cs) "" then mret None
  else match funcSyms ir !! EnclosingName cs with
  | None => mret None
  | Some sym =>
    if (returnPC cs <? sym_Value sym)%Z || (word64 (sym_Value sym + sym_Size sym) <? returnPC cs)%Z then mret None
    else match relocs ir !! sym_Section sym ≫= (λ m, m !! (returnPC cs - 4)%Z) with
    | None => mret None
    | Some rel =>
      match varTypes ir !! rel_sym rel with
      | None => mret None
      | Some typeOff => resolveMember (rel_sym rel) typeOff (wrap64 (rel_addend rel + 4))
      end
    end
  end.

Definition resolved (cs : CallSite) (r : option (string * string)) : CallSite :=
  match r with
  | None => cs
  | Some (sig, hint) =>
    MkCallSite (EnclosingName cs) (SourceCallerName cs) (cs_File cs) (cs_Line cs) (cs_Column cs) (Indirect cs)
      (cs_CalleeName cs) sig hint (returnPC cs) (callTarget cs) (enclosingOff cs)
  end.

Definition resolve (cs : CallSite) : typed CallSite :=
  if negb (sysvAMD64 ir) then mret cs
  else
    r ← (if bool_decide (callTarget cs = []) then mret None else resolveViaCallTarget cs);
    match r with
    | Some _ => mret (resolved cs r)
    | None => r ← resolveViaReloc cs; mret (resolved cs r)
    end.

Fixpoint resolve_all (css : list CallSite) : typed (list CallSite) :=
  match css with
  | [] => mret []
  | cs :: css =>
    cs' ← (if Indirect cs then resolve cs else mret cs);
    css' ← resolve_all css;
    mret (cs' :: css')
  end.
End resolver.

(** ** Reading an object *)

Inductive read_error := ErrOpenElf | ErrDWARF | ErrReadEntries.

(** An object file: [Err] when the ELF reader or the DWARF extraction refuses it. *)
Definition Read (obj : result read_error (elf_file * Data)) : outcome (result read_error Info) :=
  match obj with
  | Err e => Val (Err e)
  | Ok (f, dw) =>
    '(r, c) ← read_loop dw None [] new_walk (d_entries dw) ∅;
    match r with
    | Err _ => Val (Err ErrReadEntries)
    | Ok w =>
      if existsb Indirect (CallSites (w_info w)) then
        '(css, _) ← resolve_all (newIndirectResolver f dw (w_varTypes w)) (CallSites (w_info w)) c;
        Val (Ok (set_callsites css (w_info w)))
      else Val (Ok (w_info w))
    end
  end.

(** ** Lemmas *)

(** A ULEB128 encoding of at most [k] bytes. *)
Fixpoint uleb_encode (k : nat) (n : Z) : list Z :=
  match k with
  | 0 => []
  | S k => if (n <? 128)%Z then [n] else (Z.land n 127 + 128)%Z :: uleb_encode k (Z.shiftr n 7)
  end.

Lemma land_127 z : Z.land z 127 = (z mod 128)%Z.
Proof. change 127%Z with (Z.ones 7). by rewrite Z.land_ones. Qed.

Lemma testbit_low v s i : (0 ≤ v < 2 ^ s)%Z → (0 ≤ s ≤ i)%Z → Z.testbit v i = false.
Proof. intros Hv Hi. rewrite <-(Z.mod_small v (2 ^ s)) by done. apply Z.mod_pow2_bits_high. lia. Qed.

Lemma lor_disjoint v x s :
  (0 ≤ s)%Z → (0 ≤ v < 2 ^ s)%Z → Z.lor v (Z.shiftl x s) = (v + x * 2 ^ s)%Z.
Proof.
  intros Hs Hv. rewrite <-Z.shiftl_mul_pow2 by done.
  assert (Z.land v (Z.shiftl x s) = 0%Z) as H0.
  { apply Z.bits_inj'. intros i Hi. rewrite Z.land_spec, Z.bits_0.
    destruct (Z.lt_ge_cases i s).
    - rewrite Z.shiftl_spec_low by done. by rewrite andb_false_r.
    - by rewrite (testbit_low v s) by lia. }
  pose proof (Z.add_lor_land v (Z.shiftl x s)). lia.
Qed.

Lemma uleb_loop_encode k n shift v i rest :
  (0 ≤ n < 2 ^ (64 - shift))%Z → (0 ≤ shift < 64)%Z → (64 ≤ shift + 7 * Z.of_nat k)%Z → (0 ≤ v < 2 ^ shift)%Z →
  uleb_loop shift v i (uleb_encode k n ++ rest) = ((v + n * 2 ^ shift)%Z, i + length (uleb_encode k n)).
Proof.
  revert n shift v i. induction k as [|k IH]; intros n shift v i Hn Hshift Hk Hv; [lia|].
  assert (2 ^ 64 = 2 ^ (64 - shift) * 2 ^ shift)%Z as Hpow by (rewrite <-Z.pow_add_r by lia; f_equal; lia).
  assert (0 < 2 ^ shift)%Z as Hps by (apply Z.pow_pos_nonneg; lia).
  cbn [uleb_encode]. destruct (Z.ltb_spec n 128) as [Hlt|Hge].
  - cbn [app uleb_loop length]. rewrite (proj2 (Z.leb_gt 64 shift)) by lia.
    rewrite land_127, Z.mod_small by lia.
    assert (Z.land n 128 = 0%Z) as ->.
    { apply Z.bits_inj'. intros j Hj. rewrite Z.land_spec, Z.bits_0.
      change 128%Z with (2 ^ 7)%Z. rewrite Z.pow2_bits_eqb by lia.
      destruct (Z.eqb_spec 7 j); [|by rewrite andb_false_r]. by rewrite (testbit_low n 7) by lia. }
    cbn [Z.eqb]. rewrite Z.shiftl_mul_pow2 by lia. unfold word64. rewrite Z.mod_small by nia.
    rewrite <-Z.shiftl_mul_pow2 by lia. rewrite lor_disjoint by lia.
    rewrite ?Z.shiftl_mul_pow2 by lia. f_equal; lia.
  - cbn [app uleb_loop length]. rewrite (proj2 (Z.leb_gt 64 shift)) by lia.
    assert (n mod 128 < 128)%Z as Hm by (apply Z.mod_pos_bound; lia).
    assert (0 ≤ n mod 128)%Z as Hm0 by (apply Z.mod_pos_bound; lia).
    assert (7 < 64 - shift)%Z as H7.
    { destruct (Z.lt_ge_cases 7 (64 - shift)); [done|]. exfalso.
      assert (2 ^ (64 - shift) ≤ 2 ^ 7)%Z by (apply Z.pow_le_mono_r; lia). lia. }
    rewrite land_127. assert (Z.land (n mod 128 + 128) 127 = n mod 128)%Z as ->.
    { rewrite land_127. symmetry. apply (Z.mod_unique _ _ 1); [left; lia|lia]. }
    assert (Z.land (n mod 128 + 128) 128 = 128)%Z as ->.
    { assert (n mod 128 + 128 = Z.lor (n mod 128) (Z.shiftl 1 7))%Z as ->
        by (rewrite lor_disjoint by lia; lia).
      apply Z.bits_inj'. intros j Hj. rewrite Z.land_spec, Z.lor_spec.
      change (Z.shiftl 1 7) with (2 ^ 7)%Z. change 128%Z with (2 ^ 7)%Z at 2 3. rewrite Z.pow2_bits_eqb by lia.
      by destruct (Z.eqb_spec 7 j); rewrite ?orb_true_r, ?andb_false_r. }
    change (128 =? 0)%Z with false. cbn match.
    assert (n mod 128 * 2 ^ shift < 2 ^ 64)%Z as Hsm.
    { assert (n mod 128 ≤ n)%Z by (apply Z.mod_le; lia). nia. }
    unfold word64. rewrite Z.shiftl_mul_pow2 by lia. rewrite Z.mod_small by nia.
    rewrite <-Z.shiftl_mul_pow2 by lia. rewrite lor_disjoint by lia. rewrite ?Z.shiftl_mul_pow2 by lia.
    assert (2 ^ (shift + 7) = 2 ^ shift * 128)%Z as H27 by (rewrite Z.pow_add_r by lia; done).
    rewrite Z.shiftr_div_pow2 by lia. change (2 ^ 7)%Z with 128%Z.
    destruct (Z.lt_ge_cases (shift + 7) 64) as [Hs|Hs]; [|lia].
    rewrite IH.
    + f_equal; [|lia]. rewrite H27. pose proof (Z.div_mod n 128). nia.
    + split; [apply Z.div_pos; lia|]. apply Z.div_lt_upper_bound; [lia|].
      replace (128 * 2 ^ (64 - (shift + 7)))%Z with (2 ^ (64 - shift))%Z; [lia|].
      change 128%Z with (2 ^ 7)%Z. rewrite <-Z.pow_add_r by lia. f_equal. lia.
    + lia.
    + lia.
    + rewrite H27. nia.
Qed.

Lemma strip_bound ir n off o e : strip ir n off = (o, Some e) → (∃ r, entry_at (ir_dw ir) o = Some (e, r)) ∧
  (is_qualifier e = true → offset_at e AttrType = None).
Proof.
  revert off; induction n as [|n IH]; intros off; simpl; [done|].
  destruct (entry_at _ off) as [[e0 r]|] eqn:E; [|done].
  destruct (is_qualifier e0) eqn:Eq; [destruct (offset_at e0 AttrType) eqn:Eo|].
  - apply IH.
  - intros [= <- <-]. eauto.
  - intros [= <- <-]. split; [eauto|congruence].
Qed.

Lemma uleb_encode_read n rest :
  (0 ≤ n < 2 ^ 64)%Z → uleb (uleb_encode 10 n ++ rest) = (n, length (uleb_encode 10 n)).
Proof. intros Hn. unfold uleb. rewrite uleb_loop_encode by lia. f_equal. lia. Qed.

(** ** No panic *)

(** Up to nine bytes hold less than 2⁶³. *)
Lemma uleb_loop_bound b shift v i :
  (0 ≤ v < 2 ^ shift)%Z → (0 ≤ shift)%Z → (shift + 7 * Z.of_nat (length b) ≤ 63)%Z →
  (0 ≤ (uleb_loop shift v i b).1 < 2 ^ 63)%Z.
Proof.
  revert shift v i. induction b as [|c b IH]; intros shift v i Hv Hs Hl; cbn [uleb_loop]; [simpl; lia|].
  cbn [length] in Hl. rewrite (proj2 (Z.leb_gt 64 shift)) by lia.
  assert (0 ≤ Z.land c 127 < 2 ^ 7)%Z as Hc by (rewrite land_127; apply Z.mod_pos_bound; lia).
  assert (2 ^ shift * 2 ^ 7 = 2 ^ (shift + 7))%Z as Hpow by (rewrite <-Z.pow_add_r by lia; done).
  assert (2 ^ (shift + 7) ≤ 2 ^ 63)%Z by (apply Z.pow_le_mono_r; lia).
  assert (0 < 2 ^ shift)%Z by (apply Z.pow_pos_nonneg; lia).
  assert (0 ≤ Z.land c 127 * 2 ^ shift ≤ 127 * 2 ^ shift)%Z as Hm by (split; [nia|apply Z.mul_le_mono_nonneg_r; lia]).
  unfold word64. rewrite Z.shiftl_mul_pow2 by lia. rewrite Z.mod_small by lia.
  rewrite <-Z.shiftl_mul_pow2 by lia. rewrite lor_disjoint by lia.
  destruct (Z.land c 128 =? 0)%Z; [simpl; lia|]. apply IH; lia.
Qed.

Lemma wrap64_small n : (0 ≤ n < 2 ^ 63)%Z → wrap64 n = n.
Proof. intros H. unfold wrap64. rewrite Z.mod_small; lia. Qed.

Lemma decodeRegExpr_fuel_short fuel expr : length expr ≤ 10 → ∃ r, decodeRegExpr_fuel fuel expr = Val r.
Proof.
  revert expr. induction fuel as [|fuel IH]; intros expr Hl; [by eexists|].
  destruct expr as [|op args]; [by eexists|]. cbn [decodeRegExpr_fuel length] in *.
  destruct (op =? opEntryValue)%Z.
  - pose proof (uleb_loop_bound args 0 0 0) as Hb. unfold uleb. destruct (uleb_loop 0 0 0 args) as [n w].
    cbn [fst] in Hb. rewrite wrap64_small by lia. destruct (_ || _); [eauto|].
    rewrite (proj2 (Z.ltb_ge n 0)) by lia. apply IH. rewrite length_take, length_drop. lia.
  - destruct (_ && _ && _); [eauto|]. destruct (op =? opRegx)%Z; [|eauto].
    destruct (uleb args) as [n w]. destruct (_ || _); eauto.
Qed.

Definition short_target (b : list Z) : Prop := length b ≤ 10.

Section no_panic.
Context (ir : indirectResolver).

Lemma fnPtrSignature_ok off : ensures (fnPtrSignature ir off) (λ _, True).
Proof.
  unfold fnPtrSignature. destruct (stripQualifiers ir off).2 as [e|]; [|by apply ensures_ret].
  destruct (Tag e); try (by apply ensures_ret). destruct (offset_at e AttrType) as [to|]; [|by apply ensures_ret].
  destruct (stripQualifiers ir to) as [sub [se|]]; [|by apply ensures_ret].
  destruct (Tag se); try (by apply ensures_ret).
  eapply ensures_bind; [apply ensures_types, renderSubroutineType_total|]. intros sig _. by apply ensures_ret.
Qed.

Lemma resolveViaCallTarget_ok cs : short_target (callTarget cs) → ensures (resolveViaCallTarget ir cs) (λ _, True).
Proof.
  intros Hs. unfold resolveViaCallTarget. eapply (ensures_bind _ _ (λ _, True)).
  { apply ensures_lift. destruct (decodeRegExpr_fuel_short (S (length (callTarget cs))) (callTarget cs) Hs) as [r Hr].
    by exists r. }
  intros [reg|] _; [|by apply ensures_ret]. destruct (_ || _); [by apply ensures_ret|].
  destruct (_ ≫= _) as [p|]; [|by apply ensures_ret].
  eapply ensures_bind; [apply fnPtrSignature_ok|]. intros sig _. by apply ensures_ret.
Qed.

Lemma resolveMember_ok v off b : ensures (resolveMember ir v off b) (λ _, True).
Proof.
  unfold resolveMember. destruct (stripQualifiers ir off) as [base [e|]]; [|by apply ensures_ret].
  eapply (ensures_bind _ _ (λ _, True)).
  { destruct (b =? 0)%Z; [apply fnPtrSignature_ok|by apply ensures_ret]. }
  intros [sig|] _; [by apply ensures_ret|].
  destruct (Tag e); try (by apply ensures_ret);
    (destruct (entry_at (ir_dw ir) base) as [[e' rest]|]; [|by apply ensures_ret]);
    (destruct (List.find _ _) as [c|]; [|by apply ensures_ret]);
    (destruct (offset_at c AttrType) as [mt|]; [|by apply ensures_ret]);
    (eapply ensures_bind; [apply fnPtrSignature_ok|]; intros sig _; by apply ensures_ret).
Qed.

Lemma resolveViaReloc_ok cs : ensures (resolveViaReloc ir cs) (λ _, True).
Proof.
  unfold resolveViaReloc. destruct (_ || _); [by apply ensures_ret|].
  destruct (funcSyms ir !! _) as [sym|]; [|by apply ensures_ret]. destruct (_ || _); [by apply ensures_ret|].
  destruct (_ ≫= _) as [rel|]; [|by apply ensures_ret]. destruct (varTypes ir !! _) as [t|]; [|by apply ensures_ret].
  apply resolveMember_ok.
Qed.

(** What resolving may change of a call site. *)
Definition refines (cs cs' : CallSite) : Prop :=
  cs' = cs ∨ Indirect cs = true ∧ ∃ sig hint, cs' = resolved cs (Some (sig, hint)).

Lemma resolve_ok cs :
  Indirect cs = true → short_target (callTarget cs) → ensures (resolve ir cs) (refines cs).
Proof.
  intros Hi Hs. unfold resolve. destruct (negb (sysvAMD64 ir)); [apply ensures_ret; by left|].
  assert (∀ r, refines cs (resolved cs r)) as Hr.
  { intros [[sig hint]|]; [right|by left]. split; [done|]. by exists sig, hint. }
  eapply (ensures_bind _ _ (λ _, True)).
  { destruct (bool_decide _); [by apply ensures_ret|by apply resolveViaCallTarget_ok]. }
  intros [r|] _; [apply ensures_ret, Hr|].
  eapply ensures_bind; [apply resolveViaReloc_ok|]. intros r _. apply ensures_ret, Hr.
Qed.

Lemma resolve_all_ok css :
  Forall (λ cs, short_target (callTarget cs)) css → ensures (resolve_all ir css) (Forall2 refines css).
Proof.
  induction 1 as [|cs css Hcs _ IH]; [by apply ensures_ret|]. simpl.
  eapply (ensures_bind _ _ (refines cs)).
  { destruct (Indirect cs) eqn:E; [by apply resolve_ok|apply ensures_ret; by left]. }
  intros cs' H1. eapply ensures_bind; [apply IH|]. intros css' H2. apply ensures_ret. by constructor.
Qed.
End no_panic.

(** The pass over an object's entries. *)
Definition walk_of (dw : Data) : outcome (result unit walk) :=
  fst <$> read_loop dw None [] new_walk (d_entries dw) ∅.

(** ** Properties *)

(** C32: Reading an object whose line tables have no nil file and whose call-target
    expressions are at most ten bytes never panics: it fails exactly when the
    entries stop decoding, and otherwise gives what the pass collected, with a type
    and a hint added to some of the indirect call sites and nothing else changed. *)
Theorem Read_total f dw :
  (∀ off lt, d_lines dw off = Some lt → table_ok (lt_Files lt)) →
  Forall (target_ok short_target) (d_entries dw) →
  if d_broken dw then Read (Ok (f, dw)) = Val (Err ErrReadEntries)
  else ∃ w css, walk_of dw = Val (Ok w) ∧ Forall2 refines (CallSites (w_info w)) css ∧
    Read (Ok (f, dw)) = Val (Ok (set_callsites css (w_info w))).
Proof.
  intros Htab Htgt.
  destruct (read_loop_ok dw short_target Htab ltac:(cbv; lia) None [] new_walk (d_entries dw)
    ltac:(by split; constructor) Htgt ∅) as (r & c & Hr & HQ).
  unfold walk_of, Read. rewrite Hr. cbn [mbind outcome_bind fmap outcome_fmap fst].
  destruct (d_broken dw); [by subst|]. destruct HQ as (w & -> & [_ Hs]).
  destruct (existsb Indirect (CallSites (w_info w))).
  - destruct (resolve_all_ok (newIndirectResolver f dw (w_varTypes w)) _ Hs c) as (css & c' & -> & Hcss).
    by exists w, css.
  - exists w, (CallSites (w_info w)). split; [done|]. split.
    + apply Forall_Forall2_diag, Forall_true. intros cs. by left.
    + by destruct w as [[]].
Qed.

(** Every 64-bit value is read back from its encoding, whatever follows it, and
    exactly the bytes of the encoding are consumed. *)
Theorem uleb_roundtrip n rest :
  (0 ≤ n < 2 ^ 64)%Z → uleb (uleb_encode 10 n ++ rest) = (n, length (uleb_encode 10 n)).
Proof. apply uleb_encode_read. Qed.

Lemma uleb_roundtrip_witness :
  (0 ≤ 2 ^ 63 + 300 < 2 ^ 64)%Z ∧
  uleb (uleb_encode 10 (2 ^ 63 + 300) ++ [7; 8]%Z) = ((2 ^ 63 + 300)%Z, 10).
Proof. split; [lia|]. rewrite (uleb_roundtrip (2 ^ 63 + 300) [7; 8]%Z) by lia. vm_compute. reflexivity. Defined.

(** A location expression whose entry value claims a length of 2⁶³ or more is not
    refused: the length check lets the negative int pass and the slice panics. *)
Theorem decodeRegExpr_panics :
  decodeRegExpr ([opEntryValue] ++ uleb_encode 10 (2 ^ 63)) = Panic.
Proof. vm_compute. reflexivity. Qed.

Lemma uleb_byte n rest : (0 ≤ n < 128)%Z → uleb (n :: rest) = (n, 1).
Proof.
  intros Hn. assert (uleb_encode 10 n = [n]) as He by (cbn [uleb_encode]; by rewrite (proj2 (Z.ltb_lt n 128)) by lia).
  pose proof (uleb_encode_read n rest) as H. rewrite He in H. apply H. lia.
Qed.

Lemma decode_regx fuel n :
  (0 ≤ n < 2 ^ 64)%Z → decodeRegExpr_fuel (S fuel) (opRegx :: uleb_encode 10 n) = Val (Some n).
Proof.
  intros Hn. cbn [decodeRegExpr_fuel]. pose proof (uleb_encode_read n [] Hn) as H. rewrite app_nil_r in H.
  rewrite H. change (opRegx =? opEntryValue)%Z with false. change (opRegx <=? opReg31)%Z with false.
  rewrite andb_false_r, Z.eqb_refl, Nat.eqb_refl. cbn [andb negb orb].
  by destruct (uleb_encode 10 n) eqn:E; [cbn in E; destruct (n <? 128)%Z|].
Qed.

Lemma decode_entry_value fuel expr :
  length expr < 128 → expr ≠ [] →
  decodeRegExpr_fuel (S fuel) (opEntryValue :: Z.of_nat (length expr) :: expr) = decodeRegExpr_fuel fuel expr.
Proof.
  intros Hl Hne. cbn [decodeRegExpr_fuel]. rewrite uleb_byte by lia.
  rewrite Z.eqb_refl. assert (wrap64 (Z.of_nat (length expr)) = Z.of_nat (length expr)) as ->.
  { unfold wrap64. rewrite Z.mod_small; lia. }
  cbn [length Nat.eqb orb drop].
  destruct (Z.ltb_spec (Z.of_nat (S (length expr)) - Z.of_nat 1) (Z.of_nat (length expr))) as [|_]; [lia|].
  destruct (Z.ltb_spec (Z.of_nat (length expr)) 0) as [|_]; [lia|].
  by rewrite Nat2Z.id, drop_0, take_ge.
Qed.

Lemma uleb_encode_length k n : length (uleb_encode k n) ≤ k.
Proof. revert n; induction k as [|k IH]; intros n; simpl; [done|]. destruct (n <? 128)%Z; simpl; [lia|]. specialize (IH (Z.shiftr n 7)). lia. Qed.

(** The register GCC means is found, as a number or as an opcode, on its own or
    inside an entry value. *)
Theorem decodeRegExpr_register reg :
  (0 ≤ reg < 2 ^ 64)%Z →
  decodeRegExpr (opRegx :: uleb_encode 10 reg) = Val (Some reg) ∧
  decodeRegExpr (opEntryValue :: Z.of_nat (S (length (uleb_encode 10 reg))) :: opRegx :: uleb_encode 10 reg) =
    Val (Some reg) ∧
  ((reg < 32)%Z → decodeRegExpr [(opReg0 + reg)%Z] = Val (Some reg) ∧
                  decodeRegExpr [opEntryValue; 1%Z; (opReg0 + reg)%Z] = Val (Some reg)).
Proof.
  intros Hreg. pose proof (uleb_encode_length 10 reg) as Hlen. unfold decodeRegExpr.
  split; [by apply decode_regx|]. split.
  { change (S (length (uleb_encode 10 reg))) with (length (opRegx :: uleb_encode 10 reg)).
    rewrite decode_entry_value; [by apply decode_regx|cbn [length]; lia|congruence]. }
  intros H32. assert (∀ fuel, decodeRegExpr_fuel (S fuel) [(opReg0 + reg)%Z] = Val (Some reg)) as H1.
  { intros fuel. cbn [decodeRegExpr_fuel]. unfold opReg0, opReg31, opEntryValue in *.
    rewrite (proj2 (Z.eqb_neq _ _)) by lia. rewrite (proj2 (Z.leb_le _ _)), (proj2 (Z.leb_le _ _)) by lia.
    cbn. do 2 f_equal. lia. }
  split; [apply H1|].
  apply (eq_trans (decode_entry_value _ [(opReg0 + reg)%Z] ltac:(cbn [length]; lia) ltac:(congruence))), H1.
Qed.

Lemma arg_index_spec i classes reg n :
  arg_index i classes reg = Some n ↔
  ∃ m, n = i + m ∧ argRegOrder !! n = Some reg ∧ m < length classes ∧
    (∀ k, k ≤ m → classes !! k = Some true) ∧ (∀ k, i ≤ k < n → argRegOrder !! k ≠ Some reg).
Proof.
  revert i. induction classes as [|c classes IH]; intros i; cbn [arg_index length].
  - split; [done|]. intros (m & _ & _ & H & _). lia.
  - destruct c; cbn [negb orb]; [|split; [done|]; intros (m & _ & _ & _ & H & _);
      specialize (H 0 ltac:(lia)); done].
    destruct (Nat.leb_spec (length argRegOrder) i).
    { split; [done|]. intros (m & -> & H1 & _). apply lookup_lt_Some in H1. lia. }
    case_bool_decide as Hi.
    + split.
      * intros [= <-]. exists 0. rewrite Nat.add_0_r. split_and!; [done|done|lia| |lia].
        intros k Hk. by replace k with 0 by lia.
      * intros (m & -> & _ & _ & _ & Hlast). destruct m as [|m]; [by rewrite Nat.add_0_r|].
        exfalso. apply (Hlast i); [lia|done].
    + rewrite IH. split.
      * intros (m & -> & H1 & H2 & H3 & H4). exists (S m). split_and!; [lia|done|lia| |].
        -- intros [|k] Hk; [done|]. apply H3. lia.
        -- intros k Hk. destruct (decide (k = i)) as [->|]; [done|]. apply H4. lia.
      * intros (m & -> & H1 & H2 & H3 & H4). destruct m as [|m]; [by rewrite Nat.add_0_r in H1|].
        exists m. split_and!; [lia|done|lia| |].
        -- intros k Hk. apply (H3 (S k)). lia.
        -- intros k Hk. apply H4. lia.
Qed.

(** A register is attributed to a parameter exactly when it is that parameter's
    register and every parameter up to it takes one integer register. *)
Theorem argIndexForReg_spec classes reg n :
  argIndexForReg classes reg = Some n ↔
  argRegOrder !! n = Some reg ∧ n < length classes ∧ ∀ k, k ≤ n → classes !! k = Some true.
Proof.
  unfold argIndexForReg. rewrite arg_index_spec. split.
  - intros (m & -> & H1 & H2 & H3 & _). done.
  - intros (H1 & H2 & H3). exists n. split_and!; [done|done|done|done|].
    intros k [_ Hk] Hr. assert (NoDup argRegOrder) as Hnd by by_decide.
    pose proof (NoDup_lookup _ _ _ _ Hnd H1 Hr). lia.
Qed.

Definition example_elf : elf_file := ElfFile EM_X86_64 ELFCLASS64 (Some []) [].

Lemma Read_total_witness :
  if d_broken example_data then Read (Ok (example_elf, example_data)) = Val (Err ErrReadEntries)
  else ∃ w css, walk_of example_data = Val (Ok w) ∧ Forall2 refines (CallSites (w_info w)) css ∧
    Read (Ok (example_elf, example_data)) = Val (Ok (set_callsites css (w_info w))).
Proof.
  apply (Read_total example_elf example_data); [done|].
  let l := eval vm_compute in (d_entries example_data) in change (Forall (target_ok short_target) l).
  repeat (apply Forall_cons; split; [intros b Hb; vm_compute in Hb; simplify_eq; cbv; lia|]). by apply Forall_nil.
Defined.

Lemma decodeRegExpr_register_witness :
  decodeRegExpr (opRegx :: uleb_encode 10 40) = Val (Some 40%Z) ∧
  decodeRegExpr [opEntryValue; 1%Z; (opReg0 + 5)%Z] = Val (Some 5%Z).
Proof.
  split; [by apply (decodeRegExpr_register 40)|].
  apply (decodeRegExpr_register 5); lia.
Defined.
