(* ===== verification/DwarfIngest.v ===== *)
(** * The DWARF pass ([internal/ingest/dwarf.go])

    What the debug information of the objects adds to the index: signatures and
    locations on the rows the compiler pass wrote, and the rows of indirect calls,
    inlined bodies and types.  An object is read by [CallTarget.Read]; a panic
    there or in a USR is one of the pass. *)

From S2P Require Import Prelude GoStrings Usr Paths Store Ingest Dwarf Signature DwarfRead CallTarget.
From Stdlib Require Import ZArith Lia.
Import Resolver.

(** ** Names and paths *)

Definition resolveSymbolID (name tuSourcePath : string) (idByUSR : gmap string Z) : Z :=
  match idByUSR !! Usr.Function "" name with
  | Some id => id
  | None =>
    if String.eqb tuSourcePath "" then 0%Z
    else default 0%Z (idByUSR !! Usr.Function tuSourcePath name)
  end.

Definition cuFilePath (info : Info) : string :=
  if String.eqb (CUFile info) "" then ""
  else if IsAbs (CUFile info) then CUFile info
  else if String.eqb (CompDir info) "" then CUFile info
  else Clean (PathJoin [CompDir info; CUFile info]).

(** ** Tables *)

Record DwarfSummary := MkSummary {
  sum_Signatures : nat;
  sum_DeclLocations : nat;
  sum_DefLocations : nat;
  sum_IndirectSites : nat;
  sum_InlineInstances : nat;
  sum_Types : nat;
  sum_TypeFields : nat;
  sum_EnumConstants : nat;
}.

Definition no_summary : DwarfSummary := MkSummary 0 0 0 0 0 0 0 0.

Record dwarf_tables := DwarfTables {
  dt_symbols : list symbol_row;
  dt_defs : list def_row;
  dt_indirect : list indirect_site_row;
  dt_instances : list inline_instance_row;
  dt_types : list type_row;
  dt_fields : list type_field_row;
  dt_constants : list enum_constant_row;
  dt_sum : DwarfSummary;
}.

(** [UPDATE … WHERE …] and its [RowsAffected]. *)
Definition update {A} (cond : A → bool) (f : A → A) (rows : list A) : list A :=
  (λ r, if cond r then f r else r) <$> rows.
Definition affected {A} (cond : A → bool) (rows : list A) : nat := length (List.filter cond rows).

(** ** One subprogram *)

Definition put_signature (id : Z) (signature : string) (t : dwarf_tables) : dwarf_tables :=
  let s := dt_sum t in
  DwarfTables
    (update (λ r, s_id r =? id)%Z
       (λ r, SymbolRow (s_id r) (s_usr r) (s_name r) (s_kind r) (s_linkage r) signature
               (s_address_taken r) (s_linkage_names r)) (dt_symbols t))
    (dt_defs t) (dt_indirect t) (dt_instances t) (dt_types t) (dt_fields t) (dt_constants t)
    (MkSummary (S (sum_Signatures s)) (sum_DeclLocations s) (sum_DefLocations s) (sum_IndirectSites s)
       (sum_InlineInstances s) (sum_Types s) (sum_TypeFields s) (sum_EnumConstants s)).

Definition unlocated (id : Z) (r : def_row) : bool := (d_symbol_id r =? id)%Z && (d_line r =? 0)%Z.
Definition located (file : string) (line : Z) (r : def_row) : def_row :=
  DefRow (d_symbol_id r) file line (d_decl_file r) (d_decl_line r) (d_is_weak r) (d_linkage_name r).

Definition put_def_location (id : Z) (file : string) (line : Z) (t : dwarf_tables) : dwarf_tables :=
  let s := dt_sum t in
  DwarfTables (dt_symbols t) (update (unlocated id) (located file line) (dt_defs t))
    (dt_indirect t) (dt_instances t) (dt_types t) (dt_fields t) (dt_constants t)
    (MkSummary (sum_Signatures s) (sum_DeclLocations s)
       (sum_DefLocations s + affected (unlocated id) (dt_defs t)) (sum_IndirectSites s)
       (sum_InlineInstances s) (sum_Types s) (sum_TypeFields s) (sum_EnumConstants s)).

Definition undeclared (id : Z) (r : def_row) : bool := (d_symbol_id r =? id)%Z && String.eqb (d_decl_file r) "".
Definition declared (file : string) (line : Z) (r : def_row) : def_row :=
  DefRow (d_symbol_id r) (d_file r) (d_line r) file line (d_is_weak r) (d_linkage_name r).

Definition put_decl_location (id : Z) (file : string) (line : Z) (t : dwarf_tables) : dwarf_tables :=
  let s := dt_sum t in
  DwarfTables (dt_symbols t) (update (undeclared id) (declared file line) (dt_defs t))
    (dt_indirect t) (dt_instances t) (dt_types t) (dt_fields t) (dt_constants t)
    (MkSummary (sum_Signatures s) (sum_DeclLocations s + affected (undeclared id) (dt_defs t))
       (sum_DefLocations s) (sum_IndirectSites s)
       (sum_InlineInstances s) (sum_Types s) (sum_TypeFields s) (sum_EnumConstants s)).

Section pass.
Context (pr : PathResolver) (idByUSR : gmap string Z).

Definition has_decl_location (sp : Subprogram) : bool :=
  negb (String.eqb (sp_DeclFile sp) "") && (0 <? sp_DeclLine sp)%Z.

Definition put_subprogram (tuSourcePath : string) (t : dwarf_tables) (sp : Subprogram) : dwarf_tables :=
  if String.eqb (sp_Name sp) "" then t
  else
    let symID := resolveSymbolID (sp_Name sp) tuSourcePath idByUSR in
    if (symID =? 0)%Z then t
    else
      let rel := RelPath (ToProjectRelative pr (sp_DeclFile sp)) in
      let t := if sp_Definition sp && negb (String.eqb (sp_Signature sp) "")
               then put_signature symID (sp_Signature sp) t else t in
      let t := if sp_AbstractInline sp && has_decl_location sp
               then put_def_location symID rel (sp_DeclLine sp) t else t in
      if sp_Declaration sp && has_decl_location sp
      then put_decl_location symID rel (sp_DeclLine sp) t else t.

(** ** Indirect calls and inlined bodies *)

Definition put_call_site (tuSourcePath : string) (t : dwarf_tables) (cs : CallSite) : dwarf_tables :=
  if negb (Indirect cs) || String.eqb (SourceCallerName cs) "" then t
  else
    let callerID := resolveSymbolID (SourceCallerName cs) tuSourcePath idByUSR in
    if (callerID =? 0)%Z then t
    else
      let s := dt_sum t in
      DwarfTables (dt_symbols t) (dt_defs t)
        (dt_indirect t ++ [IndirectSiteRow (next_id (dt_indirect t)) callerID
           (RelPath (ToProjectRelative pr (cs_File cs))) (cs_Line cs) (cs_Column cs) (CalleeType cs) (FieldHint cs)])
        (dt_instances t) (dt_types t) (dt_fields t) (dt_constants t)
        (MkSummary (sum_Signatures s) (sum_DeclLocations s) (sum_DefLocations s) (S (sum_IndirectSites s))
           (sum_InlineInstances s) (sum_Types s) (sum_TypeFields s) (sum_EnumConstants s)).

(** NULL for a parent that is not there or does not resolve. *)
Definition parent_id (tuSourcePath : string) (ii : InlineInstance) : option Z :=
  if String.eqb (ParentCalleeName ii) "" then None
  else
    let id := resolveSymbolID (ParentCalleeName ii) tuSourcePath idByUSR in
    if (id =? 0)%Z then None else Some id.

Definition put_instance (tuSourcePath objRel : string) (t : dwarf_tables) (ii : InlineInstance) : dwarf_tables :=
  let calleeID := resolveSymbolID (ii_CalleeName ii) tuSourcePath idByUSR in
  let callerID := resolveSymbolID (ii_CallerName ii) tuSourcePath idByUSR in
  if (calleeID =? 0)%Z || (callerID =? 0)%Z then t
  else
    let s := dt_sum t in
    DwarfTables (dt_symbols t) (dt_defs t) (dt_indirect t)
      (dt_instances t ++ [MkInlineInstanceRow calleeID callerID (parent_id tuSourcePath ii) (Depth ii)
         (RelPath (ToProjectRelative pr (ii_File ii))) (ii_Line ii) (ii_Column ii) objRel])
      (dt_types t) (dt_fields t) (dt_constants t)
      (MkSummary (sum_Signatures s) (sum_DeclLocations s) (sum_DefLocations s) (sum_IndirectSites s)
         (S (sum_InlineInstances s)) (sum_Types s) (sum_TypeFields s) (sum_EnumConstants s)).

(** ** Types *)

Definition type_usr (kind rel name : string) (line col : Z) : outcome string :=
  if String.eqb kind "typedef" then Val (Usr.Typedef rel name)
  else if String.eqb kind "struct" then Usr.Struct rel name line col
  else if String.eqb kind "union" then Usr.Union rel name line col
  else if String.eqb kind "enum" then Usr.Enum rel name line col
  else Val "".

(** The id of the row if the type is new. *)
Definition insertType (t : dwarf_tables) (name kind declFile : string) (line col byteSize : Z)
    (underlying : string) : outcome (dwarf_tables * option Z) :=
  let rp := ToProjectRelative pr declFile in
  if String.eqb declFile "" || negb (InProject rp) then Val (t, None)
  else if String.eqb kind "typedef" && String.eqb name "" then Val (t, None)
  else
    u ← type_usr kind (RelPath rp) name line col;
    if existsb (λ r, String.eqb (ty_usr r) u) (dt_types t) then Val (t, None)
    else
      let id := next_id (dt_types t) in
      let s := dt_sum t in
      Val (DwarfTables (dt_symbols t) (dt_defs t) (dt_indirect t) (dt_instances t)
             (dt_types t ++ [TypeRow id u name kind (RelPath rp) line
                (if (0 <? byteSize)%Z then Some byteSize else None) underlying])
             (dt_fields t) (dt_constants t)
             (MkSummary (sum_Signatures s) (sum_DeclLocations s) (sum_DefLocations s) (sum_IndirectSites s)
                (sum_InlineInstances s) (S (sum_Types s)) (sum_TypeFields s) (sum_EnumConstants s)),
           Some id).

Definition field_rows (id : Z) (fs : list FieldInfo) : list type_field_row :=
  imap (λ i f, TypeFieldRow id (fi_Name f) (fi_Type f) (Z.of_nat i) (ByteOffset f)) fs.

Definition put_fields (id : Z) (fs : list FieldInfo) (t : dwarf_tables) : dwarf_tables :=
  let s := dt_sum t in
  DwarfTables (dt_symbols t) (dt_defs t) (dt_indirect t) (dt_instances t) (dt_types t)
    (dt_fields t ++ field_rows id fs) (dt_constants t)
    (MkSummary (sum_Signatures s) (sum_DeclLocations s) (sum_DefLocations s) (sum_IndirectSites s)
       (sum_InlineInstances s) (sum_Types s) (sum_TypeFields s + length fs) (sum_EnumConstants s)).

Definition put_struct (t : dwarf_tables) (st : StructInfo) : outcome dwarf_tables :=
  '(t, fresh) ← insertType t (st_Name st) (st_Kind st) (st_DeclFile st) (st_DeclLine st) (st_DeclColumn st)
                 (st_ByteSize st) "";
  Val (match fresh with Some id => put_fields id (StructFields st) t | None => t end).

Definition put_typedef (t : dwarf_tables) (td : TypedefInfo) : outcome dwarf_tables :=
  '(t, _) ← insertType t (td_Name td) "typedef" (td_DeclFile td) (td_DeclLine td) 0 0 (Target td);
  Val t.

(** The counter counts the statements, not the rows. *)
Definition put_constant (en : EnumInfo) (id : Z) (t : dwarf_tables) (c : EnumConstant) : outcome dwarf_tables :=
  cu ← Usr.EnumMember (RelPath (ToProjectRelative pr (en_DeclFile en))) (en_Name en) (en_DeclLine en)
         (en_DeclColumn en) (ec_Name c);
  let s := dt_sum t in
  Val (DwarfTables (dt_symbols t) (dt_defs t) (dt_indirect t) (dt_instances t) (dt_types t) (dt_fields t)
         (if existsb (λ r, String.eqb (ec_usr r) cu) (dt_constants t) then dt_constants t
          else dt_constants t ++ [EnumConstantRow cu id (ec_Name c) (ec_Value c)])
         (MkSummary (sum_Signatures s) (sum_DeclLocations s) (sum_DefLocations s) (sum_IndirectSites s)
            (sum_InlineInstances s) (sum_Types s) (sum_TypeFields s) (S (sum_EnumConstants s)))).

Definition put_enum (t : dwarf_tables) (en : EnumInfo) : outcome dwarf_tables :=
  '(t, fresh) ← insertType t (en_Name en) "enum" (en_DeclFile en) (en_DeclLine en) (en_DeclColumn en)
                 (en_ByteSize en) "";
  match fresh with Some id => foldO (put_constant en id) (Constants en) t | None => Val t end.

(** ** The pass *)

Definition put_object (root object : string) (t : dwarf_tables) (info : Info) : outcome dwarf_tables :=
  let tu := RelPath (ToProjectRelative pr (cuFilePath info)) in
  let t := foldl (put_subprogram tu) t (Subprograms info) in
  let t := foldl (put_call_site tu) t (CallSites info) in
  let t := foldl (put_instance tu (obj_rel root object)) t (InlineInstances info) in
  t ← foldO put_struct (Structs info) t;
  t ← foldO put_typedef (Typedefs info) t;
  foldO put_enum (Enums info) t.
End pass.

Inductive dwarf_error := ErrObject (object : string) (e : read_error).

Section objects.
(** [elf]: an object file, as [debug/elf] and [debug/dwarf] give it. *)
Context (elf : string → result read_error (elf_file * Data)) (pr : PathResolver) (idByUSR : gmap string Z).

Fixpoint put_objects (root : string) (objs : list string) (t : dwarf_tables) :
    outcome (result dwarf_error dwarf_tables) :=
  match objs with
  | [] => Val (Ok t)
  | o :: objs =>
    r ← Read (elf o);
    match r with
    | Err e => Val (Err (ErrObject o e))
    | Ok info => t ← put_object pr idByUSR root o t info; put_objects root objs t
    end
  end.

(** [db]: the tables when the transaction begins. *)
Definition DWARF (bd : BuildDir.BuildDir) (db : dwarf_tables) : outcome (result dwarf_error dwarf_tables) :=
  put_objects (BuildDir.Root bd) (BuildDir.Object <$> sort_by BuildDir.Object (BuildDir.Objects bd)) db.
End objects.

(** ** Reading the pass backwards

    The objects of a pass that succeeded, with what was read from each. *)

Definition object_info (elf : string → result read_error (elf_file * Data)) (o : string) (i : Info) : Prop :=
  Read (elf o) = Val (Ok i).

Section facts.
Context (pr : PathResolver) (ids : gmap string Z).

Definition unit_path (i : Info) : string := RelPath (ToProjectRelative pr (cuFilePath i)).

(** All of a kind, each with the unit it was read in, in the order of the pass. *)
Definition from_units {A} (f : Info → list A) (infos : list Info) : list (string * A) :=
  mjoin ((λ i, (unit_path i,.) <$> f i) <$> infos).

Lemma from_units_snoc {A} (f : Info → list A) infos i :
  from_units f (infos ++ [i]) = from_units f infos ++ ((unit_path i,.) <$> f i).
Proof. unfold from_units. rewrite fmap_app, join_app. cbn. by rewrite app_nil_r. Qed.

(** A property that every object's step keeps, whatever the infos before it. *)
Lemma put_objects_inv elf root (I : list Info → dwarf_tables → Prop) objs t t' :
  put_objects elf pr ids root objs t = Val (Ok t') → I [] t →
  (∀ done o i t t', o ∈ objs → I done t → put_object pr ids root o t i = Val t' → I (done ++ [i]) t') →
  ∃ infos, Forall2 (object_info elf) objs infos ∧ I infos t'.
Proof.
  intros Hrun H0 Hstep.
  enough (∀ objs' done t, objs' ⊆ objs → I done t → put_objects elf pr ids root objs' t = Val (Ok t') →
    ∃ infos, Forall2 (object_info elf) objs' infos ∧ I (done ++ infos) t') as H.
  { destruct (H objs [] t) as (infos & ? & ?); eauto. }
  induction objs' as [|o objs' IH]; intros done t1 Hsub Hd; simpl.
  - intros [= <-]. exists []. by rewrite app_nil_r.
  - destruct (Read (elf o)) as [[i|e]|] eqn:Er; try done. cbn [mbind outcome_bind].
    destruct (put_object pr ids root o t1 i) as [t2|] eqn:Ep; [|done]. intros Hr.
    destruct (IH (done ++ [i]) t2) as (infos & Hall & HI); [set_solver| |done|].
    + eapply Hstep; [|done|done]. set_solver.
    + exists (i :: infos). split; [by constructor|]. by rewrite <-app_assoc in HI.
Qed.

(** *** What each step leaves alone *)

Definition counters (s : DwarfSummary) := (sum_DefLocations s, sum_IndirectSites s, sum_InlineInstances s).
Definition rows_part (t : dwarf_tables) :=
  (dt_symbols t, dt_defs t, dt_indirect t, dt_instances t, counters (dt_sum t)).
Definition types_part (t : dwarf_tables) := (dt_types t, dt_fields t, dt_constants t).

Lemma put_subprogram_types tu t sp : types_part (put_subprogram pr ids tu t sp) = types_part t.
Proof. unfold put_subprogram. by repeat case_match. Qed.
Lemma put_call_site_types tu t cs : types_part (put_call_site pr ids tu t cs) = types_part t.
Proof. unfold put_call_site. by repeat case_match. Qed.
Lemma put_instance_types tu o t ii : types_part (put_instance pr ids tu o t ii) = types_part t.
Proof. unfold put_instance. by repeat case_match. Qed.

Lemma foldl_part {A B} (part : dwarf_tables → B) (f : dwarf_tables → A → dwarf_tables) l t :
  (∀ t x, part (f t x) = part t) → part (foldl f t l) = part t.
Proof. intros H. revert t; induction l as [|x l IH]; intros t; [done|]. simpl. by rewrite IH. Qed.

Lemma foldO_part {A B} (part : dwarf_tables → B) (f : dwarf_tables → A → outcome dwarf_tables) l t t' :
  (∀ t x t', f t x = Val t' → part t' = part t) → foldO f l t = Val t' → part t' = part t.
Proof.
  intros H. apply (foldO_inv (λ t', part t' = part t)); [done|]. intros x s s' _ <-. by apply H.
Qed.

Lemma insertType_rows t n k f l c b u t' r :
  insertType pr t n k f l c b u = Val (t', r) → rows_part t' = rows_part t.
Proof.
  unfold insertType. do 2 (case_match; [by intros [= <- _]|]).
  destruct (type_usr _ _ _ _ _); [|done]. cbn [mbind outcome_bind]. case_match; by intros [= <- _].
Qed.

Lemma put_struct_rows t st t' : put_struct pr t st = Val t' → rows_part t' = rows_part t.
Proof.
  unfold put_struct. destruct (insertType _ _ _ _ _ _ _ _ _) as [[t1 r]|] eqn:E; [|done].
  apply insertType_rows in E. intros [= <-]. by destruct r.
Qed.
Lemma put_typedef_rows t td t' : put_typedef pr t td = Val t' → rows_part t' = rows_part t.
Proof.
  unfold put_typedef. destruct (insertType _ _ _ _ _ _ _ _ _) as [[t1 r]|] eqn:E; [|done].
  apply insertType_rows in E. by intros [= <-].
Qed.
Lemma put_constant_rows en id t c t' : put_constant pr en id t c = Val t' → rows_part t' = rows_part t.
Proof. unfold put_constant. destruct (Usr.EnumMember _ _ _ _ _); [|done]. by intros [= <-]. Qed.
Lemma put_enum_rows t en t' : put_enum pr t en = Val t' → rows_part t' = rows_part t.
Proof.
  unfold put_enum. destruct (insertType _ _ _ _ _ _ _ _ _) as [[t1 r]|] eqn:E; [|done].
  apply insertType_rows in E. destruct r as [id|]; [|by intros [= <-]].
  cbn [mbind outcome_bind]. intros H. rewrite <-E. revert H. apply foldO_part. apply put_constant_rows.
Qed.

(** The rows part of an object's step: the three loops. *)
Lemma put_object_rows root o t i t' :
  put_object pr ids root o t i = Val t' →
  rows_part t' =
    rows_part (foldl (put_instance pr ids (unit_path i) (obj_rel root o))
      (foldl (put_call_site pr ids (unit_path i))
        (foldl (put_subprogram pr ids (unit_path i)) t (Subprograms i)) (CallSites i)) (InlineInstances i)).
Proof.
  unfold put_object. fold (unit_path i). set (t3 := foldl _ _ (InlineInstances i)).
  destruct (foldO (put_struct pr) _ t3) as [t4|] eqn:E4; [|done]. cbn [mbind outcome_bind].
  destruct (foldO (put_typedef pr) _ t4) as [t5|] eqn:E5; [|done]. cbn [mbind outcome_bind]. intros E6.
  apply (foldO_part rows_part) in E4; [|by apply put_struct_rows].
  apply (foldO_part rows_part) in E5; [|by apply put_typedef_rows].
  apply (foldO_part rows_part) in E6; [|by apply put_enum_rows]. congruence.
Qed.

(** *** Locations and signatures, row by row *)

(** The update a subprogram makes to a row of its symbol. *)
Definition sub_id (x : string * Subprogram) : option Z :=
  if String.eqb (sp_Name x.2) "" then None
  else let id := resolveSymbolID (sp_Name x.2) x.1 ids in if (id =? 0)%Z then None else Some id.

Definition sub_location (sp : Subprogram) : string * Z :=
  (RelPath (ToProjectRelative pr (sp_DeclFile sp)), sp_DeclLine sp).

Definition def_step (r : def_row) (x : string * Subprogram) : def_row :=
  let sp := x.2 in
  if bool_decide (sub_id x = Some (d_symbol_id r)) then
    let r := if sp_AbstractInline sp && has_decl_location sp && (d_line r =? 0)%Z
             then located (sub_location sp).1 (sub_location sp).2 r else r in
    if sp_Declaration sp && has_decl_location sp && String.eqb (d_decl_file r) ""
    then declared (sub_location sp).1 (sub_location sp).2 r else r
  else r.

Definition sig_step (r : symbol_row) (x : string * Subprogram) : symbol_row :=
  if bool_decide (sub_id x = Some (s_id r)) && sp_Definition x.2 && negb (String.eqb (sp_Signature x.2) "")
  then SymbolRow (s_id r) (s_usr r) (s_name r) (s_kind r) (s_linkage r) (sp_Signature x.2)
         (s_address_taken r) (s_linkage_names r)
  else r.
End facts.

Section rows.
Context (pr : PathResolver) (ids : gmap string Z).

Lemma fmap_same {A} (f : A → A) (l : list A) : (∀ x, f x = x) → l = f <$> l.
Proof. intros H. rewrite <-(list_fmap_id l) at 1. apply list_fmap_ext. intros _ x _. by rewrite H. Qed.

Lemma put_subprogram_defs tu t sp :
  dt_defs (put_subprogram pr ids tu t sp) = (λ r, def_step pr ids r (tu, sp)) <$> dt_defs t.
Proof.
  unfold put_subprogram, def_step, sub_id. cbn [fst snd].
  destruct (String.eqb (sp_Name sp) ""); [apply fmap_same; intros r; by rewrite bool_decide_false|].
  set (id := resolveSymbolID _ _ _).
  destruct (Z.eqb_spec id 0); [apply fmap_same; intros r; by rewrite bool_decide_false|].
  set (t1 := if sp_Definition sp && _ then _ else t).
  assert (dt_defs t1 = dt_defs t) as <- by (subst t1; by destruct (_ && _)). clearbody t1.
  destruct (sp_AbstractInline sp && _); destruct (sp_Declaration sp && _); cbn [dt_defs put_def_location put_decl_location];
    unfold update; rewrite <-?list_fmap_compose; first [apply fmap_same; intros r|apply list_fmap_ext; intros _ r _];
    cbn [compose andb]; unfold unlocated, undeclared;
    (destruct (Z.eqb_spec (d_symbol_id r) id) as [Hid|Hne];
      [rewrite bool_decide_true by congruence|rewrite bool_decide_false by congruence]);
    cbn [andb]; try done; destruct (d_line r =? 0)%Z, (String.eqb (d_decl_file r) "") eqn:Hf;
    cbn; rewrite ?Hid, ?Hf, ?Z.eqb_refl, ?andb_false_r, ?(proj2 (Z.eqb_neq (d_symbol_id r) id)) by done; cbn; done.
Qed.

Lemma put_subprogram_symbols tu t sp :
  dt_symbols (put_subprogram pr ids tu t sp) = (λ r, sig_step ids r (tu, sp)) <$> dt_symbols t.
Proof.
  unfold put_subprogram, sig_step, sub_id. cbn [fst snd].
  destruct (String.eqb (sp_Name sp) ""); [apply fmap_same; intros r; by rewrite bool_decide_false|].
  set (id := resolveSymbolID _ _ _).
  destruct (Z.eqb_spec id 0); [apply fmap_same; intros r; by rewrite bool_decide_false|].
  set (t1 := if sp_Definition sp && _ then _ else t).
  assert (dt_symbols t1 = (λ r, if (s_id r =? id)%Z && (sp_Definition sp && negb (String.eqb (sp_Signature sp) ""))
    then SymbolRow (s_id r) (s_usr r) (s_name r) (s_kind r) (s_linkage r) (sp_Signature sp)
           (s_address_taken r) (s_linkage_names r) else r) <$> dt_symbols t) as Ht1.
  { subst t1. destruct (sp_Definition sp && _).
    - cbn. unfold update. apply list_fmap_ext. intros _ r _. by rewrite andb_true_r.
    - apply fmap_same. intros r. by rewrite andb_false_r. }
  transitivity (dt_symbols t1).
  - destruct (sp_AbstractInline sp && _); by destruct (sp_Declaration sp && _).
  - rewrite Ht1. apply list_fmap_ext. intros _ r _.
    destruct (Z.eqb_spec (s_id r) id) as [Hid|Hne];
      [rewrite bool_decide_true by congruence|rewrite bool_decide_false by congruence]; cbn [andb]; [|done].
    by destruct (sp_Definition sp).
Qed.

Lemma put_call_site_defs tu t cs :
  (dt_symbols (put_call_site pr ids tu t cs), dt_defs (put_call_site pr ids tu t cs)) = (dt_symbols t, dt_defs t).
Proof. unfold put_call_site. by repeat case_match. Qed.
Lemma put_instance_defs tu o t ii :
  (dt_symbols (put_instance pr ids tu o t ii), dt_defs (put_instance pr ids tu o t ii)) = (dt_symbols t, dt_defs t).
Proof. unfold put_instance. by repeat case_match. Qed.

(** A table all of whose rows a loop updates independently. *)
Lemma foldl_update {A R} (table : dwarf_tables → list R) (f : dwarf_tables → A → dwarf_tables) (step : R → A → R) l t :
  (∀ t x, table (f t x) = (λ r, step r x) <$> table t) →
  table (foldl f t l) = (λ r, foldl step r l) <$> table t.
Proof.
  intros H. revert t; induction l as [|x l IH]; intros t; simpl; [by apply fmap_same|].
  rewrite IH, H, <-list_fmap_compose. done.
Qed.

Lemma foldl_units {R} (step : R → string * Subprogram → R) i r :
  foldl (λ r sp, step r (unit_path pr i, sp)) r (Subprograms i) =
  foldl step r ((unit_path pr i,.) <$> Subprograms i).
Proof. revert r. induction (Subprograms i) as [|sp l IH]; intros r; [done|]. apply IH. Qed.

Lemma put_object_updates root o t i t' :
  put_object pr ids root o t i = Val t' →
  dt_defs t' = (λ r, foldl (def_step pr ids) r ((unit_path pr i,.) <$> Subprograms i)) <$> dt_defs t ∧
  dt_symbols t' = (λ r, foldl (sig_step ids) r ((unit_path pr i,.) <$> Subprograms i)) <$> dt_symbols t.
Proof.
  intros H%put_object_rows. set (t1 := foldl (put_subprogram _ _ _) t _) in H.
  assert ((dt_symbols t', dt_defs t') = (dt_symbols t1, dt_defs t1)) as Ht1.
  { injection H as -> -> _ _. etrans.
    - apply (foldl_part (λ t, (dt_symbols t, dt_defs t))). intros. apply put_instance_defs.
    - apply (foldl_part (λ t, (dt_symbols t, dt_defs t))). intros. apply put_call_site_defs. }
  injection Ht1 as -> ->. subst t1. split.
  - rewrite (foldl_update dt_defs _ (λ r sp, def_step pr ids r (unit_path pr i, sp))) by (intros; apply put_subprogram_defs).
    apply list_fmap_ext. intros _ r _. apply (foldl_units (def_step pr ids)).
  - rewrite (foldl_update dt_symbols _ (λ r sp, sig_step ids r (unit_path pr i, sp))) by (intros; apply put_subprogram_symbols).
    apply list_fmap_ext. intros _ r _. apply (foldl_units (sig_step ids)).
Qed.

(** The pass updates each row of the compiler's tables by itself. *)
Lemma put_objects_updates elf root objs t t' :
  put_objects elf pr ids root objs t = Val (Ok t') →
  ∃ infos, Forall2 (object_info elf) objs infos ∧
    dt_defs t' = (λ r, foldl (def_step pr ids) r (from_units pr Subprograms infos)) <$> dt_defs t ∧
    dt_symbols t' = (λ r, foldl (sig_step ids) r (from_units pr Subprograms infos)) <$> dt_symbols t.
Proof.
  intros H. apply (put_objects_inv pr ids _ _ (λ infos t',
    dt_defs t' = (λ r, foldl (def_step pr ids) r (from_units pr Subprograms infos)) <$> dt_defs t ∧
    dt_symbols t' = (λ r, foldl (sig_step ids) r (from_units pr Subprograms infos)) <$> dt_symbols t)) in H; [done| |].
  - split; by apply fmap_same.
  - intros done o i t1 t2 _ [Hd Hs] Hp. apply put_object_updates in Hp as [-> ->].
    rewrite Hd, Hs, <-!list_fmap_compose. split; apply list_fmap_ext; intros _ r _; cbn [compose];
      by rewrite from_units_snoc, foldl_app.
Qed.
End rows.

(** *** What the updates add up to *)

Definition first_or {A} (d : A) (l : list A) : A := default d (head l).
Definition last_or {A} (d : A) (l : list A) : A := default d (last l).

Section spec.
Context (pr : PathResolver) (ids : gmap string Z).

(** What a subprogram says about the symbol [id]: where its body was written, where
    it was declared, its signature. *)
Definition body_location (id : Z) (x : string * Subprogram) : option (string * Z) :=
  if bool_decide (sub_id ids x = Some id) && sp_AbstractInline x.2 && has_decl_location x.2
  then Some (sub_location pr x.2) else None.
Definition decl_location (id : Z) (x : string * Subprogram) : option (string * Z) :=
  if bool_decide (sub_id ids x = Some id) && sp_Declaration x.2 && has_decl_location x.2
  then Some (sub_location pr x.2) else None.
Definition signature_of (id : Z) (x : string * Subprogram) : option string :=
  if bool_decide (sub_id ids x = Some id) && sp_Definition x.2 && negb (String.eqb (sp_Signature x.2) "")
  then Some (sp_Signature x.2) else None.

(** The first location fills a row that has none, the last signature stands. *)
Definition enriched_def (subs : list (string * Subprogram)) (r : def_row) : def_row :=
  let body := if (d_line r =? 0)%Z then first_or (d_file r, 0%Z) (omap (body_location (d_symbol_id r)) subs)
              else (d_file r, d_line r) in
  let decl := if String.eqb (d_decl_file r) ""
              then first_or (d_decl_file r, d_decl_line r) (omap (decl_location (d_symbol_id r)) subs)
              else (d_decl_file r, d_decl_line r) in
  DefRow (d_symbol_id r) body.1 body.2 decl.1 decl.2 (d_is_weak r) (d_linkage_name r).

Definition enriched_symbol (subs : list (string * Subprogram)) (r : symbol_row) : symbol_row :=
  SymbolRow (s_id r) (s_usr r) (s_name r) (s_kind r) (s_linkage r)
    (last_or (s_signature r) (omap (signature_of (s_id r)) subs)) (s_address_taken r) (s_linkage_names r).

Lemma sub_location_ok sp :
  has_decl_location sp = true → (sub_location pr sp).1 ≠ "" ∧ (0 < (sub_location pr sp).2)%Z.
Proof.
  unfold has_decl_location. intros [Hf Hl]%andb_true_iff. apply negb_true_iff, String.eqb_neq in Hf.
  apply Z.ltb_lt in Hl. split; [by apply ToProjectRelative_nonempty|done].
Qed.

Lemma def_steps subs r : foldl (def_step pr ids) r subs = enriched_def subs r.
Proof.
  revert r. induction subs as [|x subs IH]; intros r; cbn [foldl].
  { unfold enriched_def, first_or. cbn. destruct r as [i f l df dl w n]. cbn.
    destruct (Z.eqb_spec l 0) as [->|]; by destruct (String.eqb_spec df "") as [->|]. }
  rewrite IH. destruct r as [id f l df dl w n]. unfold enriched_def, def_step. cbn [omap list_omap d_symbol_id].
  assert (body_location id x = if bool_decide (sub_id ids x = Some id) &&
    sp_AbstractInline x.2 && has_decl_location x.2 then Some (sub_location pr x.2) else None) as -> by done.
  assert (decl_location id x = if bool_decide (sub_id ids x = Some id) &&
    sp_Declaration x.2 && has_decl_location x.2 then Some (sub_location pr x.2) else None) as -> by done.
  destruct (bool_decide (sub_id ids x = Some id)); cbn [andb]; [|done].
  destruct (has_decl_location x.2) eqn:Hh; rewrite ?andb_false_r; [|done].
  destruct (sub_location_ok _ Hh) as [Hne Hpos]. destruct (sub_location pr x.2) as [lf ll]. cbn in Hne, Hpos.
  apply String.eqb_neq in Hne. assert ((ll =? 0) = false)%Z as Hll by lia.
  destruct (sp_AbstractInline x.2); destruct (sp_Declaration x.2); cbn [andb]; try done;
    destruct (Z.eqb_spec l 0) as [->|Hl%Z.eqb_neq], (String.eqb_spec df "") as [->|Hd%String.eqb_neq];
    cbn; rewrite ?Hne, ?Hll, ?Hl, ?Hd; cbn; rewrite ?Hne, ?Hll, ?Hl, ?Hd; cbn; rewrite ?Hl, ?Hd; done.
Qed.

Lemma sig_steps subs r : foldl (sig_step ids) r subs = enriched_symbol subs r.
Proof.
  induction subs as [|x subs IH] using rev_ind; [by destruct r|].
  rewrite foldl_app, IH. unfold enriched_symbol, last_or. cbn [foldl]. unfold sig_step. cbn [s_id].
  rewrite omap_app. cbn [omap list_omap].
  assert (signature_of (s_id r) x = if bool_decide (sub_id ids x = Some (s_id r)) && sp_Definition x.2 &&
    negb (String.eqb (sp_Signature x.2) "") then Some (sp_Signature x.2) else None) as -> by done.
  destruct (bool_decide _ && _ && _).
  - by rewrite last_snoc.
  - by rewrite app_nil_r.
Qed.
End spec.

(** *** Types *)

(** What [insertType] is given, with the children that go with it. *)
Record decl := Decl {
  dc_name : string;
  dc_kind : string;
  dc_file : string;
  dc_line : Z;
  dc_column : Z;
  dc_size : Z;
  dc_underlying : string;
  dc_fields : list FieldInfo;
  dc_constants : list EnumConstant;
}.

Definition of_struct (st : StructInfo) : decl :=
  Decl (st_Name st) (st_Kind st) (st_DeclFile st) (st_DeclLine st) (st_DeclColumn st) (st_ByteSize st) ""
    (StructFields st) [].
Definition of_typedef (td : TypedefInfo) : decl :=
  Decl (td_Name td) "typedef" (td_DeclFile td) (td_DeclLine td) 0 0 (Target td) [] [].
Definition of_enum (en : EnumInfo) : decl :=
  Decl (en_Name en) "enum" (en_DeclFile en) (en_DeclLine en) (en_DeclColumn en) (en_ByteSize en) "" [] (Constants en).

(** The declarations of an object in the order of the pass. *)
Definition decls (i : Info) : list decl :=
  (of_struct <$> Structs i) ++ (of_typedef <$> Typedefs i) ++ (of_enum <$> Enums i).

Section types.
Context (pr : PathResolver).

Definition rel_file (d : decl) : string := RelPath (ToProjectRelative pr (dc_file d)).

(** The identity of a declaration, [None] for one that is not indexed: outside the
    project, or a typedef without a name. *)
Definition decl_usr (d : decl) : outcome (option string) :=
  if String.eqb (dc_file d) "" || negb (InProject (ToProjectRelative pr (dc_file d))) then Val None
  else if String.eqb (dc_kind d) "typedef" && String.eqb (dc_name d) "" then Val None
  else Some <$> type_usr (dc_kind d) (rel_file d) (dc_name d) (dc_line d) (dc_column d).

Definition decl_row (id : Z) (u : string) (d : decl) : type_row :=
  TypeRow id u (dc_name d) (dc_kind d) (rel_file d) (dc_line d)
    (if (0 <? dc_size d)%Z then Some (dc_size d) else None) (dc_underlying d).

Definition constant_usr (d : decl) (c : EnumConstant) : outcome string :=
  Usr.EnumMember (rel_file d) (dc_name d) (dc_line d) (dc_column d) (ec_Name c).

Definition enum_of (d : decl) : EnumInfo :=
  MkEnumInfo (dc_name d) (dc_file d) (dc_line d) (dc_column d) (dc_size d) (dc_constants d).

Definition put_decl (t : dwarf_tables) (d : decl) : outcome dwarf_tables :=
  '(t, fresh) ← insertType pr t (dc_name d) (dc_kind d) (dc_file d) (dc_line d) (dc_column d) (dc_size d) (dc_underlying d);
  match fresh with
  | Some id => foldO (put_constant pr (enum_of d) id) (dc_constants d) (put_fields id (dc_fields d) t)
  | None => Val t
  end.

(** The declarations that made the rows [src], each with its identity, are the first
    of theirs among [ds], and nothing else made a row. *)
Record types_from (ds : list decl) (src : list (string * decl)) (t : dwarf_tables) : Prop := {
  tf_rows : dt_types t = imap (λ n x, decl_row (Z.of_nat (S n)) x.1 x.2) src;
  tf_fields : dt_fields t = mjoin (imap (λ n x, field_rows (Z.of_nat (S n)) (dc_fields x.2)) src);
  tf_unique : NoDup src.*1;
  tf_first : ∀ u d, (u, d) ∈ src → List.find (λ d, bool_decide (decl_usr d = Val (Some u))) ds = Some d;
  tf_all : ∀ d u, d ∈ ds → decl_usr d = Val (Some u) → u ∈ src.*1;
  tf_constants_unique : NoDup (ec_usr <$> dt_constants t);
  tf_constants : ∀ c, c ∈ dt_constants t → ∃ n u d k, src !! n = Some (u, d) ∧ k ∈ dc_constants d ∧
    constant_usr d k = Val (ec_usr c) ∧ ec_type c = Z.of_nat (S n) ∧ ec_name c = ec_Name k ∧ ec_value c = ec_Value k;
}.

Lemma put_fields_nil id t : put_fields id [] t = t.
Proof. destruct t as [? ? ? ? ? fs ? []]. unfold put_fields. cbn. by rewrite app_nil_r, Nat.add_0_r. Qed.

Lemma put_struct_decl t st : put_struct pr t st = put_decl t (of_struct st).
Proof.
  unfold put_struct, put_decl. cbn. destruct (insertType _ _ _ _ _ _ _ _ _) as [[t1 [id|]]|]; done.
Qed.
Lemma put_typedef_decl t td : put_typedef pr t td = put_decl t (of_typedef td).
Proof.
  unfold put_typedef, put_decl. cbn. destruct (insertType _ _ _ _ _ _ _ _ _) as [[t1 [id|]]|]; try done.
  cbn. by rewrite put_fields_nil.
Qed.
Lemma put_enum_decl t en : put_enum pr t en = put_decl t (of_enum en).
Proof.
  unfold put_enum, put_decl. cbn. destruct (insertType _ _ _ _ _ _ _ _ _) as [[t1 [id|]]|]; try done.
  cbn. rewrite put_fields_nil. by destruct en.
Qed.

Lemma insertType_decl t d :
  insertType pr t (dc_name d) (dc_kind d) (dc_file d) (dc_line d) (dc_column d) (dc_size d) (dc_underlying d) =
  match decl_usr d with
  | Panic => Panic
  | Val None => Val (t, None)
  | Val (Some u) =>
    if existsb (λ r, String.eqb (ty_usr r) u) (dt_types t) then Val (t, None)
    else
      let id := next_id (dt_types t) in
      let s := dt_sum t in
      Val (DwarfTables (dt_symbols t) (dt_defs t) (dt_indirect t) (dt_instances t)
             (dt_types t ++ [decl_row id u d]) (dt_fields t) (dt_constants t)
             (MkSummary (sum_Signatures s) (sum_DeclLocations s) (sum_DefLocations s) (sum_IndirectSites s)
                (sum_InlineInstances s) (S (sum_Types s)) (sum_TypeFields s) (sum_EnumConstants s)), Some id)
  end.
Proof.
  unfold insertType, decl_usr, rel_file. destruct (_ || _); [done|]. destruct (_ && _); [done|].
  by destruct (type_usr _ _ _ _ _).
Qed.

Lemma put_constants_from ds src u d ks t t' :
  types_from ds (src ++ [(u, d)]) t → ks ⊆ dc_constants d →
  foldO (put_constant pr (enum_of d) (Z.of_nat (S (length src)))) ks t = Val t' →
  types_from ds (src ++ [(u, d)]) t'.
Proof.
  intros Ht Hks. apply (foldO_inv (types_from ds (src ++ [(u, d)]))); [done|]. clear t Ht t'.
  intros k t t' Hk Ht. unfold put_constant. fold (constant_usr d k).
  change (Usr.EnumMember _ _ _ _ _) with (constant_usr d k).
  destruct (constant_usr d k) as [cu|] eqn:Ec; [|done]. cbn [mbind outcome_bind]. intros [= <-].
  destruct Ht as [H1 H2 H3 H4 H5 H6 H7]. split; cbn; try done.
  - destruct (existsb _ _) eqn:Ex; [done|]. rewrite fmap_app. apply NoDup_app. split; [done|]. split; [|by apply NoDup_singleton].
    intros x Hx ->%list_elem_of_singleton. apply list_elem_of_fmap in Hx as (r & Hr & Hin). cbn in Hr.
    assert (existsb (λ r, String.eqb (ec_usr r) cu) (dt_constants t) = true) as Hx; [|congruence].
    apply existsb_exists. exists r. split; [by apply list_elem_of_In|]. apply String.eqb_eq. done.
  - destruct (existsb _ _) eqn:Ex; [done|]. intros c [Hc| ->%list_elem_of_singleton]%elem_of_app; [by apply H7|].
    exists (length src), u, d, k. cbn. split; [by apply list_lookup_middle|]. split; [by apply Hks|]. done.
Qed.

Lemma put_decl_from ds src t d t' :
  types_from ds src t → put_decl t d = Val t' → ∃ src', types_from (ds ++ [d]) src' t'.
Proof.
  intros Ht. unfold put_decl. rewrite insertType_decl.
  assert (∀ (u : string) (d0 : decl), List.find (λ d, bool_decide (decl_usr d = Val (Some u))) ds = Some d0 →
    List.find (λ d, bool_decide (decl_usr d = Val (Some u))) (ds ++ [d]) = Some d0) as Hfind.
  { intros u d0. clear. induction ds as [|e ds IH]; [done|]. simpl. by destruct (bool_decide _). }
  destruct (decl_usr d) as [[u|]|] eqn:Eu; [| |done]; cbn [mbind outcome_bind].
  - destruct (existsb _ _) eqn:Ex; cbn [mbind outcome_bind].
    + intros [= <-]. exists src. destruct Ht as [H1 H2 H3 H4 H5 H6 H7]. split; try done; [eauto|].
      intros d0 u0 [Hd| ->%list_elem_of_singleton]%elem_of_app Hu; [eauto|].
      assert (u0 = u) as -> by congruence. apply existsb_exists in Ex as (r & Hr & Hru%String.eqb_eq).
      apply list_elem_of_In in Hr. rewrite H1 in Hr. apply elem_of_lookup_imap in Hr as (n & [u1 d1] & -> & Hn).
      cbn in Hru. subst. apply list_elem_of_lookup_2 in Hn. by apply (list_elem_of_fmap_2 fst) in Hn.
    + set (t1 := DwarfTables _ _ _ _ _ _ _ _). destruct Ht as [H1 H2 H3 H4 H5 H6 H7].
      assert (next_id (dt_types t) = Z.of_nat (S (length src))) as Hid by (unfold next_id; by rewrite H1, length_imap).
      rewrite Hid in *. intros Hk. exists (src ++ [(u, d)]). eapply put_constants_from; [|reflexivity|exact Hk].
      assert (u ∉ src.*1) as Hnew.
      { intros Hin. apply list_elem_of_fmap in Hin as ([u1 d1] & Hu1 & Hin). cbn in Hu1. subst u1.
        apply list_elem_of_lookup in Hin as [n Hn].
        assert (existsb (λ r, String.eqb (ty_usr r) u) (dt_types t) = true) as Ht; [|congruence].
        apply existsb_exists. exists (decl_row (Z.of_nat (S n)) u d1). split; [|apply String.eqb_refl].
        apply list_elem_of_In. rewrite H1. apply elem_of_lookup_imap. by exists n, (u, d1). }
      assert (List.find (λ d, bool_decide (decl_usr d = Val (Some u))) ds = None) as Hnone.
      { destruct (List.find _ ds) as [d0|] eqn:Ef; [|done].
        apply List.find_some in Ef as [Hin Hu%bool_decide_eq_true]. apply list_elem_of_In in Hin.
        exfalso. apply Hnew. eauto. }
      split; cbn.
      * rewrite imap_app, <-H1. cbn. rewrite Nat.add_0_r, ?Hid. done.
      * rewrite imap_app, join_app, <-H2. cbn. by rewrite Nat.add_0_r, app_nil_r.
      * rewrite fmap_app. apply NoDup_app. split; [done|]. split; [|by apply NoDup_singleton].
        cbn. intros x Hx ->%list_elem_of_singleton. done.
      * intros u0 d0 [Hin|[= -> ->]%list_elem_of_singleton]%elem_of_app; [eauto|].
        clear -Hnone Eu. induction ds as [|e l IH]; simpl in *; [by rewrite bool_decide_true|].
        destruct (bool_decide _); [done|]. by apply IH.
      * intros d0 u0 [Hd| ->%list_elem_of_singleton]%elem_of_app Hu; rewrite fmap_app; apply elem_of_app; [left; eauto|].
        right. apply list_elem_of_singleton. cbn. congruence.
      * done.
      * intros c Hc. destruct (H7 c Hc) as (n & u0 & d0 & k & Hn & Hrest). exists n, u0, d0, k. split; [|done].
        by apply lookup_app_l_Some.
  - intros [= <-]. exists src. destruct Ht as [H1 H2 H3 H4 H5 H6 H7]. split; try done; [eauto|].
    intros d0 u0 [Hd| ->%list_elem_of_singleton]%elem_of_app Hu; [eauto|congruence].
Qed.
End types.

Section types_pass.
Context (pr : PathResolver) (ids : gmap string Z).

Lemma foldO_app {A S} (f : S → A → outcome S) l1 l2 s :
  foldO f (l1 ++ l2) s = match foldO f l1 s with Val s' => foldO f l2 s' | Panic => Panic end.
Proof. revert s; induction l1 as [|x l1 IH]; intros s; simpl; [done|]. by destruct (f s x). Qed.

Lemma foldO_fmap {A B S} (f : S → B → outcome S) (g : A → B) (h : S → A → outcome S) l s :
  (∀ s x, h s x = f s (g x)) → foldO h l s = foldO f (g <$> l) s.
Proof. intros H. revert s; induction l as [|x l IH]; intros s; simpl; [done|]. rewrite H. by destruct (f s (g x)). Qed.

(** An object's types are its declarations, in order. *)
Lemma put_object_types root o t i t' :
  put_object pr ids root o t i = Val t' →
  ∃ t1, types_part t1 = types_part t ∧ foldO (put_decl pr) (decls i) t1 = Val t'.
Proof.
  unfold put_object. set (t3 := foldl _ _ (InlineInstances i)). intros H. exists t3. split.
  - subst t3. rewrite (foldl_part types_part) by (intros; apply put_instance_types).
    rewrite (foldl_part types_part) by (intros; apply put_call_site_types).
    apply (foldl_part types_part). intros; apply put_subprogram_types.
  - unfold decls. rewrite foldO_app. revert H.
    rewrite (foldO_fmap (put_decl pr) of_struct) by apply put_struct_decl.
    destruct (foldO _ (of_struct <$> _) t3) as [t4|]; [|done]. cbn [mbind outcome_bind].
    rewrite foldO_app, (foldO_fmap (put_decl pr) of_typedef) by apply put_typedef_decl.
    destruct (foldO _ (of_typedef <$> _) t4) as [t5|]; [|done]. cbn [mbind outcome_bind].
    by rewrite (foldO_fmap (put_decl pr) of_enum) by apply put_enum_decl.
Qed.

Lemma types_from_part ds src t t' : types_part t' = types_part t → types_from pr ds src t → types_from pr ds src t'.
Proof. intros [= H1 H2 H3] [G1 G2 G3 G4 G5 G6 G7]. split; rewrite ?H1, ?H2, ?H3; done. Qed.

Lemma put_decls_from l ds src t t' :
  types_from pr ds src t → foldO (put_decl pr) l t = Val t' → ∃ src', types_from pr (ds ++ l) src' t'.
Proof.
  intros Ht. apply (foldO_inv_pre (λ l t, ∃ src, types_from pr (ds ++ l) src t)).
  - exists src. by rewrite app_nil_r.
  - intros pre d post s s' _ [src1 H1] Hp. rewrite app_assoc. by eapply put_decl_from.
Qed.

Lemma put_objects_types elf root objs t t' :
  put_objects elf pr ids root objs t = Val (Ok t') → types_part t = ([], [], []) →
  ∃ infos, Forall2 (object_info elf) objs infos ∧ ∃ src, types_from pr (mjoin (decls <$> infos)) src t'.
Proof.
  intros Hrun Ht.
  apply (put_objects_inv pr ids _ _ (λ infos t', ∃ src, types_from pr (mjoin (decls <$> infos)) src t')) in Hrun; [done| |].
  - exists []. injection Ht as H1 H2 H3. split; rewrite ?H1, ?H2, ?H3; cbn; try apply NoDup_nil_2; try done; set_solver.
  - intros done o i t1 t2 _ [src Hs] Hp. apply put_object_types in Hp as (t3 & H3 & Hp).
    rewrite fmap_app, join_app. cbn. rewrite app_nil_r. eapply put_decls_from; [|exact Hp].
    by eapply types_from_part.
Qed.
End types_pass.

(** *** References *)

Section references.
Context (pr : PathResolver) (ids : gmap string Z) (valid : Z → Prop).
Hypothesis ids_valid : ∀ u i, ids !! u = Some i → valid i.

Lemma resolve_valid name tu i : resolveSymbolID name tu ids = i → i ≠ 0%Z → valid i.
Proof.
  unfold resolveSymbolID. destruct (ids !! Usr.Function "" name) eqn:E; [intros <- _; eauto|].
  destruct (String.eqb tu ""); [by intros <-|].
  destruct (ids !! Usr.Function tu name) eqn:E'; simpl; intros <-; [eauto|done].
Qed.

(** Indirect calls are numbered, and what they and the inlined bodies name is valid. *)
Record refs_ok (t : dwarf_tables) : Prop := {
  ro_indirect : ∀ n r, dt_indirect t !! n = Some r → is_id r = Z.of_nat (S n) ∧ valid (is_caller r);
  ro_instances : ∀ r, r ∈ dt_instances t →
    valid (ii_callee r) ∧ valid (ii_caller r) ∧ ∀ p, ii_parent r = Some p → valid p;
}.

Lemma put_call_site_refs tu t cs : refs_ok t → refs_ok (put_call_site pr ids tu t cs).
Proof.
  intros [H1 H2]. unfold put_call_site. destruct (_ || _); [done|].
  destruct (Z.eqb_spec (resolveSymbolID (SourceCallerName cs) tu ids) 0); [done|]. split; cbn; [|done].
  intros n0 r [H|[Hn H]]%lookup_app_Some; [by apply H1|].
  apply list_lookup_singleton_Some in H as [Hz <-]. cbn. split; [unfold next_id; lia|by eapply resolve_valid].
Qed.

Lemma put_instance_refs tu o t ii : refs_ok t → refs_ok (put_instance pr ids tu o t ii).
Proof.
  intros [H1 H2]. unfold put_instance.
  destruct (Z.eqb_spec (resolveSymbolID (ii_CalleeName ii) tu ids) 0); [done|].
  destruct (Z.eqb_spec (resolveSymbolID (ii_CallerName ii) tu ids) 0); [done|]. split; cbn; [done|].
  intros r [H| ->%list_elem_of_singleton]%elem_of_app; [by apply H2|]. cbn.
  split; [by eapply resolve_valid|]. split; [by eapply resolve_valid|]. intros p. unfold parent_id.
  destruct (String.eqb _ ""); [done|]. destruct (Z.eqb_spec (resolveSymbolID (ParentCalleeName ii) tu ids) 0); [done|].
  intros [= <-]. by eapply resolve_valid.
Qed.

Lemma refs_ok_rows t t' : rows_part t' = rows_part t → refs_ok t → refs_ok t'.
Proof. intros [= _ _ H1 H2 _ _ _] [G1 G2]. split; rewrite ?H1, ?H2; done. Qed.

Lemma put_object_refs root o t i t' : refs_ok t → put_object pr ids root o t i = Val t' → refs_ok t'.
Proof.
  intros Ht Hp%put_object_rows. eapply refs_ok_rows; [exact Hp|].
  apply (foldl_inv refs_ok); [|intros; by apply put_instance_refs].
  apply (foldl_inv refs_ok); [|intros; by apply put_call_site_refs].
  apply (foldl_inv refs_ok); [done|]. intros t0 sp _ [H1 H2]. unfold put_subprogram. repeat case_match; by split.
Qed.

Lemma put_objects_refs elf root objs t t' :
  put_objects elf pr ids root objs t = Val (Ok t') → refs_ok t → refs_ok t'.
Proof.
  intros Hrun Ht. apply (put_objects_inv pr ids _ _ (λ _, refs_ok)) in Hrun as (infos & _ & ?); [done|done|].
  intros done o i t1 t2 _ H1 H2. by eapply put_object_refs.
Qed.
End references.

(** *** The counters

    A call site and an inlined body count once per row, and a definition counts as
    located when it had no line and gets one. *)

Section counts.
Context (pr : PathResolver) (ids : gmap string Z).

Definition unplaced (defs : list def_row) : nat := length (List.filter (λ r, d_line r =? 0)%Z defs).

Record counted (n : nat) (t : dwarf_tables) : Prop := {
  cn_sites : sum_IndirectSites (dt_sum t) = length (dt_indirect t);
  cn_instances : sum_InlineInstances (dt_sum t) = length (dt_instances t);
  cn_located : sum_DefLocations (dt_sum t) + unplaced (dt_defs t) = n;
}.

Lemma unplaced_update (cond : def_row → bool) (f : def_row → def_row) defs :
  (∀ r, cond r = true → d_line r = 0%Z ∧ d_line (f r) ≠ 0%Z) →
  affected cond defs + unplaced (update cond f defs) = unplaced defs.
Proof.
  intros H. unfold affected, unplaced, update. induction defs as [|r defs IH]; [done|]. cbn.
  destruct (cond r) eqn:E.
  - destruct (H r E) as [H0 Hn%Z.eqb_neq]. rewrite H0, Hn. cbn. lia.
  - destruct (d_line r =? 0)%Z; cbn; lia.
Qed.

Lemma unplaced_same (cond : def_row → bool) (f : def_row → def_row) defs :
  (∀ r, d_line (f r) = d_line r) → unplaced (update cond f defs) = unplaced defs.
Proof.
  intros H. unfold unplaced, update. induction defs as [|r defs IH]; [done|]. cbn.
  assert (d_line (if cond r then f r else r) = d_line r) as -> by (by destruct (cond r)).
  destruct (d_line r =? 0)%Z; cbn; lia.
Qed.

Lemma put_subprogram_counted n tu t sp : counted n t → counted n (put_subprogram pr ids tu t sp).
Proof.
  intros Ht. unfold put_subprogram. destruct (String.eqb (sp_Name sp) ""); [done|].
  destruct (resolveSymbolID _ _ _ =? 0)%Z; [done|]. cbn zeta.
  set (t1 := if _ && negb _ then _ else t).
  assert (counted n t1) as H1 by (subst t1; destruct (_ && _), Ht; by split). clearbody t1. clear Ht t.
  set (t2 := if _ && has_decl_location sp then put_def_location _ _ _ t1 else t1).
  assert (counted n t2) as H2.
  { subst t2. destruct (sp_AbstractInline sp && has_decl_location sp) eqn:E; [|done]. destruct H1 as [Hi Hn Hl]. split; cbn; [done..|].
    rewrite <-Hl, <-Nat.add_assoc. f_equal. apply unplaced_update. intros r [_ Hr%Z.eqb_eq]%andb_true_iff.
    split; [done|]. unfold has_decl_location in E. cbn. lia. }
  clearbody t2. destruct (_ && _), H2 as [Hi Hn Hl]; [split; cbn; [done..|]|by split].
  rewrite <-Hl. f_equal. by apply unplaced_same.
Qed.

Lemma put_object_counted n root o t i t' : counted n t → put_object pr ids root o t i = Val t' → counted n t'.
Proof.
  intros Ht Hp%put_object_rows.
  assert (∀ t t', rows_part t' = rows_part t → counted n t → counted n t') as Hrows.
  { intros t0 t1 [= _ H1 H2 H3 H4 H5 H6] [G1 G2 G3]. split; congruence. }
  apply (Hrows _ _ Hp). apply (foldl_inv (counted n)).
  - apply (foldl_inv (counted n)).
    + apply (foldl_inv (counted n)); [done|]. intros; by apply put_subprogram_counted.
    + intros t0 cs _ [H1 H2 H3]. unfold put_call_site. destruct (_ || _); [done|].
      destruct (_ =? 0)%Z; [done|]. split; [cbn; rewrite ?length_app; cbn; lia..|exact H3].
  - intros t0 ii _ [H1 H2 H3]. unfold put_instance. destruct (_ || _); [done|].
    split; [cbn; rewrite ?length_app; cbn; lia..|exact H3].
Qed.

Lemma DWARF_counted elf bd ct t :
  DWARF elf pr ids bd (DwarfTables (st_symbols (ct_symbols ct)) (st_defs (ct_symbols ct)) [] [] [] [] [] no_summary) = Val (Ok t) →
  counted (unplaced (st_defs (ct_symbols ct))) t.
Proof.
  intros Hrun. unfold DWARF in Hrun.
  apply (put_objects_inv pr ids _ _ (λ _, counted (unplaced (st_defs (ct_symbols ct))))) in Hrun as (infos & _ & ?); [done|done|].
  intros done o i t1 t2 _ H1 H2. by eapply put_object_counted.
Qed.
End counts.

(** The tables as the compiler pass leaves them. *)
Definition after_compiler (ct : compiler_tables) : dwarf_tables :=
  DwarfTables (st_symbols (ct_symbols ct)) (st_defs (ct_symbols ct)) [] [] [] [] [] no_summary.

Lemma Compiler_ids fs json_of pr bd ct :
  Compiler fs json_of pr bd = Ok ct → rows_ok (ct_symbols ct).
Proof.
  unfold Compiler. destruct (mapM_result _ _) as [tus|]; [|done]. cbn [mbind result_bind]. unfold ingest_tus.
  pose proof (aggregate_all_ok pr tus) as Hagg. destruct (aggregate_all pr tus) as [symbols resolves].
  cbn in Hagg. destruct Hagg as (Hk & _ & _). destruct (insertICFGroups _ _ _ _) as [icf|]; [|done].
  intros [= <-]. cbn. by apply insertSymbols_ok, prune_keyed.
Qed.

(** ** Properties *)

(** C28: After the pass every definition the compiler pass could not locate has the
    first location an abstract instance of its symbol gives, in the order of the
    objects, and every other location stands; a prototype's location fills a row
    without one in the same way; a symbol's signature is the last one read. *)
Theorem DWARF_enriches elf pr ids bd db t :
  DWARF elf pr ids bd db = Val (Ok t) →
  ∃ infos, Forall2 (object_info elf) (sort_strings (BuildDir.Object <$> BuildDir.Objects bd)) infos ∧
    dt_defs t = enriched_def pr ids (from_units pr Subprograms infos) <$> dt_defs db ∧
    dt_symbols t = enriched_symbol ids (from_units pr Subprograms infos) <$> dt_symbols db.
Proof.
  unfold DWARF. rewrite sort_by_keys. intros (infos & Hi & Hd & Hs)%put_objects_updates. exists infos.
  split; [done|]. rewrite Hd, Hs. split; apply list_fmap_ext; intros _ r _; [apply def_steps|apply sig_steps].
Qed.

(** C29: The types of a new index are one per identity: of the project's declarations,
    in the order of the objects, the first of each makes a row, numbered in that
    order, whose fields are exactly its own, in order; nothing else makes a row, no
    declaration of the project is missing, and every enumeration constant belongs
    to the row of an enumeration that declares it. *)
Theorem DWARF_types elf pr ids bd db t :
  DWARF elf pr ids bd db = Val (Ok t) → types_part db = ([], [], []) →
  ∃ infos, Forall2 (object_info elf) (sort_strings (BuildDir.Object <$> BuildDir.Objects bd)) infos ∧
    ∃ src, types_from pr (mjoin (decls <$> infos)) src t.
Proof. unfold DWARF. rewrite sort_by_keys. apply put_objects_types. Qed.

(** Run after the compiler pass with its ids, the pass keeps the ids of the symbol
    rows, and every indirect call and inlined body it writes refers to such rows. *)
Theorem DWARF_references elf fs json_of pr bd ct t :
  Compiler fs json_of pr bd = Ok ct →
  DWARF elf pr (st_ids (ct_symbols ct)) bd (after_compiler ct) = Val (Ok t) →
  s_id <$> dt_symbols t = s_id <$> st_symbols (ct_symbols ct) ∧
  refs_ok (λ i, i ∈ s_id <$> dt_symbols t) t.
Proof.
  intros Hc%Compiler_ids Hd. assert (s_id <$> dt_symbols t = s_id <$> st_symbols (ct_symbols ct)) as Hs.
  { apply put_objects_updates in Hd as (infos & _ & _ & ->). rewrite <-list_fmap_compose.
    apply list_fmap_ext. intros _ r _. cbn [compose]. by rewrite sig_steps. }
  split; [done|]. rewrite Hs. eapply put_objects_refs; [|exact Hd|].
  - intros u i Hi. apply (rows_ids _ Hc) in Hi as (r & Hr & _ & <-). by apply list_elem_of_fmap_2.
  - by split; cbn; set_solver.
Qed.

(** A type declared outside the project root leaves no row, however much it is used. *)
Theorem external_types_dropped pr t name kind declFile line col size underlying :
  InProject (ToProjectRelative pr declFile) = false →
  insertType pr t name kind declFile line col size underlying = Val (t, None).
Proof. intros H. unfold insertType. rewrite H. by destruct (String.eqb declFile ""). Qed.

(** ** Examples

    [/p/a.c] defines [main], with an indirect call and the inlined body of [helper],
    which the header [/p/a.h] declares beside [struct node] and an enumeration. *)

Definition ex_dwarf : Data :=
  MkData
    [MkEntry 11 TagCompileUnit true [(AttrName, VString "a.c"); (AttrCompDir, VString "/p")];
     MkEntry 20 TagBaseType false [(AttrName, VString "int")];
     MkEntry 30 TagStructType true
       [(AttrName, VString "node"); (AttrDeclFile, VInt64 1); (AttrDeclLine, VInt64 3); (AttrByteSize, VInt64 4)];
     MkEntry 31 TagMember false [(AttrName, VString "len"); (AttrType, VOffset 20)]; null_entry 0;
     MkEntry 35 TagEnumerationType true [(AttrName, VString "kind"); (AttrDeclFile, VInt64 1); (AttrDeclLine, VInt64 5)];
     MkEntry 36 TagEnumerator false [(AttrName, VString "LEAF"); (AttrConstValue, VInt64 1)]; null_entry 0;
     MkEntry 40 TagSubprogram false
       [(AttrName, VString "helper"); (AttrInline, VInt64 1); (AttrDeclFile, VInt64 1); (AttrDeclLine, VInt64 7);
        (AttrPrototyped, VBool true)];
     MkEntry 50 TagSubprogram true [(AttrName, VString "main"); (AttrLowpc, VUint64 0); (AttrType, VOffset 20)];
     MkEntry 51 TagInlinedSubroutine false
       [(AttrAbstractOrigin, VOffset 40); (AttrCallFile, VInt64 0); (AttrCallLine, VInt64 4)];
     MkEntry 52 TagCallSite false [(AttrCallFile, VInt64 0); (AttrCallLine, VInt64 5)]; null_entry 0; null_entry 0]
    false
    (λ off, if (off =? 11)%Z then Some (LineTable [Some "/p/a.c"; Some "/p/a.h"] (λ _, None)) else None).

Definition ex_elfs (o : string) : result read_error (elf_file * Data) := Ok (example_elf, ex_dwarf).
Definition ex_path_resolver : PathResolver := MkPathResolver "/p/build" "/p".
Definition ex_build : BuildDir.BuildDir :=
  BuildDir.MkBuildDir "/p/build"
    [BuildDir.MkObjectArtifacts "/p/build/b.o" "" "" "" "" "" "";
     BuildDir.MkObjectArtifacts "/p/build/a.o" "" "a.cgraph" "" "" "" ""] [].
Definition ex_files (p : string) : option string :=
  if String.eqb p "a.cgraph" then Some (unlines (Cgraph.print_cgraph Cgraph.ex_names Cgraph.ex_parts)) else None.
Definition ex_compiled : compiler_tables :=
  Eval vm_compute in
  match Compiler ex_files (λ _, None) ex_path_resolver ex_build with
  | Ok ct => ct
  | Err _ => CompilerTables (SymbolTables [] [] ∅) [] [] [] (IcfTables [] [] 0) ∅ (MkCompilerSummary 0 0 0 0 0)
  end.
Definition ex_enriched : dwarf_tables :=
  match DWARF ex_elfs ex_path_resolver (st_ids (ct_symbols ex_compiled)) ex_build (after_compiler ex_compiled) with
  | Val (Ok t) => t
  | _ => after_compiler ex_compiled
  end.

Example ex_enriched_rows :
  (s_name <$> dt_symbols ex_enriched, s_signature <$> dt_symbols ex_enriched) =
    (["helper"; "main"], ["void (void)"; "int ()"]) ∧
  (λ r, (d_symbol_id r, d_file r, d_line r)) <$> dt_defs ex_enriched = [(1%Z, "a.h", 7%Z); (2%Z, "", 0%Z)] ∧
  ty_usr <$> dt_types ex_enriched = ["c:a.h@S@node"; "c:a.h@E@kind"] ∧
  ec_usr <$> dt_constants ex_enriched = ["c:a.h@E@kind@LEAF"].
Proof. vm_compute. repeat split. Qed.

Lemma ex_compiles : Compiler ex_files (λ _, None) ex_path_resolver ex_build = Ok ex_compiled.
Proof. vm_compute. reflexivity. Qed.

Lemma ex_run :
  DWARF ex_elfs ex_path_resolver (st_ids (ct_symbols ex_compiled)) ex_build (after_compiler ex_compiled) = Val (Ok ex_enriched).
Proof. vm_compute. reflexivity. Qed.

Lemma DWARF_enriches_witness :
  ∃ infos, Forall2 (object_info ex_elfs) (sort_strings (BuildDir.Object <$> BuildDir.Objects ex_build)) infos ∧
    dt_defs ex_enriched = enriched_def ex_path_resolver (st_ids (ct_symbols ex_compiled))
      (from_units ex_path_resolver Subprograms infos) <$> dt_defs (after_compiler ex_compiled) ∧
    dt_symbols ex_enriched = enriched_symbol (st_ids (ct_symbols ex_compiled))
      (from_units ex_path_resolver Subprograms infos) <$> dt_symbols (after_compiler ex_compiled).
Proof. exact (DWARF_enriches _ _ _ _ _ _ ex_run). Defined.

Lemma DWARF_types_witness :
  types_part (after_compiler ex_compiled) = ([], [], []) ∧
  ∃ infos, Forall2 (object_info ex_elfs) (sort_strings (BuildDir.Object <$> BuildDir.Objects ex_build)) infos ∧
    ∃ src, types_from ex_path_resolver (mjoin (decls <$> infos)) src ex_enriched.
Proof. split; [reflexivity|]. exact (DWARF_types _ _ _ _ _ _ ex_run eq_refl). Defined.

Lemma DWARF_references_witness :
  s_id <$> dt_symbols ex_enriched = s_id <$> st_symbols (ct_symbols ex_compiled) ∧
  refs_ok (λ i, i ∈ s_id <$> dt_symbols ex_enriched) ex_enriched.
Proof. exact (DWARF_references _ _ _ _ _ _ _ ex_compiles ex_run). Defined.

(** A unit's own static function is taken for an external one of the same name: the
    external symbol's signature becomes the static's. *)
Example static_shadowed :
  let ids : gmap string Z := {["c:@F@main" := 1%Z; "c:a.c@F@main" := 2%Z]} in
  let db := DwarfTables
    [SymbolRow 1 "c:@F@main" "main" "function" "external" "" false [];
     SymbolRow 2 "c:a.c@F@main" "main" "function" "internal" "" false []] [] [] [] [] [] [] no_summary in
  resolveSymbolID "main" "a.c" ids = 1%Z ∧
  ∃ t, DWARF ex_elfs ex_path_resolver ids ex_build db = Val (Ok t) ∧ s_signature <$> dt_symbols t = ["int ()"; ""].
Proof. split; [reflexivity|]. eexists. split; vm_compute; reflexivity. Qed.
