(* ===== verification/SymbolTools.v ===== *)
(** * The symbol, type and indirect-call tools ([internal/mcp/symbol_tools.go],
    [internal/mcp/type_tools.go], [internal/mcp/indirect_tools.go])

    The handlers over the tables of an index.  The full-text search of SQLite is a
    parameter, as is quoting; what a tool hands to it, its LIKE patterns and the notes of
    empty answers are modelled. *)

From S2P Require Import Prelude GoStrings Paths Store CallGraph SourceTools.
From Stdlib Require Import ZArith Lia.

Record tool_index := ToolIndex {
  ti_graph : index;
  ti_sources : source_index;
  ti_defs : list def_row;
  ti_indirect : list indirect_site_row;
  ti_types : list type_row;
  ti_fields : list type_field_row;
  ti_constants : list enum_constant_row;
  ti_icf_groups : list icf_group_row;
  ti_icf_members : list icf_member_row;
}.

Definition rowLimitMax : Z := 2000.
Definition rowLimit (limit : option Z) (def : Z) : nat := Z.to_nat (clampRange (default def limit) 1 rowLimitMax).

(** ** Query text *)

(** The tokens so far and the one in flight. *)
Definition fts_flush (st : list string * string) : list string :=
  if String.eqb st.2 "" then st.1 else st.1 ++ [st.2 +:+ "*"].
Definition fts_step (st : list string * string) (a : ascii) : list string * string :=
  if is_alnum a then (st.1, st.2 +:+ str1 a) else (fts_flush st, "").
Definition buildFTSQuery (q : string) : string := Join (fts_flush (foldl fts_step ([], "") (schars q))) " ".

Definition escape_char (a : ascii) : string :=
  if Ascii.eqb a "\" || Ascii.eqb a "%" || Ascii.eqb a "_" then String "\" (str1 a) else str1 a.
Fixpoint escapeLike (q : string) : string :=
  match q with
  | EmptyString => ""
  | String a q => escape_char a +:+ escapeLike q
  end.

(** [s LIKE pat ESCAPE '\']: letters match without regard to case. *)
Fixpoint like (pat s : list ascii) : bool :=
  match pat with
  | [] => match s with [] => true | _ => false end
  | a :: pat' =>
    if Ascii.eqb a "%" then
      (fix any (s : list ascii) : bool :=
         like pat' s || match s with [] => false | _ :: s => any s end) s
    else if Ascii.eqb a "\" then
      match pat', s with
      | b :: pat'', c :: s => Ascii.eqb (lower b) (lower c) && like pat'' s
      | _, _ => false
      end
    else
      match s with
      | [] => false
      | c :: s => (Ascii.eqb a "_" || Ascii.eqb (lower a) (lower c)) && like pat' s
      end
  end.

(** ** Answers *)

Record SymbolHit := MkSymbolHit {
  sh_USR : string;
  sh_Name : string;
  sh_Kind : string;
  sh_Linkage : string;
  sh_Signature : string;
  sh_Targets : list string;
}.

Record FindSymbolResponse := MkFindSymbolResponse {
  fs_Exact : bool;
  fs_FTSQuery : string;
  fs_Hits : list SymbolHit;
  fs_Total : nat;
  fs_Truncated : bool;
  fs_Note : string;
}.

Record SymbolDefinition := MkSymbolDefinition {
  sd_Location : Location;
  sd_DeclFile : string;
  sd_DeclLine : Z;
  sd_IsWeak : bool;
  sd_LinkageName : string;
}.

Record LinkResolution := MkLinkResolution {
  res_Target : string;
  res_WinningObject : string;
  res_LinkageKind : string;
  res_LosingObjects : list string;
  res_Archive : string;
  res_Reachable : bool;
}.

Record DescribeSymbolResponse := MkDescribeSymbolResponse {
  ds_Symbol : SymbolRef;
  ds_Linkage : string;
  ds_AddressTaken : bool;
  ds_LinkageNames : list string;
  ds_Definitions : list SymbolDefinition;
  ds_Targets : list string;
  ds_LinkResolutions : list LinkResolution;
}.

Record IndirectCallSite := MkIndirectCallSite {
  ic_SiteID : Z;
  ic_Caller : SymbolRef;
  ic_Location : Location;
  ic_CalleeType : string;
  ic_FieldHint : string;
}.

Record ResolveCandidate := MkResolveCandidate { rc_Symbol : SymbolRef; rc_Evidence : string; rc_Confidence : string }.

Record ResolveIndirectCallResponse := MkResolveIndirectCallResponse {
  ri_Site : IndirectCallSite;
  ri_Candidates : list ResolveCandidate;
  ri_Total : nat;
}.

Record TypeHit := MkTypeHit {
  th_USR : string;
  th_Name : string;
  th_Kind : string;
  th_Location : Location;
  th_Underlying : string;
  th_ByteSize : Z;
  th_Value : option Z;
  th_EnumName : string;
}.

Record FindTypeResponse := MkFindTypeResponse { ft_Hits : list TypeHit; ft_Total : nat; ft_Truncated : bool; ft_Note : string }.

Record DescribeTypeResponse := MkDescribeTypeResponse {
  tr_Name : string;
  tr_Kind : string;
  tr_Location : Location;
  tr_ByteSize : Z;
  tr_Underlying : string;
  tr_Fields : list (string * string * Z);
  tr_Constants : list (string * string * Z);
}.

Definition findSymbolLimit : nat := 100.
Definition indirectSitesLimit : Z := 500.
Definition findTypeLimit : Z := 100.

Definition usedTypesCaveat : string :=
  "This plane holds types the compiler emitted, not types the source declares: DWARF records a type only where some " +:+
  "variable, parameter, member or signature uses it, so a declared-but-unused typedef, struct or enum has no row at " +:+
  "any -g level. An empty result means 'no translation unit used this type', never 'no such type' — fall back to " +:+
  "search_source before concluding it does not exist.".

Definition evidenceRank (e : string) : Z :=
  if String.eqb e "type_match" then 2 else if String.eqb e "address_taken" then 1 else 0.

(** The query of a tool fails on the expression it gives to FTS5. *)
Inductive fts_error := ErrFindSymbolQuery (fts : string) | ErrFindTypeQuery (fts : string).

Section server.
(** [symbols_match e]: the rows the full-text index of symbols answers to [MATCH e]; none
    when FTS5 refuses the expression. *)
Context (unzstd : string → option string) (ix : tool_index) (ProjectRoot : string).
Context (symbols_match : string → option (symbol_row → bool)) (types_match : string → option (type_row → bool)).
(** [strconv.Quote]. *)
Context (quote : string → string).

Let gx := ti_graph ix.
Let symbols := ix_symbols gx.

Definition at_ (file : string) (line column : Z) : Location := MkLocation file line column "" None "".
Definition enrich (loc : Location) (snippets : bool) : Location :=
  enrichLocation unzstd (ti_sources ix) ProjectRoot loc snippets.

(** The filters that a request may leave out. *)
Definition given (arg value : string) : bool := String.eqb arg "" || String.eqb value arg.

(** ** [find_symbol] *)

Definition named_exactly (query : string) (s : symbol_row) : bool :=
  String.eqb (s_name s) query || bool_decide (query ∈ s_linkage_names s).

Definition hit_of (s : symbol_row) : SymbolHit :=
  MkSymbolHit (s_usr s) (s_name s) (s_kind s) (s_linkage s) (s_signature s) [].

(** The same query and the same map as in [targetsByReachability]. *)
Definition attachTargets (hits : list SymbolHit) : list SymbolHit :=
  match hits with
  | [] => []
  | _ =>
    let byUSR := foldl append_target ∅ (reachability_rows gx (sh_USR <$> hits)) in
    (λ h, MkSymbolHit (sh_USR h) (sh_Name h) (sh_Kind h) (sh_Linkage h) (sh_Signature h)
            (default [] (byUSR !! sh_USR h))) <$> hits
  end.

Definition again : string := " For a literal name check rather than a fuzzy one, re-run with exact=true.".

(** What an empty answer says. *)
Definition emptyFindNote (query target : string) (exact : bool) : string :=
  (if exact then "No symbol is named " +:+ quote query +:+ " (matched against symbols.name and linkage_names). "
   else "No symbol name or signature matched. ") +:+
  "This index holds functions and variables only, so a type or enum constant never has a hit here regardless of " +:+
  "query — use find_type for those. A macro has no row in any plane; search_source is the only route to one." +:+
  (if negb (String.eqb target "") then
     " The target filter also excludes internal-linkage symbols, which get no link_resolutions row even when their " +:+
     "code is in the binary; re-run without target before concluding absence."
   else "") +:+
  (if exact then "" else again).

Definition handleFindSymbol (query kind target : string) (exact : bool) : result fts_error FindSymbolResponse :=
  let fts := if exact then "" else buildFTSQuery query in
  if negb exact && String.eqb fts "" then Ok (MkFindSymbolResponse false "" [] 0 false (emptyFindNote query target false))
  else
    matches ← (if exact then Ok (named_exactly query)
               else match symbols_match fts with Some m => Ok m | None => Err (ErrFindSymbolQuery fts) end);
    let rows := List.filter (λ s, matches s && given kind (s_kind s) && in_target gx target s) symbols in
    let '(hits, truncated) := cut findSymbolLimit (hit_of <$> sort_by s_name rows) in
    let hits := attachTargets hits in
    Ok (MkFindSymbolResponse exact fts hits (length hits) truncated
          (if length hits =? 0 then emptyFindNote query target exact else "")).

(** ** [describe_symbol] *)

Definition symbolDefinitions (symbolID : Z) : list SymbolDefinition :=
  (λ d, MkSymbolDefinition (enrich (at_ (d_file d) (d_line d) 0) true) (d_decl_file d) (d_decl_line d)
          (d_is_weak d) (d_linkage_name d)) <$>
  order_by (λ d, [inl (d_file d); inr (d_line d)]) (List.filter (λ d, d_symbol_id d =? symbolID)%Z (ti_defs ix)).

(** The rows of a view joined with the names of its targets. *)
Definition with_target (lr : link_resolution_row) : list (string * link_resolution_row) :=
  (λ t, (t_name t, lr)) <$> List.filter (λ t, t_id t =? lr_target lr)%Z (ix_targets gx).

Definition symbolTargets (usr : string) (symbolID : Z) : list string * list LinkResolution :=
  let reachable : gset string := list_to_set
    (List.filter (λ s, s_id s =? symbolID)%Z symbols ≫= λ s,
       List.filter (λ lr, String.eqb (lr_usr lr) (s_usr s)) (ix_resolutions gx) ≫= λ lr, (with_target lr).*1) in
  (sort_strings (elements reachable),
   (λ tlr, MkLinkResolution tlr.1 (lr_winning_object tlr.2) (lr_linkage_kind tlr.2) (lr_losing_objects tlr.2)
             (lr_archive tlr.2) (bool_decide (tlr.1 ∈ reachable))) <$>
   sort_by fst (List.filter (λ lr, String.eqb (lr_usr lr) usr) (ix_resolutions gx) ≫= with_target)).

Definition handleDescribeSymbol (usr : string) : result query_error DescribeSymbolResponse :=
  match List.find (λ s, String.eqb (s_usr s) usr) symbols with
  | None => Err (ErrNoSymbol usr)
  | Some s =>
    let '(targets, resolutions) := symbolTargets usr (s_id s) in
    Ok (MkDescribeSymbolResponse (ref_of s) (s_linkage s) (s_address_taken s) (s_linkage_names s)
          (symbolDefinitions (s_id s)) targets resolutions)
  end.

(** ** Indirect calls *)

Definition site_of (snippets : bool) (i : indirect_site_row) (s : symbol_row) : IndirectCallSite :=
  MkIndirectCallSite (is_id i) (ref_of s) (enrich (at_ (is_file i) (is_line i) (is_column i)) snippets)
    (is_callee_type i) (is_field_hint i).

(** A site with the symbol that makes the call; none for a dangling id. *)
Definition callers_of (i : indirect_site_row) : list symbol_row :=
  List.filter (λ s, s_id s =? is_caller i)%Z symbols.

Definition handleListIndirectCallSites (caller_usr callee_type target : string) (limit : option Z) (snippets : bool) :
    list IndirectCallSite * nat * bool :=
  let rows := order_by (λ x, [inl (is_file x.1); inr (is_line x.1); inr (is_column x.1)])
    (ti_indirect ix ≫= λ i,
       (i,.) <$> List.filter (λ s, given caller_usr (s_usr s) && given callee_type (is_callee_type i) &&
                                  in_target gx target s) (callers_of i)) in
  let '(out, truncated) := cut (rowLimit limit indirectSitesLimit) ((λ x, site_of snippets x.1 x.2) <$> rows) in
  (out, length out, truncated).

Definition address_taken (signature : string) (s : symbol_row) : bool :=
  String.eqb (s_kind s) "function" && s_address_taken s && given signature (s_signature s).

Definition handleListAddressTakenFunctions (fn_ptr_type target : string) : list (SymbolRef * list string) :=
  let refs := ref_of <$> sort_by s_name (List.filter (λ s, address_taken fn_ptr_type s && in_target gx target s) symbols) in
  let byUSR := targetsByReachability gx (usrsOf refs) in
  (λ r, (r, default [] (byUSR !! USR r))) <$> refs.

(** The closure [upsert]: where each USR is among the candidates. *)
Definition upsert (evidence confidence : string) (st : gmap string nat * list ResolveCandidate) (sym : SymbolRef) :
    gmap string nat * list ResolveCandidate :=
  match st.1 !! USR sym with
  | Some i =>
    (st.1, alter (λ c, if (evidenceRank (rc_Evidence c) <? evidenceRank evidence)%Z
                       then MkResolveCandidate (rc_Symbol c) evidence confidence else c) i st.2)
  | None => (<[USR sym := length st.2]> st.1, st.2 ++ [MkResolveCandidate sym evidence confidence])
  end.

Inductive site_error := ErrUnknownSite (id : Z).

Definition handleResolveIndirectCall (site_id : Z) : result site_error ResolveIndirectCallResponse :=
  match head (List.filter (λ i, is_id i =? site_id)%Z (ti_indirect ix) ≫= λ i, (i,.) <$> callers_of i) with
  | None => Err (ErrUnknownSite site_id)
  | Some (i, s) =>
    let callee_type := is_callee_type i in
    let evidence := if String.eqb callee_type "" then "address_taken" else "type_match" in
    let pool := ref_of <$> List.filter (address_taken callee_type) symbols in
    let candidates := (foldl (upsert evidence "candidate") (∅, []) pool).2 in
    Ok (MkResolveIndirectCallResponse (site_of true i s) candidates (length candidates))
  end.

(** ** Types *)

Definition type_hit (t : type_row) : TypeHit :=
  MkTypeHit (ty_usr t) (ty_name t) (ty_kind t) (at_ (ty_decl_file t) (ty_decl_line t) 0) (ty_underlying t)
    (default 0%Z (ty_size t)) None "".

Definition queryTypes (query : string) (exact : bool) (kind : string) (limit : nat) : result fts_error (list TypeHit) :=
  let fts := if exact then "" else buildFTSQuery query in
  if negb exact && String.eqb fts "" then Ok []
  else
    matches ← (if exact then Ok (λ t, String.eqb (ty_name t) query)
               else match types_match fts with Some m => Ok m | None => Err (ErrFindTypeQuery fts) end);
    Ok (take limit (type_hit <$> order_by (λ t, [inl (ty_name t); inl (ty_usr t)])
         (List.filter (λ t, matches t && given kind (ty_kind t)) (ti_types ix)))).

(** The enumeration of a constant: NULLs where the join finds none. *)
Definition constant_hit (c : enum_constant_row) : TypeHit :=
  let t := List.find (λ t, ty_id t =? ec_type c)%Z (ti_types ix) in
  MkTypeHit (ec_usr c) (ec_name c) "enum_constant"
    (at_ (default "" (ty_decl_file <$> t)) (default 0%Z (ty_decl_line <$> t)) 0) "" 0 (Some (ec_value c))
    (default "" (ty_name <$> t)).

Definition queryEnumConstants (query : string) (exact : bool) (limit : nat) : list TypeHit :=
  take limit (constant_hit <$> sort_by ec_name
    (List.filter (λ c, if exact then String.eqb (ec_name c) query
                       else like (schars ("%" +:+ escapeLike query +:+ "%")) (schars (ec_name c)))
       (ti_constants ix))).

Definition enrich_hit (h : TypeHit) : TypeHit :=
  MkTypeHit (th_USR h) (th_Name h) (th_Kind h) (enrich (th_Location h) false) (th_Underlying h) (th_ByteSize h)
    (th_Value h) (th_EnumName h).

Definition emptyFindTypeNote (query : string) (exact : bool) : string :=
  (if exact then "No type or enum constant is named " +:+ quote query +:+ ". " else "No type or enum constant matched. ") +:+
  usedTypesCaveat +:+ (if exact then "" else again).

Definition handleFindType (query : string) (exact : bool) (kind : string) (limit : option Z) :
    result fts_error FindTypeResponse :=
  let limit := rowLimit limit findTypeLimit in
  types ← (if String.eqb kind "" || negb (String.eqb kind "enum_constant")
           then queryTypes query exact kind (limit + 1) else Ok []);
  let hits := types ++
    (if String.eqb kind "" || String.eqb kind "enum_constant"
     then queryEnumConstants query exact (limit + 1) else []) in
  let truncated := limit <? length hits in
  let hits := enrich_hit <$> (if truncated then take limit hits else hits) in
  Ok (MkFindTypeResponse hits (length hits) truncated (if length hits =? 0 then emptyFindTypeNote query exact else "")).

Inductive type_error := ErrNoType (usr : string).

Definition handleDescribeType (usr : string) : result type_error DescribeTypeResponse :=
  match List.find (λ t, String.eqb (ty_usr t) usr) (ti_types ix) with
  | None => Err (ErrNoType usr)
  | Some t =>
    Ok (MkDescribeTypeResponse (ty_name t) (ty_kind t) (enrich (at_ (ty_decl_file t) (ty_decl_line t) 0) false)
          (default 0%Z (ty_size t)) (ty_underlying t)
          ((λ f, (tf_name f, tf_type_text f, tf_offset f)) <$>
             order_by (λ f, [inr (tf_ordinal f)]) (List.filter (λ f, tf_type f =? ty_id t)%Z (ti_fields ix)))
          ((λ c, (ec_usr c, ec_name c, ec_value c)) <$>
             order_by (λ c, [inr (ec_value c); inl (ec_name c)])
               (List.filter (λ c, ec_type c =? ty_id t)%Z (ti_constants ix))))
  end.
End server.

(** ** Lemmas *)

Lemma given_true arg value : given arg value = true ↔ arg = "" ∨ value = arg.
Proof. unfold given. by rewrite orb_true_iff, !String.eqb_eq. Qed.

(** *** Query text *)

Definition fts_token (t : string) : Prop := t ≠ "" ∧ all_chars is_alnum t = true.

(** What the tokens of a query are: its runs of letters and digits. *)
Record fts_tokens (q : string) (toks : list string) : Prop := {
  ft_alnum : Forall fts_token toks;
  ft_text : mjoin (schars <$> toks) = List.filter is_alnum (schars q);
}.

Lemma fts_flush_tokens (toks : list string) (cur : string) cs :
  Forall fts_token toks → all_chars is_alnum cur = true → mjoin (schars <$> toks) ++ schars cur = cs →
  ∃ toks', fts_flush ((λ t, t +:+ "*") <$> toks, cur) = (λ t, t +:+ "*") <$> toks' ∧
    Forall fts_token toks' ∧ mjoin (schars <$> toks') = cs.
Proof.
  intros Ht Hc <-. unfold fts_flush. cbn. destruct (String.eqb_spec cur "") as [->|Hne].
  - exists toks. by rewrite app_nil_r.
  - exists (toks ++ [cur]). rewrite !fmap_app, join_app. cbn. rewrite app_nil_r.
    split; [done|]. split; [|done]. apply Forall_app. split; [done|]. by constructor.
Qed.

Lemma fts_steps q : ∃ toks cur,
  foldl fts_step ([], "") (schars q) = ((λ t, t +:+ "*") <$> toks, cur) ∧ Forall fts_token toks ∧
  all_chars is_alnum cur = true ∧ mjoin (schars <$> toks) ++ schars cur = List.filter is_alnum (schars q).
Proof.
  generalize (schars q). intros cs. induction cs as [|a cs IH] using rev_ind; [by exists [], ""|].
  destruct IH as (toks & cur & Hf & Ht & Hc & Htext). rewrite foldl_app, Hf. cbn [foldl]. unfold fts_step. cbn [fst snd].
  rewrite List.filter_app, <-Htext. cbn [List.filter]. destruct (is_alnum a) eqn:Ea.
  - exists toks, (cur +:+ str1 a). split; [done|]. split; [done|].
    rewrite all_chars_app, Hc, schars_app. cbn. rewrite Ea. split; [done|]. by rewrite app_assoc.
  - destruct (fts_flush_tokens toks cur _ Ht Hc eq_refl) as (toks' & -> & Ht' & Htext').
    exists toks', "". split; [done|]. split; [done|]. split; [done|]. by rewrite Htext', !app_nil_r.
Qed.

Lemma like_any p s : like ("%"%char :: p) s = true ↔ ∃ a b, s = a ++ b ∧ like p b = true.
Proof.
  change (like ("%"%char :: p) s) with ((fix any (s : list ascii) : bool :=
    like p s || match s with [] => false | _ :: s => any s end) s).
  induction s as [|c s IH]; rewrite orb_true_iff.
  - split; [intros [H|H]; [by exists [], []|done]|]. intros (a & b & Hab & Hb). left.
    symmetry in Hab. apply app_eq_nil in Hab as [-> ->]. done.
  - rewrite IH. split.
    + intros [H|(a & b & -> & Hb)]; [by exists [], (c :: s)|by exists (c :: a), b].
    + intros ([|x a] & b & Hab & Hb); simpl in Hab; [left; by subst|]. injection Hab as <- ->. right. by exists a, b.
Qed.

Lemma like_escaped q p s :
  like (schars (escapeLike q) ++ p) s = true ↔
  ∃ a b, s = a ++ b ∧ lower <$> a = lower <$> schars q ∧ like p b = true.
Proof.
  revert s. induction q as [|x q IH]; intros s; cbn [escapeLike schars].
  - cbn [app]. split; [intros H; by exists [], s|]. intros (a & b & -> & Ha & Hb). by destruct a.
  - rewrite schars_app, <-app_assoc.
    assert (like (schars (escape_char x) ++ (schars (escapeLike q) ++ p)) s = true ↔
      ∃ c s', s = c :: s' ∧ lower c = lower x ∧ like (schars (escapeLike q) ++ p) s' = true) as ->.
    { generalize (schars (escapeLike q) ++ p). intros p'. unfold escape_char.
      destruct (Ascii.eqb x "\" || Ascii.eqb x "%" || Ascii.eqb x "_") eqn:E.
      - cbn. destruct s as [|c s]; [split; [done|]; by intros (? & ? & ? & _)|].
        rewrite andb_true_iff, Ascii.eqb_eq. split; [intros [H1 H2]; by exists c, s|].
        intros (c' & s' & [= <- <-] & H1 & H2). by rewrite H1.
      - apply orb_false_iff in E as [E E3]. apply orb_false_iff in E as [E1 E2].
        cbn. rewrite E1, E2. destruct s as [|c s]; [split; [done|]; by intros (? & ? & ? & _)|].
        rewrite E3. cbn [orb]. rewrite andb_true_iff, Ascii.eqb_eq. split; [intros [H1 H2]; by exists c, s|].
        intros (c' & s' & [= <- <-] & H1 & H2). by rewrite H1. }
    split.
    + intros (c & s' & -> & Hc & (a & b & -> & Ha & Hb)%IH). exists (c :: a), b. split; [done|]. split; [|done].
      cbn. by rewrite Hc, Ha.
    + intros ([|c a] & b & -> & Ha & Hb); [done|]. cbn in Ha. injection Ha as Hc Ha.
      exists c, (a ++ b). split; [done|]. split; [done|]. apply IH. by exists a, b.
Qed.

(** *** Candidates *)

Lemma upsert_fresh evidence confidence l m cs :
  NoDup (USR <$> l) → (∀ r, r ∈ l → m !! USR r = None) →
  (foldl (upsert evidence confidence) (m, cs) l).2 = cs ++ ((λ r, MkResolveCandidate r evidence confidence) <$> l).
Proof.
  revert m cs. induction l as [|r l IH]; intros m cs Hnd Hm; cbn; [by rewrite app_nil_r|].
  inversion Hnd as [|? ? Hr Hnd']; subst. unfold upsert at 2. cbn [fst snd]. rewrite Hm by left.
  rewrite IH; [by rewrite <-app_assoc|done|]. intros r' Hr'. rewrite lookup_insert_ne; [apply Hm; by right|].
  intros Heq. apply Hr. rewrite Heq. by apply list_elem_of_fmap_2.
Qed.

Lemma NoDup_fmap_filter {A B} (f : A → B) (p : A → bool) l : NoDup (f <$> l) → NoDup (f <$> List.filter p l).
Proof.
  induction l as [|x l IH]; [done|]. cbn. intros [Hx Hl]%NoDup_cons. destruct (p x); [|by apply IH].
  cbn. apply NoDup_cons. split; [|by apply IH]. intros Hin. apply Hx.
  apply list_elem_of_fmap in Hin as (y & -> & Hy). apply list_elem_of_fmap_2.
  apply list_elem_of_In, List.filter_In in Hy as [Hy _]. by apply list_elem_of_In.
Qed.

Lemma filter_unique {A} (f : A → Z) l x :
  NoDup (f <$> l) → x ∈ l → List.filter (λ y, f y =? f x)%Z l = [x].
Proof.
  induction l as [|y l IH]; [by intros _ ?%elem_of_nil|]. cbn. intros [Hy Hl]%NoDup_cons [->|Hx]%elem_of_cons.
  - rewrite Z.eqb_refl. f_equal. clear IH Hl. induction l as [|z l IHl]; [done|]. cbn in *.
    rewrite (proj2 (Z.eqb_neq (f z) (f y))) by (intros E; apply Hy; rewrite E; left).
    apply IHl. intros Hin. apply Hy. by right.
  - rewrite (proj2 (Z.eqb_neq (f y) (f x))); [by apply IH|]. intros E. apply Hy. rewrite E. by apply list_elem_of_fmap_2.
Qed.

Lemma take_cut {A} n (a b : list A) :
  take n (take (n + 1) a ++ take (n + 1) b) = take n (a ++ b) ∧
  (n <? length (take (n + 1) a ++ take (n + 1) b)) = (n <? length (a ++ b)).
Proof.
  split.
  - destruct (Nat.le_gt_cases (length a) n).
    + rewrite (take_ge a) by lia. rewrite !take_app, take_take. do 2 f_equal. lia.
    + rewrite !take_app_le by (rewrite ?length_take; lia). rewrite take_take. f_equal. lia.
  - rewrite !length_app, !length_take. destruct (Nat.ltb_spec n (length a + length b)).
    + apply Nat.ltb_lt. lia.
    + apply Nat.ltb_ge. lia.
Qed.

(** ** Properties *)

Section properties.
Context (unzstd : string → option string) (ix : tool_index) (ProjectRoot : string).
Let symbols := ix_symbols (ti_graph ix).

(** The full-text expression is the query's runs of letters and digits, each made a
    prefix, in order: no quote, punctuation or column filter of the query language
    comes through, and nothing of the names is lost.  A run that spells one of the
    language's operators ([OR]) does come through. *)
Theorem buildFTSQuery_tokens q :
  ∃ toks, buildFTSQuery q = Join ((λ t, t +:+ "*") <$> toks) " " ∧ fts_tokens q toks.
Proof.
  unfold buildFTSQuery. destruct (fts_steps q) as (toks & cur & -> & Ht & Hc & Htext).
  destruct (fts_flush_tokens toks cur _ Ht Hc Htext) as (toks' & -> & Ht' & Htext'). by exists toks'.
Qed.

(** The pattern of an inexact lookup of constants matches exactly the names that
    contain the query, without regard to case: no wildcard of the query's own text
    counts as one. *)
Theorem escapeLike_literal q s :
  like (schars ("%" +:+ escapeLike q +:+ "%")) (schars s) = true ↔
  ∃ a b, ToLower s = a +:+ ToLower q +:+ b.
Proof.
  rewrite !schars_app. cbn [schars app]. rewrite like_any. setoid_rewrite like_escaped. split.
  - intros (a & ? & Hs & a' & b' & -> & Ha & _). exists (of_chars (lower <$> a)), (of_chars (lower <$> b')).
    unfold ToLower. apply schars_inj. rewrite !schars_app, !schars_of_chars, Hs, !fmap_app, Ha. done.
  - intros (a & b & Hs). unfold ToLower in Hs. apply (f_equal schars) in Hs.
    rewrite !schars_app, !schars_of_chars in Hs. apply fmap_app_inv in Hs as (x & y & _ & Hy & ->).
    symmetry in Hy. apply fmap_app_inv in Hy as (y1 & y2 & Hy1 & _ & ->). exists x, (y1 ++ y2). split; [done|].
    exists y1, y2. split; [done|]. split; [done|]. apply like_any. exists y2, []. by rewrite app_nil_r.
Qed.

(** The symbols a lookup asks for. *)
Record wanted_symbol (symbols_match : string → option (symbol_row → bool)) (query kind target : string) (exact : bool)
    (s : symbol_row) : Prop := {
  ws_symbol : s ∈ symbols;
  ws_query : if exact then s_name s = query ∨ query ∈ s_linkage_names s
             else buildFTSQuery query ≠ "" ∧ ∃ m, symbols_match (buildFTSQuery query) = Some m ∧ m s = true;
  ws_kind : kind = "" ∨ s_kind s = kind;
  ws_target : target = "" ∨ reachable_in (ti_graph ix) s target = true;
}.

(** The full-text search refuses what a lookup asks of it. *)
Definition refused {A} (match_ : string → option A) (query : string) (exact : bool) : Prop :=
  exact = false ∧ buildFTSQuery query ≠ "" ∧ match_ (buildFTSQuery query) = None.

Definition symbol_hit (s : symbol_row) : SymbolHit :=
  MkSymbolHit (s_usr s) (s_name s) (s_kind s) (s_linkage s) (s_signature s) (reachable_targets (ti_graph ix) (s_usr s)).

Lemma attachTargets_spec l : attachTargets ix (hit_of <$> l) = symbol_hit <$> l.
Proof.
  assert (∀ hits, attachTargets ix hits = (λ h, MkSymbolHit (sh_USR h) (sh_Name h) (sh_Kind h) (sh_Linkage h) (sh_Signature h)
      (reachable_targets (ti_graph ix) (sh_USR h))) <$> hits) as Hall.
  { intros hits. unfold attachTargets. transitivity ((λ h, MkSymbolHit (sh_USR h) (sh_Name h) (sh_Kind h) (sh_Linkage h) (sh_Signature h)
      (default [] (foldl append_target ∅ (reachability_rows (ti_graph ix) (sh_USR <$> hits)) !! sh_USR h))) <$> hits); [by destruct hits|].
    apply list_fmap_ext. intros i h Hh. rewrite reachability_map; [done|]. by eapply list_elem_of_fmap_2, list_elem_of_lookup_2. }
  by rewrite Hall, <-list_fmap_compose.
Qed.

(** The functions listed and their targets, each looked up on its own. *)
Lemma handleListAddressTakenFunctions_spec fn_ptr_type target :
  handleListAddressTakenFunctions ix fn_ptr_type target =
  (λ s, (ref_of s, reachable_targets (ti_graph ix) (s_usr s))) <$>
    sort_by s_name (List.filter (λ s, address_taken fn_ptr_type s && in_target (ti_graph ix) target s) symbols).
Proof.
  unfold handleListAddressTakenFunctions. rewrite <-list_fmap_compose. apply list_fmap_ext. intros i s Hs. cbn.
  rewrite targetsByReachability_one; [done|]. unfold usrsOf. rewrite <-list_fmap_compose.
  change (s_usr s) with ((CallGraph.USR ∘ ref_of) s). by eapply list_elem_of_fmap_2, list_elem_of_lookup_2.
Qed.

Lemma emptyFindNote_some quote query target exact : emptyFindNote quote query target exact ≠ "".
Proof. unfold emptyFindNote. by destruct exact. Qed.

Lemma given_iff arg value : given arg value = true ↔ arg = "" ∨ value = arg.
Proof. unfold given. by rewrite orb_true_iff, !String.eqb_eq. Qed.

Lemma wanted_symbol_iff symbols_match query kind target (exact : bool) (matches : symbol_row → bool) s :
  (if exact then matches = named_exactly query
   else buildFTSQuery query ≠ "" ∧ symbols_match (buildFTSQuery query) = Some matches) →
  s ∈ symbols ∧ (matches s = true ∧ given kind (s_kind s) = true) ∧ in_target (ti_graph ix) target s = true ↔
  wanted_symbol symbols_match query kind target exact s.
Proof.
  intros Hq. unfold in_target. rewrite given_iff, orb_true_iff, String.eqb_eq. split.
  - intros (Hs & [Hm Hk] & Ht). split; [done| |done|done]. destruct exact.
    + subst matches. unfold named_exactly in Hm. by rewrite orb_true_iff, String.eqb_eq, bool_decide_eq_true in Hm.
    + destruct Hq as [Hq Hf]. eauto.
  - intros [Hs Hm Hk Ht]. repeat split; try done. destruct exact.
    + subst matches. unfold named_exactly. by rewrite orb_true_iff, String.eqb_eq, bool_decide_eq_true.
    + destruct Hq as [_ Hq], Hm as (_ & m & Hf & Hm). rewrite Hq in Hf. by injection Hf as <-.
Qed.

(** C37: A symbol lookup fails exactly when the full-text search refuses the expression
    that is built of the query; otherwise it answers in the order of the names with
    symbols that it was asked for only, with all of them unless it says truncated, and
    then with a full hundred; exactly an empty answer carries a note. *)
Theorem find_symbol_exact symbols_match quote query kind target exact :
  match handleFindSymbol ix symbols_match quote query kind target exact with
  | Err e => e = ErrFindSymbolQuery (buildFTSQuery query) ∧ refused symbols_match query exact
  | Ok r =>
    ¬ refused symbols_match query exact ∧
    ∃ l, fs_Hits r = symbol_hit <$> l ∧ StronglySorted String.le (s_name <$> l) ∧
      (∀ s, s ∈ l → wanted_symbol symbols_match query kind target exact s) ∧
      (fs_Truncated r = false → ∀ s, wanted_symbol symbols_match query kind target exact s → s ∈ l) ∧
      (fs_Truncated r = true → length l = findSymbolLimit) ∧ length l ≤ findSymbolLimit ∧
      (fs_Note r ≠ "" ↔ l = [])
  end.
Proof.
  unfold handleFindSymbol. destruct (negb exact && _) eqn:Et.
  - apply andb_prop in Et as [->%negb_true_iff Et%String.eqb_eq]. split; [by intros (_ & ? & _)|]. exists []. cbn.
    split_and!; try done; try (by constructor); try (cbn; lia).
    + by intros s Hs%elem_of_nil.
    + intros _ s [_ [H _] _ _]. by rewrite Et in H.
  - assert (exact = false → buildFTSQuery query ≠ "") as Hne.
    { intros ->. by apply andb_false_iff in Et as [|?%String.eqb_neq]. }
    destruct (if exact then Ok _ else _) as [matches|e] eqn:Em; cbn [mbind result_bind].
    2: { destruct exact; [done|]. destruct (symbols_match _) eqn:Ef; [done|]. injection Em as <-. split; [done|].
         split; [done|]. split; [by apply Hne|done]. }
    assert (if exact then matches = named_exactly query
            else buildFTSQuery query ≠ "" ∧ symbols_match (buildFTSQuery query) = Some matches) as Hm.
    { destruct exact; [by injection Em|]. destruct (symbols_match _); [|done]. injection Em as <-. auto. }
    split. { intros (-> & _ & H). destruct Hm as [_ Hm]. by rewrite Hm in H. }
    set (rows := List.filter _ _). pose proof (cut_spec findSymbolLimit (hit_of <$> sort_by s_name rows)) as Hcut.
    unfold cut in Hcut. pose proof (f_equal fst Hcut) as Hfst. pose proof (f_equal snd Hcut) as Hsnd. cbn [fst snd] in Hfst, Hsnd.
    rewrite Hfst, Hsnd. cbn [fs_Hits fs_Truncated fs_Note].
    rewrite <-fmap_take, attachTargets_spec, !length_fmap, length_take.
    set (all := sort_by s_name rows). exists (take findSymbolLimit all).
    assert (∀ s, s ∈ all ↔ wanted_symbol symbols_match query kind target exact s) as Hw.
    { intros x. subst all rows. rewrite sort_by_perm, list_elem_of_In, filter_In, <-list_elem_of_In, !andb_true_iff.
      by apply wanted_symbol_iff. }
    split_and!.
    + done.
    + rewrite fmap_take. apply StronglySorted_take. subst all. rewrite sort_by_keys. apply sort_strings_sorted.
    + intros x (i & Hx & _)%elem_of_take. by apply Hw, (list_elem_of_lookup_2 _ i).
    + intros Ht x Hx%Hw. by rewrite take_ge by (apply Nat.ltb_ge in Ht; lia).
    + intros Ht%Nat.ltb_lt. rewrite length_take. lia.
    + rewrite length_take. lia.
    + destruct all; cbn; [|done]. split; [done|]. intros _. apply emptyFindNote_some.
Qed.

(** The hits of a lookup before any limit: the types, then the constants. *)
Definition matching_types (types_match : string → option (type_row → bool)) (query : string) (exact : bool) (kind : string) :
    list TypeHit :=
  type_hit <$> order_by (λ t, [inl (ty_name t); inl (ty_usr t)])
    (List.filter (λ t, (if exact then String.eqb (ty_name t) query
                        else negb (String.eqb (buildFTSQuery query) "") &&
                             match types_match (buildFTSQuery query) with Some m => m t | None => false end) &&
                       given kind (ty_kind t)) (ti_types ix)).
Definition matching_constants (query : string) (exact : bool) : list TypeHit :=
  constant_hit ix <$> sort_by ec_name
    (List.filter (λ c, if exact then String.eqb (ec_name c) query
                       else like (schars ("%" +:+ escapeLike query +:+ "%")) (schars (ec_name c))) (ti_constants ix)).
Definition matching_hits (types_match : string → option (type_row → bool)) (query : string) (exact : bool) (kind : string) :
    list TypeHit :=
  (if String.eqb kind "enum_constant" then [] else matching_types types_match query exact kind) ++
  (if String.eqb kind "" || String.eqb kind "enum_constant" then matching_constants query exact else []).

Lemma queryTypes_spec types_match query exact kind k :
  match queryTypes ix types_match query exact kind k with
  | Ok l => ¬ refused types_match query exact ∧ l = take k (matching_types types_match query exact kind)
  | Err _ => refused types_match query exact
  end.
Proof.
  unfold queryTypes, matching_types, refused. destruct exact; cbn [negb andb].
  - cbn [mbind result_bind]. split; [by intros [? _]|done].
  - destruct (String.eqb_spec (buildFTSQuery query) "") as [E|Hne]; cbn [negb andb].
    + split; [by intros (_ & ? & _)|].
      assert (List.filter (λ _ : type_row, false) (ti_types ix) = []) as -> by (by induction (ti_types ix)). by destruct k.
    + destruct (types_match _); cbn [mbind result_bind]; [|done]. split; [by intros (_ & _ & ?)|done].
Qed.

(** A type lookup fails when it asks the full-text search and that refuses; otherwise it
    answers with the first hits of all there are — the types, then the constants, of the
    kind asked for — and says truncated exactly when there are more, although each plane
    is queried with a limit of its own; an empty answer says what that does not mean. *)
Theorem find_type_exact types_match quote query exact kind limit :
  let n := rowLimit limit findTypeLimit in
  let all := matching_hits types_match query exact kind in
  match handleFindType unzstd ix ProjectRoot types_match quote query exact kind limit with
  | Err _ => kind ≠ "enum_constant" ∧ refused types_match query exact
  | Ok r => (kind ≠ "enum_constant" → ¬ refused types_match query exact) ∧
    r = MkFindTypeResponse (enrich_hit unzstd ix ProjectRoot <$> take n all) (min n (length all)) (n <? length all)
          (if min n (length all) =? 0 then emptyFindTypeNote quote query exact else "")
  end.
Proof.
  intros n all. unfold handleFindType. fold n. change (queryEnumConstants ix query exact (n + 1)) with (take (n + 1) (matching_constants query exact)).
  pose proof (queryTypes_spec types_match query exact kind (n + 1)) as Hq. set (C := if String.eqb kind "" || String.eqb kind "enum_constant" then take (n + 1) _ else []).
  assert (∀ T, T = (if String.eqb kind "" || negb (String.eqb kind "enum_constant") then take (n + 1) (matching_types types_match query exact kind) else []) →
    take n (T ++ C) = take n all ∧ (n <? length (T ++ C)) = (n <? length all)) as Hcut.
  { intros T ->. subst C all. unfold matching_hits. destruct (String.eqb_spec kind "") as [->|Hk]; [apply take_cut|].
    destruct (String.eqb kind "enum_constant"); cbn [orb negb].
    - pose proof (take_cut n [] (matching_constants query exact)) as H. by rewrite take_nil in H.
    - pose proof (take_cut n (matching_types types_match query exact kind) []) as H. by rewrite take_nil in H. }
  assert ((String.eqb kind "" || negb (String.eqb kind "enum_constant")) = negb (String.eqb kind "enum_constant")) as Hk
    by (destruct (String.eqb_spec kind "") as [->|]; done).
  rewrite Hk in *.
  assert (∀ T, T = (if negb (String.eqb kind "enum_constant") then take (n + 1) (matching_types types_match query exact kind) else []) →
    MkFindTypeResponse (enrich_hit unzstd ix ProjectRoot <$> (if n <? length (T ++ C) then take n (T ++ C) else T ++ C))
      (length (enrich_hit unzstd ix ProjectRoot <$> (if n <? length (T ++ C) then take n (T ++ C) else T ++ C)))
      (n <? length (T ++ C))
      (if length (enrich_hit unzstd ix ProjectRoot <$> (if n <? length (T ++ C) then take n (T ++ C) else T ++ C)) =? 0
       then emptyFindTypeNote quote query exact else "") =
    MkFindTypeResponse (enrich_hit unzstd ix ProjectRoot <$> take n all) (min n (length all)) (n <? length all)
      (if min n (length all) =? 0 then emptyFindTypeNote quote query exact else "")) as Hresp.
  { intros T HT. destruct (Hcut T HT) as [Ht Hl]. rewrite Hl.
    assert ((if n <? length all then take n (T ++ C) else T ++ C) = take n all) as ->.
    { destruct (n <? length all) eqn:E; [done|]. rewrite <-Ht. symmetry. apply take_ge. apply Nat.ltb_ge. congruence. }
    by rewrite length_fmap, length_take. }
  destruct (String.eqb_spec kind "enum_constant") as [->|Hne]; cbn [negb mbind result_bind] in *.
  - split; [done|]. by apply Hresp.
  - destruct (queryTypes _ _ _ _ _ _) as [T|e]; [|done]. destruct Hq as [Hr HT]. cbn [mbind result_bind]. split; [done|]. by apply Hresp.
Qed.

(** A site's answer and its candidates; without one nobody makes the call. *)
Lemma resolve_indirect_cases site_id :
  Keyed (ti_graph ix) →
  match handleResolveIndirectCall unzstd ix ProjectRoot site_id with
  | Ok r => ∃ i s, i ∈ ti_indirect ix ∧ is_id i = site_id ∧ s ∈ symbols ∧ s_id s = is_caller i ∧
      ri_Site r = site_of unzstd ix ProjectRoot true i s ∧
      ri_Candidates r = (λ s, MkResolveCandidate (ref_of s)
          (if String.eqb (is_callee_type i) "" then "address_taken" else "type_match") "candidate") <$>
        List.filter (address_taken (is_callee_type i)) symbols
  | Err _ => ∀ i s, i ∈ ti_indirect ix → s ∈ symbols → is_id i = site_id → s_id s ≠ is_caller i
  end.
Proof.
  intros [_ Hnd _ _]. unfold handleResolveIndirectCall. fold symbols. set (found := _ ≫= _).
  assert (∀ i s, (i, s) ∈ found ↔ (i ∈ ti_indirect ix ∧ is_id i = site_id) ∧ s ∈ symbols ∧ s_id s = is_caller i) as Hf.
  { intros i s. subst found. rewrite list_elem_of_bind. setoid_rewrite list_elem_of_fmap. unfold callers_of. fold symbols.
    setoid_rewrite list_elem_of_In. setoid_rewrite List.filter_In. setoid_rewrite Z.eqb_eq. naive_solver. }
  destruct (head found) as [[i s]|] eqn:E.
  - assert ((i, s) ∈ found) as H%Hf by (destruct found; [done|]; injection E as ->; left).
    exists i, s. cbn. split; [tauto|]. split; [tauto|]. split; [tauto|]. split; [tauto|]. split; [done|].
    rewrite upsert_fresh; [cbn; by rewrite <-list_fmap_compose| |intros; apply lookup_empty].
    rewrite <-list_fmap_compose. by apply (NoDup_fmap_filter s_usr).
  - assert (found = []) as He by by destruct found. intros i s Hi Hs Hid Hc.
    assert ((i, s) ∈ found) as Hin by (apply Hf; tauto). rewrite He in Hin. by apply elem_of_nil in Hin.
Qed.

(** The candidates of an indirect call are exactly the functions whose address is
    taken and, when the call's type is known, whose signature is that type, each
    once; the site is unknown exactly when no row has its id and a caller. *)
Theorem resolve_indirect_exact site_id :
  Keyed (ti_graph ix) →
  match handleResolveIndirectCall unzstd ix ProjectRoot site_id with
  | Ok r => ∃ i s, i ∈ ti_indirect ix ∧ is_id i = site_id ∧ s ∈ symbols ∧ s_id s = is_caller i ∧
      ri_Site r = site_of unzstd ix ProjectRoot true i s ∧
      ri_Candidates r = (λ s, MkResolveCandidate (ref_of s)
          (if String.eqb (is_callee_type i) "" then "address_taken" else "type_match") "candidate") <$>
        List.filter (address_taken (is_callee_type i)) symbols
  | Err _ => ∀ i s, i ∈ ti_indirect ix → s ∈ symbols → is_id i = site_id → s_id s ≠ is_caller i
  end.
Proof. apply resolve_indirect_cases. Qed.

(** A symbol is described as reachable in every target that has a resolution of it,
    and the targets listed are those of the resolutions, each once, sorted. *)
Theorem describe_symbol_targets usr r :
  Keyed (ti_graph ix) → handleDescribeSymbol unzstd ix ProjectRoot usr = Ok r →
  Forall (λ lr, res_Reachable lr = true) (ds_LinkResolutions r) ∧
  ds_Targets r = sort_strings (remove_dups (res_Target <$> ds_LinkResolutions r)).
Proof.
  intros [Hnd _ _ _]. unfold handleDescribeSymbol. fold symbols. destruct (List.find _ symbols) as [s|] eqn:Ef; [|done].
  apply List.find_some in Ef as [Hs Hu%String.eqb_eq]. apply list_elem_of_In in Hs.
  destruct (symbolTargets ix usr (s_id s)) as [ts lrs] eqn:E. intros [= <-]. cbn.
  unfold symbolTargets in E. fold symbols in E. rewrite filter_unique in E by done.
  cbn [mbind list_bind] in E. rewrite app_nil_r, Hu in E.
  set (rows := _ ≫= with_target ix) in E.
  assert ((List.filter (λ lr, String.eqb (lr_usr lr) usr) (ix_resolutions (ti_graph ix)) ≫=
    λ lr, (with_target ix lr).*1) = rows.*1) as Hr.
  { subst rows. generalize (List.filter (λ lr, String.eqb (lr_usr lr) usr) (ix_resolutions (ti_graph ix))).
    intros l. induction l as [|lr l IH]; [done|]. cbn. by rewrite fmap_app, IH. }
  rewrite Hr in E. injection E as <- <-. split.
  - apply Forall_fmap, List.Forall_forall. intros tlr Hin%list_elem_of_In. cbn. apply bool_decide_eq_true.
    apply elem_of_list_to_set. rewrite (sort_by_perm fst) in Hin. by apply list_elem_of_fmap_2.
  - apply sort_strings_proper, NoDup_Permutation; [apply NoDup_elements|apply NoDup_remove_dups|].
    intros x. rewrite elem_of_elements, elem_of_list_to_set, elem_of_remove_dups, <-list_fmap_compose.
    by rewrite (sort_by_perm fst).
Qed.
End properties.

(** ** Examples

    [main] calls [printf], which nothing defines, and dispatches through a hook;
    [hook] is a weak fallback that is not linked. *)

Definition ex_symbols : list symbol_row :=
  [SymbolRow 1 "c:@F@hook" "hook" "function" "weak" "int (int)" true ["hook"];
   SymbolRow 2 "c:@F@main" "main" "function" "external" "int (void)" false ["main"; "main.cold"];
   SymbolRow 3 "c:@F@printf" "printf" "function" "external" "" false ["printf"]].

Definition ex_tools : tool_index :=
  ToolIndex
    (Index ex_symbols [TargetRow 1 "app" "executable" ""; TargetRow 2 "lib" "static_library" ""]
       [EdgeRow 2 3 "objdump" (Some 1%Z); EdgeRow 2 3 "objdump" (Some 1%Z)]
       [LinkResolutionRow 1 "c:@F@main" "main.o" "strong" [] ""])
    (SourceIndex BlobStore.empty_tables [] [])
    [DefRow 1 "hook.c" 3 "" 0 true "hook"; DefRow 2 "main.c" 7 "" 0 false "main"; DefRow 2 "alt.c" 2 "" 0 false "main"]
    [IndirectSiteRow 1 2 "main.c" 9 0 "int (int)" "g_hook"] [] [] [] [] [].

Definition no_codec (s : string) : option string := Some s.

Example resolve_ex :
  handleResolveIndirectCall no_codec ex_tools "" 1 =
    Ok (MkResolveIndirectCallResponse
          (MkIndirectCallSite 1 (MkSymbolRef "c:@F@main" "main" "function" "int (void)")
             (MkLocation "main.c" 9 0 "" None "") "int (int)" "g_hook")
          [MkResolveCandidate (MkSymbolRef "c:@F@hook" "hook" "function" "int (int)") "type_match" "candidate"] 1).
Proof. vm_compute. reflexivity. Qed.

Lemma ex_keyed : Keyed (ti_graph ex_tools).
Proof. split; by_decide. Qed.

Lemma resolve_indirect_exact_witness :
  Keyed (ti_graph ex_tools) ∧
  match handleResolveIndirectCall no_codec ex_tools "" 1 with
  | Ok r => ∃ i s, i ∈ ti_indirect ex_tools ∧ is_id i = 1%Z ∧ s ∈ ex_symbols ∧ s_id s = is_caller i ∧
      ri_Site r = site_of no_codec ex_tools "" true i s ∧
      ri_Candidates r = (λ s, MkResolveCandidate (ref_of s)
          (if String.eqb (is_callee_type i) "" then "address_taken" else "type_match") "candidate") <$>
        List.filter (address_taken (is_callee_type i)) ex_symbols
  | Err _ => ∀ i s, i ∈ ti_indirect ex_tools → s ∈ ex_symbols → is_id i = 1%Z → s_id s ≠ is_caller i
  end.
Proof.
  split; [exact ex_keyed|]. exact (resolve_indirect_exact no_codec ex_tools "" 1 ex_keyed).
Defined.

Definition ex_description : DescribeSymbolResponse :=
  MkDescribeSymbolResponse (MkSymbolRef "c:@F@main" "main" "function" "int (void)") "external" false ["main"; "main.cold"]
    [MkSymbolDefinition (MkLocation "alt.c" 2 0 "" None "") "" 0 false "main";
     MkSymbolDefinition (MkLocation "main.c" 7 0 "" None "") "" 0 false "main"]
    ["app"] [MkLinkResolution "app" "main.o" "strong" [] "" true].

Lemma describe_symbol_targets_witness :
  Keyed (ti_graph ex_tools) ∧
  handleDescribeSymbol no_codec ex_tools "" "c:@F@main" = Ok ex_description ∧
  Forall (λ lr, res_Reachable lr = true) (ds_LinkResolutions ex_description) ∧
  ds_Targets ex_description = sort_strings (remove_dups (res_Target <$> ds_LinkResolutions ex_description)).
Proof.
  assert (handleDescribeSymbol no_codec ex_tools "" "c:@F@main" = Ok ex_description) as Hd by (vm_compute; reflexivity).
  split; [exact ex_keyed|]. split; [exact Hd|]. exact (describe_symbol_targets no_codec ex_tools "" _ _ ex_keyed Hd).
Defined.
