(* ===== verification/LinkageTools.v ===== *)
(** * The linkage and target tools ([internal/mcp/linkage_tools.go],
    [internal/mcp/target_tools.go])

    What the linker made of the symbols, and the targets, as the handlers answer
    from the tables. *)

From S2P Require Import Prelude GoStrings Paths Store CallGraph SourceTools SymbolTools.
From Stdlib Require Import ZArith Lia.

(** ** Answers *)

Record DescribeLinkResolutionResponse := MkDescribeLinkResolution {
  dl_USR : string;
  dl_Target : string;
  dl_WinningObject : string;
  dl_LinkageKind : string;
  dl_LosingObjects : list string;
  dl_Archive : string;
  dl_Reachable : bool;
}.

Record WeakSymbol := MkWeakSymbol {
  ws_Symbol : SymbolRef;
  ws_Definitions : list Location;
  ws_Resolutions : list LinkResolution;
}.

Record UndefinedSymbol := MkUndefinedSymbol { us_Symbol : SymbolRef; us_CalledCount : nat }.

Record ICFGroup := MkICFGroup { ig_Winner : SymbolRef; ig_Losers : list SymbolRef; ig_ObjectFile : string }.

Record UnreachableSymbol := MkUnreachable { ur_Symbol : SymbolRef; ur_SectionKept : bool }.

Record EntryPoint := MkEntryPoint { ep_Symbol : SymbolRef; ep_Reason : string; ep_Location : Location }.

Record TargetSummary := MkTargetSummary {
  tg_Name : string;
  tg_Kind : string;
  tg_SourceCount : nat;
  tg_LinkedSymbols : nat;
}.

Record DescribeTargetResponse := MkDescribeTarget {
  dtg_Kind : string;
  dtg_LinkCommand : string;
  dtg_Sources : list (string * string);
  dtg_Archives : list string;
  dtg_LinkedSymbols : nat;
  dtg_Reachable : nat;
  dtg_EntryPoints : list EntryPoint;
}.

Inductive link_query_error := ErrTarget (e : query_error) | ErrNoResolution (usr target : string).

Definition linkageRowLimit : Z := 500.

(** One pass that keeps the first of each key, as the loops over rows with a [seen]
    map do; the loop ends once more than [limit] are kept, when there is a limit. *)
Fixpoint keep_first {A} (key : A → string) (limit : option nat) (seen : gset string) (out l : list A) : list A :=
  match l with
  | [] => out
  | x :: l =>
    if match limit with Some n => n <? length out | None => false end then out
    else if bool_decide (key x ∈ seen) then keep_first key limit seen out l
    else keep_first key limit ({[key x]} ∪ seen) (out ++ [x]) l
  end.

Section server.
Context (unzstd : string → option string) (ix : tool_index) (ProjectRoot : string).

Let gx := ti_graph ix.
Let symbols := ix_symbols gx.
Let resolutions := ix_resolutions gx.

Definition target_id (name : string) : result link_query_error Z :=
  match targetIDByName gx name with Ok id => Ok id | Err e => Err (ErrTarget e) end.

(** The rows of [link_resolutions] of one target, and of one symbol in it. *)
Definition of_target (tid : Z) (lr : link_resolution_row) : bool := (lr_target lr =? tid)%Z.
Definition resolved_in (tid : Z) (usr : string) : bool :=
  existsb (λ lr, of_target tid lr && String.eqb (lr_usr lr) usr) resolutions.

Definition handleDescribeLinkResolution (usr target : string) :
    result link_query_error DescribeLinkResolutionResponse :=
  tid ← target_id target;
  match List.find (λ lr, String.eqb (lr_usr lr) usr && of_target tid lr) resolutions with
  | None => Err (ErrNoResolution usr target)
  | Some lr =>
    Ok (MkDescribeLinkResolution usr target (lr_winning_object lr) (lr_linkage_kind lr) (lr_losing_objects lr)
          (lr_archive lr)
          (existsb (λ s, String.eqb (s_usr s) usr) symbols && resolved_in tid usr))
  end.

(** *** [list_weak_symbols] *)

Definition weakly_defined (s : symbol_row) : bool :=
  existsb (λ d, (d_symbol_id d =? s_id s)%Z && d_is_weak d) (ti_defs ix).

(** AND binds tighter than OR: the target narrows the second alternative only. *)
Definition weak_listed (target : string) (s : symbol_row) : bool :=
  weakly_defined s || (String.eqb (s_linkage s) "weak" && in_target gx target s).

Definition weakDefinitions (symbolID : Z) : list Location :=
  (λ d, enrich unzstd ix ProjectRoot (at_ (d_file d) (d_line d) 0) true) <$>
  order_by (λ d, [inl (d_file d); inr (d_line d)])
    (List.filter (λ d, (d_symbol_id d =? symbolID)%Z && d_is_weak d) (ti_defs ix)).

Definition handleListWeakSymbols (target : string) : list WeakSymbol :=
  (λ s, MkWeakSymbol (ref_of s) (weakDefinitions (s_id s)) (symbolTargets ix (s_usr s) (s_id s)).2) <$>
    sort_by s_name (List.filter (weak_listed target) symbols).

(** *** [list_undefined_symbols] *)

Definition defined (s : symbol_row) : bool := existsb (λ d, d_symbol_id d =? s_id s)%Z (ti_defs ix).

Definition calls_into (tid : Z) (s : symbol_row) : list edge_row :=
  List.filter (λ e, String.eqb (e_source e) "objdump" && bool_decide (e_target e = Some tid) &&
                    (e_callee e =? s_id s)%Z) (ix_edges gx).

(** The join and its GROUP BY: a symbol without edges makes no group. *)
Definition handleListUndefinedSymbols (target : string) : result link_query_error (list UndefinedSymbol) :=
  tid ← target_id target;
  Ok ((λ s, MkUndefinedSymbol (ref_of s) (length (calls_into tid s))) <$>
        sort_by s_name (List.filter (λ s, negb (defined s) && negb (length (calls_into tid s) =? 0)) symbols)).

(** *** [list_icf_groups] *)

Definition icf_losers (gid : Z) : list SymbolRef :=
  ref_of <$> sort_by s_name
    (List.filter (λ m, m_group m =? gid)%Z (ti_icf_members ix) ≫= λ m,
       List.filter (λ s, s_id s =? m_symbol m)%Z symbols).

Definition icf_rows (keep : symbol_row → bool) : list ICFGroup :=
  (λ gw, MkICFGroup (ref_of gw.2) (icf_losers (g_id gw.1)) (g_object gw.1)) <$>
    sort_by (λ gw, s_name gw.2)
      (ti_icf_groups ix ≫= λ g, (g,.) <$> List.filter (λ s, (s_id s =? g_winner g)%Z && keep s) symbols).

Definition handleListICFGroups (target : string) : result link_query_error (list ICFGroup) :=
  if String.eqb target "" then Ok (icf_rows (λ _, true))
  else tid ← target_id target; Ok (icf_rows (λ s, resolved_in tid (s_usr s))).

(** *** [list_unreachable_symbols] *)

Definition linked_kind (kind : string) : bool := bool_decide (kind ∈ ["executable"; "shared_library"]).
Definition is_linked (tid : Z) : bool := existsb (λ t, (t_id t =? tid)%Z && linked_kind (t_kind t)) (ix_targets gx).

Definition handleListUnreachableSymbols (target : string) (limit : option Z) :
    result link_query_error (list UnreachableSymbol * bool) :=
  tid ← target_id target;
  Ok (cut (rowLimit limit linkageRowLimit)
        ((λ s, MkUnreachable (ref_of s) true) <$>
           sort_by s_name (List.filter (λ s, is_linked tid && negb (resolved_in tid (s_usr s))) symbols))).

(** *** [list_entry_points] *)

(** A symbol once for each of its resolutions in the target and of its definitions;
    ["", 0] stands for none. *)
Definition definition_places (s : symbol_row) : list (string * Z) :=
  match (λ d, (d_file d, d_line d)) <$> List.filter (λ d, d_symbol_id d =? s_id s)%Z (ti_defs ix) with
  | [] => [("", 0%Z)]
  | l => l
  end.
Definition reached_rows (tid : Z) (s : symbol_row) : list (symbol_row * (string * Z)) :=
  List.filter (λ lr, of_target tid lr && String.eqb (lr_usr lr) (s_usr s)) resolutions ≫= λ _,
    (s,.) <$> definition_places s.

Definition is_main (s : symbol_row) : bool := String.eqb (s_name s) "main".

Definition place (snippets : bool) (p : string * Z) : Location :=
  if String.eqb p.1 "" then at_ "" 0 0 else enrich unzstd ix ProjectRoot (at_ p.1 p.2 0) snippets.

Definition entry_rows (tid : Z) : list (symbol_row * (string * Z)) :=
  order_by (λ r, [inr (if is_main r.1 then 0 else 1)%Z; inl (s_name r.1)])
    (List.filter (λ s, is_main s || String.eqb (s_linkage s) "external") symbols ≫= reached_rows tid).

Definition handleListEntryPoints (target : string) (limit : option Z) (snippets : bool) :
    result link_query_error (list EntryPoint * bool) :=
  tid ← target_id target;
  let limit := rowLimit limit linkageRowLimit in
  let out := keep_first (λ r, s_usr r.1) (Some limit) ∅ [] (entry_rows tid) in
  let out := (λ r, MkEntryPoint (ref_of r.1) (if is_main r.1 then "main" else "exported") (place snippets r.2)) <$> out in
  let truncated := limit <? length out in
  Ok (if truncated then take limit out else out, truncated).

(** ** Targets *)

Definition linked_count (tid : Z) : nat := length (List.filter (of_target tid) resolutions).
(** The rows of the view. *)
Definition reachable_count (tid : Z) : nat :=
  length (List.filter (of_target tid) resolutions ≫= λ lr,
            List.filter (λ s, String.eqb (s_usr s) (lr_usr lr)) symbols).

Definition handleListTargets : list TargetSummary :=
  (λ t, MkTargetSummary (t_name t) (t_kind t)
          (length (List.filter (λ ts, ts_target_id ts =? t_id t)%Z (si_target_sources (ti_sources ix))))
          (linked_count (t_id t))) <$> sort_by t_name (ix_targets gx).

Definition targetSources (tid : Z) : list (string * string) :=
  (λ f, (f, default "" (BlobStore.src_blob <$> BlobStore.sources (si_tables (ti_sources ix)) !! f))) <$>
    sort_strings (ts_file <$> List.filter (λ ts, ts_target_id ts =? tid)%Z (si_target_sources (ti_sources ix))).

Definition targetArchives (tid : Z) : list string :=
  sort_strings (remove_dups (lr_archive <$>
    List.filter (λ lr, of_target tid lr && negb (String.eqb (lr_archive lr) "")) resolutions)).

(** [sort.SliceStable] by a flag: the flagged ones first. *)
Definition flagged_first {A} (flag : A → bool) (l : list A) : list A :=
  List.filter flag l ++ List.filter (λ x, negb (flag x)) l.

(** The files of a target by its name; none, and no error, for a name unknown. *)
Definition filesForTargetName (name : string) : option (gset string) :=
  match filesForTarget (ti_sources ix) name with
  | Ok out => Some out
  | Err _ => None
  end.

Definition targetEntryPoints (tid : Z) (name : string) : list EntryPoint :=
  let rows := List.filter is_main symbols ≫= reached_rows tid in
  let out := (λ r, MkEntryPoint (ref_of r.1) "main" (place true r.2)) <$>
               keep_first (λ r, s_usr r.1 +:+ "|" +:+ r.2.1) None ∅ [] rows in
  match filesForTargetName name with
  | Some targetFiles => flagged_first (λ e, bool_decide (Path (ep_Location e) ∈ targetFiles)) out
  | None => out
  end.

Definition handleDescribeTarget (name : string) : result link_query_error DescribeTargetResponse :=
  match List.find (λ t, String.eqb (t_name t) name) (ix_targets gx) with
  | None => Err (ErrTarget (CallGraph.ErrUnknownTarget name))
  | Some t =>
    Ok (MkDescribeTarget (t_kind t) (t_link_command t) (targetSources (t_id t)) (targetArchives (t_id t))
          (linked_count (t_id t)) (reachable_count (t_id t)) (targetEntryPoints (t_id t) name))
  end.
End server.

(** ** Lemmas *)

Section keep_first.
Context {A : Type} (key : A → string).

(** With a limit the loop keeps one more than the limit of what it keeps without. *)
Lemma keep_first_limit n seen out l :
  length out ≤ S n → keep_first key (Some n) seen out l = take (S n) (keep_first key None seen out l).
Proof.
  assert (∀ seen out l, ∃ l', keep_first key None seen out l = out ++ l') as Hext.
  { clear. intros seen out l. revert seen out. induction l as [|x l IH]; intros seen out; simpl; [exists []; by rewrite app_nil_r|].
    destruct (bool_decide _); [apply IH|]. destruct (IH ({[key x]} ∪ seen) (out ++ [x])) as [l' ->].
    exists (x :: l'). by rewrite <-app_assoc. }
  revert seen out. induction l as [|x l IH]; intros seen out Hl; cbn [keep_first]; [by rewrite take_ge|].
  destruct (Nat.ltb_spec n (length out)).
  - destruct (bool_decide _).
    + destruct (Hext seen out l) as [l' ->]. rewrite take_app_length' by lia. done.
    + destruct (Hext ({[key x]} ∪ seen) (out ++ [x]) l) as [l' ->]. rewrite <-app_assoc, take_app_length' by lia. done.
  - destruct (bool_decide _); apply IH; [done|]. rewrite length_app. simpl. lia.
Qed.

Lemma keep_first_spec seen out l :
  NoDup (key <$> out) → (∀ x, x ∈ out → key x ∈ seen) → (∀ k, k ∈ seen → k ∈ key <$> out) →
  let r := keep_first key None seen out l in
  NoDup (key <$> r) ∧ (∀ x, x ∈ r → x ∈ out ∨ x ∈ l) ∧ (∀ x, x ∈ out ∨ x ∈ l → key x ∈ key <$> r).
Proof.
  revert seen out. induction l as [|x l IH]; intros seen out Hnd Hin Hseen; cbn.
  - split; [done|]. split; [by left|]. intros x [Hx|Hx%elem_of_nil]; [by apply list_elem_of_fmap_2|done].
  - destruct (bool_decide_reflect (key x ∈ seen)) as [Hx|Hx].
    + destruct (IH seen out Hnd Hin Hseen) as (H1 & H2 & H3). split; [done|]. split; [set_solver|].
      intros y [Hy|[->|Hy]%elem_of_cons]; [by apply H3; left| |by apply H3; right].
      apply Hseen, list_elem_of_fmap in Hx as (y & Hy & Hyo). rewrite Hy. apply H3. by left.
    + destruct (IH ({[key x]} ∪ seen) (out ++ [x])) as (H1 & H2 & H3).
      * rewrite fmap_app. apply NoDup_app. split; [done|]. split; [|by apply NoDup_singleton].
        cbn. intros k Hk ->%list_elem_of_singleton. apply Hx. apply list_elem_of_fmap in Hk as (y & -> & Hy). by apply Hin.
      * intros y [Hy| ->%list_elem_of_singleton]%elem_of_app; [|set_solver]. apply elem_of_union_r. by apply Hin.
      * intros k [->%elem_of_singleton|Hk]%elem_of_union; rewrite fmap_app, elem_of_app; [right; left|left; by apply Hseen].
      * split; [done|]. split; [set_solver|]. intros y Hy. apply H3. set_solver.
Qed.
End keep_first.

Lemma elem_of_filter_list {A} (p : A → bool) l (x : A) : x ∈ List.filter p l ↔ x ∈ l ∧ p x = true.
Proof. by rewrite !list_elem_of_In, List.filter_In. Qed.

Lemma sum_list_perm l k : l ≡ₚ k → sum_list l = sum_list k.
Proof. induction 1; simpl; lia. Qed.

Lemma existsb_elem {A} (p : A → bool) l : existsb p l = true ↔ ∃ x, x ∈ l ∧ p x = true.
Proof. rewrite existsb_exists. by setoid_rewrite list_elem_of_In. Qed.

(** Counting the edges into each of some symbols counts the edges into any. *)
Lemma sum_counts (ids : list Z) (l : list edge_row) (p : edge_row → bool) :
  NoDup ids →
  sum_list ((λ i, length (List.filter (λ e, p e && (e_callee e =? i)%Z) l)) <$> ids) =
  length (List.filter (λ e, p e && bool_decide (e_callee e ∈ ids)) l).
Proof.
  intros Hnd. induction l as [|e l IH].
  - cbn. clear. induction ids as [|i ids IH]; [done|]. exact IH.
  - cbn [List.filter]. destruct (p e); cbn [andb]; [|done].
    assert (sum_list ((λ i, length (if (e_callee e =? i)%Z then e :: List.filter (λ e, p e && (e_callee e =? i)%Z) l
        else List.filter (λ e, p e && (e_callee e =? i)%Z) l)) <$> ids) =
      (if bool_decide (e_callee e ∈ ids) then 1 else 0) +
      sum_list ((λ i, length (List.filter (λ e, p e && (e_callee e =? i)%Z) l)) <$> ids)) as ->.
    { clear IH. induction Hnd as [|i ids Hi Hnd IH]; [done|]. cbn. rewrite IH.
      destruct (Z.eqb_spec (e_callee e) i) as [->|Hne].
      - rewrite (bool_decide_true (i ∈ i :: ids)) by left. rewrite bool_decide_false by done. simpl. lia.
      - rewrite (bool_decide_ext (e_callee e ∈ i :: ids) (e_callee e ∈ ids)) by set_solver. lia. }
    rewrite IH. by destruct (bool_decide _).
Qed.

(** ** Properties *)

Section properties.
Context (unzstd : string → option string) (ix : tool_index) (ProjectRoot : string).
Let symbols := ix_symbols (ti_graph ix).

(** A target filter does not narrow the list of weak symbols: a symbol with a weak
    definition is listed for every target, linked there or not. *)
Theorem list_weak_ignores_target target s :
  s ∈ symbols → weakly_defined ix s = true →
  ref_of s ∈ ws_Symbol <$> handleListWeakSymbols unzstd ix ProjectRoot target.
Proof.
  intros Hs Hw. unfold handleListWeakSymbols. rewrite <-list_fmap_compose.
  apply list_elem_of_fmap. exists s. split; [done|]. rewrite (sort_by_perm s_name).
  apply elem_of_filter_list. split; [done|]. unfold weak_listed. by rewrite Hw.
Qed.

(** The undefined symbols of a target are exactly the symbols that one of its
    binary's calls goes to and that have no definition, each once, and their counts
    add up to the number of such calls. *)
Theorem undefined_exact target tid l :
  Keyed (ti_graph ix) → targetIDByName (ti_graph ix) target = Ok tid →
  handleListUndefinedSymbols ix target = Ok l →
  (∀ r, r ∈ us_Symbol <$> l ↔ ∃ s, s ∈ symbols ∧ ref_of s = r ∧ defined ix s = false ∧ calls_into ix tid s ≠ []) ∧
  sum_list (us_CalledCount <$> l) =
    length (List.filter (λ e, String.eqb (e_source e) "objdump" && bool_decide (e_target e = Some tid) &&
      bool_decide (e_callee e ∈ s_id <$> List.filter (λ s, negb (defined ix s)) symbols)) (ix_edges (ti_graph ix))).
Proof.
  intros [Hnd _ _ _] Ht. unfold handleListUndefinedSymbols, target_id. rewrite Ht. cbn [mbind result_bind]. fold symbols.
  intros [= <-]. rewrite <-!list_fmap_compose. split.
  - intros r. rewrite list_elem_of_fmap. setoid_rewrite (sort_by_perm s_name). setoid_rewrite elem_of_filter_list.
    setoid_rewrite andb_true_iff. setoid_rewrite negb_true_iff. setoid_rewrite Nat.eqb_neq. cbn.
    split; [intros (s & -> & Hs & Hd & Hc)|intros (s & Hs & <- & Hd & Hc)]; exists s; split_and!; try done.
    + intros E. by rewrite E in Hc.
    + by destruct (calls_into ix tid s).
  - rewrite <-(sum_counts (s_id <$> List.filter (λ s, negb (defined ix s)) symbols)); [|by apply (NoDup_fmap_filter s_id)].
    rewrite <-list_fmap_compose. cbn [compose].
    transitivity (sum_list ((λ s, length (calls_into ix tid s)) <$>
      List.filter (λ s, negb (defined ix s) && negb (length (calls_into ix tid s) =? 0)) symbols)).
    { apply sum_list_perm. by rewrite (sort_by_perm s_name). }
    clear Hnd. generalize symbols. intros l. induction l as [|s l IH]; [done|]. cbn [List.filter].
    destruct (defined ix s); cbn [negb andb]; [done|].
    destruct (Nat.eqb_spec (length (calls_into ix tid s)) 0) as [Hz|Hz]; cbn [negb fmap list_fmap sum_list]; rewrite IH; [|done].
    cbn. unfold calls_into in Hz. by rewrite Hz.
Qed.
Lemma resolved_in_spec tid usr :
  resolved_in ix tid usr = true ↔
  ∃ lr, lr ∈ ix_resolutions (ti_graph ix) ∧ lr_usr lr = usr ∧ lr_target lr = tid.
Proof.
  unfold resolved_in. rewrite existsb_elem. setoid_rewrite andb_true_iff. unfold of_target.
  setoid_rewrite Z.eqb_eq. setoid_rewrite String.eqb_eq.
  split; intros (lr & H1 & H2 & H3); exists lr; tauto.
Qed.

(** For an executable or shared library the unreachable symbols, when not cut, are
    exactly those describe_link_resolution has nothing to say about, whether they
    have a definition or not; for any other target there are none. *)
Theorem unreachable_iff_no_resolution target tid limit l :
  Keyed (ti_graph ix) → targetIDByName (ti_graph ix) target = Ok tid →
  handleListUnreachableSymbols ix target limit = Ok (l, false) →
  ∀ s, s ∈ symbols →
    (ref_of s ∈ ur_Symbol <$> l ↔
     is_linked ix tid = true ∧
     handleDescribeLinkResolution ix (s_usr s) target = Err (ErrNoResolution (s_usr s) target)).
Proof.
  intros [_ Hnd _ _] Ht. unfold handleListUnreachableSymbols, handleDescribeLinkResolution, target_id. rewrite Ht.
  cbn [mbind result_bind]. fold symbols. rewrite cut_spec. intros [= <- Hcut] s Hs.
  rewrite take_ge by (by apply Nat.ltb_ge). rewrite <-list_fmap_compose.
  assert (ref_of s ∈ (ur_Symbol ∘ (λ s, MkUnreachable (ref_of s) true)) <$>
    sort_by s_name (List.filter (λ s, is_linked ix tid && negb (resolved_in ix tid (s_usr s))) symbols) ↔
    is_linked ix tid = true ∧ resolved_in ix tid (s_usr s) = false) as ->.
  { rewrite list_elem_of_fmap. setoid_rewrite (sort_by_perm s_name). setoid_rewrite elem_of_filter_list.
    setoid_rewrite andb_true_iff. setoid_rewrite negb_true_iff. cbn. split; [|by exists s].
    intros (s' & Hr & _ & Hl & Hn). apply (f_equal USR) in Hr. cbn in Hr. by rewrite Hr. }
  apply and_iff_compat_l. rewrite <-not_true_iff_false, resolved_in_spec. split.
  - intros Hno. destruct (List.find _ _) as [lr|] eqn:E; [|done]. exfalso. apply Hno.
    apply List.find_some in E as [Hin [Hu Ht']%andb_true_iff]. apply list_elem_of_In in Hin.
    exists lr. split; [done|]. split; [by apply String.eqb_eq|by apply Z.eqb_eq].
  - intros Hd (lr & Hin & Hu & Htg). destruct (List.find _ _) as [lr'|] eqn:E; [done|].
    apply list_elem_of_In in Hin. apply (List.find_none _ _ E) in Hin.
    unfold of_target in Hin. by rewrite Hu, Htg, String.eqb_refl, Z.eqb_refl in Hin.
Qed.

(** The rows of a target's entry points without repetition. *)
Definition entry_symbols (tid : Z) : list (symbol_row * (string * Z)) :=
  keep_first (λ r, s_usr r.1) None ∅ [] (entry_rows ix tid).

(** The entry points are the first of the distinct symbols that are main or
    external and resolved in the target, main first, and truncated says exactly
    whether there are more, although the rows repeat a symbol for each of its
    definitions. *)
Theorem entry_points_exact target tid limit snippets :
  targetIDByName (ti_graph ix) target = Ok tid →
  let n := rowLimit limit linkageRowLimit in
  let all := entry_symbols tid in
  handleListEntryPoints unzstd ix ProjectRoot target limit snippets =
    Ok ((λ r, MkEntryPoint (ref_of r.1) (if is_main r.1 then "main" else "exported")
                (place unzstd ix ProjectRoot snippets r.2)) <$> take n all, n <? length all) ∧
  NoDup (s_usr ∘ fst <$> all) ∧
  (∀ usr, usr ∈ s_usr ∘ fst <$> all ↔ ∃ s, s ∈ symbols ∧ s_usr s = usr ∧
     (is_main s = true ∨ s_linkage s = "external") ∧ resolved_in ix tid usr = true).
Proof.
  intros Ht n all. split; [|].
  - unfold handleListEntryPoints, target_id. rewrite Ht. cbn [mbind result_bind]. fold n.
    rewrite keep_first_limit by (simpl; lia). fold (entry_symbols tid). fold all. rewrite length_fmap, length_take.
    destruct (Nat.ltb_spec n (length all)) as [Hl|Hl].
    + rewrite (proj2 (Nat.ltb_lt _ _)) by lia. by rewrite <-fmap_take, take_take, Nat.min_l by lia.
    + rewrite (proj2 (Nat.ltb_ge _ _)) by lia. by rewrite !take_ge by lia.
  - destruct (keep_first_spec (λ r : symbol_row * (string * Z), s_usr r.1) ∅ [] (entry_rows ix tid)) as (H1 & H2 & H3);
      [constructor|set_solver|set_solver|]. fold (entry_symbols tid) in *. fold all in H1, H2, H3.
    split; [exact H1|]. intros usr.
    assert (∀ s p, (s, p) ∈ entry_rows ix tid ↔ s ∈ symbols ∧ (is_main s = true ∨ s_linkage s = "external") ∧
      resolved_in ix tid (s_usr s) = true ∧ p ∈ definition_places ix s) as Hrows.
    { intros s p. unfold entry_rows, order_by. rewrite merge_sort_Permutation, list_elem_of_bind.
      setoid_rewrite elem_of_filter_list. setoid_rewrite orb_true_iff. setoid_rewrite String.eqb_eq. fold symbols.
      unfold reached_rows. setoid_rewrite list_elem_of_bind. setoid_rewrite elem_of_filter_list.
      setoid_rewrite list_elem_of_fmap. unfold resolved_in. setoid_rewrite existsb_elem. naive_solver. }
    assert (∀ s, ∃ p, p ∈ definition_places ix s) as Hp.
    { intros s. assert (definition_places ix s ≠ []) as Hne by (unfold definition_places; by case_match).
      destruct (definition_places ix s) as [|p l]; [done|]. exists p. left. }
    rewrite list_elem_of_fmap. split.
    + intros ([s p] & -> & Hin). destruct (H2 _ Hin) as [?%elem_of_nil|Hr]; [done|].
      apply Hrows in Hr as (Hs & Hk & Hr & _). by exists s.
    + intros (s & Hs & <- & Hk & Hr). destruct (Hp s) as [p Hpp].
      assert ((s, p) ∈ entry_rows ix tid) as Hin by (by apply Hrows).
      specialize (H3 (s, p) (or_intror Hin)). apply list_elem_of_fmap in H3 as (r & Hr' & Hra). by exists r.
Qed.
End properties.

(** ** Examples, on the index of [SymbolTools] *)

Lemma list_weak_ignores_target_witness :
  in_target (ti_graph ex_tools) "app" (SymbolRow 1 "c:@F@hook" "hook" "function" "weak" "int (int)" true ["hook"]) = false ∧
  MkSymbolRef "c:@F@hook" "hook" "function" "int (int)" ∈
    ws_Symbol <$> handleListWeakSymbols no_codec ex_tools "" "app".
Proof.
  split; [vm_compute; reflexivity|].
  apply (list_weak_ignores_target no_codec ex_tools "" "app"
    (SymbolRow 1 "c:@F@hook" "hook" "function" "weak" "int (int)" true ["hook"])); [left|reflexivity].
Defined.

Definition ex_undefined : list UndefinedSymbol :=
  [MkUndefinedSymbol (MkSymbolRef "c:@F@printf" "printf" "function" "") 2].

Lemma undefined_exact_witness :
  handleListUndefinedSymbols ex_tools "app" = Ok ex_undefined ∧
  (∀ r, r ∈ us_Symbol <$> ex_undefined ↔
     ∃ s, s ∈ ex_symbols ∧ ref_of s = r ∧ defined ex_tools s = false ∧ calls_into ex_tools 1 s ≠ []) ∧
  sum_list (us_CalledCount <$> ex_undefined) = 2.
Proof.
  assert (handleListUndefinedSymbols ex_tools "app" = Ok ex_undefined) as H by (vm_compute; reflexivity).
  split; [exact H|].
  destruct (undefined_exact ex_tools "app" 1 ex_undefined ex_keyed eq_refl H) as [H1 H2].
  split; [exact H1|reflexivity].
Defined.

Definition ex_unreachable : list UnreachableSymbol :=
  [MkUnreachable (MkSymbolRef "c:@F@hook" "hook" "function" "int (int)") true;
   MkUnreachable (MkSymbolRef "c:@F@printf" "printf" "function" "") true].

Lemma unreachable_iff_no_resolution_witness :
  handleListUnreachableSymbols ex_tools "app" None = Ok (ex_unreachable, false) ∧
  ∀ s, s ∈ ex_symbols →
    (ref_of s ∈ ur_Symbol <$> ex_unreachable ↔
     is_linked ex_tools 1 = true ∧
     handleDescribeLinkResolution ex_tools (s_usr s) "app" = Err (ErrNoResolution (s_usr s) "app")).
Proof.
  assert (handleListUnreachableSymbols ex_tools "app" None = Ok (ex_unreachable, false)) as H by (vm_compute; reflexivity).
  split; [exact H|].
  exact (unreachable_iff_no_resolution no_codec ex_tools "" "app" 1 None ex_unreachable ex_keyed eq_refl H).
Defined.

Lemma entry_points_exact_witness :
  handleListEntryPoints no_codec ex_tools "" "app" (Some 1%Z) false =
    Ok ([MkEntryPoint (MkSymbolRef "c:@F@main" "main" "function" "int (void)") "main"
           (MkLocation "main.c" 7 0 "" None "")], false) ∧
  (∀ usr, usr ∈ s_usr ∘ fst <$> entry_symbols ex_tools 1 ↔ ∃ s, s ∈ ex_symbols ∧ s_usr s = usr ∧
     (is_main s = true ∨ s_linkage s = "external") ∧ resolved_in ex_tools 1 usr = true).
Proof.
  split; [vm_compute; reflexivity|].
  exact (proj2 (proj2 (entry_points_exact no_codec ex_tools "" "app" 1 (Some 1%Z) false eq_refl))).
Defined.
