(* ===== verification/Preflight.v ===== *)
(** * Preflight checks ([internal/preflight/preflight.go])

    Whether a build directory was made with the flags the index needs, and the
    message that says what is missing.  [detail] holds what the texts are made
    from. *)

From S2P Require Import Prelude GoStrings Paths Meson.
From Stdlib Require Import ZArith Lia.
Import Paths.BuildDir.

Definition MinGCCMajor : Z := 10.

Definition KindGCCTooOld : string := "gcc_too_old".
Definition KindNoTargets : string := "no_targets".
Definition KindMissingCI : string := "missing_ci".
Definition KindMissingCgraph : string := "missing_cgraph".
Definition KindNoDebugInfo : string := "no_debug_info".
Definition KindMissingOptRec : string := "missing_opt_record".

(** What a text says: a version, a path, how many of how many objects lack a dump and
    the first of them, or an object. *)
Inductive detail :=
| OldVersion (version : string)
| NoObjects (root : string)
| Missing (n of_ : nat) (sample : string)
| Unreadable (object : string)
| NoDebugSection (object : string).

Record Finding := MkFinding { Kind : string; Detail : detail }.

Record Report := MkReport {
  Ok_ : bool;
  GCCVersion : string;
  r_MesonVersion : string;
  Findings : list Finding;
}.

Definition parseMajor (v : string) : Z * bool :=
  if String.eqb v "" then (0%Z, false)
  else match Atoi (CutByteBefore "." v) with
       | (n, None) => (n, true)
       | (_, Some _) => (0%Z, false)
       end.

Section checks.
(** The section names of an ELF file; [None] for one that does not open. *)
Context (sections : string → option (list string)).

Definition hasDebugInfo (obj : string) : option bool :=
  existsb (λ s, String.eqb s ".debug_info") <$> sections obj.

Definition gcc_findings (intro : Introspection) : list Finding :=
  let v := ci_Version (CCompiler intro) in
  let '(major, ok) := parseMajor v in
  if negb ok || (major <? MinGCCMajor)%Z then [MkFinding KindGCCTooOld (OldVersion v)] else [].

(** The objects one kind of dump is missing for, as one finding. *)
Definition missing_dump (kind : string) (dump : ObjectArtifacts → string) (objs : list ObjectArtifacts) :
    list Finding :=
  let missing := Object <$> List.filter (λ o, String.eqb (dump o) "") objs in
  match missing with
  | [] => []
  | sample :: _ => [MkFinding kind (Missing (length missing) (length objs) sample)]
  end.

Definition debug_finding (sample : string) : list Finding :=
  match hasDebugInfo sample with
  | None => [MkFinding KindNoDebugInfo (Unreadable sample)]
  | Some false => [MkFinding KindNoDebugInfo (NoDebugSection sample)]
  | Some true => []
  end.

Definition Check_ (intro : Introspection) (bd : BuildDir) : Report :=
  let report fs :=
    MkReport (match fs with [] => true | _ => false end) (ci_Version (CCompiler intro)) (MesonVersion intro) fs in
  match Objects bd with
  | [] => report (gcc_findings intro ++ [MkFinding KindNoTargets (NoObjects (Root bd))])
  | o :: _ =>
    report (gcc_findings intro ++ missing_dump KindMissingCI CI (Objects bd) ++
            missing_dump KindMissingCgraph Cgraph (Objects bd) ++
            missing_dump KindMissingOptRec OptRecord (Objects bd) ++ debug_finding (Object o))
  end.

(** ** The message *)

Definition RecommendedCArgs : string :=
  "-g -gcolumn-info -fcallgraph-info=su,da " +:+ "-fdump-ipa-cgraph -fdump-ipa-inline -fdump-ipa-icf " +:+
  "-fsave-optimization-record".

Definition OptionalCallGraphCArgs : string := "-fno-inline-functions-called-once".

Section message.
(** [%q] of a string, and the error of an object that does not open. *)
Context (quote : string → string) (elf_error : string → string).

Definition nat_text (n : nat) : string := dec (Z.of_nat n).

Definition missing_text (what : string) (n of_ : nat) (sample : string) : string :=
  what +:+ " missing for " +:+ nat_text n +:+ "/" +:+ nat_text of_ +:+ " objects (sample: " +:+ sample +:+ ")".

Definition detail_text (f : Finding) : string :=
  match Detail f with
  | OldVersion v => "GCC " +:+ quote v +:+ " is below the minimum GCC " +:+ dec MinGCCMajor +:+ " required for -fcallgraph-info"
  | NoObjects _ => "no .o files under builddir — has `meson compile` run?"
  | Missing n of_ sample =>
    missing_text (if String.eqb (Kind f) KindMissingCI then ".ci dump"
                  else if String.eqb (Kind f) KindMissingCgraph then ".cgraph dump"
                  else "optimization record") n of_ sample
  | Unreadable object => "cannot inspect ELF sections of " +:+ object +:+ ": " +:+ elf_error object
  | NoDebugSection object => "no .debug_info section in " +:+ object +:+ " — was -g in effect?"
  end.

Definition FixHint (f : Finding) : string :=
  match Detail f with
  | OldVersion _ => "upgrade GCC to " +:+ dec MinGCCMajor +:+ ".x or later, or configure Meson to use a newer compiler"
  | NoObjects root => "run `meson compile -C " +:+ root +:+ "` before `herbarium collect`"
  | Missing _ _ _ =>
    if String.eqb (Kind f) KindMissingCI then "add `-fcallgraph-info=su,da` to c_args and rebuild"
    else if String.eqb (Kind f) KindMissingCgraph then
      "add `-fdump-ipa-cgraph` (and the other -fdump-ipa-* flags) to c_args and rebuild"
    else "add `-fsave-optimization-record` to c_args and rebuild — without it, pre-IPA inlining is invisible"
  | Unreadable _ => "verify the file is a regular ELF object"
  | NoDebugSection _ => "add `-g -gcolumn-info` to c_args and rebuild"
  end.

Definition finding_lines (i : nat) (f : Finding) : list string :=
  ["  " +:+ nat_text (S i) +:+ ". [" +:+ Kind f +:+ "] " +:+ detail_text f; "     fix: " +:+ FixHint f].

(** The lines of the message, each ended by a newline unless the report is fine. *)
Definition FormatUserMessage (r : Report) (builddir : string) : string :=
  if Ok_ r then "preflight ok (GCC " +:+ GCCVersion r +:+ ", Meson " +:+ r_MesonVersion r +:+ ")"
  else unlines (
    ["herbarium preflight failed for " +:+ builddir;
     "  detected: GCC=" +:+ GCCVersion r +:+ " Meson=" +:+ r_MesonVersion r; ""] ++
    mjoin (imap finding_lines (Findings r)) ++
    ["";
     "Recommended meson setup command:";
     "  meson setup " +:+ builddir +:+ " \";
     "    --buildtype=debugoptimized \";
     "    -Dc_args=" +:+ quote RecommendedCArgs;
     "";
     "Every flag above is codegen-inert: .text stays byte-identical to a stock build.";
     "Optionally append " +:+ OptionalCallGraphCArgs +:+ " to keep single-caller statics";
     "out-of-line so they survive as distinct call-graph nodes. It is not required, and it";
     "is the one flag that changes the generated code."]).

(** The flags a hint puts between backquotes. *)
Definition quoted_parts (s : string) : list string :=
  mjoin (imap (λ i part, if Nat.odd i then [part] else []) (SplitByte "`" s)).
Definition hinted_flags (f : Finding) : list string := quoted_parts (FixHint f) ≫= Fields.
End message.

(** ** Lemmas *)

(** A builddir the ingest passes can work with. *)
Record prepared (intro : Introspection) (bd : BuildDir) : Prop := {
  pp_gcc : ∃ major, parseMajor (ci_Version (CCompiler intro)) = (major, true) ∧ (MinGCCMajor ≤ major)%Z;
  pp_dumps : ∀ o, o ∈ Objects bd → CI o ≠ "" ∧ Cgraph o ≠ "" ∧ OptRecord o ≠ "";
  pp_debug : ∃ o ss, head (Objects bd) = Some o ∧ sections (Object o) = Some ss ∧ ".debug_info" ∈ ss;
}.

Lemma gcc_findings_nil intro :
  gcc_findings intro = [] ↔
  ∃ major, parseMajor (ci_Version (CCompiler intro)) = (major, true) ∧ (MinGCCMajor ≤ major)%Z.
Proof.
  unfold gcc_findings. destruct (parseMajor _) as [major [|]]; cbn [negb orb].
  - destruct (Z.ltb_spec major MinGCCMajor); split; try done; [|eauto].
    intros (? & [= <-] & ?). lia.
  - split; [done|]. by intros (? & ? & _).
Qed.

Lemma missing_dump_nil kind dump objs :
  missing_dump kind dump objs = [] ↔ ∀ o, o ∈ objs → dump o ≠ "".
Proof.
  unfold missing_dump. transitivity (List.filter (λ o, String.eqb (dump o) "") objs = []).
  - by destruct (List.filter _ objs).
  - induction objs as [|o objs IH]; [split; [set_solver|done]|]. cbn [List.filter].
    destruct (String.eqb_spec (dump o) "") as [E|E]; [|set_solver].
    split; [done|]. intros H. exfalso. apply (H o); [left|done].
Qed.

Lemma debug_finding_nil sample :
  debug_finding sample = [] ↔ ∃ ss, sections sample = Some ss ∧ ".debug_info" ∈ ss.
Proof.
  unfold debug_finding, hasDebugInfo. destruct (sections sample) as [ss|]; cbn [fmap option_fmap option_map].
  - destruct (existsb _ ss) eqn:E; split; try done; [intros _; exists ss; split; [done|]|].
    + apply existsb_exists in E as (s & Hs & ->%String.eqb_eq). by apply list_elem_of_In.
    + intros (? & [= <-] & Hin). apply not_true_iff_false in E. exfalso. apply E, existsb_exists.
      exists ".debug_info". split; [by apply list_elem_of_In|done].
  - split; [done|]. by intros (? & ? & _).
Qed.

Lemma Check_prepared intro bd : Ok_ (Check_ intro bd) = true ↔ prepared intro bd.
Proof.
  assert (∀ fs a b, Ok_ (MkReport (match fs with [] => true | _ => false end) a b fs) = true ↔ fs = []) as Hr.
  { by intros []. }
  unfold Check_. destruct (Objects bd) as [|o objs] eqn:Eo; rewrite Hr.
  - split; [intros [_ ?]%app_nil; done|]. intros [_ _ (? & ? & Hh & _)]. by rewrite Eo in Hh.
  - rewrite !app_nil, gcc_findings_nil, !missing_dump_nil, debug_finding_nil. rewrite <-Eo. split.
    + intros (Hg & H1 & H2 & H3 & ss & Hs & Hd). split; [done|naive_solver|]. exists o, ss. by rewrite Eo.
    + intros [Hg Hd (o' & ss & Ho & Hs & Hin)]. rewrite Eo in Ho. injection Ho as <-. naive_solver.
Qed.
End checks.

(** ** Properties *)

(** The objects without a dump of one of the three kinds. *)
Definition lacking (kind : string) (objs : list ObjectArtifacts) : list ObjectArtifacts :=
  List.filter (λ o, String.eqb (if String.eqb kind KindMissingCI then CI o
                                else if String.eqb kind KindMissingCgraph then Cgraph o else OptRecord o) "") objs.

Lemma missing_dump_detail kind dump objs f :
  f ∈ missing_dump kind dump objs →
  let missing := List.filter (λ o, String.eqb (dump o) "") objs in
  Kind f = kind ∧ ∃ s, head (Object <$> missing) = Some s ∧ Detail f = Missing (length missing) (length objs) s.
Proof.
  unfold missing_dump. cbn zeta. rewrite <-(length_fmap Object (List.filter _ objs)).
  destruct (Object <$> _) as [|s l]; [set_solver|]. intros ->%list_elem_of_singleton. split; [done|]. by exists s.
Qed.

(** The preflight passes exactly the build directories the ingest can work with —
    a recent enough GCC, the three dumps beside every object, debug information in
    the first — and a finding about missing dumps says how many objects lack that
    dump, of how many, and names the first. *)
Theorem preflight_exact sections intro bd :
  (Ok_ (Check_ sections intro bd) = true ↔ prepared sections intro bd) ∧
  ∀ f n total sample, f ∈ Findings (Check_ sections intro bd) → Detail f = Missing n total sample →
    total = length (Objects bd) ∧ n = length (lacking (Kind f) (Objects bd)) ∧
    head (Object <$> lacking (Kind f) (Objects bd)) = Some sample.
Proof.
  split; [apply Check_prepared|]. intros f n total sample Hf Hd.
  assert (∀ objs, f ∈ gcc_findings intro ++ missing_dump KindMissingCI CI objs ++ missing_dump KindMissingCgraph Cgraph objs ++
      missing_dump KindMissingOptRec OptRecord objs ++ default [] (debug_finding sections ∘ Object <$> head objs) →
    total = length objs ∧ n = length (lacking (Kind f) objs) ∧ head (Object <$> lacking (Kind f) objs) = Some sample) as H.
  { clear Hf. intros objs. rewrite !elem_of_app. unfold lacking. intros [Hf|[Hf|[Hf|[Hf|Hf]]]].
    2-4: apply missing_dump_detail in Hf as (-> & s & Hs & Hd'); rewrite Hd in Hd'; injection Hd' as -> -> ->; done.
    - exfalso. unfold gcc_findings in Hf. destruct (parseMajor _). destruct (_ || _); [|set_solver].
      apply list_elem_of_singleton in Hf as ->. done.
    - exfalso. destruct (head objs); [|set_solver]. cbn in Hf. unfold debug_finding in Hf.
      destruct (hasDebugInfo sections _) as [[|]|]; [set_solver|apply list_elem_of_singleton in Hf as ->; done..]. }
  apply H. unfold Check_ in Hf. destruct (Objects bd) as [|o objs]; cbn [Findings] in Hf; [|done].
  apply elem_of_app in Hf as [Hf|Hf%list_elem_of_singleton]; [by apply elem_of_app; left|by subst f].
Qed.

(** The flags that the hints of a report tell the user to add are among those of the
    command line the message recommends, and the optional flag is not. *)
Theorem hints_recommended sections intro bd f flag :
  f ∈ Findings (Check_ sections intro bd) → Kind f ≠ KindNoTargets → flag ∈ hinted_flags f →
  flag ∈ Fields RecommendedCArgs ∧ flag ≠ OptionalCallGraphCArgs.
Proof.
  intros Hf Hk. enough (hinted_flags f ⊆ Fields RecommendedCArgs) as H.
  { intros Hin%H. split; [done|]. intros ->. vm_compute in Hin. set_solver. }
  assert (Detail f = OldVersion (ci_Version (CCompiler intro)) ∨
    (∃ n t s, Detail f = Missing n t s ∧ Kind f ∈ [KindMissingCI; KindMissingCgraph; KindMissingOptRec]) ∨
    (∃ o, Detail f = Unreadable o) ∨ ∃ o, Detail f = NoDebugSection o) as Hd.
  { assert (f ∈ gcc_findings intro → Detail f = OldVersion (ci_Version (CCompiler intro))) as Hg.
    { unfold gcc_findings. destruct (parseMajor _). destruct (_ || _); [by intros ->%list_elem_of_singleton|set_solver]. }
    unfold Check_ in Hf. destruct (Objects bd) as [|o objs]; cbn [Findings] in Hf.
    - apply elem_of_app in Hf as [Hf|Hf%list_elem_of_singleton]; [by auto|by subst f].
    - rewrite !elem_of_app in Hf. destruct Hf as [Hf|[Hf|[Hf|[Hf|Hf]]]]; [by auto| | | |].
      1-3: apply missing_dump_detail in Hf as (-> & s & _ & Hd); right; left; do 3 eexists; split; [exact Hd|set_solver].
      unfold debug_finding in Hf. destruct (hasDebugInfo sections _) as [[|]|]; [set_solver|apply list_elem_of_singleton in Hf as ->..]; eauto. }
  unfold hinted_flags, FixHint. destruct Hd as [->|[(n & t & s & -> & Hkind)|[[o ->]|[o ->]]]].
  - vm_compute. set_solver.
  - rewrite !elem_of_cons, elem_of_nil in Hkind. destruct_or! Hkind; rewrite ?Hkind; try done; vm_compute; set_solver.
  - vm_compute. set_solver.
  - vm_compute. set_solver.
Qed.

(** A build without optimization records. *)
Definition ex_unrecorded : BuildDir :=
  MkBuildDir "/b" [MkObjectArtifacts "/b/a.o" "/b/a.ci" "/b/a.000i.cgraph" "" "" "" ""] [].
Definition ex_gcc : Introspection := MkIntrospection "1.3" "" "" [] (MkCompilerInfo "gcc" "13.2.0" "" [] "") [].
Definition ex_finding : Finding := MkFinding KindMissingOptRec (Missing 1 1 "/b/a.o").

Lemma preflight_exact_witness :
  Findings (Check_ (λ _, Some [".debug_info"]) ex_gcc ex_unrecorded) = [ex_finding] ∧
  1 = length (lacking (Kind ex_finding) (Objects ex_unrecorded)).
Proof.
  split; [vm_compute; reflexivity|].
  pose proof (proj2 (preflight_exact (λ _, Some [".debug_info"]) ex_gcc ex_unrecorded) ex_finding 1 1 "/b/a.o") as H.
  apply H; [vm_compute; left|reflexivity].
Defined.

Lemma hints_recommended_witness : hinted_flags ex_finding = ["-fsave-optimization-record"] ∧ "-fsave-optimization-record" ∈ Fields RecommendedCArgs.
Proof.
  split; [vm_compute; reflexivity|].
  apply (hints_recommended (λ _, Some [".debug_info"]) ex_gcc ex_unrecorded ex_finding); [vm_compute; left|discriminate|vm_compute; left].
Defined.

Example message_of_unrecorded :
  FormatUserMessage (λ s, str1 DQ +:+ s +:+ str1 DQ) (λ _, "") (Check_ (λ _, Some [".debug_info"]) ex_gcc ex_unrecorded) "b" =
  unlines [
    "herbarium preflight failed for b";
    "  detected: GCC=13.2.0 Meson=1.3";
    "";
    "  1. [missing_opt_record] optimization record missing for 1/1 objects (sample: /b/a.o)";
    "     fix: add `-fsave-optimization-record` to c_args and rebuild — without it, pre-IPA inlining is invisible";
    "";
    "Recommended meson setup command:";
    "  meson setup b \";
    "    --buildtype=debugoptimized \";
    "    -Dc_args=" +:+ str1 DQ +:+ RecommendedCArgs +:+ str1 DQ;
    "";
    "Every flag above is codegen-inert: .text stays byte-identical to a stock build.";
    "Optionally append -fno-inline-functions-called-once to keep single-caller statics";
    "out-of-line so they survive as distinct call-graph nodes. It is not required, and it";
    "is the one flag that changes the generated code."].
Proof. vm_compute. reflexivity. Qed.
