(* ===== verification/SqlTool.v ===== *)
(** * The SQL tool ([internal/mcp/sql_tool.go])

    The read-only query tool: the caps on its rows and the text of its cells.  The
    database driver is a parameter; that it refuses writes is its own promise. *)

From S2P Require Import Prelude GoStrings OptRecord.
From Stdlib Require Import ZArith Lia.

Definition defaultSQLLimit : Z := 500.
Definition maxSQLLimit : Z := 10000.

(** What the driver scans into an [any]: a byte slice, or a value that is passed on. *)
Inductive cell := CBytes (b : string) | CValue (v : json).

Inductive sql_cell := SText (s : string) | SValue (v : json).

Record SQLResponse := MkSQLResponse {
  Columns : list string;
  Rows : list (list sql_cell);
  Rowcount : nat;
  sql_Truncated : bool;
}.

(** ** Cells *)

Definition continuation (k : Z) : bool := (Z.land k 192 =? 128)%Z.

Fixpoint looksLikeUTF8 (b : list Z) : bool :=
  match b with
  | [] => true
  | c :: b =>
    if (c <? 128)%Z then looksLikeUTF8 b
    else if (c <? 194)%Z || (244 <? c)%Z then false
    else if (240 <=? c)%Z then
      match b with
      | k1 :: k2 :: k3 :: b => continuation k1 && continuation k2 && continuation k3 && looksLikeUTF8 b
      | _ => false
      end
    else if (224 <=? c)%Z then
      match b with
      | k1 :: k2 :: b => continuation k1 && continuation k2 && looksLikeUTF8 b
      | _ => false
      end
    else
      match b with
      | k1 :: b => continuation k1 && looksLikeUTF8 b
      | _ => false
      end
  end.

Definition bytes_of (s : string) : list Z := (λ a, Z.of_N (N_of_ascii a)) <$> schars s.

Definition normalizeSQLValue (v : cell) : sql_cell :=
  match v with
  | CBytes b => if looksLikeUTF8 (bytes_of b) then SText b
                else SText ("<blob:" +:+ dec (Z.of_nat (String.length b)) +:+ " bytes>")
  | CValue v => SValue v
  end.

Definition text_row (cells : list cell) : list sql_cell := normalizeSQLValue <$> cells.

(** ** The query *)

(** What [rows] yields: the columns, the rows ([None]: a row that does not scan) and
    the error after the last. *)
Record cursor := Cursor { cu_columns : list string; cu_rows : list (option (list cell)); cu_error : option string }.

Inductive sql_error := ErrParams | ErrSQL (e : string) | ErrScanRow | ErrIterate (e : string).

Section query.
Context (driver : string → list json → result string cursor).

(** The loop over the rows. *)
Fixpoint read_rows (limit : nat) (out : list (list sql_cell)) (rows : list (option (list cell)))
    (err : option string) : result sql_error (list (list sql_cell) * bool) :=
  match rows with
  | [] => match err with None => Ok (out, false) | Some e => Err (ErrIterate e) end
  | r :: rows =>
    if limit <=? length out then Ok (out, true)
    else match r with
         | None => Err ErrScanRow
         | Some cells => read_rows limit (out ++ [text_row cells]) rows err
         end
  end.

Definition sql_limit (limit : option Z) : nat :=
  let n := default defaultSQLLimit limit in
  Z.to_nat (if (n <=? 0)%Z || (maxSQLLimit <? n)%Z then defaultSQLLimit else n).

(** [params]: the argument, [None] when it is absent or null. *)
Definition handleSQLQuery (sql : string) (limit : option Z) (params : option json) : result sql_error SQLResponse :=
  params ← (match params with
            | None | Some JNull => Ok []
            | Some (JArr l) => Ok l
            | Some _ => Err ErrParams
            end);
  match driver sql params with
  | Err e => Err (ErrSQL e)
  | Ok cu =>
    '(rows, truncated) ← read_rows (sql_limit limit) [] (cu_rows cu) (cu_error cu);
    Ok (MkSQLResponse (cu_columns cu) rows (length rows) truncated)
  end.
End query.

(** ** UTF-8

    The encoding of RFC 3629. *)

Definition utf8_encode (c : Z) : list Z :=
  if (c <? 128)%Z then [c]
  else if (c <? 2048)%Z then [192 + c / 64; 128 + c mod 64]%Z
  else if (c <? 65536)%Z then [224 + c / 4096; 128 + c / 64 mod 64; 128 + c mod 64]%Z
  else [240 + c / 262144; 128 + c / 4096 mod 64; 128 + c / 64 mod 64; 128 + c mod 64]%Z.

Definition code_point (c : Z) : Prop := (0 ≤ c < 1114112)%Z.

Lemma continuation_byte x : continuation (128 + x mod 64) = true.
Proof.
  assert (0 ≤ x mod 64 < 64)%Z as Hx by (apply Z.mod_pos_bound; lia). revert Hx. generalize (x mod 64)%Z. intros m Hm.
  assert (forallb (λ n, continuation (128 + Z.of_nat n)) (seq 0 64) = true) as Hall by (vm_compute; reflexivity).
  rewrite forallb_forall in Hall. specialize (Hall (Z.to_nat m)). rewrite Z2Nat.id in Hall by lia.
  apply Hall, in_seq. lia.
Qed.

Lemma looksLikeUTF8_encode c b : code_point c → looksLikeUTF8 (utf8_encode c ++ b) = looksLikeUTF8 b.
Proof.
  intros [H0 H1]. unfold utf8_encode.
  destruct (Z.ltb_spec c 128); [cbn; by rewrite (proj2 (Z.ltb_lt _ _))|].
  destruct (Z.ltb_spec c 2048).
  { assert (2 ≤ c / 64 < 32)%Z by (split; [apply Z.div_le_lower_bound|apply Z.div_lt_upper_bound]; lia).
    cbn [app looksLikeUTF8]. rewrite continuation_byte.
    rewrite !(proj2 (Z.ltb_ge _ _)) by lia. by rewrite !(proj2 (Z.leb_gt _ _)) by lia. }
  destruct (Z.ltb_spec c 65536).
  { assert (0 ≤ c / 4096 < 16)%Z by (split; [apply Z.div_le_lower_bound|apply Z.div_lt_upper_bound]; lia).
    cbn [app looksLikeUTF8]. rewrite !continuation_byte.
    rewrite !(proj2 (Z.ltb_ge _ _)) by lia. rewrite (proj2 (Z.leb_gt _ _)) by lia. by rewrite (proj2 (Z.leb_le _ _)) by lia. }
  assert (0 ≤ c / 262144 < 5)%Z by (split; [apply Z.div_le_lower_bound|apply Z.div_lt_upper_bound]; lia).
  cbn [app looksLikeUTF8]. rewrite !continuation_byte.
  rewrite !(proj2 (Z.ltb_ge _ _)) by lia. by rewrite (proj2 (Z.leb_le _ _)) by lia.
Qed.

Lemma looksLikeUTF8_text cs : Forall code_point cs → looksLikeUTF8 (mjoin (utf8_encode <$> cs)) = true.
Proof. induction 1 as [|c cs Hc _ IH]; [done|]. cbn [fmap list_fmap mjoin list_join]. by rewrite looksLikeUTF8_encode. Qed.

(** The surrogates are not characters, and their encoding is not valid UTF-8; nor is a
    two-byte form stretched to three. *)
Example looksLikeUTF8_lax :
  looksLikeUTF8 (utf8_encode 55296) = true ∧ looksLikeUTF8 [224; 128; 128]%Z = true.
Proof. split; reflexivity. Qed.

(** No control character is kept out, whatever the comment in the loop says: a text of
    them is given as it is, and not as a blob. *)
Theorem looksLikeUTF8_controls cs :
  Forall (λ c, (0 ≤ c < 32)%Z ∨ (127 ≤ c < 160)%Z) cs → looksLikeUTF8 (mjoin (utf8_encode <$> cs)) = true.
Proof. intros H. apply looksLikeUTF8_text. eapply Forall_impl; [exact H|]. unfold code_point. lia. Qed.

Lemma looksLikeUTF8_controls_witness :
  Forall (λ c, (0 ≤ c < 32)%Z ∨ (127 ≤ c < 160)%Z) [0; 7; 155]%Z ∧ looksLikeUTF8 [0; 7; 194; 155]%Z = true.
Proof.
  assert (Forall (λ c, (0 ≤ c < 32)%Z ∨ (127 ≤ c < 160)%Z) [0; 7; 155]%Z) as H by (repeat constructor; lia).
  split; [exact H|]. exact (looksLikeUTF8_controls _ H).
Defined.

(** ** Properties *)

Lemma read_rows_spec limit out (cells : list (list cell)) :
  length out ≤ limit →
  read_rows limit out (Some <$> cells) None =
    Ok (out ++ take (limit - length out) (text_row <$> cells), limit - length out <? length cells).
Proof.
  revert out; induction cells as [|r cells IH]; intros out Hl; cbn [fmap list_fmap read_rows].
  - rewrite take_nil, app_nil_r. f_equal.
  - destruct (Nat.leb_spec limit (length out)) as [Hge|Hlt].
    + replace (limit - length out) with 0 by lia. by rewrite app_nil_r.
    + rewrite IH by (rewrite length_app; simpl; lia). rewrite length_app, <-app_assoc.
      replace (limit - length out) with (S (limit - (length out + 1))) by lia. cbn [take length app].
      do 2 f_equal.
Qed.

(** The cap is the limit asked for where that is between one and ten thousand, and five
    hundred otherwise. *)
Lemma sql_limit_spec limit :
  (∀ k, limit = Some k → (1 ≤ k ≤ 10000)%Z → sql_limit limit = Z.to_nat k) ∧
  ((limit = None ∨ ∃ k, limit = Some k ∧ (k < 1 ∨ 10000 < k)%Z) → sql_limit limit = Z.to_nat 500) ∧
  1 ≤ sql_limit limit ≤ Z.to_nat maxSQLLimit.
Proof.
  unfold sql_limit, defaultSQLLimit, maxSQLLimit. split; [|split].
  - intros k -> Hk. change (default 500%Z (Some k)) with k. cbv zeta. by rewrite (proj2 (Z.leb_gt k 0)), (proj2 (Z.ltb_ge 10000 k)) by lia.
  - intros [->|(k & -> & Hk)]; [done|]. change (default 500%Z (Some k)) with k. cbv zeta.
    destruct (Z.leb_spec k 0); [done|]. by rewrite (proj2 (Z.ltb_lt 10000 k)) by lia.
  - set (n := default _ _). destruct (Z.leb_spec n 0); [vm_compute; lia|].
    destruct (Z.ltb_spec 10000 n); cbn [orb]; [vm_compute; lia|]. lia.
Qed.

(** C38: A query answers with the first rows of the driver, cell by cell, up to the limit
    asked for where that is between one and ten thousand and up to five hundred
    otherwise, and says truncated exactly when there are more; a text cell in UTF-8 comes
    out byte for byte, its control characters included. *)
Theorem sql_query_exact driver sql limit params l cu cells :
  params = Some (JArr l) ∨ l = [] ∧ (params = None ∨ params = Some JNull) →
  driver sql l = Ok cu → cu_rows cu = Some <$> cells → cu_error cu = None →
  ∃ n, (∀ k, limit = Some k → (1 ≤ k ≤ 10000)%Z → n = Z.to_nat k) ∧
    ((limit = None ∨ ∃ k, limit = Some k ∧ (k < 1 ∨ 10000 < k)%Z) → n = Z.to_nat 500) ∧
    1 ≤ n ≤ Z.to_nat maxSQLLimit ∧
    handleSQLQuery driver sql limit params =
      Ok (MkSQLResponse (cu_columns cu) (take n (text_row <$> cells))
            (min n (length cells)) (n <? length cells)) ∧
    ∀ text cs, bytes_of text = mjoin (utf8_encode <$> cs) → Forall code_point cs →
      normalizeSQLValue (CBytes text) = SText text.
Proof.
  intros Hp Hd Hr He. destruct (sql_limit_spec limit) as (H1 & H2 & H3). exists (sql_limit limit).
  do 3 (split; [done|]). split.
  - unfold handleSQLQuery.
    assert (∀ (f : list json → result sql_error SQLResponse), (params' ← (match params with
            | None | Some JNull => Ok [] | Some (JArr l) => Ok l | Some _ => Err ErrParams end); f params') = f l) as ->
      by (intros f; destruct Hp as [->|[-> [->| ->]]]; done).
    rewrite Hd, Hr, He.
    rewrite read_rows_spec by (simpl; lia). cbn [mbind result_bind app length]. rewrite Nat.sub_0_r.
    by rewrite length_take, length_fmap.
  - intros text cs Ht Hcs. cbn. by rewrite Ht, looksLikeUTF8_text.
Qed.

Definition ex_driver (sql : string) (params : list json) : result string cursor :=
  Ok (Cursor ["name"] [Some [CBytes "main"]; Some [CBytes "helper"]; Some [CValue JNull]] None).

Lemma sql_query_exact_witness :
  handleSQLQuery ex_driver "SELECT name FROM symbols" (Some 2%Z) (Some (JArr [])) =
    Ok (MkSQLResponse ["name"] [[SText "main"]; [SText "helper"]] 2 true) ∧
  ∃ n, n = 2 ∧
    handleSQLQuery ex_driver "SELECT name FROM symbols" (Some 2%Z) (Some (JArr [])) =
      Ok (MkSQLResponse ["name"] (take n [[SText "main"]; [SText "helper"]; [SValue JNull]]) (min n 3) (n <? 3)) ∧
    ∀ text cs, bytes_of text = mjoin (utf8_encode <$> cs) → Forall code_point cs →
      normalizeSQLValue (CBytes text) = SText text.
Proof.
  split; [reflexivity|].
  destruct (sql_query_exact ex_driver "SELECT name FROM symbols" (Some 2%Z) (Some (JArr [])) [] _ [[CBytes "main"]; [CBytes "helper"]; [CValue JNull]]
           (or_introl eq_refl) eq_refl eq_refl eq_refl) as (n & Hn & _ & _ & Hq & Ht).
  exists n. split; [apply (Hn 2%Z eq_refl); lia|]. split; [exact Hq|exact Ht].
Defined.
