(* ===== verification/Collect.v ===== *)
(** * [herbarium collect] ([cmd/herbarium/collect.go])

    The command that runs the passes in order over one database beside the
    destination and renames it into place at the end.  [files] is what the
    directory tree holds: a run leaves a trace of its states, so that a reader of
    the destination can be asked about at every moment.  Of what is printed the
    summary on the standard output is kept; the texts of the errors are left out. *)

From S2P Require Import Prelude GoStrings OptRecord Paths Store Meson Ingest Link Sources Dwarf.
From S2P Require Import DwarfRead CallTarget DwarfIngest Preflight.
From Stdlib Require Import ZArith Lia.
Import Paths.Resolver.

(** ** The [--target] filter *)

Inductive filter_error := ErrUnknownTargets (missing known : list string).

Definition wanted_names (specs : list string) : gset string :=
  list_to_set (List.filter (λ n, negb (String.eqb n "")) (TrimSpace <$> (specs ≫= SplitByte ","))).

(** One round of the loop: [kept] shares the array the targets are read from, so its
    [k]th append writes there. *)
Definition keep_target (wanted : gset string) (st : list Meson.Target * nat * gset string) (i : nat) :
    list Meson.Target * nat * gset string :=
  let '(arr, k, seen) := st in
  match arr !! i with
  | None => st
  | Some t =>
    if bool_decide (Meson.Name t ∈ wanted) then (<[k := t]> arr, S k, {[Meson.Name t]} ∪ seen) else st
  end.

Definition filterTargets (targets : list Meson.Target) (specs : list string) : result filter_error (list Meson.Target) :=
  let wanted := wanted_names specs in
  if bool_decide (wanted = ∅) then Ok targets
  else
    let '(arr, k, seen) := foldl (keep_target wanted) (targets, 0, ∅) (seq 0 (length targets)) in
    match sort_strings (elements (wanted ∖ seen)) with
    | [] => Ok (take k arr)
    | missing => Err (ErrUnknownTargets missing (sort_strings (Meson.Name <$> arr)))
    end.

(** ** The machine

    What the operating system, SQLite and the tools make of the passes' requests. *)

Inductive operation :=
| CreateScratch (path : string)
| CloseScratch
| OpenStore
| InitStore
| StampMeta
| CloseStore
| SealStore
| RenameIndex.

Record machine := Machine {
  m_cwd : string;
  m_exists : string → bool;
  m_json : string → option json;
  m_tree : string → option (list BuildDir.tree);
  m_ls : string → list string;
  m_sections : string → option (list string);
  m_text : string → option string;
  m_gunzip : string → option json;
  m_elf : string → result read_error (elf_file * Data);
  m_link : link_env;
  m_sha256 : string → string;
  m_zstd : string → string;
  m_read : string → read_result;
  m_mtime : string → option Z;
  m_now : string;
  m_random : nat → Z;
  m_does : operation → bool;
}.

Record options := Options {
  o_builddir : string;
  o_project_root : string;
  o_out : string;
  o_strict : bool;
  o_replace : bool;
  o_targets : list string;
  o_external : list string;
}.

(** ** The index the passes make *)

Record index_tables := IndexTables {
  xt_meta : gmap string string;
  xt_compiler : compiler_tables;
  xt_dwarf : dwarf_tables;
  xt_targets : targets_tables;
  xt_link : link_tables;
  xt_sources : Store.BlobStore.tables;
}.

(** What the paths of the file system hold: a database that is being filled (or one
    of its sidecars), a finished index, or anything else. *)
Inductive file := Unfinished | Finished (i : index_tables) | Other (content : string).
Abbreviation files := (gmap string file).

Inductive pass_error :=
| ErrCompiler (e : ingest_error)
| ErrDwarf (e : dwarf_error)
| ErrTargets (e : targets_error)
| ErrLink (e : link_error)
| ErrSources (e : sources_error).

Definition stage {E A} (wrap : E → pass_error) (r : result E A) : result pass_error A :=
  match r with Ok a => Ok a | Err e => Err (wrap e) end.

Section passes.
Context (m : machine) (Version : string).

(** The stamps over what [Init] wrote. *)
Definition stamps (proot : string) (intro : Introspection) : list (string * string) :=
  [("herbarium_version", Version); ("gcc_version", ci_Version (CCompiler intro));
   ("meson_version", MesonVersion intro); ("indexed_at", m_now m); ("project_root_hint", proot)].

Definition meta_of (proot : string) (intro : Introspection) : gmap string string :=
  foldl (λ t kv, <[kv.1 := kv.2]> t) {["schema_version" := SchemaVersion]} (stamps proot intro).

(** The passes in order: the index, and what the last one counted. *)
Definition run_passes (o : options) (globs : list ExternalGlob.ExternalGlob) (intro : Introspection)
    (bd : BuildDir.BuildDir) : outcome (result pass_error (index_tables * SourcesSummary)) :=
  let pr := NewPathResolver (m_cwd m) (o_builddir o) (o_project_root o) in
  match Ingest.Compiler (m_text m) (m_gunzip m) pr bd with
  | Err e => Val (Err (ErrCompiler e))
  | Ok sum =>
    d ← DWARF (m_elf m) pr (st_ids (ct_symbols sum)) bd (after_compiler sum);
    Val (d ← stage ErrDwarf d;
         tt ← stage ErrTargets (Meson.Targets pr intro);
         lt ← stage ErrLink (Link.Link (m_link m) (dt_symbols d) (dt_defs d) bd intro (tt_ids tt) (ct_object_to_source sum));
         let '(w, r) := Sources.Sources (m_sha256 m) (m_zstd m) (m_read m) (m_mtime m) (o_strict o) (m_text m) (m_cwd m)
                          globs pr bd intro Store.BlobStore.empty_tables in
         '(s, _) ← stage ErrSources r;
         Ok (IndexTables (meta_of (o_project_root o) intro) sum d tt lt w, s))
  end.

Definition passes (o : options) (globs : list ExternalGlob.ExternalGlob) (intro : Introspection)
    (bd : BuildDir.BuildDir) : outcome (result pass_error index_tables) :=
  match run_passes o globs intro bd with
  | Val (Ok (i, _)) => Val (Ok i)
  | Val (Err e) => Val (Err e)
  | Panic => Panic
  end.

(** ** The scratch index *)

(** [filepath.Base]: the last element, trailing slashes aside. *)
Definition Base (p : string) : string :=
  if String.eqb p "" then "."
  else default "/" (last (List.filter (λ s, negb (String.eqb s "")) (SplitByte "/" p))).

(** [filepath.Dir]: everything up to the last slash, cleaned. *)
Definition Dir (p : string) : string :=
  Clean (match rev (SplitByte "/" p) with
         | _ :: (_ :: _) as init => Join (rev init) "/" +:+ "/"
         | _ => ""
         end).

Definition base36_digit (d : Z) : ascii := ascii_of_N (Z.to_N (if (d <? 10)%Z then 48 + d else 87 + d)).

(** [strconv.FormatUint(n, 36)]: a 64-bit number has at most thirteen digits. *)
Fixpoint format36 (fuel : nat) (n : Z) (acc : string) : string :=
  match fuel with
  | 0 => acc
  | S fuel =>
    let acc := String (base36_digit (n mod 36)) acc in
    if (n <? 36)%Z then acc else format36 fuel (n / 36) acc
  end.

Definition scratch_prefix (out : string) : string := PathJoin [Dir out; "." +:+ Base out +:+ ".tmp-"].
Definition scratch_name (out : string) (attempt : nat) : string :=
  scratch_prefix out +:+ format36 13 (m_random m attempt) "".

Inductive scratch_error := ErrCollisions | ErrCreate | ErrCloseScratch.

(** The loop of [reserveTempIndex], which gives up after [retries] more collisions. *)
Fixpoint reserve (out : string) (retries attempt : nat) (w : files) : result scratch_error (string * files) :=
  let name := scratch_name out attempt in
  if bool_decide (is_Some (w !! name)) then
    match retries with
    | 0 => Err ErrCollisions
    | S retries => reserve out retries (S attempt) w
    end
  else if negb (m_does m (CreateScratch name)) then Err ErrCreate
  else if negb (m_does m CloseScratch) then Err ErrCloseScratch
  else Ok (name, <[name := Unfinished]> w).

Definition reserveTempIndex (out : string) (w : files) : result scratch_error (string * files) :=
  reserve out (Z.to_nat 10000) 0 w.

Definition sidecars (path : string) : list string := (λ s, path +:+ s) <$> ["-wal"; "-shm"].
Definition remove_all (ps : list string) (w : files) : files := foldr (λ p w, delete p w) w ps.
Definition removeIndexFiles (path : string) (w : files) : files := remove_all (path :: sidecars path) w.

(** ** The command *)

(** A panic leaves the process with its own status. *)
Inductive status := Exit (code : Z) | Crashed.

(** The states of the file system the run goes through, how it ends, and what it has
    printed on the standard output. *)
Record run := Run { r_status : status; r_trace : list files; r_stdout : list string }.

Fixpoint spaces (n : nat) : string := match n with 0 => "" | S n => String " " (spaces n) end.

(** [fmt.Printf("  label: %d\n", n)], the labels padded to one width. *)
Definition label (l : string) : string := "  " +:+ l +:+ ":" +:+ spaces (20 - String.length l).
Definition line (s : string) : string := s +:+ str1 NL.
Definition text_line (l v : string) : string := line (label l +:+ v).
Definition count_line (l : string) (n : nat) : string := text_line l (dec (Z.of_nat n)).

(** What a successful run prints. *)
Definition summary_lines (out : string) (intro : Introspection) (bd : BuildDir.BuildDir) (i : index_tables)
    (s : SourcesSummary) : list string :=
  let c := ct_sum (xt_compiler i) in
  let d := dt_sum (xt_dwarf i) in
  let l := lt_sum (xt_link i) in
  [line ("herbarium collect: " +:+ out +:+ " written");
   text_line "builddir" (BuildDir.Root bd);
   count_line "targets" (length (IntroTargets intro));
   count_line "objects" (length (BuildDir.Objects bd));
   count_line "maps" (length (BuildDir.LinkerMaps bd));
   text_line "gcc" (ci_Version (CCompiler intro));
   text_line "meson" (MesonVersion intro);
   count_line "symbols" (cs_Symbols c);
   count_line "cgraph call edges" (cs_CallEdges c);
   count_line "inline decisions" (cs_InlineDecisions c);
   count_line "inline records" (cs_InlineRecords c);
   count_line "icf groups" (cs_ICFGroups c);
   count_line "signatures" (sum_Signatures d);
   count_line "decl locations" (sum_DeclLocations d);
   count_line "def locations" (sum_DefLocations d);
   count_line "indirect sites" (sum_IndirectSites d);
   count_line "inline instances" (sum_InlineInstances d);
   count_line "link resolutions" (LinkResolutions l);
   count_line "objdump call edges" (ObjdumpEdges l);
   line (label "source files packed" +:+ dec (Files s) +:+ " (" +:+ dec (Blobs s) +:+ " new blobs, " +:+
         dec (Duplicates s) +:+ " deduped, " +:+ dec (GeneratedCount s) +:+ " generated)")] ++
  (if (0 <? GeneratedFiles s)%Z then
     [line (label "generated files" +:+ dec (GeneratedFiles s) +:+ " (" +:+ dec (GeneratedBlobs s) +:+ " new blobs)")]
   else []) ++
  (if (0 <? ExternalFiles s)%Z then
     [line (label "external headers" +:+ dec (ExternalFiles s) +:+ " (" +:+ dec (ExternalBlobs s) +:+ " new blobs)")]
   else []).

Definition parse_globs (raws : list string) : result ExternalGlob.glob_error (list ExternalGlob.ExternalGlob) :=
  mapM_result ExternalGlob.NewExternalGlob raws.

(** From the parsed flags to the preflight, without touching a file; the error is
    the exit code. *)
Definition prepare (o : options) :
    result Z (list ExternalGlob.ExternalGlob * Introspection * BuildDir.BuildDir) :=
  match parse_globs (o_external o) with
  | Err _ => Err 2%Z
  | Ok globs =>
    if String.eqb (o_builddir o) "" || String.eqb (o_project_root o) "" then Err 2%Z
    else match Meson.Load (m_exists m) (m_json m) (o_builddir o) with
    | Err _ => Err 1%Z
    | Ok intro =>
      match filterTargets (IntroTargets intro) (o_targets o) with
      | Err _ => Err 1%Z
      | Ok ts =>
        let intro := MkIntrospection (MesonVersion intro) (SourceDir intro) (IntroBuildDir intro) ts
                       (CCompiler intro) (Dependencies intro) in
        let root := Abs (m_cwd m) (o_builddir o) in
        match m_tree m root with
        | None => Err 1%Z
        | Some entries =>
          let bd := BuildDir.Crawl (m_ls m) root entries in
          if Ok_ (Check_ (m_sections m) intro bd) then Ok (globs, intro, bd) else Err 1%Z
        end
      end
    end
  end.

(** From the reserved scratch file to the rename.  The database is closed on every
    way out, which takes its sidecars away. *)
Definition build (o : options) (globs : list ExternalGlob.ExternalGlob) (intro : Introspection)
    (bd : BuildDir.BuildDir) (tmp : string) (w : files) : run :=
  if negb (m_does m OpenStore) then Run (Exit 1) [w] []
  else
    let open := foldr (λ p w, <[p := Unfinished]> w) w (sidecars tmp) in
    let closed := remove_all (sidecars tmp) open in
    if negb (m_does m InitStore) || negb (m_does m StampMeta) then Run (Exit 1) [open; closed] []
    else match run_passes o globs intro bd with
    | Panic => Run Crashed [open; closed] []
    | Val (Err _) => Run (Exit 1) [open; closed] []
    | Val (Ok (i, s)) =>
      if negb (m_does m CloseStore) then Run (Exit 1) [open; closed] []
      else if negb (m_does m SealStore) then Run (Exit 1) [open; closed] []
      else
        let sealed := <[tmp := Finished i]> closed in
        if negb (m_does m RenameIndex) then Run (Exit 1) [open; closed; sealed] []
        else Run (Exit 0) [open; closed; sealed; <[o_out o := Finished i]> (delete tmp sealed)]
               (summary_lines (o_out o) intro bd i s)
    end.

Definition runCollect (o : options) (w : files) : run :=
  match prepare o with
  | Err code => Run (Exit code) [w] []
  | Ok (globs, intro, bd) =>
    if bool_decide (is_Some (w !! o_out o)) && negb (o_replace o) then Run (Exit 1) [w] []
    else match reserveTempIndex (o_out o) w with
    | Err _ => Run (Exit 1) [w] []
    | Ok (tmp, reserved) =>
      let r := build o globs intro bd tmp reserved in
      Run (r_status r)
        (w :: reserved :: r_trace r ++ [removeIndexFiles tmp (default reserved (last (r_trace r)))])
        (r_stdout r)
    end
  end.
End passes.

(** ** The filter *)

Section filter.
Context (ts : list Meson.Target) (wanted : gset string).

Let kept (l : list Meson.Target) : list Meson.Target := filter (λ t, Meson.Name t ∈ wanted) l.

Lemma keep_targets n :
  n ≤ length ts →
  foldl (keep_target wanted) (ts, 0, ∅) (seq 0 n) =
    (kept (take n ts) ++ drop (length (kept (take n ts))) ts, length (kept (take n ts)),
     list_to_set (Meson.Name <$> kept (take n ts))).
Proof.
  induction n as [|n IH]; intros Hn; [done|].
  rewrite seq_S, foldl_app, IH by lia. cbn [Nat.add foldl]. set (k := kept (take n ts)).
  destruct (lookup_lt_is_Some_2 ts n Hn) as [t Ht].
  assert (length k ≤ n) as Hk.
  { subst k kept. cbn. etrans; [apply length_filter|]. rewrite length_take. lia. }
  assert (kept (take (S n) ts) = k ++ if decide (Meson.Name t ∈ wanted) then [t] else []) as ->.
  { rewrite (take_S_r _ _ t Ht). unfold kept. rewrite filter_app. done. }
  unfold keep_target. rewrite lookup_app_r, lookup_drop by done.
  replace (length k + (n - length k)) with n by lia. rewrite Ht. case_decide as Hw.
  - rewrite bool_decide_true by done. rewrite length_app, fmap_app, list_to_set_app_L. cbn [length fmap list_fmap].
    rewrite insert_app_r_alt, Nat.sub_diag by done.
    destruct (drop (length k) ts) as [|x d] eqn:Ed.
    { apply (f_equal length) in Ed. rewrite length_drop in Ed. simpl in Ed. lia. }
    cbn [insert list_insert]. rewrite Nat.add_1_r, <-app_assoc. cbn [app].
    assert (drop (S (length k)) ts = d) as ->.
    { replace (S (length k)) with (length k + 1) by lia. by rewrite <-drop_drop, Ed. }
    apply (f_equal2 pair); [apply (f_equal2 pair); [done|lia]|cbn; set_solver].
  - rewrite bool_decide_false by done. by rewrite app_nil_r.
Qed.
End filter.

Lemma sort_strings_nil l : sort_strings l = [] ↔ l = [].
Proof.
  split; [|by intros ->]. intros H. apply length_zero_iff_nil.
  rewrite <-(Permutation_length (merge_sort_Permutation String.le l)). by apply length_zero_iff_nil.
Qed.

(** ** Paths *)

Lemma SplitByte_cut c y z : SplitByte c (y +:+ String c z) = SplitByte c y ++ SplitByte c z.
Proof.
  induction y as [|a y IH]; [rewrite sapp_nil_l; simpl; by rewrite Ascii.eqb_refl|]. rewrite sapp_cons. cbn [SplitByte]. rewrite IH.
  destruct (Ascii.eqb a c); [done|]. pose proof (SplitByte_nonempty c y). by destruct (SplitByte c y).
Qed.

Lemma Join_snoc l w sep : l ≠ [] → Join (l ++ [w]) sep = Join l sep +:+ sep +:+ w.
Proof.
  induction l as [|x l IH]; [done|]. intros _. destruct l as [|y l]; [done|].
  change ((x :: y :: l) ++ [w]) with (x :: (y :: l) ++ [w]). rewrite Join_cons by done. rewrite IH by done.
  rewrite (Join_cons x (y :: l)) by done. by rewrite !sapp_assoc.
Qed.

(** A cleaned path ends in its last element when that is an ordinary name. *)
Lemma Clean_last d seg :
  normal seg → Clean (d +:+ "/" +:+ seg) = seg ∨ ∃ y, Clean (d +:+ "/" +:+ seg) = y +:+ "/" +:+ seg.
Proof.
  intros Hn. pose proof Hn as (_ & _ & _ & Hs). unfold Clean, segments. set (b := IsAbs _).
  change ("/" +:+ seg) with (String "/" seg). rewrite SplitByte_cut, (SplitByte_word "/" seg) by done.
  unfold clean_segs. rewrite foldl_app. cbn [foldl]. rewrite clean_seg_normal, reverse_cons by done.
  set (l := reverse _). unfold render. destruct (decide (l = [])) as [->|Hl].
  - destruct b; [|by left]. right. by exists "".
  - rewrite Join_snoc by done. destruct b.
    + right. exists ("/" +:+ Join l "/"). by rewrite sapp_assoc.
    + right. exists (Join l "/"). by destruct l.
Qed.

Lemma Base_app y seg : seg ≠ "" → lacks "/" seg = true → Base (y +:+ "/" +:+ seg) = seg ∧ Base seg = seg.
Proof.
  intros H0 Hs. assert (Base seg = seg) as Hb.
  { unfold Base. rewrite (SplitByte_word "/" seg) by done. cbn. apply String.eqb_neq in H0. by rewrite H0. }
  split; [|done]. unfold Base. change ("/" +:+ seg) with (String "/" seg).
  rewrite SplitByte_cut, (SplitByte_word "/" seg), List.filter_app by done. cbn [List.filter].
  apply String.eqb_neq in H0. rewrite H0. cbn [negb]. rewrite last_snoc.
  destruct (String.eqb_spec (y +:+ String "/" seg) "") as [E|_]; [|done].
  by apply sapp_eq_nil in E as [_ ?].
Qed.

Lemma Base_plain p : Base p ≠ "/" → lacks "/" (Base p) = true.
Proof.
  unfold Base. destruct (String.eqb p ""); [done|]. intros Hne.
  destruct (last _) as [s|] eqn:E; [|done]. cbn in *. apply last_Some_elem_of in E.
  apply list_elem_of_In, List.filter_In in E as [E _]. apply list_elem_of_In in E. by apply SplitByte_no_sep in E.
Qed.

(** The paths a run may put beside the destination. *)
Definition scratch_path (out p : string) : Prop := ∃ r, lacks "/" r = true ∧ p = scratch_prefix out +:+ r.

Lemma out_not_scratch out : Base out ≠ "/" → ¬ scratch_path out out.
Proof.
  intros Hb (r & Hr & Ho). pose proof (Base_plain out Hb) as Hl. set (seg := "." +:+ Base out +:+ ".tmp-").
  assert (lacks "/" seg = true) as Hs by (subst seg; rewrite !lacks_app, Hl; done).
  assert (String.length seg = 6 + String.length (Base out)) as Hlen by (subst seg; rewrite !slen_app; simpl; lia).
  assert (Base out = seg +:+ r) as E; [|rewrite E, slen_app in Hlen; lia].
  assert (normal seg) as Hn by (split_and!; [..|done]; intros E; rewrite E in Hlen; simpl in Hlen; lia).
  assert (lacks "/" (seg +:+ r) = true) as Hsr by (by rewrite lacks_app, Hs, Hr).
  assert (seg +:+ r ≠ "") as Hne by (intros [H _]%sapp_eq_nil; by destruct Hn).
  rewrite Ho. unfold scratch_prefix, PathJoin. fold seg.
  assert (filter (λ s, s ≠ "") [Dir out; seg] = [Dir out; seg]) as ->.
  { rewrite !filter_cons, decide_True; [rewrite decide_True; [done|by destruct Hn]|].
    unfold Dir, Clean. apply render_nonempty, segments_nonempty. }
  change (Join [Dir out; seg] "/") with (Dir out +:+ "/" +:+ seg).
  destruct (Clean_last (Dir out) seg Hn) as [->|[y ->]]; [by apply (Base_app "")|].
  rewrite !sapp_assoc. by apply Base_app.
Qed.

(** ** The scratch files *)

Lemma base36_digit_plain d : (0 ≤ d < 36)%Z → Ascii.eqb (base36_digit d) "/" = false.
Proof.
  intros Hd.
  assert (forallb (λ n, negb (Ascii.eqb (base36_digit (Z.of_nat n)) "/")) (seq 0 36) = true) as Hall by (vm_compute; done).
  rewrite forallb_forall in Hall. specialize (Hall (Z.to_nat d)). rewrite Z2Nat.id in Hall by lia.
  apply negb_true_iff, Hall, in_seq. lia.
Qed.

Lemma format36_plain fuel n acc : (0 ≤ n)%Z → lacks "/" acc = true → lacks "/" (format36 fuel n acc) = true.
Proof.
  revert n acc; induction fuel as [|fuel IH]; intros n acc Hn Hacc; cbn [format36]; [done|].
  assert (lacks "/" (String (base36_digit (n mod 36)) acc) = true) as Hd.
  { unfold lacks. rewrite all_chars_cons, base36_digit_plain by (apply Z.mod_pos_bound; lia). done. }
  destruct (n <? 36)%Z; [done|]. apply IH; [by apply Z.div_pos; lia|done].
Qed.

Section atomic.
Context (m : machine) (Version : string).

(** [rand.Uint64] *)
Definition random_ok : Prop := ∀ n, (0 ≤ m_random m n)%Z.
Context (Hrandom : random_ok).

Lemma scratch_name_path out n : scratch_path out (scratch_name m out n).
Proof. eexists. split; [|done]. by apply format36_plain. Qed.

Lemma sidecar_path out p q : scratch_path out p → q ∈ sidecars p → scratch_path out q.
Proof.
  intros (r & Hr & ->) Hq. unfold sidecars in Hq. apply list_elem_of_fmap in Hq as (s & -> & Hs).
  exists (r +:+ s). rewrite sapp_assoc. split; [|done]. rewrite lacks_app, Hr.
  by repeat (apply elem_of_cons in Hs as [->|Hs]; [done|]); apply elem_of_nil in Hs.
Qed.

Lemma reserve_ok out retries attempt w tmp w' :
  reserve m out retries attempt w = Ok (tmp, w') →
  scratch_path out tmp ∧ w !! tmp = None ∧ w' = <[tmp := Unfinished]> w.
Proof.
  assert (∀ n, w !! scratch_name m out n = None →
    (if negb (m_does m (CreateScratch (scratch_name m out n))) then Err ErrCreate
     else if negb (m_does m CloseScratch) then Err ErrCloseScratch
     else Ok (scratch_name m out n, <[scratch_name m out n := Unfinished]> w)) = Ok (tmp, w') →
    scratch_path out tmp ∧ w !! tmp = None ∧ w' = <[tmp := Unfinished]> w) as Hone.
  { intros n Hn. do 2 (destruct (negb _); [done|]). intros [= <- <-]. split; [apply scratch_name_path|done]. }
  revert attempt; induction retries as [|k IH]; intros attempt; cbn [reserve]; case_bool_decide as Hw;
    [done|apply Hone; by apply eq_None_not_Some|by apply IH|apply Hone; by apply eq_None_not_Some].
Qed.

(** Two states that differ at most in the files [own]. *)
Definition agrees (own : list string) (w s : files) : Prop := ∀ p, p ∉ own → s !! p = w !! p.
Definition own_files (tmp : string) : list string := tmp :: sidecars tmp.

Lemma own_scratch out tmp p : scratch_path out tmp → p ∈ own_files tmp → scratch_path out p.
Proof. intros Ht [->|Hp]%elem_of_cons; [done|by eapply sidecar_path]. Qed.

Lemma agrees_insert own w s p f : p ∈ own → agrees own w s → agrees own w (<[p := f]> s).
Proof. intros Hp Hs q Hq. rewrite lookup_insert_ne; [by apply Hs|]. by intros ->. Qed.
Lemma agrees_delete own w s p : p ∈ own → agrees own w s → agrees own w (delete p s).
Proof. intros Hp Hs q Hq. rewrite lookup_delete_ne; [by apply Hs|]. by intros ->. Qed.
Lemma agrees_fold own w s ps (f : string → files → files) :
  (∀ p s, p ∈ own → agrees own w s → agrees own w (f p s)) → ps ⊆ own → agrees own w s → agrees own w (foldr f s ps).
Proof.
  intros Hf Hp Hs. induction ps as [|p ps IH]; [done|]. cbn. apply Hf; [set_solver|]. apply IH. set_solver.
Qed.

Lemma lookup_remove_all ps (w : files) p : remove_all ps w !! p = if decide (p ∈ ps) then None else w !! p.
Proof.
  induction ps as [|q ps IH]; [by rewrite decide_False by apply not_elem_of_nil|].
  change (remove_all (q :: ps) w) with (delete q (remove_all ps w)). destruct (decide (p = q)) as [->|Hne].
  - rewrite lookup_delete_eq, decide_True by left. done.
  - rewrite lookup_delete_ne, IH by done. destruct (decide (p ∈ ps)); [by rewrite decide_True by (by right)|].
    rewrite decide_False; [done|]. by intros [?|?]%elem_of_cons.
Qed.

Lemma remove_own tmp (w s : files) : agrees (own_files tmp) w s → removeIndexFiles tmp s = remove_all (own_files tmp) w.
Proof.
  intros Hs. apply map_eq. intros p. unfold removeIndexFiles. rewrite !lookup_remove_all.
  fold (own_files tmp). case_decide; [done|]. by apply Hs.
Qed.

(** Every state of the building leaves the rest of the file system alone, or has
    replaced the destination by what the passes made; the last does so exactly on
    success. *)
Lemma build_trace o globs intro bd tmp w s0 :
  o_out o ∉ own_files tmp → agrees (own_files tmp) w s0 →
  let r := build m Version o globs intro bd tmp s0 in
  (∃ i, passes m Version o globs intro bd = Val (Ok i) ∧ r_status r = Exit 0 ∧
     (∀ s, s ∈ r_trace r → agrees (own_files tmp) w s ∨ agrees (own_files tmp) (<[o_out o := Finished i]> w) s) ∧
     ∃ s, last (r_trace r) = Some s ∧ agrees (own_files tmp) (<[o_out o := Finished i]> w) s) ∨
  (r_status r ≠ Exit 0 ∧ (∀ s, s ∈ r_trace r → agrees (own_files tmp) w s) ∧
     ∃ s, last (r_trace r) = Some s ∧ agrees (own_files tmp) w s).
Proof.
  intros Hout H0. cbn zeta. unfold build. destruct (negb (m_does m OpenStore)).
  { right. split; [done|]. split; [set_solver|by exists s0]. }
  set (open := foldr _ s0 _). set (closed := remove_all _ open).
  assert (sidecars tmp ⊆ own_files tmp) as Hsub by (intros p Hp; by right).
  assert (agrees (own_files tmp) w open) as Ho.
  { apply agrees_fold; [|done..]. intros p s. apply agrees_insert. }
  assert (agrees (own_files tmp) w closed) as Hc.
  { apply agrees_fold; [|done..]. intros p s. apply agrees_delete. }
  clearbody open closed. set (sealed i := <[tmp := Finished i]> closed).
  assert (∀ i, agrees (own_files tmp) w (sealed i)) as Hse by (intros i; apply agrees_insert; [left|done]).
  assert (∀ c, c ≠ Exit 0 → c ≠ Exit 0 ∧ (∀ s, s ∈ [open; closed] → agrees (own_files tmp) w s) ∧
    ∃ s, last [open; closed] = Some s ∧ agrees (own_files tmp) w s) as Hfail.
  { intros c Hne. split; [done|]. split; [set_solver|by exists closed]. }
  destruct (_ || _); [right; by apply Hfail|].
  unfold passes. destruct (run_passes _ _ _ _ _ _) as [[[i sm]|e]|]; [|right; by apply Hfail..].
  destruct (negb (m_does m CloseStore)); [right; by apply Hfail|].
  destruct (negb (m_does m SealStore)); [right; by apply Hfail|]. fold (sealed i).
  destruct (negb (m_does m RenameIndex)).
  { right. split; [done|]. split; [set_solver|]. by exists (sealed i). }
  assert (agrees (own_files tmp) (<[o_out o := Finished i]> w) (<[o_out o := Finished i]> (delete tmp (sealed i)))) as Hr.
  { intros p Hp. destruct (decide (p = o_out o)) as [->|Hne]; [by rewrite !lookup_insert_eq|].
    rewrite !lookup_insert_ne by done. apply (agrees_delete (own_files tmp)); [left|apply Hse|done]. }
  left. exists i. split; [done|]. split; [done|]. split; [|by eexists].
  cbn [r_trace]. intros s Hs. repeat (apply elem_of_cons in Hs as [->|Hs]; [auto|]). by apply elem_of_nil in Hs.
Qed.

Lemma collect_trace o w :
  Base (o_out o) ≠ "/" →
  let r := runCollect m Version o w in
  ∃ own, (∀ p, p ∈ own → scratch_path (o_out o) p) ∧
  ((∃ globs intro bd i, prepare m o = Ok (globs, intro, bd) ∧ passes m Version o globs intro bd = Val (Ok i) ∧
      (o_replace o = true ∨ w !! o_out o = None) ∧ r_status r = Exit 0 ∧
      (∀ s, s ∈ r_trace r → agrees own w s ∨ agrees own (<[o_out o := Finished i]> w) s) ∧
      last (r_trace r) = Some (remove_all own (<[o_out o := Finished i]> w))) ∨
   (r_status r ≠ Exit 0 ∧ (∀ s, s ∈ r_trace r → agrees own w s) ∧ last (r_trace r) = Some (remove_all own w))).
Proof.
  intros Hb. cbn zeta. unfold runCollect.
  assert (∀ c, c ≠ Exit 0 → ∃ own, (∀ p, p ∈ own → scratch_path (o_out o) p) ∧
    (c ≠ Exit 0 ∧ (∀ s, s ∈ [w] → agrees own w s) ∧ last [w] = Some (remove_all own w))) as Hearly.
  { intros c Hc. exists []. split; [set_solver|]. split; [done|]. split; [|done]. by intros s ->%list_elem_of_singleton. }
  assert (∀ code, prepare m o = Err code → Exit code ≠ Exit 0) as Hcode.
  { intros code. unfold prepare. repeat case_match; intros [= <-]; done. }
  destruct (prepare m o) as [[[globs intro] bd]|code].
  2:{ destruct (Hearly (Exit code)) as (own & ? & ?); [by apply Hcode|]. exists own. split; [done|by right]. }
  destruct (bool_decide _ && _) eqn:Eg.
  { destruct (Hearly (Exit 1)) as (own & ? & ?); [done|]. exists own. split; [done|by right]. }
  destruct (reserveTempIndex m (o_out o) w) as [[tmp w']|e] eqn:Er.
  2:{ destruct (Hearly (Exit 1)) as (own & ? & ?); [done|]. exists own. split; [done|by right]. }
  apply reserve_ok in Er as (Htmp & Hfresh & ->). exists (own_files tmp).
  assert (∀ p, p ∈ own_files tmp → scratch_path (o_out o) p) as Hown by (intros p; by apply own_scratch).
  split; [done|]. set (w' := <[tmp := Unfinished]> w).
  assert (agrees (own_files tmp) w w') as Hw' by (apply agrees_insert; [left|done]).
  destruct (build_trace o globs intro bd tmp w w') as [(i & Hp & Hs & Htr & sl & Hl & Hsl)|(Hs & Htr & sl & Hl & Hsl)]; [|done|left|right].
  - intros Hin. by apply (out_not_scratch (o_out o) Hb), Hown.
  - exists globs, intro, bd, i. cbn [r_status r_trace]. rewrite Hl. change (default w' (Some sl)) with sl. split_and!; try done.
    + apply andb_false_iff in Eg as [Eg%bool_decide_eq_false|Eg%negb_false_iff]; [right|by left].
      by apply eq_None_not_Some.
    + intros s [->|[->|[Hin|Hin%list_elem_of_singleton]%elem_of_app]%elem_of_cons]%elem_of_cons; [by left..|by apply Htr|].
      subst s. right. rewrite (remove_own _ _ _ Hsl). intros p Hp'. by rewrite lookup_remove_all, decide_False.
    + rewrite !last_cons, last_snoc. by rewrite (remove_own _ _ _ Hsl).
  - cbn [r_status r_trace]. rewrite Hl. change (default w' (Some sl)) with sl. split_and!; try done.
    + intros s [->|[->|[Hin|Hin%list_elem_of_singleton]%elem_of_app]%elem_of_cons]%elem_of_cons; [done..|by apply Htr|].
      subst s. rewrite (remove_own _ _ _ Hsl). intros p Hp'. by rewrite lookup_remove_all, decide_False.
    + rewrite !last_cons, last_snoc. by rewrite (remove_own _ _ _ Hsl).
Qed.
End atomic.

(** ** Properties *)

(** What a run may do to the files [w], the destination and its own scratch files
    apart: nothing. *)
Record atomic_run (m : machine) (Version : string) (o : options) (w : files) (r : run) : Prop := {
  ar_elsewhere : ∀ s p, s ∈ r_trace r → ¬ scratch_path (o_out o) p → p ≠ o_out o → s !! p = w !! p;
  ar_always : ∀ s, s ∈ r_trace r → s !! o_out o = w !! o_out o ∨
    r_status r = Exit 0 ∧ (o_replace o = true ∨ w !! o_out o = None) ∧
    ∃ globs intro bd i, passes m Version o globs intro bd = Val (Ok i) ∧ s !! o_out o = Some (Finished i);
  ar_end : ∃ s, last (r_trace r) = Some s ∧ dom s ⊆ {[o_out o]} ∪ dom w ∧
    (r_status r = Exit 0 → ∃ globs intro bd i, prepare m o = Ok (globs, intro, bd) ∧
       passes m Version o globs intro bd = Val (Ok i) ∧ s !! o_out o = Some (Finished i)) ∧
    (r_status r ≠ Exit 0 → s !! o_out o = w !! o_out o);
}.

(** C13: A run changes nothing but the destination and scratch files beside it.  At
    every moment the destination is what it was, or, in a run that ends well, the
    finished index of the passes; a run that fails leaves it as it was, no scratch
    file stays behind, and an existing one is replaced only when asked for. *)
Theorem collect_atomic m Version o w :
  random_ok m → Base (o_out o) ≠ "/" → atomic_run m Version o w (runCollect m Version o w).
Proof.
  intros Hr Hb. pose proof (out_not_scratch _ Hb) as Hns.
  destruct (collect_trace m Version Hr o w Hb) as (own & Hown & [(globs & intro & bd & i & Hp & Hi & Hg & Hs & Ht & Hl)|(Hs & Ht & Hl)]).
  - assert (o_out o ∉ own) as Hout by (intros H; by apply Hns, Hown). split.
    + intros s p [Ha|Ha]%Ht Hps Hpo; rewrite (Ha p) by (intros H; by apply Hps, Hown); [done|by apply lookup_insert_ne].
    + intros s [Ha|Ha]%Ht; [left; by apply Ha|]. right. split; [done|]. split; [done|]. exists globs, intro, bd, i.
      split; [done|]. rewrite Ha by done. apply lookup_insert_eq.
    + eexists. split; [exact Hl|]. split; [|split; [intros _|done]].
      * intros p [f Hf]%elem_of_dom. rewrite lookup_remove_all in Hf. case_decide; [done|].
        apply lookup_insert_Some in Hf as [[<- _]|[_ Hf]]; [set_solver|]. apply elem_of_dom_2 in Hf. set_solver.
      * exists globs, intro, bd, i. split_and!; try done. rewrite lookup_remove_all, decide_False by done. apply lookup_insert_eq.
  - assert (o_out o ∉ own) as Hout by (intros H; by apply Hns, Hown). split.
    + intros s p Ha%Ht Hps _. apply Ha. intros H. by apply Hps, Hown.
    + intros s Ha%Ht. left. by apply Ha.
    + eexists. split; [exact Hl|]. split; [|split; [done|intros _; by rewrite lookup_remove_all, decide_False]].
      intros p [f Hf]%elem_of_dom. rewrite lookup_remove_all in Hf. case_decide; [done|]. apply elem_of_dom_2 in Hf. set_solver.
Qed.

(** The target filter keeps, in order, exactly the targets asked for; when one
    asked for does not exist it names those that are missing.  The known targets
    it lists are read from the array it has filtered in place, so the kept ones
    stand where others were. *)
Theorem filterTargets_exact ts specs :
  let wanted := wanted_names specs in
  let kept := filter (λ t, Meson.Name t ∈ wanted) ts in
  match filterTargets ts specs with
  | Ok l => (wanted = ∅ ∧ l = ts) ∨ (wanted ≠ ∅ ∧ l = kept ∧ ∀ n, n ∈ wanted → n ∈ Meson.Name <$> ts)
  | Err (ErrUnknownTargets missing known) =>
      missing ≠ [] ∧ (∀ n, n ∈ missing ↔ n ∈ wanted ∧ n ∉ Meson.Name <$> ts) ∧ NoDup missing ∧
      known = sort_strings (Meson.Name <$> kept ++ drop (length kept) ts)
  end.
Proof.
  cbn zeta. unfold filterTargets. set (wanted := wanted_names specs). case_bool_decide as Hw; [by left|].
  rewrite keep_targets by done. rewrite take_ge by done. set (kept := filter _ ts).
  assert (∀ n, n ∈ wanted ∖ list_to_set (Meson.Name <$> kept) ↔ n ∈ wanted ∧ n ∉ Meson.Name <$> ts) as Hm.
  { intros n. rewrite elem_of_difference, elem_of_list_to_set, !list_elem_of_fmap. subst kept. setoid_rewrite list_elem_of_filter.
    naive_solver. }
  destruct (sort_strings (elements _)) as [|x missing] eqn:E.
  - right. split; [done|]. apply sort_strings_nil, elements_empty_iff in E. rewrite take_app_length.
    split; [done|]. intros n Hn. destruct (decide (n ∈ Meson.Name <$> ts)) as [|Hn']; [done|].
    exfalso. assert (n ∈ wanted ∖ list_to_set (Meson.Name <$> kept)) as Hin by (by apply Hm). set_solver.
  - rewrite <-E. split; [by rewrite E|]. split; [|split; [|done]].
    + intros n. rewrite elem_of_sort_strings, elem_of_elements. apply Hm.
    + unfold sort_strings. rewrite merge_sort_Permutation. apply NoDup_elements.
Qed.

(** Asked for [b] and for one that does not exist, the message lists [b] twice and
    leaves the existing [a] out. *)
Example known_targets_mangled :
  let target n := MkTarget n (n +:+ "@exe") "executable" "" [] [] [] None None [] false "" in
  filterTargets [target "a"; target "b"; target "c"] ["b,zzz"] = Err (ErrUnknownTargets ["zzz"] ["b"; "b"; "c"]).
Proof. vm_compute. done. Qed.

(** What the preflight lets through. *)
Lemma prepare_prepared m o globs intro bd :
  prepare m o = Ok (globs, intro, bd) → prepared (m_sections m) intro bd.
Proof.
  unfold prepare. repeat case_match; try done. intros [= <- <- <-]. by apply Check_prepared.
Qed.

(** ** Example

    The project of the DWARF pass's example as one executable. *)

Definition ex_json (p : string) : option json :=
  if String.eqb p "/p/build/meson-info/meson-info.json" then
    Some (JObj [("meson_version", JObj [("full", JStr "1.3")])])
  else if String.eqb p "/p/build/meson-info/intro-targets.json" then
    Some (JArr [JObj [("name", JStr "prog"); ("type", JStr "executable"); ("filename", JArr [JStr "/b/prog"]);
                      ("target_sources", JArr [JObj [("language", JStr "c"); ("sources", JArr [JStr "/p/a.c"])]])]])
  else if String.eqb p "/p/build/meson-info/intro-compilers.json" then
    Some (JObj [("host", JObj [("c", JObj [("version", JStr "13.2.0")])])])
  else Some (JArr []).

Definition ex_text (p : string) : option string :=
  if String.eqb p "/p/build/a.ci" then Some (unlines ["graph: { title: " +:+ str1 DQ +:+ "/p/a.c" +:+ str1 DQ])
  else if String.eqb p "/p/build/a.000i.cgraph" then Some (unlines (Cgraph.print_cgraph Cgraph.ex_names Cgraph.ex_parts))
  else if String.eqb p "/p/build/a.c.opt-record.json.gz" then Some "records"
  else None.

Definition ex_machine : machine :=
  Machine "/p" (λ _, true) ex_json (λ _, Some [BuildDir.File "a.o"])
    (λ _, ["a.000i.cgraph"; "a.c.opt-record.json.gz"; "a.ci"; "a.o"]) (λ _, Some [".text"; ".debug_info"]) ex_text
    (λ _, Some (JArr [ex_meta; ex_tree; JArr []])) ex_elfs ex_env (λ s, "sha:" +:+ s) (λ s, s)
    (λ p, if String.eqb p "/p/a.c" then Content "int main;" else NotExist) (λ _, Some 1%Z) "2025-01-01T00:00:00Z"
    Z.of_nat (λ _, true).

Definition ex_options : options := Options "/p/build" "/p" "/tmp/x.hbr" true true ["prog"] [].
Definition ex_before : files := {["/tmp/x.hbr" := Other "old"; "/tmp/notes" := Other "n"]}.

Lemma collect_atomic_witness :
  random_ok ex_machine ∧ Base (o_out ex_options) ≠ "/" ∧
  r_status (runCollect ex_machine "dev" ex_options ex_before) = Exit 0 ∧
  length (r_trace (runCollect ex_machine "dev" ex_options ex_before)) = 7 ∧
  atomic_run ex_machine "dev" ex_options ex_before (runCollect ex_machine "dev" ex_options ex_before).
Proof.
  assert (random_ok ex_machine) as Hr by (intros n; apply Nat2Z.is_nonneg).
  split; [done|]. split; [by_decide|]. split; [vm_compute; reflexivity|]. split; [vm_compute; reflexivity|].
  apply (collect_atomic ex_machine "dev" ex_options ex_before Hr). by_decide.
Defined.
