(* ===== verification/EndToEnd.v ===== *)
(** * The passes together

    What holds of an index that a run of all the passes ([Collect.passes]) made, and
    of the tools' answers over it.  The write connection enforces foreign keys, so
    [intact] is also why no insert of a pass can fail on one. *)

From S2P Require Import Prelude GoStrings Cgraph GccDumps OptRecord Paths Store Meson Ingest Link.
From S2P Require Import Sources CallGraph SourceTools Dwarf DwarfRead CallTarget DwarfIngest SymbolTools Reload Preflight.
From S2P Require Import Collect.
From Stdlib Require Import ZArith Lia.

(** ** Foreign keys *)

Section compiler.
Context (st : symbol_tables) (Hst : rows_ok st).
Let valid (i : Z) : Prop := i ∈ s_id <$> st_symbols st.

Lemma ids_valid u i : st_ids st !! u = Some i → valid i.
Proof. intros H. apply (rows_ids _ Hst) in H as (r & Hr & _ & <-). by apply list_elem_of_fmap_2. Qed.

Lemma resolve_ids_valid res a b k : resolve_ids res (st_ids st) a b = Some k → valid k.1 ∧ valid k.2.
Proof.
  unfold resolve_ids. destruct (resolve_pair res a b) as [[u v]|]; [|done]. cbn.
  destruct (st_ids st !! u) as [i|] eqn:Ei; [|done]. cbn. destruct (st_ids st !! v) as [j|] eqn:Ej; [|done].
  intros [= <-]. split; by eapply ids_valid.
Qed.

Lemma inline_record_valid pr root o res r row :
  inline_record pr root o res (st_ids st) r = Some row → valid (ir_caller row) ∧ valid (ir_callee row).
Proof.
  unfold inline_record. destruct (st_ids st !! default "" (res !! CallerLocalID r)) as [i|] eqn:Ei; [|done]. cbn [mbind option_bind].
  destruct (st_ids st !! default "" (res !! CalleeLocalID r)) as [j|] eqn:Ej; [|done].
  intros [= <-]. split; by eapply ids_valid.
Qed.

Record icf_ok (t : icf_tables) : Prop := {
  icf_groups_ok : ∀ g, g ∈ it_groups t → valid (g_winner g);
  icf_members_ok : ∀ x, x ∈ it_members t → m_group x ∈ g_id <$> it_groups t ∧ valid (m_symbol x);
}.

Lemma insert_members_elem gid losers ms ms' :
  foldM (insert_member gid) losers ms = Ok ms' → ∀ x, x ∈ ms' → x ∈ ms ∨ m_group x = gid ∧ m_symbol x ∈ losers.
Proof.
  intros H. pattern ms'. revert H. apply foldM_inv; [by left|].
  intros l s s' Hl IH. unfold insert_member. case_bool_decide; [done|]. intros [= <-] x [Hx| ->%list_elem_of_singleton]%elem_of_app;
    [by apply IH|by right].
Qed.

Lemma insert_group_icf object tu res t g t' :
  insert_group object (buildNameToSymbolID tu res (st_ids st)) t g = Ok t' → icf_ok t → icf_ok t'.
Proof.
  set (names := buildNameToSymbolID _ _ _).
  assert (∀ n i, names !! n = Some i → valid i) as Hn.
  { intros n i. subst names. unfold buildNameToSymbolID. rewrite lookup_omap_Some. intros (u & Hu & _). by eapply ids_valid. }
  unfold insert_group. destruct (names !! Icf.WinnerName g) as [w|] eqn:Ew; [|by intros [= <-]].
  destruct (filter _ _) as [|l losers] eqn:El; [by intros [= <-]|]. cbn [fmap result_fmap].
  destruct (foldM _ _ _) as [ms|] eqn:Em; [|done]. intros [= <-] [Hg Hm]. split; cbn.
  - intros x [Hx| ->%list_elem_of_singleton]%elem_of_app; [by apply Hg|]. by eapply Hn.
  - intros x [Hx|[Hgid Hs]]%(insert_members_elem _ _ _ _ Em).
    + apply Hm in Hx as [? ?]. split; [|done]. rewrite fmap_app. set_solver.
    + rewrite Hgid, fmap_app. split; [set_solver|]. rewrite <-El in Hs. apply list_elem_of_filter in Hs as [_ Hs].
      apply list_elem_of_omap in Hs as (n & _ & Hs). by eapply Hn.
Qed.

Lemma insertICFGroups_ok root tus resolves t :
  insertICFGroups root tus resolves (st_ids st) = Ok t → icf_ok t.
Proof.
  apply (foldM_inv icf_ok); [by split; cbn; set_solver|]. intros tu s s' _ Hs.
  destruct (tu_icf tu) as [gs|]; [|by intros [= <-]]. destruct (tu_cgraph tu); [|by intros [= <-]].
  destruct (resolves !! tu_object tu) as [res|]; [|by intros [= <-]].
  apply (foldM_inv icf_ok); [done|]. intros g t0 t1 _ H0 H1. by eapply insert_group_icf.
Qed.
End compiler.

(** Every row of the compiler pass refers to symbol rows of its own. *)
Record compiler_intact (ct : compiler_tables) : Prop := {
  ci_rows : rows_ok (ct_symbols ct);
  ci_usrs : NoDup (s_usr <$> st_symbols (ct_symbols ct));
  ci_defs : ∀ d, d ∈ st_defs (ct_symbols ct) → d_symbol_id d ∈ s_id <$> st_symbols (ct_symbols ct);
  ci_edges : ∀ k, k ∈ ct_edges ct → k.1 ∈ s_id <$> st_symbols (ct_symbols ct) ∧ k.2 ∈ s_id <$> st_symbols (ct_symbols ct);
  ci_decisions : ∀ d, d ∈ ct_inline_decisions ct → (id_caller d, id_callee d) ∈ ct_edges ct;
  ci_records : ∀ r, r ∈ ct_inline_records ct →
    ir_caller r ∈ s_id <$> st_symbols (ct_symbols ct) ∧ ir_callee r ∈ s_id <$> st_symbols (ct_symbols ct);
  ci_icf : icf_ok (ct_symbols ct) (ct_icf ct);
}.

Lemma insert_symbol_defs (l : list symbolRec) :
  let t := foldl insert_symbol (SymbolTables [] [] ∅) l in
  ∀ d, d ∈ st_defs t → d_symbol_id d ∈ s_id <$> st_symbols t.
Proof.
  apply (foldl_inv (λ t, ∀ d, d ∈ st_defs t → d_symbol_id d ∈ s_id <$> st_symbols t)); [set_solver|].
  intros t s _ IH d. cbn. rewrite fmap_app. intros [Hd|(x & -> & _)%list_elem_of_fmap]%elem_of_app; set_solver.
Qed.

Lemma ingest_intact pr root tus ct : ingest_tus pr root tus = Ok ct → compiler_intact ct.
Proof.
  unfold ingest_tus. pose proof (aggregate_all_ok pr tus) as Hagg. destruct (aggregate_all pr tus) as [symbols resolves].
  cbn in Hagg. destruct Hagg as (Hk & _ & _). set (pruned := pruneUnreferenced _ _).
  destruct (insertSymbols_ok pruned (prune_keyed _ _ Hk)) as (Hok & Hu & _).
  destruct (insertICFGroups _ _ _ _) as [icf|] eqn:Ei; [|done]. intros [= <-].
  split; cbn [ct_symbols ct_edges ct_inline_decisions ct_inline_records ct_icf].
  - done.
  - rewrite Hu. apply NoDup_sorted_keys.
  - apply insert_symbol_defs.
  - intros k (tu & res & cg & c & _ & _ & _ & _ & Hr)%insertEdges_rows. by eapply resolve_ids_valid.
  - intros d. rewrite insertDecisions_spec. intros (kv & -> & Hkv%elem_of_map_to_list')%list_elem_of_fmap. cbn [id_caller id_callee].
    rewrite <-surjective_pairing. rewrite insertEdges_tus in Hkv |- *.
    destruct (insert_edges_inv (all_edges tus resolves (st_ids (insertSymbols pruned)))) as (_ & _ & -> & Hf).
    rewrite Hf in Hkv. by destruct (decide _).
  - intros r. rewrite insertInlineRecords_rows, list_elem_of_bind. intros (tu & Hr & _).
    destruct (tu_optRec tu) as [rs|]; [|set_solver]. destruct (resolves !! tu_object tu) as [res|]; [|set_solver].
    apply list_elem_of_omap in Hr as (x & _ & Hx). by eapply inline_record_valid.
  - by eapply insertICFGroups_ok.
Qed.

Lemma Compiler_intact fs json_of pr bd ct : Ingest.Compiler fs json_of pr bd = Ok ct → compiler_intact ct.
Proof.
  unfold Ingest.Compiler. destruct (mapM_result _ _) as [tus|]; [|done]. cbn [mbind result_bind]. apply ingest_intact.
Qed.

Import Store.BlobStore.

(** ** What a successful run of the passes is *)

Record made (m : machine) (Version : string) (o : options) (globs : list ExternalGlob.ExternalGlob)
    (intro : Introspection) (bd : BuildDir.BuildDir) (i : index_tables) : Prop := {
  mk_compiler : Ingest.Compiler (m_text m) (m_gunzip m)
    (Resolver.NewPathResolver (m_cwd m) (o_builddir o) (o_project_root o)) bd = Ok (xt_compiler i);
  mk_dwarf : DWARF (m_elf m) (Resolver.NewPathResolver (m_cwd m) (o_builddir o) (o_project_root o))
    (st_ids (ct_symbols (xt_compiler i))) bd (after_compiler (xt_compiler i)) = Val (Ok (xt_dwarf i));
  mk_targets : Meson.Targets (Resolver.NewPathResolver (m_cwd m) (o_builddir o) (o_project_root o)) intro = Ok (xt_targets i);
  mk_link : Link.Link (m_link m) (dt_symbols (xt_dwarf i)) (dt_defs (xt_dwarf i)) bd intro (tt_ids (xt_targets i))
    (ct_object_to_source (xt_compiler i)) = Ok (xt_link i);
  mk_sources : ∃ sum, Sources.Sources (m_sha256 m) (m_zstd m) (m_read m) (m_mtime m) (o_strict o) (m_text m) (m_cwd m)
    globs (Resolver.NewPathResolver (m_cwd m) (o_builddir o) (o_project_root o)) bd intro empty_tables =
      (xt_sources i, Ok sum);
  mk_meta : xt_meta i = meta_of m Version (o_project_root o) intro;
}.

(** What the run prints comes from the same passes. *)
Lemma run_passes_made m Version o globs intro bd i s :
  run_passes m Version o globs intro bd = Val (Ok (i, s)) →
  made m Version o globs intro bd i ∧
  ∃ hits, Sources.Sources (m_sha256 m) (m_zstd m) (m_read m) (m_mtime m) (o_strict o) (m_text m) (m_cwd m)
    globs (Resolver.NewPathResolver (m_cwd m) (o_builddir o) (o_project_root o)) bd intro empty_tables =
      (xt_sources i, Ok (s, hits)).
Proof.
  unfold run_passes. set (pr := Resolver.NewPathResolver _ _ _).
  destruct (Ingest.Compiler _ _ pr bd) as [ct|] eqn:E1; [|done].
  destruct (DWARF _ pr _ bd _) as [[d|]|] eqn:E2; [|done..]. cbn [mbind outcome_bind stage result_bind].
  destruct (Meson.Targets pr intro) as [tt|] eqn:E3; [|done]. cbn [stage mbind result_bind].
  destruct (Link.Link _ _ _ _ _ _ _) as [lt|] eqn:E4; [|done]. cbn [stage mbind result_bind].
  destruct (Sources.Sources _ _ _ _ _ _ _ _ pr _ _ _) as [w [[s' hits]|]] eqn:E5; [|done]. cbn [stage mbind result_bind].
  intros [= <- <-]. split; [|by exists hits]. split; [done..| |done]. by exists (s', hits).
Qed.

Lemma passes_run m Version o globs intro bd i :
  passes m Version o globs intro bd = Val (Ok i) ↔ ∃ s, run_passes m Version o globs intro bd = Val (Ok (i, s)).
Proof. unfold passes. destruct (run_passes _ _ _ _ _ _) as [[[]|]|]; naive_solver. Qed.

Lemma passes_made m Version o globs intro bd i :
  passes m Version o globs intro bd = Val (Ok i) → made m Version o globs intro bd i.
Proof. intros [s [? _]%run_passes_made]%passes_run. done. Qed.

(** ** The tables the tools read *)

Definition cgraph_rows (ct : compiler_tables) : list edge_row :=
  (λ k, EdgeRow k.1 k.2 "compiler_cgraph" None) <$> ct_edges ct.

Definition graph_of (i : index_tables) : index :=
  Index (dt_symbols (xt_dwarf i)) (tt_targets (xt_targets i)) (cgraph_rows (xt_compiler i) ++ lt_edges (xt_link i))
    (lt_resolutions (xt_link i)).

Definition tools_of (i : index_tables) : tool_index :=
  ToolIndex (graph_of i) (SourceIndex (xt_sources i) (tt_targets (xt_targets i)) (tt_sources (xt_targets i)))
    (dt_defs (xt_dwarf i)) (dt_indirect (xt_dwarf i)) (dt_types (xt_dwarf i)) (dt_fields (xt_dwarf i))
    (dt_constants (xt_dwarf i)) (it_groups (ct_icf (xt_compiler i))) (it_members (ct_icf (xt_compiler i))).

Section intact.
Context (i : index_tables).

Definition symbol_id (x : Z) : Prop := x ∈ s_id <$> dt_symbols (xt_dwarf i).
Definition target_row_id (x : Z) : Prop := x ∈ t_id <$> tt_targets (xt_targets i).
Definition type_id (x : Z) : Prop := x ∈ ty_id <$> dt_types (xt_dwarf i).
Definition has_blob (h : string) : Prop := is_Some (blobs (xt_sources i) !! h).

(** Every reference of the schema, and the keys. *)
Record intact : Prop := {
  fk_symbols : NoDup (s_id <$> dt_symbols (xt_dwarf i)) ∧ NoDup (s_usr <$> dt_symbols (xt_dwarf i));
  fk_targets : NoDup (t_id <$> tt_targets (xt_targets i)) ∧ NoDup (t_name <$> tt_targets (xt_targets i));
  fk_types : NoDup (ty_id <$> dt_types (xt_dwarf i)) ∧ NoDup (ty_usr <$> dt_types (xt_dwarf i));
  fk_defs : ∀ d, d ∈ dt_defs (xt_dwarf i) → symbol_id (d_symbol_id d);
  fk_edges : ∀ e, e ∈ ix_edges (graph_of i) → symbol_id (e_caller e) ∧ symbol_id (e_callee e) ∧
    ∀ t, e_target e = Some t → target_row_id t;
  fk_decisions : ∀ d, d ∈ ct_inline_decisions (xt_compiler i) → symbol_id (id_caller d) ∧ symbol_id (id_callee d);
  fk_records : ∀ r, r ∈ ct_inline_records (xt_compiler i) → symbol_id (ir_caller r) ∧ symbol_id (ir_callee r);
  fk_icf : (∀ g, g ∈ it_groups (ct_icf (xt_compiler i)) → symbol_id (g_winner g)) ∧
    ∀ x, x ∈ it_members (ct_icf (xt_compiler i)) →
      m_group x ∈ g_id <$> it_groups (ct_icf (xt_compiler i)) ∧ symbol_id (m_symbol x);
  fk_indirect : ∀ r, r ∈ dt_indirect (xt_dwarf i) → symbol_id (is_caller r);
  fk_instances : ∀ r, r ∈ dt_instances (xt_dwarf i) →
    symbol_id (ii_callee r) ∧ symbol_id (ii_caller r) ∧ ∀ p, ii_parent r = Some p → symbol_id p;
  fk_fields : ∀ f, f ∈ dt_fields (xt_dwarf i) → type_id (tf_type f);
  fk_constants : ∀ c, c ∈ dt_constants (xt_dwarf i) → type_id (ec_type c);
  fk_target_sources : ∀ r, r ∈ tt_sources (xt_targets i) → target_row_id (ts_target_id r);
  fk_resolutions : ∀ r, r ∈ lt_resolutions (xt_link i) →
    lr_usr r ∈ s_usr <$> dt_symbols (xt_dwarf i) ∧ target_row_id (lr_target r);
  fk_sources : (∀ p r, sources (xt_sources i) !! p = Some r → has_blob (src_blob r)) ∧
    (∀ p h, external_sources (xt_sources i) !! p = Some h → has_blob h) ∧
    (∀ p h, generated_sources (xt_sources i) !! p = Some h → has_blob h);
}.
End intact.

(** The DWARF pass keeps the keys of the rows it enriches. *)
Lemma DWARF_keys elf pr ids bd db t :
  DWARF elf pr ids bd db = Val (Ok t) →
  s_id <$> dt_symbols t = s_id <$> dt_symbols db ∧ s_usr <$> dt_symbols t = s_usr <$> dt_symbols db ∧
  d_symbol_id <$> dt_defs t = d_symbol_id <$> dt_defs db.
Proof.
  intros (infos & _ & Hd & Hs)%put_objects_updates. rewrite Hd, Hs, <-!list_fmap_compose.
  split_and!; apply list_fmap_ext; intros _ r _; cbn [compose]; [by rewrite sig_steps..|by rewrite def_steps].
Qed.

Lemma numbered_NoDup {A} (key : A → Z) (l : list A) :
  (∀ n x, l !! n = Some x → key x = Z.of_nat (S n)) → NoDup (key <$> l).
Proof.
  intros H. apply NoDup_alt. intros a b x. rewrite !list_lookup_fmap.
  destruct (l !! a) eqn:Ea, (l !! b) eqn:Eb; cbn; try done. apply H in Ea, Eb. intros [= <-] [= E]. lia.
Qed.

Lemma imap_numbered {A B} (key : B → Z) (f : nat → A → B) (l : list A) :
  (∀ n x, key (f n x) = Z.of_nat (S n)) → NoDup (key <$> imap f l).
Proof.
  intros H. apply numbered_NoDup. intros n x. rewrite list_lookup_imap. destruct (l !! n); [|done].
  intros [= <-]. apply H.
Qed.

Lemma types_from_keys pr ds src t :
  types_from pr ds src t →
  NoDup (ty_id <$> dt_types t) ∧ NoDup (ty_usr <$> dt_types t) ∧
  (∀ f, f ∈ dt_fields t → tf_type f ∈ ty_id <$> dt_types t) ∧
  ∀ c, c ∈ dt_constants t → ec_type c ∈ ty_id <$> dt_types t.
Proof.
  intros [Hr Hf Hu _ _ _ Hc].
  assert (∀ n x, src !! n = Some x → Z.of_nat (S n) ∈ ty_id <$> dt_types t) as Hin.
  { intros n x Hx. rewrite Hr. apply list_elem_of_fmap. exists (decl_row pr (Z.of_nat (S n)) x.1 x.2). split; [done|].
    apply list_elem_of_lookup. exists n. by rewrite list_lookup_imap, Hx. }
  split_and!.
  - rewrite Hr. by apply imap_numbered.
  - rewrite Hr. assert (ty_usr <$> imap (λ n x, decl_row pr (Z.of_nat (S n)) x.1 x.2) src = src.*1) as ->; [|done].
    rewrite fmap_imap. apply (imap_const fst).
  - intros f. rewrite Hf. intros (l & Hl & Hfl)%list_elem_of_join.
    apply list_elem_of_lookup in Hfl as [n Hn]. rewrite list_lookup_imap in Hn.
    destruct (src !! n) as [x|] eqn:E; [|done]. injection Hn as <-. unfold field_rows in Hl.
    apply list_elem_of_lookup in Hl as [k Hk]. rewrite list_lookup_imap in Hk.
    destruct (_ !! k); [|done]. injection Hk as <-. by eapply Hin.
  - intros c (n & u & d & k & Hn & _ & _ & -> & _)%Hc. by eapply Hin.
Qed.

Lemma targets_keys pr l tbl :
  targets_ok pr l tbl → NoDup (Meson.Name <$> l) →
  NoDup (t_id <$> tt_targets tbl) ∧ NoDup (t_name <$> tt_targets tbl) ∧
  (∀ r, r ∈ tt_sources tbl → ts_target_id r ∈ t_id <$> tt_targets tbl) ∧
  ∀ n i, tt_ids tbl !! n = Some i → i ∈ t_id <$> tt_targets tbl.
Proof.
  intros [Hr Hi Hs] Hnd. split_and!.
  - rewrite Hr. by apply imap_numbered.
  - by rewrite Hr, t_name_rows.
  - intros [i f] (n & t & src & Hn & -> & _ & _)%Hs. rewrite Hr. apply list_elem_of_fmap. cbn [ts_target_id].
    eexists. split; [|apply list_elem_of_lookup; exists n; rewrite list_lookup_imap, Hn; done]. done.
  - intros n i (r & Hin & _ & <-)%Hi. by apply list_elem_of_fmap_2.
Qed.

Lemma made_intact m Version o globs intro bd i : made m Version o globs intro bd i → intact i.
Proof.
  intros [Hc Hd Ht Hl [sum Hs] _]. set (pr := Resolver.NewPathResolver _ _ _) in *.
  apply Compiler_intact in Hc as [Hrows Husrs Hdefs Hedges Hdec Hrec [Hg Hm]].
  pose proof (DWARF_keys _ _ _ _ _ _ Hd) as (Kid & Kusr & Kdef). cbn [dt_symbols dt_defs after_compiler] in Kid, Kusr, Kdef.
  assert (refs_ok (symbol_id i) (xt_dwarf i)) as [Hind Hins].
  { eapply put_objects_refs; [|exact Hd|split; cbn; set_solver]. intros u x Hx. unfold symbol_id. rewrite Kid. by eapply ids_valid. }
  apply put_objects_types in Hd as (infos & _ & src & (Hty & Htu & Hfld & Hcon)%types_from_keys); [|done].
  pose proof (Targets_cases pr intro) as Hcases. rewrite Ht in Hcases. destruct Hcases as [Hnd Htok].
  apply (Link_linked _ _ _ _ pr _ (xt_targets i)) in Hl as [_ Hle Hlr]; [|done].
  assert (NoDup (Meson.Name <$> sort_by Meson.Name (IntroTargets intro))) as Hnd' by by rewrite (sort_by_perm Meson.Name).
  apply targets_keys in Htok as (Tid & Tn & Ts & Ti); [|done].
  apply Sources_reaches in Hs. destruct (wf_reaches _ _ _ _ _ _ _ Hs (wf_empty _ _)) as [_ W1 W2 W3].
  split; unfold symbol_id, target_row_id, type_id in *; rewrite ?Kid, ?Kusr; try done.
  - split; [|done]. apply numbered_NoDup, Hrows.
  - intros d Hin. apply (list_elem_of_fmap_2 d_symbol_id) in Hin. rewrite Kdef in Hin.
    apply list_elem_of_fmap in Hin as (d' & -> & Hin). by apply Hdefs.
  - intros e [(k & -> & Hk)%list_elem_of_fmap|He]%elem_of_app.
    + destruct (Hedges k Hk). by cbn.
    + destruct (Hle e He) as (H1 & H2 & _ & t & j & _ & Hj & ->). rewrite Kid in H1, H2.
      split; [done|]. split; [done|]. intros t' [= <-]. by eapply Ti.
  - intros d Hin. by apply Hdec, Hedges in Hin.
  - intros r Hin. apply list_elem_of_lookup in Hin as [n Hn]. destruct (Hind n r Hn) as [_ H]. by rewrite Kid in H.
  - intros r Hin. destruct (Hins r Hin) as (H1 & H2 & H3). rewrite Kid in H1, H2. setoid_rewrite Kid in H3. done.
  - intros r Hin. destruct (Hlr r Hin) as (H1 & _ & t & _ & Ht'). rewrite Kusr in H1. split; [done|by eapply Ti].
Qed.

(** ** The calls of the dumps *)

(** Some unit's cgraph has a call whose two ends resolve, in that unit, to [u] and
    [v]. *)
Definition dump_call (pr : Resolver.PathResolver) (tus : list tuData) (u v : string) : Prop :=
  ∃ tu res cg c, tu ∈ tus ∧ (aggregate_all pr tus).2 !! tu_object tu = Some res ∧ tu_cgraph tu = Some cg ∧
    c ∈ tu_calls cg ∧ resolve_pair res c.1.1 c.1.2 = Some (u, v).

Lemma resolve_ids_pair res ids a b k :
  resolve_ids res ids a b = Some k ↔
  ∃ u v, resolve_pair res a b = Some (u, v) ∧ ids !! u = Some k.1 ∧ ids !! v = Some k.2.
Proof.
  unfold resolve_ids. destruct (resolve_pair res a b) as [[u v]|]; cbn; [|naive_solver].
  destruct (ids !! u) as [i|] eqn:Ei; cbn; [|split; [done|intros (? & ? & [= <- <-] & ? & _); congruence]].
  destruct (ids !! v) as [j|] eqn:Ej; cbn; [|split; [done|intros (? & ? & [= <- <-] & _ & ?); congruence]].
  split; [intros [= <-]; eauto|]. intros (? & ? & [= <- <-] & ? & ?). destruct k. cbn in *. congruence.
Qed.

Lemma ingest_calls pr root tus ct u v i j :
  ingest_tus pr root tus = Ok ct →
  st_ids (ct_symbols ct) !! u = Some i → st_ids (ct_symbols ct) !! v = Some j →
  ((i, j) ∈ ct_edges ct ↔ dump_call pr tus u v).
Proof.
  intros Hrun Hi Hj. pose proof (ingest_intact _ _ _ _ Hrun) as [Hrows Hnd _ _ _ _ _].
  assert (∀ u' x, st_ids (ct_symbols ct) !! u' = Some x → ∀ u'', st_ids (ct_symbols ct) !! u'' = Some x → u' = u'') as Hinj.
  { intros u1 x (r1 & H1 & <- & E1)%(rows_ids _ Hrows) u2 (r2 & H2 & <- & E2)%(rows_ids _ Hrows).
    apply list_elem_of_lookup in H1 as [n1 H1], H2 as [n2 H2].
    pose proof (rows_numbered _ Hrows _ _ H1). pose proof (rows_numbered _ Hrows _ _ H2). assert (n1 = n2) as -> by lia. congruence. }
  pose proof (call_has_ids pr tus) as Hids. revert Hrun. unfold ingest_tus, dump_call.
  destruct (aggregate_all pr tus) as [symbols resolves]. cbn [fst snd] in *. set (pruned := pruneUnreferenced _ _) in *.
  destruct (insertICFGroups _ _ _ _) as [icf|]; [|done]. intros [= <-]. cbn [ct_symbols ct_edges] in *.
  rewrite insertEdges_rows. split.
  - intros (tu & res & cg & c & Htu & Hres & Hcg & Hc & (u' & v' & Hp & Hu & Hv)%resolve_ids_pair).
    exists tu, res, cg, c. do 4 (split; [done|]). cbn in Hu, Hv.
    by rewrite (Hinj _ _ Hi _ Hu), (Hinj _ _ Hj _ Hv).
  - intros (tu & res & cg & c & Htu & Hres & Hcg & Hc & Hp). exists tu, res, cg, c. do 4 (split; [done|]).
    apply resolve_ids_pair. by exists u, v.
Qed.

(** Both ends of such a call have rows. *)
Lemma dump_call_ids pr root tus ct u v :
  ingest_tus pr root tus = Ok ct → dump_call pr tus u v →
  is_Some (st_ids (ct_symbols ct) !! u) ∧ is_Some (st_ids (ct_symbols ct) !! v).
Proof.
  intros Hrun. pose proof (call_has_ids pr tus) as Hids. revert Hrun. unfold ingest_tus, dump_call.
  destruct (aggregate_all pr tus) as [symbols resolves]. cbn [fst snd] in *.
  destruct (insertICFGroups _ _ _ _) as [icf|]; [|done]. intros [= <-]. cbn [ct_symbols].
  intros (tu & res & cg & [[a b] inl] & Htu & Hres & Hcg & Hc & Hp). cbn in Hp.
  destruct (Hids tu res cg a b inl Htu Hres Hcg Hc) as [k (u' & v' & Hp' & Hu & Hv)%resolve_ids_pair]; [by eexists|].
  rewrite Hp in Hp'. injection Hp' as <- <-. eauto.
Qed.

Lemma mapM_result_Forall2 {E A B} (f : A → result E B) l k : mapM_result f l = Ok k → Forall2 (λ x y, f x = Ok y) l k.
Proof.
  revert k; induction l as [|x l IH]; intros k; cbn; [intros [= <-]; constructor|].
  destruct (f x) as [y|] eqn:Ey; [|done]. destruct (mapM_result f l) as [ys|]; [|done]. intros [= <-]. constructor; auto.
Qed.

(** Two tables with the same ids and the same identities pair them alike. *)
Lemma same_keys (l k : list symbol_row) v j :
  s_id <$> l = s_id <$> k → s_usr <$> l = s_usr <$> k →
  (∃ s, s ∈ k ∧ s_usr s = v ∧ s_id s = j) ↔ (∃ s, s ∈ l ∧ s_usr s = v ∧ s_id s = j).
Proof.
  assert (∀ l k : list symbol_row, s_id <$> l = s_id <$> k → s_usr <$> l = s_usr <$> k →
    (∃ s, s ∈ k ∧ s_usr s = v ∧ s_id s = j) → ∃ s, s ∈ l ∧ s_usr s = v ∧ s_id s = j) as H.
  { clear. intros l k Hi Hu (s & [n Hn]%list_elem_of_lookup & <- & <-).
    assert ((s_id <$> l) !! n = (s_id <$> k) !! n) as Ei by by rewrite Hi.
    assert ((s_usr <$> l) !! n = (s_usr <$> k) !! n) as Eu by by rewrite Hu.
    rewrite !list_lookup_fmap, Hn in Ei. rewrite !list_lookup_fmap, Hn in Eu.
    destruct (l !! n) as [x|] eqn:E; [|done]. injection Ei as Ei. injection Eu as Eu.
    exists x. split; [by eapply list_elem_of_lookup_2|done]. }
  intros Hi Hu. split; by apply H.
Qed.

(** The units a run has read, and what it made of them. *)
Lemma made_units m Version o globs intro bd i :
  made m Version o globs intro bd i →
  ∃ tus, Forall2 (λ art tu, parseTU (m_text m) (m_gunzip m) art = Ok tu) (BuildDir.Objects bd) tus ∧
    ingest_tus (Resolver.NewPathResolver (m_cwd m) (o_builddir o) (o_project_root o)) (BuildDir.Root bd) tus = Ok (xt_compiler i).
Proof.
  intros [Hc _ _ _ _ _]. unfold Ingest.Compiler in Hc. destruct (mapM_result _ _) as [tus|] eqn:E; [|done].
  exists tus. split; [by apply mapM_result_Forall2|exact Hc].
Qed.

(** Its symbol rows have the keys the compiler pass gave them. *)
Lemma made_ids m Version o globs intro bd i v j :
  made m Version o globs intro bd i →
  st_ids (ct_symbols (xt_compiler i)) !! v = Some j ↔ ∃ s, s ∈ dt_symbols (xt_dwarf i) ∧ s_usr s = v ∧ s_id s = j.
Proof.
  intros [Hc Hd _ _ _ _]. apply DWARF_keys in Hd as (Kid & Kusr & _). cbn [dt_symbols after_compiler] in Kid, Kusr.
  apply Compiler_intact in Hc as [Hrows _ _ _ _ _ _]. etransitivity; [apply (rows_ids _ Hrows)|by apply same_keys].
Qed.

(** The units of a build directory that the preflight let through have their dumps. *)
Lemma parseTU_dumps fs json_of art tu :
  parseTU fs json_of art = Ok tu → BuildDir.CI art ≠ "" → BuildDir.Cgraph art ≠ "" → BuildDir.OptRecord art ≠ "" →
  is_Some (tu_ci tu) ∧ is_Some (tu_cgraph tu) ∧ is_Some (tu_optRec tu).
Proof.
  assert (∀ E A path (p : string → result E A) a, parse_opt path p = Ok a → path ≠ "" → is_Some a) as Hopt.
  { intros E A path p a. unfold parse_opt. intros H Hne. apply String.eqb_neq in Hne. rewrite Hne in H.
    destruct (p path); [|done]. injection H as <-. by eexists. }
  unfold parseTU. intros H H1 H2 H3. destruct (parse_opt (BuildDir.CI art) _) as [ci|] eqn:E1; [|done].
  cbn [mbind result_bind] in H. destruct (parse_opt (BuildDir.Cgraph art) _) as [cg|] eqn:E2; [|done].
  cbn [mbind result_bind] in H. destruct (parse_opt (BuildDir.Inline art) _) as [il|]; [|done].
  cbn [mbind result_bind] in H. destruct (parse_opt (BuildDir.ICF art) _) as [icf|]; [|done].
  cbn [mbind result_bind] in H. destruct (parse_opt (BuildDir.OptRecord art) _) as [opt|] eqn:E3; [|done].
  cbn [mbind result_bind] in H. injection H as <-. cbn. split_and!; by eapply Hopt.
Qed.

(** ** The rows of a type *)

Lemma filter_none {A} (p : A → bool) l : (∀ x, x ∈ l → p x = false) → List.filter p l = [].
Proof. induction l as [|x l IH]; [done|]. intros H. cbn. rewrite H by left. apply IH. intros; apply H; by right. Qed.
Lemma filter_always {A} (p : A → bool) l : (∀ x, x ∈ l → p x = true) → List.filter p l = l.
Proof. induction l as [|x l IH]; [done|]. intros H. cbn. rewrite H by left. f_equal. apply IH. intros; apply H; by right. Qed.

(** Rows laid down group by group: those with the number of a group are the group. *)
Lemma filter_group {A B} (key : B → Z) (g : nat → A → list B) off l k :
  (∀ n x r, r ∈ g n x → key r = Z.of_nat (S (off + n))) →
  List.filter (λ r, key r =? Z.of_nat (S (off + k)))%Z (mjoin (imap g l)) =
    match l !! k with Some x => g k x | None => [] end.
Proof.
  revert g off k; induction l as [|x l IH]; intros g off k Hg; [done|].
  rewrite imap_cons. cbn [mjoin list_join]. rewrite List.filter_app. destruct k as [|k]; cbn [lookup list_lookup].
  - rewrite filter_always, filter_none, app_nil_r; [done| |].
    + intros r (rs & Hr & Hrs)%list_elem_of_join. apply list_elem_of_lookup in Hrs as [n Hn].
      rewrite list_lookup_imap in Hn. destruct (l !! n); [|done]. injection Hn as <-.
      apply Hg in Hr. rewrite Hr. apply Z.eqb_neq. lia.
    + intros r Hr%Hg. rewrite Hr. apply Z.eqb_eq. lia.
  - rewrite filter_none, app_nil_l.
    + specialize (IH (λ n, g (S n)) (S off) k). replace (off + S k) with (S off + k) by lia. apply IH.
      intros n y r Hr%Hg. rewrite Hr. f_equal. lia.
    + intros r Hr%Hg. rewrite Hr. apply Z.eqb_neq. lia.
Qed.

Lemma ascending_inj {A} (k : A → Z) l :
  StronglySorted (λ a b, k a < k b)%Z l → ∀ a b, a ∈ l → b ∈ l → k a = k b → a = b.
Proof.
  induction 1 as [|x l _ IH Hx]; [set_solver|]. rewrite Forall_forall in Hx.
  intros a b [->|Ha]%elem_of_cons [->|Hb]%elem_of_cons E; [done|apply Hx in Hb; lia|apply Hx in Ha; lia|by apply IH].
Qed.

Lemma order_by_ascending {A} (k : A → Z) l :
  StronglySorted (λ a b, k a < k b)%Z l → order_by (λ a, [inr (k a)]) l = l.
Proof.
  set (R := key_order (λ a, [inr (k a)] : list (string + Z))).
  assert (∀ a b, R a b ↔ (k a ≤ k b)%Z) as HR.
  { intros a b. unfold R, key_order. cbn. destruct (Z.eqb_spec (k a) (k b)) as [->|]; [split; [lia|done]|].
    rewrite Z.ltb_lt. lia. }
  assert (Total R) by (intros a b; rewrite !HR; lia).
  assert (Transitive R) by (intros a b c; rewrite !HR; lia).
  intros Hl. apply (StronglySorted_unique_strong R).
  - intros a b Ha Hb. rewrite !HR. intros H1 H2. unfold order_by in Ha. fold R in Ha.
    rewrite merge_sort_Permutation in Ha. apply (ascending_inj k l Hl a b Ha Hb). lia.
  - by apply StronglySorted_merge_sort.
  - clear -Hl HR. induction Hl as [|x l _ IH Hx]; constructor; [done|]. eapply Forall_impl; [exact Hx|].
    cbn. intros b Hb. apply HR. lia.
  - apply merge_sort_Permutation.
Qed.

Lemma imap_ascending {A B} (k : B → Z) (f : nat → A → B) l :
  (∀ n x, k (f n x) = Z.of_nat n) → StronglySorted (λ a b, k a < k b)%Z (imap f l).
Proof.
  intros Hf. enough (∀ off g, (∀ n x, k (g n x) = Z.of_nat (off + n)) → StronglySorted (λ a b, k a < k b)%Z (imap g l)) as H
    by by apply (H 0).
  clear f Hf. induction l as [|x l IH]; intros off g Hg; [constructor|]. rewrite imap_cons. constructor.
  - apply (IH (S off)). intros n y. cbn. rewrite Hg. f_equal. lia.
  - apply Forall_forall. intros r Hr. apply list_elem_of_lookup in Hr as [n Hn]. rewrite list_lookup_imap in Hn.
    destruct (l !! n); [|done]. injection Hn as <-. cbn. rewrite !Hg. lia.
Qed.

Lemma described_fields pr ds src t n u d :
  types_from pr ds src t → src !! n = Some (u, d) →
  order_by (λ f, [inr (tf_ordinal f)]) (List.filter (λ f, tf_type f =? Z.of_nat (S n))%Z (dt_fields t)) =
    field_rows (Z.of_nat (S n)) (dc_fields d).
Proof.
  intros Ht Hn. rewrite (tf_fields _ _ _ _ Ht).
  pose proof (filter_group tf_type (λ n x, field_rows (Z.of_nat (S n)) (dc_fields x.2)) 0 src n) as E.
  rewrite Nat.add_0_l in E. rewrite E.
  - rewrite Hn. apply order_by_ascending. unfold field_rows. by apply imap_ascending.
  - intros k x r Hr. unfold field_rows in Hr. apply list_elem_of_lookup in Hr as [j Hj]. rewrite list_lookup_imap in Hj.
    destruct (_ !! j); [|done]. by injection Hj as <-.
Qed.

(** ** Properties *)

(** What [serve] finds at the path of the index. *)
Definition file_of (i : index_tables) : index_file :=
  IndexFile (xt_meta i) (Some (length (dt_symbols (xt_dwarf i)))) (Some (length (tt_targets (xt_targets i))))
    (Some (size (sources (xt_sources i)))).

(** Its meta table passes the checks of serve. *)
Lemma runServe_made m Version o globs intro bd i :
  made m Version o globs intro bd i →
  xt_meta i !! "schema_version" = Some SchemaVersion ∧
  is_Some (match runServe (Database (file_of i)) with Ok s => Some s | Err _ => None end).
Proof.
  intros Hm. assert (xt_meta i !! "schema_version" = Some SchemaVersion) as Hv.
  { rewrite (mk_meta _ _ _ _ _ _ _ Hm). unfold meta_of, stamps. cbn [foldl fst snd].
    by rewrite !lookup_insert_ne, lookup_singleton_eq. }
  split; [done|]. unfold runServe. cbn. rewrite Hv. by eexists.
Qed.

(** C1: In an index that the passes made every reference of the schema finds its row —
    of symbols, targets, types, folding groups and blobs — and the keys are unique,
    so that no join of a tool drops or repeats a row for want of either. *)
Theorem passes_intact m Version o globs intro bd i :
  passes m Version o globs intro bd = Val (Ok i) → intact i.
Proof. intros H%passes_made. by eapply made_intact. Qed.

(** C17: An index that the passes made is one that serve starts on and a reload takes:
    the schema version is the served one, the stamp is that of the run and the
    counts are those of its tables. *)
Theorem passes_served m Version o globs intro bd i path :
  passes m Version o globs intro bd = Val (Ok i) →
  is_Some (match runServe (Database (file_of i)) with Ok s => Some s | Err _ => None end) ∧
  describeIndex (file_of i) path =
    Ok (MkReloadResponse path SchemaVersion (m_now m) "" false (length (dt_symbols (xt_dwarf i)))
          (length (tt_targets (xt_targets i))) (size (sources (xt_sources i)))).
Proof.
  intros Hm%passes_made. destruct (runServe_made _ _ _ _ _ _ _ Hm) as [Hv Hs]. split; [exact Hs|].
  assert (xt_meta i !! "indexed_at" = Some (m_now m)) as Ha.
  { rewrite (mk_meta _ _ _ _ _ _ _ Hm). unfold meta_of, stamps. cbn [foldl fst snd]. by rewrite lookup_insert_ne, lookup_insert_eq. }
  unfold describeIndex. cbn [f_meta file_of]. rewrite Hv, String.eqb_refl. cbn [negb]. by rewrite Ha.
Qed.

(** C3: After a run that passed the preflight, every object's callgraph dump has been
    read, and list_callees, when not cut, answers with exactly the symbols that a
    call of some dump goes to from the one asked about, ends resolved in the unit of
    the dump. *)
Theorem list_callees_exact m Version o globs intro bd i u l :
  prepare m o = Ok (globs, intro, bd) → passes m Version o globs intro bd = Val (Ok i) →
  handleListCallees (graph_of i) u "" = Ok (l, false) →
  ∃ tus, Forall2 (λ art tu, parseTU (m_text m) (m_gunzip m) art = Ok tu) (BuildDir.Objects bd) tus ∧
    Forall (λ tu, is_Some (tu_cgraph tu)) tus ∧
    ∀ v, v ∈ CallGraph.USR <$> l.*1 ↔
         dump_call (Resolver.NewPathResolver (m_cwd m) (o_builddir o) (o_project_root o)) tus u v.
Proof.
  intros Hprep Hp Hl. pose proof (passes_made _ _ _ _ _ _ _ Hp) as Hmade.
  pose proof (λ v j, made_ids _ _ _ _ _ _ _ v j Hmade) as Hids.
  destruct (made_units _ _ _ _ _ _ _ Hmade) as (tus & Htus & Hc).
  destruct Hmade as [_ _ Htg Hlk _ _]. set (pr := Resolver.NewPathResolver _ _ _) in *.
  exists tus. split; [done|]. split.
  { apply Forall_forall. intros tu [n Hn]%list_elem_of_lookup.
    destruct (Forall2_lookup_r _ _ _ _ _ Htus Hn) as (art & Ha & Hparse). apply list_elem_of_lookup_2 in Ha.
    destruct (pp_dumps _ _ _ (prepare_prepared _ _ _ _ _ Hprep) art Ha) as (H1 & H2 & H3).
    by destruct (parseTU_dumps _ _ _ _ Hparse H1 H2 H3) as (_ & ? & _). }
  unfold handleListCallees in Hl. apply neighbors_ids in Hl as (iu & Hiu & Hin).
  assert (st_ids (ct_symbols (xt_compiler i)) !! u = Some iu) as Hu.
  { unfold symbolIDByUSR in Hiu. destruct (List.find _ _) as [s|] eqn:Ef; [|done]. injection Hiu as <-.
    apply List.find_some in Ef as [Hs <-%String.eqb_eq]. apply Hids. exists s. split; [by apply list_elem_of_In|done]. }
  apply (Link_linked _ _ _ _ pr _ (xt_targets i)) in Hlk as [_ Hle _]; [|done].
  intros v. rewrite list_elem_of_fmap. setoid_rewrite Hin. setoid_rewrite elem_of_neighbor_query. split.
  - intros (r & -> & e & s & He & Hk & Hs & Hse & _ & ->). cbn [CallGraph.USR ref_of].
    unfold cgraph_edge in Hk. apply andb_true_iff in Hk as [Hk1%Z.eqb_eq Hk2%String.eqb_eq].
    apply elem_of_app in He as [He|He]; [|apply Hle in He as (_ & _ & He & _); congruence].
    apply list_elem_of_fmap in He as ([a b] & -> & Hab). cbn in Hk1, Hse. subst a.
    eapply ingest_calls; [exact Hc|exact Hu| |exact Hab]. apply Hids. by exists s.
  - intros Hcall. destruct (dump_call_ids _ _ _ _ _ _ Hc Hcall) as [_ [j Hj]].
    pose proof Hj as (s & Hs & Hv & Hsj)%Hids. exists (ref_of s). split; [done|].
    exists (EdgeRow iu j "compiler_cgraph" None), s. split_and!; try done.
    + apply elem_of_app. left. apply list_elem_of_fmap. exists (iu, j). split; [done|]. by eapply ingest_calls.
    + unfold cgraph_edge. cbn. by rewrite Z.eqb_refl.
Qed.

Lemma find_lookup {A} (p : A → bool) l x : List.find p l = Some x → p x = true ∧ ∃ n, l !! n = Some x.
Proof. intros [Hin Hp]%List.find_some. split; [done|]. by apply list_elem_of_lookup, list_elem_of_In. Qed.

(** C10: describe_type answers about exactly the types that the objects' debug
    information declares in the project, and shows the first declaration of the
    type, with its members in their order and no member of another type. *)
Theorem describe_type_exact unzstd root m Version o globs intro bd i usr :
  passes m Version o globs intro bd = Val (Ok i) →
  ∃ infos, Forall2 (object_info (m_elf m)) (sort_strings (BuildDir.Object <$> BuildDir.Objects bd)) infos ∧
    match handleDescribeType unzstd (tools_of i) root usr with
    | Err _ => ∀ d, d ∈ mjoin (decls <$> infos) →
        decl_usr (Resolver.NewPathResolver (m_cwd m) (o_builddir o) (o_project_root o)) d ≠ Val (Some usr)
    | Ok r => ∃ d, List.find (λ d, bool_decide
          (decl_usr (Resolver.NewPathResolver (m_cwd m) (o_builddir o) (o_project_root o)) d = Val (Some usr)))
          (mjoin (decls <$> infos)) = Some d ∧
        tr_Name r = dc_name d ∧ tr_Kind r = dc_kind d ∧ tr_Underlying r = dc_underlying d ∧
        tr_ByteSize r = Z.max 0 (dc_size d) ∧
        tr_Fields r = (λ f, (fi_Name f, fi_Type f, ByteOffset f)) <$> dc_fields d ∧
        ∀ c, c ∈ tr_Constants r → ∃ k, k ∈ dc_constants d ∧ c.1.2 = ec_Name k ∧ c.2 = ec_Value k
    end.
Proof.
  intros [_ Hd _ _ _ _]%passes_made. set (pr := Resolver.NewPathResolver _ _ _) in *. unfold DWARF in Hd.
  rewrite sort_by_keys in Hd. apply put_objects_types in Hd as (infos & Hi & src & Ht); [|done]. exists infos. split; [done|].
  pose proof (tf_rows _ _ _ _ Ht) as Hr. unfold handleDescribeType. cbn [tools_of ti_types ti_fields ti_constants].
  destruct (List.find _ (dt_types _)) as [t|] eqn:Ef.
  - apply find_lookup in Ef as [Hu%String.eqb_eq [n Hn]]. rewrite Hr, list_lookup_imap in Hn.
    destruct (src !! n) as [[u d]|] eqn:E; [|done]. injection Hn as <-. cbn in Hu. subst u. exists d.
    split; [by apply (tf_first _ _ _ _ Ht), list_elem_of_lookup_2 with n|]. cbn -[Z.of_nat order_by].
    split; [done|]. split; [done|]. split; [done|]. split; [destruct (Z.ltb_spec 0 (dc_size d)); cbn; lia|]. split.
    + rewrite (described_fields _ _ _ _ _ _ _ Ht E). unfold field_rows. rewrite fmap_imap.
      apply (imap_const (λ f, (fi_Name f, fi_Type f, ByteOffset f))).
    + intros c (x & -> & Hx)%list_elem_of_fmap. rewrite order_by_perm in Hx.
      apply list_elem_of_In, List.filter_In in Hx as [Hx Hid%Z.eqb_eq]. apply list_elem_of_In in Hx.
      apply (tf_constants _ _ _ _ Ht) in Hx as (n' & u' & d' & k & Hn' & Hk & _ & Hty & Hname & Hval).
      assert (n' = n) as -> by lia. rewrite E in Hn'. injection Hn' as _ <-. exists k. by cbn.
  - intros d Hd' Hdu. pose proof (tf_all _ _ _ _ Ht d usr Hd' Hdu) as Hin.
    apply list_elem_of_fmap in Hin as ([u d'] & -> & [n Hn]%list_elem_of_lookup).
    eapply List.find_none in Ef; [|apply list_elem_of_In, (list_elem_of_lookup_2 _ n); by rewrite Hr, list_lookup_imap, Hn].
    cbn in Ef. by rewrite String.eqb_refl in Ef.
Qed.

(** ** Example: the run of [Collect] *)

Definition ex_prepared : list ExternalGlob.ExternalGlob * Introspection * BuildDir.BuildDir :=
  Eval vm_compute in
  match prepare ex_machine ex_options with Ok p => p | Err _ => ([], ex_intro, ex_build) end.

Lemma ex_prepares : prepare ex_machine ex_options = Ok ex_prepared.
Proof. vm_compute. reflexivity. Qed.

Definition ex_passes : outcome (result pass_error index_tables) :=
  passes ex_machine "dev" ex_options ex_prepared.1.1 ex_prepared.1.2 ex_prepared.2.

Definition ex_index_tables : index_tables :=
  match ex_passes with
  | Val (Ok i) => i
  | _ => IndexTables ∅ (CompilerTables (SymbolTables [] [] ∅) [] [] [] (IcfTables [] [] 0) ∅ (MkCompilerSummary 0 0 0 0 0))
           (after_compiler ex_compiled) (TargetsTables [] [] ∅) (LinkTables [] [] (MkLinkSummary 0 0)) empty_tables
  end.

Lemma ex_passes_ok : ex_passes = Val (Ok ex_index_tables).
Proof. vm_compute. reflexivity. Qed.

Lemma passes_intact_witness : intact ex_index_tables.
Proof. exact (passes_intact _ _ _ _ _ _ _ ex_passes_ok). Defined.

Lemma passes_served_witness :
  describeIndex (file_of ex_index_tables) "/tmp/x.hbr" =
    Ok (MkReloadResponse "/tmp/x.hbr" SchemaVersion "2025-01-01T00:00:00Z" "" false 2 1 1) ∧
  is_Some (match runServe (Database (file_of ex_index_tables)) with Ok s => Some s | Err _ => None end).
Proof.
  pose proof (passes_served _ _ _ _ _ _ _ "/tmp/x.hbr" ex_passes_ok) as [H1 H2].
  split; [vm_compute; reflexivity|exact H1].
Defined.

Lemma list_callees_exact_witness :
  ∃ l, handleListCallees (graph_of ex_index_tables) "c:@F@main" "" = Ok (l, false) ∧
    CallGraph.USR <$> l.*1 = ["c:a.c@F@helper"] ∧
    ∃ tus, Forall2 (λ art tu, parseTU (m_text ex_machine) (m_gunzip ex_machine) art = Ok tu)
             (BuildDir.Objects ex_prepared.2) tus ∧
      Forall (λ tu, is_Some (tu_cgraph tu)) tus ∧
      ∀ v, v ∈ CallGraph.USR <$> l.*1 ↔ dump_call (Resolver.NewPathResolver "/p" "/p/build" "/p") tus "c:@F@main" v.
Proof.
  eexists. split; [vm_compute; reflexivity|]. split; [vm_compute; reflexivity|].
  eapply (list_callees_exact ex_machine "dev" ex_options ex_prepared.1.1 ex_prepared.1.2 ex_prepared.2 ex_index_tables);
    vm_compute; reflexivity.
Defined.

Lemma describe_type_exact_witness :
  ∃ r, handleDescribeType (λ _, None) (tools_of ex_index_tables) "/p" "c:a.h@S@node" = Ok r ∧
    tr_Fields r = [("len", "int", 0%Z)] ∧
    ∃ infos, Forall2 (object_info (m_elf ex_machine)) (sort_strings (BuildDir.Object <$> BuildDir.Objects ex_prepared.2)) infos.
Proof.
  destruct (describe_type_exact (λ _, None) "/p" _ _ _ _ _ _ _ "c:a.h@S@node" ex_passes_ok) as (infos & Hi & _).
  eexists. split; [vm_compute; reflexivity|]. split; [vm_compute; reflexivity|]. by exists infos.
Defined.
