(* ===== verification/Report.v ===== *)
(** * The summary that collect prints ([cmd/herbarium/collect.go])

    The counters of the passes against the tables of the index they made: the numbers
    a successful run prints are those of the rows it wrote. *)

From S2P Require Import Prelude GoStrings Cgraph GccDumps OptRecord Paths Store Meson Ingest Link Sources Dwarf DwarfRead.
From S2P Require Import LinkPlane DwarfIngest CallGraph SourceTools Reload Preflight Collect EndToEnd.
From Stdlib Require Import ZArith Lia.
Import Paths.Resolver Store.BlobStore LinkPlane.Nm.

(** ** The compiler plane *)

Record compiler_counted (ct : compiler_tables) : Prop := {
  cc_symbols : cs_Symbols (ct_sum ct) = length (st_symbols (ct_symbols ct));
  cc_edges : cs_CallEdges (ct_sum ct) = length (ct_edges ct);
  cc_decisions : cs_InlineDecisions (ct_sum ct) = length (ct_inline_decisions ct);
  cc_pairs : length (ct_inline_decisions ct) = length (ct_edges ct);
  cc_records : cs_InlineRecords (ct_sum ct) = length (ct_inline_records ct);
  cc_groups : cs_ICFGroups (ct_sum ct) = length (it_groups (ct_icf ct));
}.

Lemma insertICFGroups_written root tus resolves ids t :
  insertICFGroups root tus resolves ids = Ok t → it_written t = length (it_groups t).
Proof.
  apply (foldM_inv (λ t, it_written t = length (it_groups t))); [done|]. intros tu s s' _ Hs.
  destruct (tu_icf tu) as [gs|]; [|by intros [= <-]]. destruct (tu_cgraph tu); [|by intros [= <-]].
  destruct (resolves !! tu_object tu) as [res|]; [|by intros [= <-]].
  apply (foldM_inv (λ t, it_written t = length (it_groups t))); [done|]. intros g t0 t1 _ H0. unfold insert_group.
  destruct (_ !! Icf.WinnerName g) as [w|]; [|by intros [= <-]]. destruct (filter _ _) as [|l losers]; [by intros [= <-]|].
  cbn [fmap result_fmap]. destruct (foldM _ _ _) as [ms|]; [|done]. intros [= <-]. cbn. rewrite length_app, H0. cbn. lia.
Qed.

(** The map of the ids has an entry per row. *)
Lemma size_ids t : rows_ok t → NoDup (s_usr <$> st_symbols t) → size (st_ids t) = length (st_symbols t).
Proof.
  intros [_ Hids] Hnd. rewrite <-size_dom. assert (dom (st_ids t) = list_to_set (s_usr <$> st_symbols t)) as ->.
  { apply set_eq. intros u. rewrite elem_of_dom, elem_of_list_to_set, list_elem_of_fmap. split.
    - intros [i (r & ? & ? & _)%Hids]. by exists r.
    - intros (r & -> & Hr). exists (s_id r). apply Hids. by exists r. }
  by rewrite size_list_to_set, length_fmap.
Qed.

Lemma ingest_counted pr root tus ct : ingest_tus pr root tus = Ok ct → compiler_counted ct.
Proof.
  intros Hrun. pose proof (ingest_intact _ _ _ _ Hrun) as [Hrows Husrs _ _ _ _ _]. revert Hrun Hrows Husrs.
  unfold ingest_tus. destruct (aggregate_all pr tus) as [symbols resolves].
  destruct (insertICFGroups _ _ _ _) as [icf|] eqn:Ei; [|done]. intros [= <-]. cbn [ct_symbols]. intros Hrows Husrs.
  rewrite insertEdges_tus. set (evs := all_edges _ _ _).
  pose proof (insert_edges_written evs) as Hw. destruct (insert_edges_inv evs) as (Hnd & _ & Hin & Hflag).
  set (acc := foldl insert_edge _ evs) in *. cbn zeta in Hw.
  split; cbn [ct_sum ct_symbols ct_edges ct_inline_decisions ct_inline_records ct_icf cs_Symbols cs_CallEdges
    cs_InlineDecisions cs_InlineRecords cs_ICFGroups].
  - by apply size_ids.
  - done.
  - by rewrite insertDecisions_spec.
  - rewrite insertDecisions_spec. cbn [fst]. rewrite length_fmap, length_map_to_list, <-size_dom.
    assert (dom (ea_flag acc) = list_to_set (ea_rows acc)) as ->; [|by apply size_list_to_set].
    apply set_eq. intros k. rewrite elem_of_dom, Hflag, elem_of_list_to_set, Hin.
    case_decide; split; intros Hx; [done|by eexists|by destruct Hx|done].
  - apply insertInlineRecords_count.
  - by eapply insertICFGroups_written.
Qed.

(** ** The link plane *)

Record link_counted (tb : link_tables) : Prop := {
  lc_resolutions : LinkResolutions (lt_sum tb) = length (lt_resolutions tb);
  lc_edges : ObjdumpEdges (lt_sum tb) = length (lt_edges tb);
}.

Lemma Link_counted env syms defs bd intro ids o2s tb :
  Link env syms defs bd intro ids o2s = Ok tb → link_counted tb.
Proof.
  unfold Link. rewrite (surjective_pairing (buildSymbolLookup syms defs)).
  destruct (scanBuilddirObjectDefs _ bd) as [dbn|]; [|done]. cbn [mbind result_bind].
  apply (foldM_inv link_counted); [by split|]. intros t s s' _ [Hr He]. unfold link_target.
  destruct (negb _); [by intros [= <-]|]. destruct (Meson.Filenames t) as [|b bs]; [by intros [= <-]|].
  destruct (ids !! Meson.Name t) as [tid|]; [|by intros [= <-]].
  unfold link_binary. destruct (RunNMDefined _ b) as [nms|]; [|done]. cbn [mbind result_bind].
  destruct (read_map env _) as [mf|]; [|done]. destruct (run_objdump env b) as [edges|]; [|done].
  intros [= <-]. split; cbn; rewrite length_app, ?length_fmap; lia.
Qed.

(** ** The packed sources

    The files are visited by key, so that each adds a row of its own. *)

Definition keyed_by {A} (pre : list string) (n : Z) (m : gmap string A) : Prop :=
  n = Z.of_nat (size m) ∧ ∀ k, is_Some (m !! k) → k ∈ pre.

Lemma keyed_by_empty {A} : keyed_by [] 0 (∅ : gmap string A).
Proof. split; [done|]. intros k. rewrite lookup_empty. by intros []. Qed.

Lemma keyed_by_insert {A} pre n (m : gmap string A) k v :
  keyed_by pre n m → k ∉ pre → keyed_by (pre ++ [k]) (n + 1) (<[k := v]> m).
Proof.
  intros [Hn Hk] Hf. assert (m !! k = None) as Hm by (apply eq_None_not_Some; intros H; by apply Hf, Hk). split.
  - rewrite map_size_insert_None by done. lia.
  - intros x [->|[_ Hx%Hk]]%lookup_insert_is_Some; set_solver.
Qed.

Lemma keyed_by_skip {A} pre n (m : gmap string A) k : keyed_by pre n m → keyed_by (pre ++ [k]) n m.
Proof. intros [Hn Hk]. split; [done|]. intros x Hx%Hk. set_solver. Qed.

(** The rows marked as generated. *)
Definition flagged (m : gmap string source_row) : nat := size (filter (λ kr, src_generated kr.2 = true) m).

Lemma flagged_insert m k h g :
  m !! k = None → flagged (<[k := SourceRow h g]> m) = flagged m + if g then 1 else 0.
Proof.
  intros Hm. unfold flagged. destruct g.
  - rewrite map_filter_insert_True by done. rewrite map_size_insert_None; [lia|].
    apply map_lookup_filter_None. by left.
  - rewrite map_filter_insert_False, delete_id by done. lia.
Qed.

Record stored (w : tables) (s : SourcesSummary) : Prop := {
  sd_files : Files s = Z.of_nat (size (sources w));
  sd_generated : GeneratedFiles s = Z.of_nat (size (generated_sources w));
  sd_external : ExternalFiles s = Z.of_nat (size (external_sources w));
  sd_flagged : GeneratedCount s = Z.of_nat (flagged (sources w));
  sd_blobs : Blobs s = Z.of_nat (size (blobs w));
  sd_books : (Files s + GeneratedFiles s + ExternalFiles s = Blobs s + Duplicates s)%Z;
}.

Section stored.
Context (sha256 zstd : string → string) (read : string → read_result) (mtime : string → option Z) (Strict : bool).

(** What a phase that visits the keys [pre] leaves: the three tables it may write. *)
Definition entries_stored (pre : list string) (st : tables * SourcesSummary) : Prop :=
  keyed_by pre (Files st.2) (sources st.1) ∧ GeneratedCount st.2 = Z.of_nat (flagged (sources st.1)) ∧
  generated_sources st.1 = ∅ ∧ external_sources st.1 = ∅ ∧
  GeneratedFiles st.2 = 0%Z ∧ ExternalFiles st.2 = 0%Z.

Lemma fold_keys (I : list string → tables * SourcesSummary → Prop)
    (f : tables * SourcesSummary → string → result sources_error (tables * SourcesSummary)) ks st st' :
  NoDup ks → I [] st → (∀ pre k s s', k ∉ pre → I pre s → f s k = Ok s' → I (pre ++ [k]) s') →
  foldM f ks st = Ok st' → I ks st'.
Proof.
  intros Hnd H0 Hstep. apply (foldM_inv_pre I); [done|]. intros pre k post s s' -> HI. apply Hstep; [|done].
  apply NoDup_app in Hnd as (_ & Hd & _). intros Hk. apply (Hd k Hk). left.
Qed.

Lemma write_entry_stored_key es pre k s s' :
  k ∉ pre → entries_stored pre s → write_entry sha256 zstd read mtime Strict es s k = Ok s' → entries_stored (pre ++ [k]) s'.
Proof.
  intros Hk (H1 & HG & H2 & H3 & H4 & H5).
  assert (sources s.1 !! k = None) as Hf by (apply eq_None_not_Some; intros H; by apply Hk, (proj2 H1)).
  assert (entries_stored (pre ++ [k]) s) as Hskip by (split; [by apply keyed_by_skip|done]).
  unfold write_entry. destruct (es !! k) as [e|]; [|by intros [= <-]].
  destruct (read (absPath e)) as [c| |]; [|destruct (required e); [done|by intros [= <-]]|done].
  destruct (if Strict then _ else _); [done|].
  unfold Put, putBlob. destruct (blobs s.1 !! sha256 c); cbn; intros [= <-]; (split; [by apply keyed_by_insert|]);
    (split; [cbn; rewrite flagged_insert by done; destruct (isGenerated e); cbn; lia|done]).
Qed.

Lemma write_generated_key gs pre k s s' :
  k ∉ pre → keyed_by pre (GeneratedFiles s.2) (generated_sources s.1) →
  write_generated sha256 zstd read gs s k = Ok s' →
  keyed_by (pre ++ [k]) (GeneratedFiles s'.2) (generated_sources s'.1) ∧
  (Files s'.2, GeneratedCount s'.2, sources s'.1, ExternalFiles s'.2, external_sources s'.1) =
    (Files s.2, GeneratedCount s.2, sources s.1, ExternalFiles s.2, external_sources s.1).
Proof.
  intros Hk H1. pose proof (keyed_by_skip _ _ _ k H1) as Hskip. unfold write_generated.
  destruct (gs !! k) as [a|]; [|by intros [= <-]]. destruct (read a) as [c| |]; [|by intros [= <-]|done].
  unfold PutGenerated, putBlob. destruct (blobs s.1 !! sha256 c); cbn; intros [= <-]; (split; [by apply keyed_by_insert|done]).
Qed.

Lemma write_external_key pre k s s' :
  k ∉ pre → keyed_by pre (ExternalFiles s.2) (external_sources s.1) →
  write_external sha256 zstd read s k = Ok s' →
  keyed_by (pre ++ [k]) (ExternalFiles s'.2) (external_sources s'.1) ∧
  (Files s'.2, GeneratedCount s'.2, sources s'.1, GeneratedFiles s'.2, generated_sources s'.1) =
    (Files s.2, GeneratedCount s.2, sources s.1, GeneratedFiles s.2, generated_sources s.1).
Proof.
  intros Hk H1. pose proof (keyed_by_skip _ _ _ k H1) as Hskip. unfold write_external.
  destruct (read k) as [c| |]; [|by intros [= <-]|done].
  unfold PutExternal, putBlob. destruct (blobs s.1 !! sha256 c); cbn; intros [= <-]; (split; [by apply keyed_by_insert|done]).
Qed.
End stored.

Lemma Sources_counted sha256 zstd read mtime Strict fs cwd globs pr bd intro w sum hits :
  Sources sha256 zstd read mtime Strict fs cwd globs pr bd intro empty_tables = (w, Ok (sum, hits)) → stored w sum.
Proof.
  intros (p & st1 & st2 & [_ H1 H2 H3 _])%Sources_packing.
  assert (balanced empty_tables (w, sum)) as (Hb1 & Hb2 & _).
  { revert H3. apply (foldM_inv (balanced empty_tables)); [|intros k s s' _ Hs Hw; by eapply write_external_balanced].
    revert H2. apply (foldM_inv (balanced empty_tables)); [|intros k s s' _ Hs Hw; by eapply write_generated_balanced].
    revert H1. apply (foldM_inv (balanced empty_tables)); [by split|intros k s s' _ Hs Hw; by eapply write_entry_balanced]. }
  apply (fold_keys entries_stored) in H1 as ([Hf1 _] & Hgc & Hg & He & Hg0 & He0); [|apply NoDup_sorted_keys|split; [apply keyed_by_empty|done]|].
  2: { intros pre k s s'. apply write_entry_stored_key. }
  apply (fold_keys (λ pre s, keyed_by pre (GeneratedFiles s.2) (generated_sources s.1) ∧
    (Files s.2, GeneratedCount s.2, sources s.1, ExternalFiles s.2, external_sources s.1) =
    (Files st1.2, GeneratedCount st1.2, sources st1.1, ExternalFiles st1.2, external_sources st1.1))) in H2 as ([Hg2 _] & [= Hf2 Hc2 Hs2 He2 Hx2]);
    [|apply NoDup_sorted_keys|rewrite Hg0, Hg; split; [apply keyed_by_empty|done]|].
  2: { intros pre k s s' Hk [G <-] Hw. by eapply write_generated_key. }
  apply (fold_keys (λ pre s, keyed_by pre (ExternalFiles s.2) (external_sources s.1) ∧
    (Files s.2, GeneratedCount s.2, sources s.1, GeneratedFiles s.2, generated_sources s.1) =
    (Files st2.2, GeneratedCount st2.2, sources st2.1, GeneratedFiles st2.2, generated_sources st2.1))) in H3 as ([He3 _] & [= Hf3 Hc3 Hs3 Hg3 Hx3]);
    [|by apply NoDup_sort_strings, NoDup_elements|rewrite He2, He0, Hx2, He; split; [apply keyed_by_empty|done]|].
  2: { intros pre k s s' Hk [G <-] Hw. by eapply write_external_key. }
  cbn in *. split; [congruence|congruence|done|congruence|rewrite Hb2; done|done].
Qed.

(** ** What is printed *)

(** Only a run that ends well prints, and what it prints comes from its passes. *)
Lemma runCollect_prints m Version o w :
  let r := runCollect m Version o w in
  (r_status r = Exit 0 → ∃ globs intro bd i s, prepare m o = Ok (globs, intro, bd) ∧
     run_passes m Version o globs intro bd = Val (Ok (i, s)) ∧ r_stdout r = summary_lines (o_out o) intro bd i s) ∧
  (r_status r ≠ Exit 0 → r_stdout r = []).
Proof.
  cbn zeta. unfold runCollect. assert (∀ m o code, prepare m o = Err code → Exit code ≠ Exit 0) as Hcode.
  { clear. intros m o code. unfold prepare. repeat case_match; intros [= <-]; done. }
  destruct (prepare m o) as [[[globs intro] bd]|code] eqn:Ep; [|split; [intros H; by apply Hcode in Ep|done]].
  destruct (_ && _); [by split|]. destruct (reserveTempIndex _ _ _) as [[tmp w']|]; [|by split]. cbn [r_status r_stdout].
  unfold build. destruct (negb (m_does m OpenStore)); [by split|]. destruct (_ || _); [by split|].
  destruct (run_passes _ _ _ _ _ _) as [[[i s]|]|] eqn:Er; [|by split..].
  do 3 (destruct (negb _); [by split|]). split; [|done]. intros _. by exists globs, intro, bd, i, s.
Qed.

(** The lines about what an index holds. *)
Definition index_lines (i : index_tables) : list string :=
  [count_line "symbols" (length (dt_symbols (xt_dwarf i)));
   count_line "cgraph call edges" (length (cgraph_rows (xt_compiler i)));
   count_line "inline decisions" (length (ct_inline_decisions (xt_compiler i)));
   count_line "inline records" (length (ct_inline_records (xt_compiler i)));
   count_line "icf groups" (length (it_groups (ct_icf (xt_compiler i))));
   count_line "def locations" (unplaced (st_defs (ct_symbols (xt_compiler i))) - unplaced (dt_defs (xt_dwarf i)));
   count_line "indirect sites" (length (dt_indirect (xt_dwarf i)));
   count_line "inline instances" (length (dt_instances (xt_dwarf i)));
   count_line "link resolutions" (length (lt_resolutions (xt_link i)));
   count_line "objdump call edges" (length (lt_edges (xt_link i)));
   let w := xt_sources i in
   let rows := size (sources w) + size (generated_sources w) + size (external_sources w) in
   line (label "source files packed" +:+ dec (Z.of_nat (size (sources w))) +:+ " (" +:+ dec (Z.of_nat (size (blobs w))) +:+
         " new blobs, " +:+ dec (Z.of_nat rows - Z.of_nat (size (blobs w))) +:+ " deduped, " +:+
         dec (Z.of_nat (flagged (sources w))) +:+ " generated)")].

(** What stands in the index agrees with what the passes counted. *)
Lemma run_passes_counted m Version o globs intro bd i s :
  run_passes m Version o globs intro bd = Val (Ok (i, s)) →
  compiler_counted (xt_compiler i) ∧ length (dt_symbols (xt_dwarf i)) = length (st_symbols (ct_symbols (xt_compiler i))) ∧
  counted (unplaced (st_defs (ct_symbols (xt_compiler i)))) (xt_dwarf i) ∧ link_counted (xt_link i) ∧
  stored (xt_sources i) s.
Proof.
  intros ([Hc Hd _ Hl _ _] & hits & Hs)%run_passes_made. split.
  { unfold Ingest.Compiler in Hc. destruct (mapM_result _ _) as [tus|]; [|done]. cbn [mbind result_bind] in Hc. by eapply ingest_counted. }
  split. { apply DWARF_keys in Hd as (Hid & _). by rewrite <-(length_fmap s_id), Hid, length_fmap. }
  split; [by eapply DWARF_counted|]. split; [by eapply Link_counted|by eapply Sources_counted].
Qed.

(** The first line of [Hl] is the [n]th one printed. *)
Ltac at_line Hl n := apply elem_of_cons in Hl as [->|Hl]; [apply (list_elem_of_lookup_2 _ n); reflexivity|].

Lemma summary_holds m Version o globs intro bd i s out :
  run_passes m Version o globs intro bd = Val (Ok (i, s)) → index_lines i ⊆ summary_lines out intro bd i s.
Proof.
  intros ([Hc1 Hc2 Hc3 Hc4 Hc5 Hc6] & Hsym & [Hd1 Hd2 Hd3] & [Hl1 Hl2] & [Hs1 Hs2 Hs3 Hs4 Hs5 Hs6])%run_passes_counted.
  unfold index_lines, summary_lines. cbn zeta.
  replace (Z.of_nat (size (sources (xt_sources i)) + size (generated_sources (xt_sources i)) +
    size (external_sources (xt_sources i))) - Z.of_nat (size (blobs (xt_sources i))))%Z with (Duplicates s) by lia.
  replace (unplaced (st_defs (ct_symbols (xt_compiler i))) - unplaced (dt_defs (xt_dwarf i)))
    with (sum_DefLocations (dt_sum (xt_dwarf i))) by lia.
  unfold cgraph_rows. rewrite length_fmap, Hsym.
  rewrite Hc1, Hc2, Hc3, Hc5, Hc6, Hd1, Hd2, Hl1, Hl2, Hs1, Hs4, Hs5.
  intros l Hl. at_line Hl 7. at_line Hl 8. at_line Hl 9. at_line Hl 10. at_line Hl 11. at_line Hl 14.
  at_line Hl 15. at_line Hl 16. at_line Hl 17. at_line Hl 18. at_line Hl 19. by apply elem_of_nil in Hl.
Qed.

(** Where the index is, and what was printed of it. *)
Lemma runCollect_index m Version o w :
  random_ok m → Base (o_out o) ≠ "/" → r_status (runCollect m Version o w) = Exit 0 →
  ∃ f globs intro bd i s, last (r_trace (runCollect m Version o w)) = Some f ∧ f !! o_out o = Some (Finished i) ∧
    prepare m o = Ok (globs, intro, bd) ∧ run_passes m Version o globs intro bd = Val (Ok (i, s)) ∧
    r_stdout (runCollect m Version o w) = summary_lines (o_out o) intro bd i s.
Proof.
  intros Hr Hb He. pose proof (out_not_scratch _ Hb) as Hns.
  destruct (collect_trace m Version Hr o w Hb) as (own & Hown & [(globs & intro & bd & i & Hp & Hi & _ & _ & _ & Hl)|(Hs & _)]); [|done].
  destruct (runCollect_prints m Version o w) as [H _]. destruct (H He) as (globs' & intro' & bd' & i' & s & Hp' & Hi' & Ho).
  rewrite Hp in Hp'. injection Hp' as <- <- <-. exists (remove_all own (<[o_out o := Finished i]> w)), globs, intro, bd, i, s.
  split; [done|]. assert (o_out o ∉ own) as Hout by (intros Hin; by apply Hns, Hown).
  apply passes_run in Hi as [s' Hi]. rewrite Hi in Hi'. injection Hi' as <- <-.
  split; [rewrite lookup_remove_all, decide_False by done; apply lookup_insert_eq|]. done.
Qed.

(** ** Properties *)

(** C14: A run of collect that does not end well prints no summary.  One that does names
    the index it has put in place, and its counts — symbols, calls, inlining
    decisions and records, folding groups, definitions located by the debug
    information, indirect calls, inlined bodies, link resolutions, linked calls,
    packed files, their blobs and those saved — are those of the rows of that index. *)
Theorem collect_reports m Version o w :
  random_ok m → Base (o_out o) ≠ "/" →
  let r := runCollect m Version o w in
  (r_status r ≠ Exit 0 → r_stdout r = []) ∧
  (r_status r = Exit 0 → ∃ f i, last (r_trace r) = Some f ∧ f !! o_out o = Some (Finished i) ∧
     head (r_stdout r) = Some (line ("herbarium collect: " +:+ o_out o +:+ " written")) ∧
     index_lines i ⊆ r_stdout r).
Proof.
  intros Hr Hb r. split; [apply runCollect_prints|]. intros He.
  destruct (runCollect_index m Version o w Hr Hb He) as (f & globs & intro & bd & i & s & Hl & Hf & _ & Hi & Ho).
  exists f, i. split; [exact Hl|]. split; [exact Hf|]. subst r. rewrite Ho. split; [reflexivity|].
  eapply summary_holds; exact Hi.
Qed.

(** ** Example *)

Lemma collect_reports_witness :
  let r := runCollect ex_machine "dev" ex_options ex_before in
  r_status r = Exit 0 ∧
  r_stdout r !! 7 = Some (line "  symbols:             2") ∧
  r_stdout r !! 19 = Some (line "  source files packed: 1 (1 new blobs, 0 deduped, 0 generated)") ∧
  ∃ f i, last (r_trace r) = Some f ∧ f !! o_out ex_options = Some (Finished i) ∧ index_lines i ⊆ r_stdout r.
Proof.
  assert (random_ok ex_machine) as Hr by (intros n; apply Nat2Z.is_nonneg).
  destruct (collect_reports ex_machine "dev" ex_options ex_before Hr) as [_ H]; [by_decide|].
  split; [vm_compute; reflexivity|]. split; [vm_compute; reflexivity|]. split; [vm_compute; reflexivity|].
  destruct H as (f & i & H1 & H2 & _ & H3); [vm_compute; reflexivity|]. exists f, i.
  split; [exact H1|]. split; [exact H2|exact H3].
Defined.
