(* ===== verification/Schema.v ===== *)
(** * The schema resource ([internal/mcp/schema_tool.go])

    [describe_schema] hands out the version, the DDL, the closed vocabularies of
    the schema's columns and the canonical joins.  [column_values] is what an index
    that [Collect] made holds in such a column, and [documented_vocabulary] that it
    holds documented values only, as long as Meson, GCC's dumps and its records
    keep to theirs.  The text rendering of the answer is left out. *)

From S2P Require Import Prelude GoStrings GoRegexp Cgraph OptRecord Paths Store Meson Ingest LinkPlane Link.
From S2P Require Import CallGraph Dwarf DwarfRead CallTarget DwarfIngest SymbolTools Preflight Collect EndToEnd.
From Stdlib Require Import ZArith Lia.

(** ** The answer *)

Record SchemaEnum := MkSchemaEnum { Column : string; Values : list string; Notes : string }.
Record SchemaJoin := MkSchemaJoin { Purpose : string; SQL : string }.
Record SchemaResponse := MkSchemaResponse {
  sr_SchemaVersion : string;
  DDL : string;
  Enums : list SchemaEnum;
  JoinRecipes : list SchemaJoin;
}.

Definition SchemaEnums : list SchemaEnum := [
  MkSchemaEnum "targets.kind" ["executable"; "static_library"; "shared_library"]
    ("");
  MkSchemaEnum "symbols.kind" ["function"; "variable"]
    ("Closed as listed. kind is the first token of GCC cgraph's `Type:` line and the cgraph " +:+
      "describes only what reached the assembler, so types, macros and enum constants have no " +:+
      "symbols row — searching for one returns an empty result that means 'not an entity this " +:+
      "index holds', not 'absent from the code'. Find those with search_source. " +:+
      "(herbarium-plan.md's Appendix reserves typedef/struct kinds for a future walker phase; " +:+
      "nothing populates them today.)");
  MkSchemaEnum "symbols.linkage" ["external"; "internal"; "weak"; "common"]
    ("Aggregated across all TUs where the symbol is defined. Ranking: external > weak > common > " +:+
      "internal.");
  MkSchemaEnum "call_edges.source" ["compiler_cgraph"; "objdump"]
    ("compiler_cgraph rows carry NULL target_id (source-view, target-agnostic). objdump rows are " +:+
      "per-target and post-optimization.");
  MkSchemaEnum "inline_records.pass" ["einline"; "inline"]
    ("einline is GCC's early inliner — it runs before any IPA pass and is the only pass that " +:+
      "folds always_inline, so its rows have no counterpart in inline_decisions or the .cgraph " +:+
      "dump. inline is the IPA inliner. The same call can appear under both passes.");
  MkSchemaEnum "link_resolutions.linkage_kind" ["strong"; "weak"; "unique_global"; "common"]
    ("");
  MkSchemaEnum "symbol_reachability.reachable" ["1"]
    ("symbol_reachability is a view over link_resolutions; it only emits reachable=1 rows. A " +:+
      "symbol that was dead-stripped, dynamically resolved, or fully inlined away is absent from " +:+
      "the view for that target — test with NOT EXISTS or a LEFT JOIN, not WHERE reachable = 0.")].

(** A query written over several lines. *)
Definition sql (lines : list string) : string := Join lines (str1 NL).

Definition SchemaJoinRecipes : list SchemaJoin := [
  MkSchemaJoin
    ("Resolve a name to a symbol row (identity), including link-time clones like foo.constprop.0 " +:+
      "— same lookup find_symbol exact=true performs")
    (sql ["SELECT s.*";
      "FROM symbols s";
      "WHERE s.name = :name";
      "   OR EXISTS (";
      "        SELECT 1 FROM json_each(s.linkage_names)";
      "        WHERE json_each.value = :name";
      "      )"]);
  MkSchemaJoin
    ("All defs of a symbol (multi-def: multi-executable main, weak+strong hook, static-inline " +:+
      "header)")
    (sql ["SELECT sd.file, sd.line, sd.decl_file, sd.decl_line, sd.is_weak, sd.linkage_name";
      "FROM symbol_definitions sd";
      "JOIN symbols s ON sd.symbol_id = s.id";
      "WHERE s.usr = :usr"]);
  MkSchemaJoin
    ("Source-view callers of a function (from GCC's cgraph, target-agnostic)")
    (sql ["SELECT caller.usr, caller.name";
      "FROM call_edges e";
      "JOIN symbols caller ON caller.id = e.caller_id";
      "JOIN symbols callee ON callee.id = e.callee_id";
      "WHERE callee.usr = :usr AND e.source = 'compiler_cgraph'"]);
  MkSchemaJoin
    ("Runtime-view callers per target (from objdump, post-inlining, post-optimization)")
    (sql ["SELECT caller.usr, caller.name, t.name AS target";
      "FROM call_edges e";
      "JOIN symbols caller ON caller.id = e.caller_id";
      "JOIN symbols callee ON callee.id = e.callee_id";
      "JOIN targets t ON t.id = e.target_id";
      "WHERE callee.usr = :usr AND e.source = 'objdump'"]);
  MkSchemaJoin
    ("What happened to one call: every pass's decision, plus whether the inlined body survived " +:+
      "into the object. A row in inline_records with no matching inline_instances row means GCC " +:+
      "inlined the callee and then folded the copy away.")
    (sql ["SELECT r.pass, r.inlined, r.reason, r.file, r.line,";
      "       (SELECT COUNT(*) FROM inline_instances i";
      "         WHERE i.caller_id = r.caller_id AND i.callee_id = r.callee_id) AS surviving_bodies";
      "FROM inline_records r";
      "JOIN symbols caller ON caller.id = r.caller_id";
      "JOIN symbols callee ON callee.id = r.callee_id";
      "WHERE caller.usr = :caller_usr AND callee.usr = :callee_usr"]);
  MkSchemaJoin
    ("Where a function's body was inlined to (the reverse question — useful for a symbol with no " +:+
      "runtime callers)")
    (sql ["SELECT caller.usr, caller.name, i.depth, i.file, i.line, i.object";
      "FROM inline_instances i";
      "JOIN symbols callee ON callee.id = i.callee_id";
      "JOIN symbols caller ON caller.id = i.caller_id";
      "WHERE callee.usr = :usr"]);
  MkSchemaJoin
    ("Fetch source content for a location returned by any tool")
    (sql ["SELECT s.path, s.blob_hash, b.size";
      "FROM sources s JOIN blobs b ON b.hash = s.blob_hash";
      "WHERE s.path = :path"]);
  MkSchemaJoin
    ("Reachability of a symbol per target (present row = reachable; absent row = dead-stripped, " +:+
      "dynamically resolved, or fully inlined away)")
    (sql ["SELECT t.name AS target, r.reachable, r.section_kept";
      "FROM symbol_reachability r";
      "JOIN symbols s ON s.id = r.symbol_id";
      "JOIN targets t ON t.id = r.target_id";
      "WHERE s.usr = :usr"]);
  MkSchemaJoin
    ("Which object supplied a symbol in a given target (weak-strong resolution)")
    (sql ["SELECT lr.winning_object, lr.linkage_kind, lr.archive, lr.losing_objects";
      "FROM link_resolutions lr";
      "JOIN targets t ON t.id = lr.target_id";
      "WHERE lr.usr = :usr AND t.name = :target"]);
  MkSchemaJoin
    ("Read the declaration site of a symbol from an external header (only useful when collect was " +:+
      "invoked with --include-external and the DWARF decl_file falls under the packed globs; empty " +:+
      "result otherwise)")
    (sql ["SELECT es.abs_path, es.blob_hash, sd.decl_line";
      "FROM symbol_definitions sd";
      "JOIN symbols s ON s.id = sd.symbol_id";
      "JOIN external_sources es ON es.abs_path = sd.decl_file";
      "WHERE s.usr = :usr"]);
  MkSchemaJoin
    ("Read a build-tree file (configure_file / custom_target output) via generated_sources. Key " +:+
      "is builddir-relative — the same value list_source_files returns for IsGenerated=true rows " +:+
      "whose Path does not start with '/'.")
    (sql ["SELECT gs.builddir_rel, gs.blob_hash, b.size";
      "FROM generated_sources gs JOIN blobs b ON b.hash = gs.blob_hash";
      "WHERE gs.builddir_rel = :builddir_rel"])].

(** [schemaSQL]: the embedded [schema.sql]. *)
Definition handleDescribeSchema (schemaSQL : string) : SchemaResponse :=
  MkSchemaResponse SchemaVersion schemaSQL SchemaEnums SchemaJoinRecipes.

(** ** The columns of an index *)

Definition column_values (i : index_tables) (column : string) : list string :=
  if String.eqb column "targets.kind" then t_kind <$> tt_targets (xt_targets i)
  else if String.eqb column "symbols.kind" then s_kind <$> dt_symbols (xt_dwarf i)
  else if String.eqb column "symbols.linkage" then s_linkage <$> dt_symbols (xt_dwarf i)
  else if String.eqb column "call_edges.source" then e_source <$> ix_edges (graph_of i)
  else if String.eqb column "inline_records.pass" then ir_pass <$> ct_inline_records (xt_compiler i)
  else if String.eqb column "link_resolutions.linkage_kind" then lr_linkage_kind <$> lt_resolutions (xt_link i)
  else if String.eqb column "symbol_reachability.reachable" then
    (* the view's rows: a resolution joined with each symbol of its identity *)
    lt_resolutions (xt_link i) ≫= λ r,
      (λ _, "1") <$> List.filter (λ s, String.eqb (s_usr s) (lr_usr r)) (dt_symbols (xt_dwarf i))
  else [].

(** *** What the tools document of their output *)

(** The first token of a [Type:] line of a cgraph dump. *)
Definition type_token (raw : string) : option string :=
  if HasPrefix (TrimSpace raw) "Type:" then head (GoStrings.Fields (TrimSpace (TrimPrefix (TrimSpace raw) "Type:"))) else None.

Definition type_lines_ok (kinds : list string) (text : string) : Prop :=
  ∀ raw k, raw ∈ (ScanLines cg_max_line text).1 → type_token raw = Some k → k ∈ kinds.

(** The inline passes of a record file's pass tree. *)
Definition passes_ok (names : list string) (doc : option json) : Prop :=
  ∀ m t rest ps id name, doc = Some (JArr (m :: t :: rest)) → decode_list decode_pass t = Some ps →
    (id, name, true) ∈ (ps ≫= OptRecord.flatten) → name ∈ names.

Record documented_inputs (m : machine) (intro : Introspection) (bd : BuildDir.BuildDir) : Prop := {
  di_meson : ∀ t, t ∈ IntroTargets intro →
    ∃ rt, t = toTarget rt ∧ raw_Type rt ∈ ["executable"; "static library"; "shared library"];
  di_cgraph : ∀ art text, art ∈ BuildDir.Objects bd → m_text m (BuildDir.Cgraph art) = Some text →
    type_lines_ok ["function"; "variable"] text;
  di_records : ∀ art text, art ∈ BuildDir.Objects bd → m_text m (BuildDir.OptRecord art) = Some text →
    passes_ok ["einline"; "inline"] (m_gunzip m text);
}.

(** *** The cgraph dump *)

Section kinds.
Context (K : list string).
Let ok (f : Function) : Prop := Cgraph.Kind f = "" ∨ Cgraph.Kind f ∈ K.

Lemma parse_field_kind raw f :
  (∀ k, type_token raw = Some k → k ∈ K) → ok f → ok (parse_field (TrimSpace raw) f).
Proof.
  intros Hraw Hf. unfold parse_field. unfold type_token in Hraw. destruct (HasPrefix (TrimSpace raw) "Type:").
  - unfold ok. cbn [set_Type Cgraph.Kind]. destruct (head _) as [k|]; [right; by apply Hraw|exact Hf].
  - clear Hraw. repeat case_match; exact Hf.
Qed.

Definition kinds_ok (st : cg_state) : Prop :=
  (∀ f, cg_cur st = Some f → ok f) ∧ ∀ id f, cg_syms st !! id = Some f → ok f.

Lemma mergeSymbol_kind syms o : (∀ id f, syms !! id = Some f → ok f) → ok o → ∀ id f, Cgraph.mergeSymbol syms o !! id = Some f → ok f.
Proof.
  intros Hs Ho id f. unfold Cgraph.mergeSymbol. destruct (syms !! LocalID o) as [p|] eqn:E; rewrite lookup_insert_Some;
    (intros [[_ <-]|[_ H]]; [|by eapply Hs]); [|done].
  unfold ok. cbn [Cgraph.merge_into Cgraph.Kind]. unfold newer. destruct (String.eqb (Cgraph.Kind o) ""); [by eapply Hs|done].
Qed.

Lemma flush_kind st : kinds_ok st → kinds_ok (flush st).
Proof.
  intros [Hc Hs]. unfold flush. destruct (cg_cur st) as [f|] eqn:E; [|by split; [rewrite E|]].
  split; cbn [cg_cur cg_syms]; [done|]. apply mergeSymbol_kind; [done|by apply Hc].
Qed.

Lemma parse_line_kind st raw : (∀ k, type_token raw = Some k → k ∈ K) → kinds_ok st → kinds_ok (parse_line st raw).
Proof.
  intros Hraw Hst. pose proof (flush_kind _ Hst) as Hfl. unfold parse_line.
  destruct (HasPrefix _ "Trivially needed"); [exact Hfl|]. destruct (cg_separator _); [exact Hfl|].
  destruct (negb _).
  - destruct (FindStringSubmatch _ raw); [|exact Hfl]. split; cbn [cg_cur cg_syms]; [|exact (proj2 Hfl)].
    intros f [= <-]. by left.
  - destruct Hst as [Hc Hs]. destruct (cg_cur st) as [f|] eqn:E; [|by split; [rewrite E|]].
    split; cbn [cg_cur cg_syms]; [|done]. intros g [= <-]. apply parse_field_kind; [done|by apply Hc].
Qed.

Lemma ParseCgraph_kind text id f :
  type_lines_ok K text → Symbols (ParseCgraph text).1 !! id = Some f → ok f.
Proof.
  intros Hl. unfold ParseCgraph. unfold type_lines_ok in Hl. destruct (ScanLines _ text) as [lines b]. cbn [fst] in *.
  cbn [Symbols]. apply flush_kind. apply (foldl_inv kinds_ok); [by split; [|intros ? ? H; cbn in H; rewrite lookup_empty in H]|].
  intros st raw Hin. apply parse_line_kind. intros k. by apply Hl.
Qed.
End kinds.

(** *** The records of the compiler pass *)

Section records.
Context (pr : Resolver.PathResolver) (P : symbolRec → Prop).
Context (HP_merge : ∀ a b, P a → P b → P (merge_rec a b)) (HP_clone : ∀ fn r, P r → P (add_clone fn r)).
Let all (m : symbol_map) : Prop := ∀ u r, m !! u = Some r → P r.

Lemma mergeSymbol_all m o : all m → P o → all (mergeSymbol m o).
Proof.
  intros Hm Ho u r. rewrite mergeSymbol_lookup. case_decide; [|apply Hm].
  destruct (m !! u) as [p|] eqn:E; intros [= <-]; [|done]. apply HP_merge; [by eapply Hm|done].
Qed.

Section unit.
Context (tu : tuData) (cg : Cgraph) (path : string).
Context (Hrec : ∀ id fn r, Symbols cg !! id = Some fn → recordFor fn tu path pr = Some r → P r).

Lemma add_symbol_all st id : all st.1 → all (add_symbol tu cg path pr st id).1.
Proof.
  intros Hst. unfold add_symbol. destruct (Symbols cg !! id) as [fn|] eqn:E; [|done]. destruct (negb _); [done|].
  destruct (recordFor fn tu path pr) eqn:Er; [|done]. apply mergeSymbol_all; [done|by eapply Hrec].
Qed.

Lemma add_clone_symbol_all st id : all st.1 → all (add_clone_symbol tu cg path pr st id).1.
Proof.
  intros Hst. unfold add_clone_symbol. destruct (Symbols cg !! id) as [fn|]; [|done].
  destruct (String.eqb (CloneOfID fn) ""); [done|].
  assert (∀ symbols (res : perTUResolve) parent, all symbols →
    all (if String.eqb parent "" then (symbols, res)
         else (alter (add_clone fn) parent symbols, <[id := parent]> res)).1) as Hend.
  { intros symbols res parent Hs. destruct (String.eqb parent ""); [done|]. intros u r. cbn [fst].
    rewrite lookup_alter_Some. intros [(_ & x & Hx & ->)|[_ H]]; [apply HP_clone; by eapply Hs|by eapply Hs]. }
  destruct (st.2 !! CloneOfID fn); [by apply Hend|].
  destruct (Symbols cg !! CloneOfID fn) as [pfn|] eqn:E; cbn [mbind option_bind]; [|by apply Hend].
  destruct (recordFor pfn tu path pr) as [r|] eqn:Er; [|by apply Hend].
  apply Hend, mergeSymbol_all; [done|by eapply Hrec].
Qed.
End unit.

Lemma aggregate_all_records tus :
  (∀ tu cg id fn path r, tu ∈ tus → tu_cgraph tu = Some cg → Symbols cg !! id = Some fn →
     recordFor fn tu path pr = Some r → P r) →
  all (aggregate_all pr tus).1.
Proof.
  intros Hrec. unfold aggregate_all. apply (foldl_inv (λ st, all st.1)); [intros ? ? H; cbn in H; by rewrite lookup_empty in H|].
  intros [symbols resolves] tu Htu Hs. cbn [fst] in *. unfold aggregateSymbols.
  destruct (tu_cgraph tu) as [cg|] eqn:Ecg; [|done].
  assert (all (aggregate_ids tu cg (tu_source_path pr tu) pr (sorted_keys (Symbols cg)) symbols).1) as H.
  { unfold aggregate_ids. do 2 (apply (foldl_inv (λ st : agg_state, all st.1)); [|intros st id _; (apply add_clone_symbol_all||apply add_symbol_all); eauto]).
    done. }
  by destruct (aggregate_ids _ _ _ _ _ _).
Qed.
End records.

Lemma insertSymbols_origin (symbols : symbol_map) s :
  s ∈ st_symbols (insertSymbols symbols) →
  ∃ u r, symbols !! u = Some r ∧ s_kind s = rec_kind r ∧ s_linkage s = rec_linkage r.
Proof.
  unfold insertSymbols. revert s.
  apply (foldl_inv (λ t, ∀ s, s ∈ st_symbols t → ∃ u r, symbols !! u = Some r ∧ s_kind s = rec_kind r ∧ s_linkage s = rec_linkage r));
    [cbn; set_solver|].
  intros t r (u & _ & Hu)%list_elem_of_omap IH s. cbn [insert_symbol st_symbols].
  intros [Hs| ->%list_elem_of_singleton]%elem_of_app; [by apply IH|]. by exists u, r.
Qed.

Lemma recordFor_vocabulary K fn tu path pr r :
  Cgraph.Kind fn = "" ∨ Cgraph.Kind fn ∈ K → recordFor fn tu path pr = Some r →
  rec_kind r ∈ "function" :: K ∧ rec_linkage r ∈ ["weak"; "external"; "internal"].
Proof.
  intros Hk. unfold recordFor. destruct (String.eqb (if _ : bool then _ else _) ""); [done|].
  intros [= <-]. cbn [rec_kind rec_linkage]. split.
  - destruct (String.eqb_spec (Cgraph.Kind fn) ""); [left|right]. by destruct Hk.
  - unfold linkage_of. destruct (containsTok _ "weak"); [set_solver|]. destruct (_ || _); set_solver.
Qed.

(** The kinds and linkages of the rows of a run over the units. *)
Lemma ingest_vocabulary K pr root tus ct s :
  (∀ tu cg id fn, tu ∈ tus → tu_cgraph tu = Some cg → Symbols cg !! id = Some fn → Cgraph.Kind fn = "" ∨ Cgraph.Kind fn ∈ K) →
  ingest_tus pr root tus = Ok ct → s ∈ st_symbols (ct_symbols ct) →
  s_kind s ∈ "function" :: K ∧ s_linkage s ∈ ["weak"; "external"; "internal"].
Proof.
  intros Hk. set (P r := rec_kind r ∈ "function" :: K ∧ rec_linkage r ∈ ["weak"; "external"; "internal"]).
  assert (∀ u r, (aggregate_all pr tus).1 !! u = Some r → P r) as Hall.
  { apply aggregate_all_records.
    - intros a b [Ha1 Ha2] [Hb1 Hb2]. unfold P, merge_rec, strongerLinkage. cbn [rec_kind rec_linkage].
      split; [by destruct (String.eqb _ _)|by destruct (_ <=? _)%Z].
    - done.
    - intros tu cg id fn path r Htu Hcg Hfn. apply recordFor_vocabulary. by eapply Hk. }
  unfold ingest_tus. destruct (aggregate_all pr tus) as [symbols resolves]. cbn [fst] in Hall.
  destruct (insertICFGroups _ _ _ _); [|done]. intros [= <-] (u & r & Hr & -> & ->)%insertSymbols_origin.
  apply prune_lookup in Hr as [Hr _]. by apply (Hall u r).
Qed.

(** *** The optimization records *)

Lemma collect_names ps out id name :
  collectInlinePasses ps out !! id = Some name → out !! id = Some name ∨ (id, name, true) ∈ (ps ≫= OptRecord.flatten).
Proof.
  assert (collectInlinePasses ps out = foldl add_flat out (ps ≫= OptRecord.flatten)) as ->.
  { unfold collectInlinePasses. revert out. induction ps as [|p ps IH]; intros out; [done|].
    cbn [foldl mbind list_bind]. by rewrite foldl_app, <-collect_pass_flatten, <-IH. }
  generalize (ps ≫= OptRecord.flatten). intros l. revert out; induction l as [|[[i n] b] l IH]; intros out; cbn [foldl]; [by left|].
  intros [H|H]%IH; [|right; by right]. unfold add_flat in H. cbn [fst snd] in H. destruct b; [|by left].
  apply lookup_insert_Some in H as [[<- <-]|[_ H]]; [right; left|by left].
Qed.

Lemma ParseOptRecord_passes names doc recs r :
  passes_ok names doc → ParseOptRecord doc = Ok recs → r ∈ recs → Pass r ∈ names.
Proof.
  intros Hp. unfold ParseOptRecord. destruct doc as [j|]; [|done].
  destruct (decode_list Some j) as [[|m [|t [|rest more]]]|] eqn:Ej; try done.
  destruct (decode_meta m); [|done]. destruct (negb _); [done|]. destruct (decode_list decode_pass t) as [ps|] eqn:Et; [|done].
  destruct (decode_list decode_record rest) as [rs|]; [|done]. intros [= <-]. revert r.
  assert (∃ k, j = JArr (m :: t :: k)) as [k ->].
  { unfold decode_list in Ej. destruct j; try done. exists (rest :: more). f_equal.
    match goal with |- ?l = _ => assert (mapM Some l = Some l) as E by (clear; induction l as [|x l IH]; [done|]; cbn; by rewrite IH) end.
    rewrite E in Ej. by injection Ej. }
  apply (foldl_inv (λ l, ∀ r, r ∈ l → Pass r ∈ names)); [set_solver|]. intros l x _ IH r. unfold add_record, keep_record.
  destruct (collectInlinePasses ps ∅ !! rec_Pass x) as [name|] eqn:En; cbn [mbind option_bind]; [|apply IH].
  destruct (if _ : bool then _ else _) as [ir|] eqn:Ei; [|apply IH]. case_bool_decide; [apply IH|].
  intros [Hr| ->%list_elem_of_singleton]%elem_of_app; [by apply IH|].
  destruct (_ || _); [|done]. apply recordFromMessage_reason in Ei as (-> & _).
  apply collect_names in En as [En|En]; [by rewrite lookup_empty in En|]. by eapply Hp.
Qed.

(** *** The units *)

Lemma parse_opt_Some {E A} path (p : string → result E A) a : parse_opt path p = Ok (Some a) → p path = Ok a.
Proof. unfold parse_opt. destruct (String.eqb path ""); [done|]. destruct (p path); [|done]. by intros [= <-]. Qed.

(** What a parsed unit holds is what the parsers make of its files. *)
Lemma parseTU_parts fs json_of art tu :
  parseTU fs json_of art = Ok tu →
  parse_opt (BuildDir.Cgraph art) (ParseCgraphFile fs) = Ok (tu_cgraph tu) ∧
  parse_opt (BuildDir.OptRecord art) (ParseOptRecordFile fs json_of) = Ok (tu_optRec tu).
Proof.
  unfold parseTU. destruct (parse_opt (BuildDir.CI art) _) as [ci|]; [|done]. cbn [mbind result_bind].
  destruct (parse_opt (BuildDir.Cgraph art) _) as [cg|]; [|done]. cbn [mbind result_bind].
  destruct (parse_opt (BuildDir.Inline art) _) as [il|]; [|done]. cbn [mbind result_bind].
  destruct (parse_opt (BuildDir.ICF art) _) as [icf|]; [|done]. cbn [mbind result_bind].
  destruct (parse_opt (BuildDir.OptRecord art) _) as [opt|]; [|done]. cbn [mbind result_bind]. by intros [= <-].
Qed.

Lemma parseTU_cgraph fs json_of art tu cg :
  parseTU fs json_of art = Ok tu → tu_cgraph tu = Some cg →
  ∃ text, fs (BuildDir.Cgraph art) = Some text ∧ cg = (ParseCgraph text).1.
Proof.
  intros [H _]%parseTU_parts E. rewrite E in H. apply parse_opt_Some, parse_file_Ok in H as (text & Ht & Hp).
  exists text. by rewrite Hp.
Qed.

Lemma parseTU_records fs json_of art tu rs :
  parseTU fs json_of art = Ok tu → tu_optRec tu = Some rs →
  ∃ text, fs (BuildDir.OptRecord art) = Some text ∧ ParseOptRecord (json_of text) = Ok rs.
Proof.
  intros [_ H]%parseTU_parts E. rewrite E in H. apply parse_opt_Some in H. unfold ParseOptRecordFile in H.
  destruct (fs _) as [text|]; [|done]. exists text. split; [done|]. destruct (ParseOptRecord _); [|done]. congruence.
Qed.

Lemma inline_record_pass pr root object res ids r row : inline_record pr root object res ids r = Some row → ir_pass row = Pass r.
Proof.
  unfold inline_record. destruct (ids !! default "" (res !! CallerLocalID r)); [|done]. cbn [mbind option_bind].
  destruct (ids !! default "" (res !! CalleeLocalID r)); [|done]. by intros [= <-].
Qed.

Lemma add_groups_kind gs t : Meson.Kind (foldl add_group t gs) = Meson.Kind t.
Proof. revert t; induction gs as [|g gs IH]; intros t; [done|]. cbn [foldl]. by rewrite IH. Qed.

(** *** The columns of a run *)

Section run.
Context (m : machine) (Version : string) (o : options) (globs : list ExternalGlob.ExternalGlob).
Context (intro : Introspection) (bd : BuildDir.BuildDir) (i : index_tables).
Context (Hmade : made m Version o globs intro bd i) (Hin : documented_inputs m intro bd).

Lemma run_target_kinds r : r ∈ tt_targets (xt_targets i) → t_kind r ∈ ["executable"; "static_library"; "shared_library"].
Proof.
  pose proof (mk_targets _ _ _ _ _ _ _ Hmade) as Ht.
  pose proof (Targets_cases (Resolver.NewPathResolver (m_cwd m) (o_builddir o) (o_project_root o)) intro) as Hc.
  rewrite Ht in Hc. destruct Hc as [_ [Hr _ _]]. rewrite Hr. intros [n Hn]%list_elem_of_lookup.
  rewrite list_lookup_imap in Hn. destruct (_ !! n) as [t|] eqn:E; [|done]. injection Hn as <-. cbn [t_kind].
  apply list_elem_of_lookup_2 in E. rewrite (sort_by_perm Meson.Name) in E.
  destruct (di_meson _ _ _ Hin t E) as (rt & -> & Hk). unfold toTarget. rewrite add_groups_kind. cbn [Meson.Kind].
  rewrite !elem_of_cons, elem_of_nil in Hk. by destruct_or! Hk; rewrite Hk; cbn; set_solver.
Qed.

Lemma run_units :
  ∃ tus, Forall2 (λ art tu, parseTU (m_text m) (m_gunzip m) art = Ok tu) (BuildDir.Objects bd) tus ∧
    ingest_tus (Resolver.NewPathResolver (m_cwd m) (o_builddir o) (o_project_root o)) (BuildDir.Root bd) tus = Ok (xt_compiler i).
Proof.
  by apply (made_units _ _ _ _ _ _ _ Hmade).
Qed.

Lemma run_symbols s :
  s ∈ dt_symbols (xt_dwarf i) →
  s_kind s ∈ ["function"; "variable"] ∧ s_linkage s ∈ ["external"; "internal"; "weak"; "common"].
Proof.
  destruct run_units as (tus & Htus & Hrun). pose proof (mk_dwarf _ _ _ _ _ _ _ Hmade) as (infos & _ & _ & Hs)%put_objects_updates.
  rewrite Hs. intros (s' & -> & Hs')%list_elem_of_fmap. rewrite sig_steps. cbn [enriched_symbol s_kind s_linkage].
  edestruct (ingest_vocabulary ["function"; "variable"]) as [H1 H2]; [|exact Hrun|exact Hs'|].
  { intros tu cg id fn Htu Hcg Hfn. apply list_elem_of_lookup in Htu as [n Hn]. destruct (Forall2_lookup_r _ _ _ _ _ Htus Hn) as (art & Ha & Hp).
    destruct (parseTU_cgraph _ _ _ _ _ Hp Hcg) as (text & Ht & ->). apply (ParseCgraph_kind _ text id); [|done].
    apply (di_cgraph _ _ _ Hin art); [by eapply list_elem_of_lookup_2|done]. }
  split; set_solver.
Qed.

Lemma run_edges e : e ∈ ix_edges (graph_of i) → e_source e ∈ ["compiler_cgraph"; "objdump"].
Proof.
  intros [(k & -> & _)%list_elem_of_fmap|He]%elem_of_app; [left|right].
  destruct (Link_linked _ _ _ _ _ _ _ _ _ (mk_targets _ _ _ _ _ _ _ Hmade) (mk_link _ _ _ _ _ _ _ Hmade)) as [_ Hl _].
  apply list_elem_of_singleton. by apply Hl in He as (_ & _ & He & _).
Qed.

Lemma run_records r : r ∈ ct_inline_records (xt_compiler i) → ir_pass r ∈ ["einline"; "inline"].
Proof.
  destruct run_units as (tus & Htus & Hrun). revert Hrun. unfold ingest_tus.
  destruct (aggregate_all _ tus) as [symbols resolves]. destruct (insertICFGroups _ _ _ _); [|done]. intros [= <-].
  cbn [ct_inline_records]. rewrite insertInlineRecords_rows, list_elem_of_bind. intros (tu & Hr & [n Hn]%list_elem_of_lookup).
  destruct (Forall2_lookup_r _ _ _ _ _ Htus Hn) as (art & Ha & Hp).
  destruct (tu_optRec tu) as [rs|] eqn:E; [|set_solver]. destruct (resolves !! _); [|set_solver].
  apply list_elem_of_omap in Hr as (x & Hx & Hrow). apply inline_record_pass in Hrow as ->.
  apply (parseTU_records _ _ _ _ _ Hp) in E as (text & Ht & Hrs).
  eapply ParseOptRecord_passes; [|exact Hrs|exact Hx]. eapply (di_records _ _ _ Hin art); [by eapply list_elem_of_lookup_2|done].
Qed.

Lemma run_resolutions r :
  r ∈ lt_resolutions (xt_link i) → lr_linkage_kind r ∈ ["strong"; "weak"; "unique_global"; "common"].
Proof.
  destruct (Link_rows_origin _ _ _ _ _ _ _ _ (mk_link _ _ _ _ _ _ _ Hmade)) as (dbn & _ & _ & ->).
  intros (t & tid & _ & _ & nms & mf & calls & s & _ & _ & Hr). revert Hr. unfold resolution_row.
  destruct (String.eqb_spec (Nm.LinkageKind s) "") as [|Hne]; [done|].
  destruct (resolveNMSymbol _ _ _ _ _ s); [|done]. intros [= <-]. cbn [lr_linkage_kind]. revert Hne. unfold Nm.LinkageKind.
  repeat case_match; set_solver.
Qed.
End run.

(** ** Properties *)

(** C15: In an index that the passes made, every column the schema resource documents as
    a closed vocabulary holds only the values it lists, as long as Meson names
    executables and libraries only, the [Type:] lines of GCC's dumps name functions
    and variables and the inline passes of its records are the two documented
    ones. *)
Theorem documented_vocabulary m Version o globs intro bd i :
  passes m Version o globs intro bd = Val (Ok i) → documented_inputs m intro bd →
  ∀ e v, e ∈ SchemaEnums → v ∈ column_values i (Column e) → v ∈ Values e.
Proof.
  intros Hm%passes_made Hin.
  assert (Forall (λ e, ∀ v, v ∈ column_values i (Column e) → v ∈ Values e) SchemaEnums) as H;
    [|intros e v He; by apply (proj1 (Forall_forall _ _) H)].
  unfold SchemaEnums. repeat apply Forall_cons_2; cbn [Column Values]; try apply Forall_nil_2; intros v.
  - intros (r & -> & Hr)%list_elem_of_fmap. by eapply run_target_kinds.
  - intros (s & -> & Hs)%list_elem_of_fmap. by eapply run_symbols.
  - intros (s & -> & Hs)%list_elem_of_fmap. by eapply run_symbols.
  - intros (e & -> & He)%list_elem_of_fmap. by eapply run_edges.
  - intros (r & -> & Hr)%list_elem_of_fmap. by eapply run_records.
  - intros (r & -> & Hr)%list_elem_of_fmap. by eapply run_resolutions.
  - intros (r & Hr & _)%list_elem_of_bind. apply list_elem_of_fmap in Hr as (s & -> & _). left.
Qed.

(** A target of another kind keeps the name Meson gives it. *)
Theorem targets_kind_open :
  let custom := toTarget (MkRawTarget "gen" "gen@cus" "custom" "" ["/b/gen.h"] [] false None) in
  match Meson.Targets ex_pr (MkIntrospection "1.3" "/p" "/b" [custom] (MkCompilerInfo "gcc" "13" "13.2" [] "ld") []) with
  | Ok tbl => t_kind <$> tt_targets tbl = ["custom"]
  | Err _ => False
  end.
Proof. vm_compute. done. Qed.

(** On the run of [Collect]. *)
Lemma ex_documented : documented_inputs ex_machine ex_prepared.1.2 ex_prepared.2.
Proof.
  split.
  - intros t ->%list_elem_of_singleton.
    exists (MkRawTarget "prog" "" "executable" "" ["/b/prog"] [MkRawSrcGrp "c" None [] None ["/p/a.c"] []] false None).
    split; [vm_compute; reflexivity|left].
  - intros art text ->%list_elem_of_singleton Ht raw k Hraw Hk.
    assert (∃ tokens, omap type_token (ScanLines cg_max_line text).1 = tokens ∧ tokens ⊆ ["function"; "variable"]) as (l & <- & Hl).
    { vm_compute in Ht. injection Ht as <-. eexists. split; [vm_compute; reflexivity|set_solver]. }
    apply Hl, list_elem_of_omap. eauto.
  - intros art text _ _ meta t rest ps id name [= <- <- <-] Hps Hn. vm_compute in Hps. injection Hps as <-.
    vm_compute in Hn. set_solver.
Qed.

Lemma documented_vocabulary_witness :
  column_values ex_index_tables "symbols.linkage" = ["external"; "internal"] ∧
  column_values ex_index_tables "call_edges.source" = ["compiler_cgraph"; "objdump"] ∧
  ∀ v, v ∈ column_values ex_index_tables "symbols.kind" → v ∈ ["function"; "variable"].
Proof.
  split; [vm_compute; reflexivity|]. split; [vm_compute; reflexivity|]. intros v.
  apply (documented_vocabulary ex_machine "dev" ex_options ex_prepared.1.1 ex_prepared.1.2 ex_prepared.2 ex_index_tables
           ex_passes_ok ex_documented (MkSchemaEnum "symbols.kind" ["function"; "variable"] (Notes (nth 1 SchemaEnums (MkSchemaEnum "" [] ""))))).
  right; left.
Defined.
