(* ===== verification/Tools.v ===== *)
(** * The tools of the server ([internal/mcp/mcp.go] and the [register...] functions
    of its siblings)

    Every tool with the arguments it declares and what its handler makes of a call:
    the server as one function from a tool's name and the arguments of a call to an
    answer, with the texts that describe them.  How the MCP library reads an argument is
    the interface [Arguments]. *)

From S2P Require Import Prelude GoStrings OptRecord Store CallGraph SourceTools Inlining SymbolTools.
From S2P Require Import LinkageTools SqlTool Reload Schema.
From Stdlib Require Import ZArith Lia.

(** ** Arguments *)

(** What the handlers ask of the arguments of a call: a required one, or an error text;
    one with a default; or the raw value. *)
Class Arguments (A : Type) := {
  RequireString : A → string → result string string;
  RequireInt : A → string → result string Z;
  GetString : A → string → string → string;
  GetInt : A → string → Z → Z;
  GetBool : A → string → bool → bool;
  GetArgument : A → string → option json;
}.

Inductive arg_type := TString | TNumber | TBoolean | TArray.

(** A declared argument; a boolean's default is 0 or 1. *)
Record argument := Argument {
  a_name : string;
  a_type : arg_type;
  a_description : string;
  a_required : bool;
  a_enum : list string;
  a_min : option Z;
  a_max : option Z;
  a_default : option Z;
}.

Definition WithString (name description : string) : argument := Argument name TString description false [] None None None.
Definition WithBoolean (name description : string) : argument := Argument name TBoolean description false [] None None None.
Definition WithNumber (name description : string) : argument := Argument name TNumber description false [] None None None.
Definition WithArray (name description : string) : argument := Argument name TArray description false [] None None None.
Definition Required (a : argument) : argument :=
  Argument (a_name a) (a_type a) (a_description a) true (a_enum a) (a_min a) (a_max a) (a_default a).
Definition Enum (vs : list string) (a : argument) : argument :=
  Argument (a_name a) (a_type a) (a_description a) (a_required a) vs (a_min a) (a_max a) (a_default a).
Definition Min (n : Z) (a : argument) : argument :=
  Argument (a_name a) (a_type a) (a_description a) (a_required a) (a_enum a) (Some n) (a_max a) (a_default a).
Definition Max (n : Z) (a : argument) : argument :=
  Argument (a_name a) (a_type a) (a_description a) (a_required a) (a_enum a) (a_min a) (Some n) (a_default a).
Definition Default (n : Z) (a : argument) : argument :=
  Argument (a_name a) (a_type a) (a_description a) (a_required a) (a_enum a) (a_min a) (a_max a) (Some n).

Definition limitArg (def : Z) : argument :=
  Min 1 (WithNumber "limit" ("Cap on returned rows; default " +:+ dec def +:+ ", max " +:+ dec rowLimitMax +:+
                             ". `truncated` says when it bit.")).
Definition snippetArg : argument :=
  WithBoolean "include_snippets"
    ("Attach a ±5-line source window to each location. Off by default: it roughly doubles the payload, and " +:+
     "read_source fetches context for the one location you care about.").
Definition targetReachabilityArg (subject : string) : argument :=
  WithString "target"
    ("Restrict to " +:+ subject +:+ " reachable in this target (symbol_reachability join). " +:+
     "Internal-linkage symbols — a 'static' function, a 'static inline' in a header — " +:+
     "never reach link_resolutions and so are dropped by this filter even when their " +:+
     "code is in the binary. C dispatch tables and hot-path helpers are usually static, " +:+
     "so a target-scoped result can be missing exactly what you are looking for, with " +:+
     "nothing marking the loss. Treat a smaller or empty result as 'nothing resolved " +:+
     "under that name', never as 'no such code'; re-run without 'target' to see the full set.").
Definition targetSourcesArg (extra : string) : argument :=
  let d :=
    "Restrict to files meson compiles into this target (target_sources join) — this target's own TUs only. " +:+
    "Sources of a static library on its link line are attributed to the library target, not to this one, so an " +:+
    "executable linking a lib/ archive lists only its app/ files here, and a symbol defined in that archive will not " +:+
    "be found under this filter. describe_target names the archives pulled in — re-run the filter against those " +:+
    "target names, or drop it to cover the whole index." in
  WithString "target" (if String.eqb extra "" then d else d +:+ " " +:+ extra).

(** ** Answers *)

Inductive answer :=
| Refused (text : string)
| Schema_ (r : SchemaResponse)
| SQL_ (r : result sql_error SQLResponse)
| ReadSource_ (r : result source_error ReadSourceResponse)
| SourceFiles_ (r : result source_error (list SourceFile))
| VerifySource_ (r : result source_error VerifySourceResponse)
| SourceDrift_ (r : result source_error (list DriftEntry * Z))
| SearchSource_ (r : result source_error SearchResponse)
| Targets_ (r : list TargetSummary)
| Target_ (r : result link_query_error DescribeTargetResponse)
| FindSymbol_ (r : result fts_error FindSymbolResponse)
| Symbol_ (r : result query_error DescribeSymbolResponse)
| Neighbors_ (r : result query_error (list (SymbolRef * list string) * bool))
| CallPaths_ (r : result query_error ListCallPathsResponse)
| LinkedNeighbors_ (r : result query_error (list SymbolRef))
| Inlining_ (r : result query_error DescribeInliningResponse)
| InlineInstances_ (r : result query_error ListInlineInstancesResponse)
| ExplainCall_ (r : result query_error ExplainCallResponse)
| FindType_ (r : result fts_error FindTypeResponse)
| Type__ (r : result type_error DescribeTypeResponse)
| IndirectSites_ (r : list IndirectCallSite * nat * bool)
| AddressTaken_ (r : list (SymbolRef * list string))
| IndirectCall_ (r : result site_error ResolveIndirectCallResponse)
| LinkResolution_ (r : result link_query_error DescribeLinkResolutionResponse)
| WeakSymbols_ (r : list WeakSymbol)
| UndefinedSymbols_ (r : result link_query_error (list UndefinedSymbol))
| ICFGroups_ (r : result link_query_error (list ICFGroup))
| Unreachable_ (r : result link_query_error (list UnreachableSymbol * bool))
| EntryPoints_ (r : result link_query_error (list EntryPoint * bool))
| Reload_ (r : result reload_error ReloadResponse).

(** ** The tools *)

(** What the server answers from: the index, the live checkout, and the code outside the
    repository that a handler uses. *)
Record server := Server {
  sv_schema : string;
  sv_driver : string → list json → result string cursor;
  sv_unzstd : string → option string;
  sv_index : tool_index;
  sv_inline : inline_index;
  sv_root : string;
  sv_symbols_match : string → option (symbol_row → bool);
  sv_types_match : string → option (type_row → bool);
  sv_quote : string → string;
  sv_sha256 : string → string;
  sv_live : string → live_file;
  sv_compile : string → option (string → list (nat * nat));
  sv_reload : result reload_error ReloadResponse;
}.

Section tools.
Context (s : server) {A : Type} `{!Arguments A}.

(** A tool and the hints for its clients; [None] is the MCP library's default. *)
Record tool := Tool {
  tl_name : string;
  tl_description : string;
  tl_read_only : option bool;
  tl_destructive : option bool;
  tl_open_world : option bool;
  tl_idempotent : option bool;
  tl_arguments : list argument;
  tl_call : A → answer;
}.

Definition newTool (name description : string) (arguments : list argument) (handler : A → answer) : tool :=
  Tool name description (Some true) (Some false) (Some false) None arguments handler.
Definition WithIdempotentHint (t : tool) : tool :=
  Tool (tl_name t) (tl_description t) (tl_read_only t) (tl_destructive t) (tl_open_world t) (Some true)
    (tl_arguments t) (tl_call t).

(** [usr, err := req.RequireString(key)] and the error answer. *)
Definition required (a : A) (key : string) (k : string → answer) : answer :=
  match RequireString a key with Ok v => k v | Err e => Refused e end.
Definition required_int (a : A) (key : string) (k : Z → answer) : answer :=
  match RequireInt a key with Ok v => k v | Err e => Refused e end.

Definition row_limit (a : A) (def : Z) : option Z := Some (GetInt a "limit" def).
Definition wantSnippets (a : A) : bool := GetBool a "include_snippets" false.

Definition registerSchemaTool : list tool :=
  [WithIdempotentHint (newTool "describe_schema"
     ("Return the full read-only .hbr schema (CREATE TABLE DDL) plus enum-value glossary and canonical " +:+
      "join recipes. Pair with sql_query for arbitrary queries the tool set doesn't cover.")
     []
     (λ _, Schema_ (handleDescribeSchema (sv_schema s))) )].

Definition registerSQLTool : list tool :=
  [newTool "sql_query"
     ("Run an arbitrary read-only SQL query against the .hbr index. Use describe_schema first to learn the " +:+
      "tables and join recipes. Writes are rejected at the driver level. Result rows are capped (default " +:+
      "500, max 10000) — set 'limit' to raise or 'offset' to page.")
     [Required (WithString "sql" "The SQL statement to execute. Only SELECT and read-only PRAGMA statements will succeed.");
      WithArray "params" ("Positional parameters to bind to '?' placeholders in 'sql'. Elements may be string, number, " +:+
        "boolean, or null.");
      Max maxSQLLimit (Min 1 (WithNumber "limit" "Cap on returned rows; default 500, max 10000."))]
     (λ a, required a "sql" (λ sql,
        SQL_ (handleSQLQuery (sv_driver s) sql (Some (GetInt a "limit" defaultSQLLimit)) (GetArgument a "params"))))].

Definition registerSourceTools : list tool :=
  let ix := ti_sources (sv_index s) in
  [newTool "read_source"
     ("Return the source content at the given path from the embedded blob store, optionally sliced by " +:+
      "1-based inclusive line range. A project-relative path resolves against `sources`; an absolute path " +:+
      "(starting with '/') resolves against `external_sources` (populated only when collect was invoked " +:+
      "with --include-external). Every path any other tool returns is guaranteed to resolve here.")
     [Required (WithString "path" "Project-relative path (forward slashes) OR absolute path for an external header.");
      Min 0 (WithNumber "start_line" "1-based first line to include; omit or 0 for start of file.");
      Min 0 (WithNumber "end_line" "1-based last line to include; omit or 0 for end of file.")]
     (λ a, required a "path" (λ path,
        ReadSource_ (handleReadSource (sv_unzstd s) ix path (GetInt a "start_line" 0) (GetInt a "end_line" 0))));
   newTool "list_source_files"
     ("Enumerate every file the .hbr has content for. Filter by target membership, path prefix, or file " +:+
      "kind ('source' | 'header' | 'generated'). Build-tree files from generated_sources (out-of-tree " +:+
      "build outputs like config.h) are included by default with IsGenerated=true and no target " +:+
      "membership. External headers packed via --include-external are excluded by default; set " +:+
      "include_external=true to union them in.")
     [targetSourcesArg "Excludes external headers.";
      WithString "path_prefix" "Restrict to files whose path starts with this prefix. Applied to both project and external paths.";
      Enum ["source"; "header"; "generated"] (WithString "kind" "'source' (.c/.C/.cpp/etc.), 'header' (.h/.hpp/.hxx), or 'generated' (is_generated=1).");
      Default 0 (WithBoolean "include_external" "If true, union external_sources rows into the result.")]
     (λ a, SourceFiles_ (handleListSourceFiles ix (GetString a "target" "") (GetString a "path_prefix" "")
                           (GetString a "kind" "") (GetBool a "include_external" false)));
   newTool "verify_source"
     ("Check whether a file's indexed content matches an expected hash. When expected_hash is supplied, " +:+
      "compares against that. Otherwise, if serve was launched with --project-root, live-hashes the " +:+
      "on-disk file and reports the comparison.")
     [Required (WithString "path" "Project-relative path (forward slashes). External headers are not currently supported.");
      WithString "expected_hash" ("Optional SHA-256 hex to compare against; omit to compare against the live file (requires " +:+
        "--project-root).")]
     (λ a, required a "path" (λ path,
        VerifySource_ (handleVerifySource ix (sv_root s) (sv_sha256 s) (sv_live s) path (GetString a "expected_hash" ""))));
   newTool "list_source_drift"
     ("Walk the live checkout at --project-root and return every file whose live content differs from the " +:+
      "indexed blob. Only available when serve was launched with --project-root.")
     [targetSourcesArg "";
      WithString "path_prefix" "Restrict to files whose project-relative path starts with this prefix."]
     (λ a, SourceDrift_ (handleListSourceDrift ix (sv_root s) (sv_sha256 s) (sv_live s) (GetString a "target" "")
                           (GetString a "path_prefix" "")));
   newTool "search_source"
     ("Grep across every indexed source blob and return per-match Locations. Literal substring by default; " +:+
      "set regex=true for RE2 syntax. Use this for content patterns that find_symbol misses — string " +:+
      "literals, macro invocations, call-shape patterns like 'pthread_mutex_lock('. Filters match " +:+
      "list_source_files (target, path_prefix, kind, include_external). Multiple matches on one line " +:+
      "surface as separate entries, each with its column. Answers summary-first: 'summary' counts every " +:+
      "match found and where they cluster (by file, by directory) even when the row array is capped, so " +:+
      "read it before 'matches'. Only 'matches' is bounded by 'limit' (default 200, max 2000) — when " +:+
      "truncated, narrow with path_prefix rather than raising limit. Per-file constants (blob_hash, " +:+
      "absolute_path) live once each in 'files', not on every match. Optional 'context' lines around each " +:+
      "hit (default 0, max 20).")
     [Required (WithString "pattern" ("Substring to find (byte-literal). If regex=true, an RE2 pattern instead — RE2 has no catastrophic " +:+
        "backtrack so agents can trust it."));
      Default 0 (WithBoolean "regex" "Treat 'pattern' as an RE2 regex.");
      WithString "path_prefix" "Restrict to files whose path starts with this prefix. Applied to both project and external paths.";
      Enum ["source"; "header"; "generated"] (WithString "kind" "'source' (.c/.C/.cpp/etc.), 'header' (.h/.hpp/.hxx), or 'generated' (is_generated=1).");
      targetSourcesArg "Excludes generated_sources and external headers.";
      Default 0 (WithBoolean "include_external" "If true, also search external_sources (--include-external headers).");
      Default 0 (Max searchSourceMaxContext (Min 0 (WithNumber "context" "Lines of context to include on either side of each match (default 0 → single-line snippet).")));
      Default searchSourceDefaultLimit (Max searchSourceMaxLimit (Min 1 (WithNumber "limit" "Cap on returned matches; default 200, max 2000.")))]
     (λ a, required a "pattern" (λ pattern,
        SearchSource_ (handleSearchSource (sv_unzstd s) ix (sv_root s) (sv_compile s) pattern (GetBool a "regex" false)
                         (GetString a "target" "") (GetString a "path_prefix" "") (GetString a "kind" "")
                         (GetBool a "include_external" false) (GetInt a "context" 0)
                         (GetInt a "limit" searchSourceDefaultLimit))))].

Definition registerTargetTools : list tool :=
  [newTool "list_targets"
     ("Enumerate every executable, static library, and shared library the build produces. Returns kind, " +:+
      "source count, and entry-point summary per target — the agent's first move when it needs to scope a " +:+
      "query to a specific binary.")
     []
     (λ _, Targets_ (handleListTargets (sv_index s)));
   newTool "describe_target"
     ("Full profile of one target: link command, source list (each with blob_hash + membership), archives " +:+
      "pulled in, and a compact entry-point summary. Use list_entry_points for the full root-set list.")
     [Required (WithString "name" "Target name as returned by list_targets.")]
     (λ a, required a "name" (λ name, Target_ (handleDescribeTarget (sv_unzstd s) (sv_index s) (sv_root s) name)))].

Definition registerSymbolTools : list tool :=
  [newTool "find_symbol"
     ("Look up symbols by name or signature. Fuzzy FTS by default — identifier-boundary tokenization " +:+
      "(add_ints → 'add ints') plus prefix matching; pass exact=true for a literal name lookup that also " +:+
      "matches link-time clone names. Scopeable by symbol kind or by target membership — but a " +:+
      "target-scoped miss is not proof of absence; read the 'target' arg first. This index holds functions " +:+
      "and variables only: a type, macro or enum constant has no symbol row to find, so reach for " +:+
      "search_source instead.")
     [Required (WithString "query" ("Substring or partial identifier. Split on non-alphanumeric boundaries (so 'add_ints' tokenizes to " +:+
        "'add ints') and each token gets a trailing '*' for prefix matching — 'add' matches 'add_ints', " +:+
        "'adder', 'quick_add'. All-punctuation input matches nothing. With exact=true it is instead the " +:+
        "literal name to match."));
      WithBoolean "exact" ("Match the name literally instead of by FTS: symbols.name = query, or any of the symbol's " +:+
        "linkage_names (so 'use_dispatch.constprop.0' from objdump output resolves to its source symbol, " +:+
        "which FTS cannot do — it indexes source names only). Use this to confirm a name exists rather than " +:+
        "to discover one.");
      WithString "kind" ("Filter by symbols.kind, which is a closed two-value enum: 'function' or 'variable'. Nothing else is " +:+
        "ever stored — kind comes from GCC's cgraph, which describes what reached the assembler, so types, " +:+
        "macros and enum constants have no row here at any kind.");
      WithString "target" ("Restrict to symbols the linker resolved into this target (link_resolutions join). Internal-linkage " +:+
        "symbols — a 'static' function, a 'static inline' in a header — never get a link_resolutions row by " +:+
        "design, so they are filtered out here even when their code is in the binary (inlined at every call " +:+
        "site, or folded by IPA-ICF). An empty target-scoped result therefore means 'no symbol resolved " +:+
        "under that name', NOT 'no such code in this target'. Re-run without 'target' and confirm with " +:+
        "describe_symbol (per-target link_resolutions) or list_linked_callers before concluding absence.")]
     (λ a, required a "query" (λ query,
        FindSymbol_ (handleFindSymbol (sv_index s) (sv_symbols_match s) (sv_quote s) query (GetString a "kind" "")
                       (GetString a "target" "") (GetBool a "exact" false))));
   newTool "describe_symbol"
     ("Canonical profile of one symbol by USR: name, kind, linkage, signature, address-taken flag, every " +:+
      "observed definition, every link-time name, and per-target link-resolution outcome. This is the " +:+
      "one-shot check for 'is this symbol dead in target T?' — the per-target link_resolutions list is " +:+
      "exactly what list_unreachable_symbols draws on, so a symbol with a resolution here is not dead " +:+
      "there.")
     [Required (WithString "usr" "The stable USR ('c:@F@name' or 'c:<path>@F@name') as returned by find_symbol.hits[].usr.")]
     (λ a, required a "usr" (λ usr, Symbol_ (handleDescribeSymbol (sv_unzstd s) (sv_index s) (sv_root s) usr)))].

Definition registerCallGraphSourceTools : list tool :=
  let gx := ti_graph (sv_index s) in
  [newTool "list_callers"
     ("Who calls this symbol per GCC's cgraph (source view; pre-inlining, target-agnostic). Use " +:+
      "list_linked_callers for the post-inlining per-binary runtime view.")
     [Required (WithString "callee_usr" "USR of the callee (from find_symbol.hits[].usr or describe_symbol.usr).");
      targetReachabilityArg "callers"]
     (λ a, required a "callee_usr" (λ usr, Neighbors_ (handleListCallers gx usr (GetString a "target" ""))));
   newTool "list_callees"
     ("Direct callees from this symbol per GCC's cgraph (source view; pre-inlining, target-agnostic). Use " +:+
      "list_linked_callees for the post-inlining per-binary runtime view.")
     [Required (WithString "caller_usr" "USR of the caller (from find_symbol.hits[].usr or describe_symbol.usr).");
      targetReachabilityArg "callees"]
     (λ a, required a "caller_usr" (λ usr, Neighbors_ (handleListCallees gx usr (GetString a "target" ""))));
   newTool "list_call_paths"
     ("Enumerate direct-call paths between two symbols via GCC's cgraph (source view). Follows direct call " +:+
      "edges only — chains that pass through function pointers won't appear; use list_indirect_call_sites " +:+
      "+ resolve_indirect_call to trace those. Bounded by max_depth (default 6, max 16). Returns up to 50 " +:+
      "paths.")
     [Required (WithString "from_usr" "USR of the path start (from find_symbol.hits[].usr or describe_symbol.usr).");
      Required (WithString "to_usr" "USR of the path end.");
      Max callPathMaxDepth (Min 1 (WithNumber "max_depth" "Maximum path length (edges). Default 6, max 16."));
      targetReachabilityArg "paths whose every node is"]
     (λ a, required a "from_usr" (λ from, required a "to_usr" (λ to,
        CallPaths_ (handleListCallPaths gx from to (GetInt a "max_depth" callPathDefaultDepth) (GetString a "target" "")))))].

Definition registerCallGraphRuntimeTools : list tool :=
  let gx := ti_graph (sv_index s) in
  [newTool "list_linked_callers"
     ("Callers per objdump of the shipped binary (runtime view; post-inlining, post-optimization, " +:+
      "per-target). Different answer than list_callers when inlining is aggressive; this is ground truth " +:+
      "for 'what actually calls X at runtime'. Edges are resolved by branch-target address, so same-named " +:+
      "internal-linkage callers across TUs are disambiguated when a linker map is present; without a map " +:+
      "file the ingest falls back to name-based lookup and may collapse such collisions.")
     [Required (WithString "callee_usr" "USR of the callee (from find_symbol.hits[].usr or describe_symbol.usr).");
      Required (WithString "target" "Target binary name — runtime callgraph is per-target.")]
     (λ a, required a "callee_usr" (λ usr, required a "target" (λ target, LinkedNeighbors_ (handleListLinkedCallers gx usr target))));
   newTool "list_linked_callees"
     ("Callees per objdump of the shipped binary (runtime view; post-inlining, post-optimization, " +:+
      "per-target). Different answer than list_callees when inlining is aggressive; the set difference " +:+
      "list_callees − list_linked_callees is the definitive 'what got inlined or DCE'd into this caller " +:+
      "for this target'. Edges are resolved by branch-target address, so same-named internal-linkage " +:+
      "callees across TUs are disambiguated when a linker map is present; without a map file the ingest " +:+
      "falls back to name-based lookup and may collapse such collisions.")
     [Required (WithString "caller_usr" "USR of the caller (from find_symbol.hits[].usr or describe_symbol.usr).");
      Required (WithString "target" "Target binary name — runtime callgraph is per-target.")]
     (λ a, required a "caller_usr" (λ usr, required a "target" (λ target, LinkedNeighbors_ (handleListLinkedCallees gx usr target))));
   newTool "describe_inlining"
     ("Everything that happened to the calls in one function, across three planes. `records` is GCC's own " +:+
      "optimization record: every pass's decision, including the early inliner (pass 'einline') that folds " +:+
      "always_inline and trivial callees before any IPA pass runs, and including the rejections with the " +:+
      "compiler's reason for each. `instances` is DWARF: the inlined bodies that actually survived into " +:+
      "the object's code — outcome rather than decision, so a callee that folded to a constant afterwards " +:+
      "has a record and no instance. `cgraph_edges` is the older per-edge view from the .cgraph " +:+
      "`(inlined)` tag, IPA-stage only — a cross-check, not an answer. For a verdict on one specific call " +:+
      "rather than a survey of all of them, use explain_call. Read `summary` first: it counts every row " +:+
      "across all three planes (totals, by pass, by inline depth) and stays exact even when the row arrays " +:+
      "are capped — for a heavily inlined function those arrays are a sample, not the whole set, and " +:+
      "`truncated` says so.")
     [Required (WithString "caller_usr" "USR of the caller (from find_symbol.hits[].usr or describe_symbol.usr).");
      Min 1 (WithNumber "limit" "Cap on rows per array; default 50, max 1000. `summary` counts every row regardless.");
      WithBoolean "include_snippets" ("Attach a ±5-line source window to each location. Off by default: it roughly doubles the payload, " +:+
        "and read_source fetches context for the one location you care about.")]
     (λ a, required a "caller_usr" (λ usr,
        Inlining_ (handleDescribeInlining (sv_unzstd s) (sv_inline s) (sv_root s) usr
                     (GetInt a "limit" inlineRowDefaultLimit) (wantSnippets a))));
   newTool "list_inline_instances"
     ("The reverse of describe_inlining: everywhere one function's body was inlined INTO another. Answers " +:+
      "'where did this helper go?' for a symbol that has no runtime callers because it was folded away. " +:+
      "`instances` are the folds whose code survived into an object (DWARF); `records` are the decisions " +:+
      "GCC logged, rejections included. A function with instances but no linked callers was inlined " +:+
      "everywhere, not dead. `summary` counts every row and is exact even when the arrays are capped.")
     [Required (WithString "callee_usr" "USR of the function that may have been inlined (from find_symbol.hits[].usr).");
      Min 1 (WithNumber "limit" "Cap on rows per array; default 50, max 1000. `summary` counts every row regardless.");
      WithBoolean "include_snippets" ("Attach a ±5-line source window to each location. Off by default: it roughly doubles the payload, " +:+
        "and read_source fetches context for the one location you care about.")]
     (λ a, required a "callee_usr" (λ usr,
        InlineInstances_ (handleListInlineInstances (sv_unzstd s) (sv_inline s) (sv_root s) usr
                            (GetInt a "limit" inlineRowDefaultLimit) (wantSnippets a))));
   newTool "explain_call"
     ("One verdict for one call, with the evidence behind it. Use this instead of assembling an answer " +:+
      "from describe_inlining, list_linked_callees and reachability by hand. verdict is one of: " +:+
      "'inlined_and_present' (a pass inlined it and the body is in the object), 'inlined_then_folded' (a " +:+
      "pass inlined it, then the copy optimized away entirely — the call is gone but no body remains), " +:+
      "'declined' (GCC weighed it and kept the call; `reason` carries the compiler's own words), " +:+
      "'no_decision_logged' (no pass reported on this pair — usually means there is no such call, or it is " +:+
      "indirect: try list_indirect_call_sites), or 'mixed' when objects disagree, in which case read " +:+
      "per_object. Verdicts are per-object because one USR can be compiled in several TUs — the fixture's " +:+
      "two `main`s, or a static-inline header — and the passes can decide differently in each.")
     [Required (WithString "caller_usr" "USR of the calling function (from find_symbol.hits[].usr).");
      Required (WithString "callee_usr" "USR of the called function (from find_symbol.hits[].usr).");
      WithString "target" "Optional target name; restricts the linked_edge evidence to that binary's objdump view.";
      Min 1 (WithNumber "limit" ("Cap on evidence rows per array; default 50, max 1000. The verdict is always decided from the full " +:+
        "set, capped or not."));
      WithBoolean "include_snippets" "Attach a ±5-line source window to each evidence location. Off by default."]
     (λ a, required a "caller_usr" (λ caller, required a "callee_usr" (λ callee,
        ExplainCall_ (handleExplainCall (sv_unzstd s) (sv_inline s) (sv_root s) caller callee (GetString a "target" "")
                        (GetInt a "limit" inlineRowDefaultLimit) (wantSnippets a)))))].

Definition registerTypeTools : list tool :=
  [newTool "find_type"
     ("Find a type or an enum constant by name. Covers typedefs, struct and union tags, enum tags, and — " +:+
      "deliberately in the same tool — individual enum constants, because an agent looking for something " +:+
      "like MAX_RETRIES does not know whether it is an enumerator, a macro or a type, and guessing wrong " +:+
      "is how this search fails. Enum constants report the value the compiler assigned. Macros are not " +:+
      "here at all: they leave no DWARF at the -g level herbarium requires, so search_source is the only " +:+
      "route to one. " +:+
      usedTypesCaveat)
     [Required (WithString "query" ("Identifier or fragment. Tokenized on non-alphanumeric boundaries with prefix matching, exactly like " +:+
        "find_symbol — 'op status' and 'op_status' both match 'op_status_t'. With exact=true it is instead " +:+
        "the literal name."));
      WithBoolean "exact" ("Match the name literally (types.name = query, or enum_constants.name = query) instead of by FTS. " +:+
        "Use to confirm a name rather than to discover one.");
      WithString "kind" "Filter to one kind: 'typedef', 'struct', 'union', 'enum', or 'enum_constant'. Omit for all five.";
      limitArg findTypeLimit]
     (λ a, required a "query" (λ query,
        FindType_ (handleFindType (sv_unzstd s) (sv_index s) (sv_root s) (sv_types_match s) (sv_quote s) query
                     (GetBool a "exact" false) (GetString a "kind" "") (row_limit a findTypeLimit))));
   newTool "describe_type"
     ("One type in full: kind, declaration location, byte size, and its members. For a struct or union, " +:+
      "every field in declaration order with its rendered type and byte offset — the offset is what " +:+
      "identifies which field a dispatch table's slot corresponds to. For an enum, every constant with the " +:+
      "value the compiler assigned. For a typedef, the underlying type as rendered by DWARF.")
     [Required (WithString "usr" ("The type USR from find_type.hits[].usr — 'c:<path>@T@name' for a typedef, '@S@'/'@U@'/'@E@' for a " +:+
        "struct/union/enum tag."))]
     (λ a, required a "usr" (λ usr, Type__ (handleDescribeType (sv_unzstd s) (sv_index s) (sv_root s) usr)))].

Definition registerIndirectTools : list tool :=
  [newTool "list_indirect_call_sites"
     ("Sites GCC recorded as indirect calls, with source location, the callee's signature, and a hint " +:+
      "naming what the call dispatches through ('ops.add' for a struct member, a bare name for a global " +:+
      "fn-pointer or a fn-pointer parameter). Both are recovered from DWARF and are empty when the " +:+
      "compiler kept no trace of the target. Filterable by caller USR, callee_type, or target. Feed a " +:+
      "site_id into resolve_indirect_call to get a candidate callee list of type-compatible address-taken " +:+
      "functions.")
     [WithString "caller_usr" ("USR of the enclosing function (from find_symbol.hits[].usr or describe_symbol.usr). Omit for all " +:+
        "sites.");
      WithString "callee_type" ("Filter by callee signature, e.g. 'int (int, int)'. Same form as describe_symbol.signature, so a " +:+
        "value from either tool matches here.");
      targetReachabilityArg "sites whose caller is";
      limitArg indirectSitesLimit;
      snippetArg]
     (λ a, IndirectSites_ (handleListIndirectCallSites (sv_unzstd s) (sv_index s) (sv_root s) (GetString a "caller_usr" "")
                             (GetString a "callee_type" "") (GetString a "target" "") (row_limit a indirectSitesLimit)
                             (wantSnippets a)));
   newTool "list_address_taken_functions"
     ("Functions whose address is taken somewhere (candidate targets for indirect calls). Filterable by " +:+
      "canonical fn-pointer type (matched against the function's DWARF signature) or by target membership.")
     [WithString "fn_ptr_type" "Filter by function signature (as returned by describe_symbol.signature).";
      targetReachabilityArg "functions"]
     (λ a, AddressTaken_ (handleListAddressTakenFunctions (sv_index s) (GetString a "fn_ptr_type" "") (GetString a "target" "")));
   newTool "resolve_indirect_call"
     ("Best-effort candidate list for one indirect callsite: address-taken functions whose signature " +:+
      "matches the site's callee_type. When DWARF left no callee_type for the site, falls back to every " +:+
      "address-taken function — much broader. Each candidate is tagged with its evidence source, so the " +:+
      "fallback is distinguishable ('address_taken' vs 'type_match'). These are candidates, never a " +:+
      "resolution: herbarium has no plane that names the actual callee of an indirect call.")
     [Required (WithNumber "site_id" "indirect_call_sites.id — from list_indirect_call_sites.")]
     (λ a, required_int a "site_id" (λ site,
        IndirectCall_ (handleResolveIndirectCall (sv_unzstd s) (sv_index s) (sv_root s) site)))].

Definition registerLinkageTools : list tool :=
  [newTool "describe_link_resolution"
     ("Which object supplied a symbol in the given target: winning object, linkage kind, other objects in " +:+
      "the builddir that also define this symbol (losing_objects), and containing archive. winning_object " +:+
      "reflects the linker's actual choice when a .map file is available; otherwise it is picked " +:+
      "heuristically from an nm scan (strong > weak, deterministic tie-break). losing_objects is always " +:+
      "derived from the nm scan, so it may include archive members the linker never actually pulled in — " +:+
      "read it as 'other .o's that could have supplied this symbol', not 'candidates ld weighed and " +:+
      "rejected'.")
     [Required (WithString "usr" "USR of the symbol (from find_symbol.hits[].usr or describe_symbol.usr).");
      Required (WithString "target" "Target binary name — link resolution is per-target.")]
     (λ a, required a "usr" (λ usr, required a "target" (λ target,
        LinkResolution_ (handleDescribeLinkResolution (sv_index s) usr target))));
   newTool "list_weak_symbols"
     "Every weak-linkage definition in the index, with per-target resolution status when available."
     [WithString "target" "Restrict to weak symbols reachable in this target."]
     (λ a, WeakSymbols_ (handleListWeakSymbols (sv_unzstd s) (sv_index s) (sv_root s) (GetString a "target" "")));
   newTool "list_undefined_symbols"
     ("Externals this target references via a direct call but has no observed definition for anywhere in " +:+
      "the index (typical example: libc's printf). Derived from objdump call edges minus " +:+
      "symbol_definitions. Objdump edges are attributed by branch-target address using a map file when " +:+
      "present and otherwise a per-.o nm scan (unique-candidate lookup), so internal-linkage callees " +:+
      "sharing a name with an undefined external do not surface here as phantom undefineds in either mode. " +:+
      "The remaining ambiguous case — two same-named statics in two TUs of the same target with no map " +:+
      "file — falls back to name lookup and may still misattribute.")
     [Required (WithString "target" "Target binary name — undefined externals are per-target.")]
     (λ a, required a "target" (λ target, UndefinedSymbols_ (handleListUndefinedSymbols (sv_index s) target)));
   newTool "list_icf_groups"
     ("Functions merged by GCC's IPA identical-code folding (from -fdump-ipa-icf). Each group has one " +:+
      "winner (the surviving symbol) and one or more losers whose bodies were rewritten to tail-call " +:+
      "winner.localalias. Linker-level ICF (gold/lld --icf=all) is a separate pass and NOT tracked here — " +:+
      "if the linker folded further, this tool will underreport. Use with a target arg to restrict to " +:+
      "groups whose winner reaches that binary.")
     [WithString "target" "Restrict to groups whose winner has a link_resolutions row for this target."]
     (λ a, ICFGroups_ (handleListICFGroups (sv_index s) (GetString a "target" "")));
   newTool "list_unreachable_symbols"
     ("Symbols with a definition but no link_resolutions row for this target — a first-pass dead-code " +:+
      "signal. Unfiltered, so expect false positives: (1) internal-linkage symbols (static functions, " +:+
      "header-defined statics) are never surfaced in link_resolutions by design and always appear here; " +:+
      "(2) IPA-ICF losers appear here — cross-reference with list_icf_groups, and the winner is what " +:+
      "actually ships; (3) symbols reachable only from __attribute__((constructor)) / .init_array chains " +:+
      "appear here because list_entry_points does not classify those; (4) symbols inlined at every call " +:+
      "site appear here — compare list_callees against list_linked_callees on their callers to " +:+
      "distinguish. Verify any surprising hit with describe_symbol (per-target link_resolutions in one " +:+
      "call) before calling it dead.")
     [Required (WithString "target" "Target binary name — reachability is per-target.");
      limitArg linkageRowLimit]
     (λ a, required a "target" (λ target,
        Unreachable_ (handleListUnreachableSymbols (sv_index s) target (row_limit a linkageRowLimit))));
   newTool "list_entry_points"
     ("Root set for reachability queries in this target: 'main' + externally-visible symbols that the " +:+
      "linker resolved into this target. Initializer arrays / constructor-attributed functions are not " +:+
      "currently classified (would require an additional DWARF pass) — if a symbol looks unreachable but " +:+
      "is reached from a constructor, describe_symbol on it and inspect whether its callers carry " +:+
      "__attribute__((constructor)).")
     [Required (WithString "target" "Target binary name — entry points are per-target.");
      limitArg linkageRowLimit;
      snippetArg]
     (λ a, required a "target" (λ target,
        EntryPoints_ (handleListEntryPoints (sv_unzstd s) (sv_index s) (sv_root s) target (row_limit a linkageRowLimit)
                        (wantSnippets a))))].

Definition reloadToolName : string := "reload_index".
Definition registerReloadTool : list tool := [WithIdempotentHint (newTool reloadToolName
     ("Reopen the .hbr this server is serving, picking up an index rebuilt since the session started. " +:+
      "herbarium never builds or re-indexes anything itself, so the refresh is: `ninja -C <builddir>`, " +:+
      "then `herbarium collect --builddir <builddir> --project-root <root> --out <the served path> " +:+
      "--replace`, then this tool. The served path is absolute, fixed for the life of the process, and " +:+
      "returned as `path` here — call this tool first if you need to know where to write, and pass that " +:+
      "exact value to --out. Do not delete the old index before collecting: --replace swaps the new one in " +:+
      "atomically, and that is what keeps this session answering while the collect runs. Queries in flight " +:+
      "are unaffected — they finish against the old index, and every call after this one sees the new one. " +:+
      "`changed` is false when the file on disk still carries the indexed_at this server already had, " +:+
      "which almost always means the re-collect did not happen or wrote somewhere else. If the file is " +:+
      "missing, unreadable, or was written by a herbarium with a different schema_version, the reload is " +:+
      "refused and the previous index keeps serving — a failed reload never costs you the session.")
     []
     (λ _, Reload_ (sv_reload s)) )].

(** The registrations of [New], in order. *)
Definition tools : list tool :=
  registerSchemaTool ++ registerSQLTool ++ registerSourceTools ++ registerTargetTools ++ registerSymbolTools ++
  registerCallGraphSourceTools ++ registerCallGraphRuntimeTools ++ registerTypeTools ++ registerIndirectTools ++
  registerLinkageTools ++ registerReloadTool.

(** A call of a tool, [None] for a name that no tool has. *)
Definition callTool (name : string) (a : A) : option answer :=
  (λ t, tl_call t a) <$> List.find (λ t, String.eqb (tl_name t) name) tools.

(** ** What a call depends on *)

(** Two calls say the same of an argument. *)
Record same_argument (a b : A) (key : string) : Prop := {
  sa_string : RequireString a key = RequireString b key;
  sa_int : RequireInt a key = RequireInt b key;
  sa_get_string d : GetString a key d = GetString b key d;
  sa_get_int d : GetInt a key d = GetInt b key d;
  sa_get_bool d : GetBool a key d = GetBool b key d;
  sa_raw : GetArgument a key = GetArgument b key;
}.

(** What is wrong with a declared argument that must be there. *)
Definition missing (a : A) (g : argument) : option string :=
  if a_required g then
    match a_type g with
    | TNumber => match RequireInt a (a_name g) with Err e => Some e | Ok _ => None end
    | _ => match RequireString a (a_name g) with Err e => Some e | Ok _ => None end
    end
  else None.

(** A call that leaves an argument out, and one that gives it a value: a boolean is read
    from 0 and 1. *)
Definition left_out (a : A) (key : string) : Prop := (∀ d, GetInt a key d = d) ∧ (∀ d, GetBool a key d = d).
Definition given_as (a : A) (key : string) (v : Z) : Prop :=
  (∀ d, GetInt a key d = v) ∧ (∀ d, GetBool a key d = negb (v =? 0)%Z).

(** What a tool promises of the arguments it declares: nothing else decides its answer;
    a call is refused exactly when a required one is missing, with the reason for the
    first; and leaving out one with a default means giving it that default. *)
Record contract (t : tool) : Prop := {
  ct_declared : ∀ a b, Forall (λ g, same_argument a b (a_name g)) (tl_arguments t) → tl_call t a = tl_call t b;
  ct_refused : ∀ a e, tl_call t a = Refused e ↔ head (omap (missing a) (tl_arguments t)) = Some e;
  ct_default : ∀ a b, Forall (λ g, ∀ v, a_default g = Some v → left_out a (a_name g) → given_as b (a_name g) v →
    Forall (λ h, a_name h ≠ a_name g → same_argument a b (a_name h)) (tl_arguments t) → tl_call t a = tl_call t b)
    (tl_arguments t);
}.

Ltac names := cbn [a_name a_default newTool Required Min Max Default Enum WithString WithNumber WithBoolean WithArray
  limitArg snippetArg targetReachabilityArg targetSourcesArg] in *.

(** Turns what two calls agree on into rewriting of their reads. *)
Ltac rewrite_arguments :=
  repeat match goal with
  | H : Forall _ (_ :: _) |- _ => apply Forall_cons in H as [? H]
  | H : Forall _ [] |- _ => clear H
  end;
  names;
  repeat match goal with
  | H : ?x ≠ ?x → _ |- _ => clear H
  | H : _ ≠ _ → _ |- _ => specialize (H ltac:(discriminate))
  | H : same_argument _ _ _ |- _ => destruct H
  end;
  repeat match goal with
  | H : RequireString ?a _ = _ |- context [RequireString ?a _] => rewrite H
  | H : RequireInt ?a _ = _ |- context [RequireInt ?a _] => rewrite H
  | H : ∀ d, GetString ?a ?k d = _ |- context [GetString ?a ?k _] => rewrite H
  | H : ∀ d, GetInt ?a ?k d = _ |- context [GetInt ?a ?k _] => rewrite H
  | H : ∀ d, GetBool ?a ?k d = _ |- context [GetBool ?a ?k _] => rewrite H
  | H : GetArgument ?a _ = _ |- context [GetArgument ?a _] => rewrite H
  end.

(** The refusals of a handler that reads its required arguments one after the other. *)
Ltac refusal :=
  cbn [omap list_omap missing a_required a_type a_name Required Min Max Default Enum WithString WithNumber WithBoolean WithArray
       limitArg snippetArg targetReachabilityArg targetSourcesArg head];
  unfold required, required_int;
  repeat match goal with |- context [match ?r with Ok _ => _ | Err _ => _ end] =>
    match r with RequireString _ _ => destruct r | RequireInt _ _ => destruct r end end;
  cbn; split; intros; congruence.

Lemma tools_contract : Forall contract tools.
Proof.
  repeat apply Forall_cons_2; try apply Forall_nil_2;
    (split; cbn [tl_call tl_arguments newTool WithIdempotentHint];
     [ intros a b H; unfold required, required_int, row_limit, wantSnippets; rewrite_arguments; reflexivity
     | intros a e; refusal
     | intros a b; repeat apply Forall_cons_2; try apply Forall_nil_2; intros v Hv; try discriminate Hv;
       intros [Oi Ob] [Gi Gb] H; injection Hv as <-; unfold required, required_int; rewrite_arguments; reflexivity ]).
Qed.
End tools.

Lemma tool_names s A `{!Arguments A} :
  tl_name <$> tools (A:=A) s =
    ["describe_schema"; "sql_query"; "read_source"; "list_source_files"; "verify_source"; "list_source_drift"; "search_source";
     "list_targets"; "describe_target"; "find_symbol"; "describe_symbol"; "list_callers"; "list_callees"; "list_call_paths";
     "list_linked_callers"; "list_linked_callees"; "describe_inlining"; "list_inline_instances"; "explain_call";
     "find_type"; "describe_type"; "list_indirect_call_sites"; "list_address_taken_functions"; "resolve_indirect_call";
     "describe_link_resolution"; "list_weak_symbols"; "list_undefined_symbols"; "list_icf_groups";
     "list_unreachable_symbols"; "list_entry_points"; "reload_index"].
Proof. reflexivity. Qed.

Lemma find_by_name {T} (name : T → string) (l : list T) x :
  NoDup (name <$> l) → x ∈ l → List.find (λ y, String.eqb (name y) (name x)) l = Some x.
Proof.
  intros Hnd Hx. destruct (List.find _ l) as [y|] eqn:E.
  - apply List.find_some in E as [Hy Hn%String.eqb_eq]. apply list_elem_of_In in Hy. f_equal. by apply (NoDup_fmap_inj_on name l).
  - apply list_elem_of_In in Hx. pose proof (List.find_none _ _ E x Hx) as H. cbn in H. by rewrite String.eqb_refl in H.
Qed.

(** ** Properties *)

(** C9: The tools have distinct names, and a call by name reaches the tool of that name.
    Whatever way the library reads arguments, the answer of a tool depends on the
    arguments it declares and on nothing else a caller sends; a call is refused
    exactly when a required argument cannot be read, with the error of the first
    such argument in the order of the declaration; and leaving out an argument that
    declares a default is giving it that default. *)
Theorem server_tools (s : server) A `{!Arguments A} :
  NoDup (tl_name <$> tools (A:=A) s) ∧
  ∀ t, t ∈ tools (A:=A) s → contract t ∧ ∀ a, callTool s (tl_name t) a = Some (tl_call t a).
Proof.
  assert (NoDup (tl_name <$> tools (A:=A) s)) as Hnd by (rewrite tool_names; by_decide).
  split; [done|]. intros t Ht. split; [by apply (proj1 (Forall_forall _ _) (tools_contract s))|].
  intros a. unfold callTool. by rewrite (find_by_name tl_name).
Qed.

(** *** On the run of [Collect] *)

(** Arguments as the members of a JSON object. *)
#[export] Instance json_arguments : Arguments (list (string * json)) := {
  RequireString a k := match jget k a with Some (JStr v) => Ok v | _ => Err ("required argument " +:+ k) end;
  RequireInt a k := match jget k a with Some (JNum v) => Ok v | _ => Err ("required argument " +:+ k) end;
  GetString a k d := match jget k a with Some (JStr v) => v | _ => d end;
  GetInt a k d := match jget k a with Some (JNum v) => v | _ => d end;
  GetBool a k d := match jget k a with Some (JBool v) => v | _ => d end;
  GetArgument a k := jget k a;
}.

Definition inlining_of (i : Collect.index_tables) : inline_index :=
  let t := EndToEnd.tools_of i in
  InlineIndex (ti_graph t) (ti_sources t) (Ingest.ct_inline_decisions (Collect.xt_compiler i))
    (Ingest.ct_inline_records (Collect.xt_compiler i)) (DwarfIngest.dt_instances (Collect.xt_dwarf i)).

Definition ex_server : server :=
  Server "CREATE TABLE meta(key, value);" (λ _ _, Err "no driver") Some (EndToEnd.tools_of EndToEnd.ex_index_tables)
    (inlining_of EndToEnd.ex_index_tables) "" (λ e, if String.eqb e "OR*" then None else Some (λ _, false)) (λ _, Some (λ _, false)) id (λ d, "sha:" +:+ d) (λ _, LiveMissing) (λ _, None)
    (Err ErrNoPath).

Lemma server_tools_witness :
  callTool ex_server "list_linked_callees" [("caller_usr", JStr "c:@F@main"); ("target", JStr "prog"); ("depth", JNum 3)] =
    callTool ex_server "list_linked_callees" [("caller_usr", JStr "c:@F@main"); ("target", JStr "prog")] ∧
  callTool ex_server "list_linked_callees" [("target", JStr "prog")] = Some (Refused "required argument caller_usr").
Proof.
  destruct (server_tools ex_server (list (string * json))) as [_ H].
  assert (∃ t, nth_error (tools (A:=list (string * json)) ex_server) 15 = Some t) as [t Ht] by (eexists; reflexivity).
  pose proof (H t (proj2 (list_elem_of_In _ _) (nth_error_In _ _ Ht))) as [[Hd Hr _] Hc].
  cbn in Ht. injection Ht as <-. cbn [tl_name tl_arguments] in Hd, Hr, Hc. rewrite !Hc. split.
  - apply (f_equal Some), Hd. repeat constructor.
  - apply (f_equal Some), Hr. reflexivity.
Defined.
