(* ===== verification/Command.v ===== *)
(** * The command line ([cmd/herbarium/main.go], [serve.go], [collect.go])

    The choice of the subcommand, the flags of both subcommands as the [flag]
    package parses them, and what follows up to the exit code.  Collecting is
    [Collect.runCollect]; the checks of serve are [Reload.runServe]. *)

From S2P Require Import Prelude GoStrings Paths Reload Collect.
From Stdlib Require Import ZArith Lia.
Import Paths.Resolver.

(** ** Flags ([flag.FlagSet.Parse], [ContinueOnError]) *)

Module Flag.

Inductive error :=
| BadSyntax (arg : string)
| NotDefined (name : string)
| Help
| NoArgument (name : string)
| BadBool (name value : string).

(** What a flag was set to; a string or a list flag takes any text. *)
Inductive setting := SetText (name value : string) | SetBool (name : string) (b : bool).

Definition ParseBool (s : string) : option bool :=
  if existsb (String.eqb s) ["1"; "t"; "T"; "true"; "TRUE"; "True"] then Some true
  else if existsb (String.eqb s) ["0"; "f"; "F"; "false"; "FALSE"; "False"] then Some false
  else None.

(** The first argument: no flag, a terminator, a malformed flag, or a name with the
    value after its ["="]. *)
Inductive token := Positional | Terminator | Malformed | Named (name : string) (value : option string).

Definition tokenize (s : string) : token :=
  match strip_prefix "-" s with
  | None | Some "" => Positional
  | Some name =>
    if String.eqb name "-" then Terminator
    else
      let name := TrimPrefix name "-" in
      if HasPrefix name "-" || HasPrefix name "=" then Malformed
      else match IndexByte name "=" with
      | Some i => Named (stake i name) (Some (sdrop (S i) name))
      | None => Named name None
      end
  end.

Section parse.
(** The flags of the set: [Some true] for a boolean one. *)
Context (formal : string → option bool).

(** The settings in order, and the arguments left over. *)
Fixpoint Parse (args : list string) : result error (list setting * list string) :=
  match args with
  | [] => Ok ([], [])
  | s :: rest =>
    match tokenize s with
    | Positional => Ok ([], args)
    | Terminator => Ok ([], rest)
    | Malformed => Err (BadSyntax s)
    | Named name value =>
      match formal name with
      | None => Err (if String.eqb name "help" || String.eqb name "h" then Help else NotDefined name)
      | Some true =>
        match default (Some true) (ParseBool <$> value) with
        | None => Err (BadBool name (default "" value))
        | Some b => '(l, others) ← Parse rest; Ok (SetBool name b :: l, others)
        end
      | Some false =>
        match value, rest with
        | Some v, _ => '(l, others) ← Parse rest; Ok (SetText name v :: l, others)
        | None, v :: rest => '(l, others) ← Parse rest; Ok (SetText name v :: l, others)
        | None, [] => Err (NoArgument name)
        end
      end
    end
  end.
End parse.

End Flag.
Import Flag.

(** ** [collect] *)

Definition collect_formal (name : string) : option bool :=
  if existsb (String.eqb name) ["builddir"; "project-root"; "out"; "target"; "include-external"] then Some false
  else if existsb (String.eqb name) ["strict"; "replace"] then Some true
  else None.

Definition collect_defaults : options := Options "" "" "herbarium.hbr" false false [] [].

Definition set_collect (o : options) (s : setting) : options :=
  let '(Options b p out strict replace targets external) := o in
  match s with
  | SetText name v =>
    if String.eqb name "builddir" then Options v p out strict replace targets external
    else if String.eqb name "project-root" then Options b v out strict replace targets external
    else if String.eqb name "out" then Options b p v strict replace targets external
    else if String.eqb name "target" then Options b p out strict replace (targets ++ [v]) external
    else if String.eqb name "include-external" then Options b p out strict replace targets (external ++ [v])
    else o
  | SetBool name v =>
    if String.eqb name "strict" then Options b p out v replace targets external
    else if String.eqb name "replace" then Options b p out strict v targets external
    else o
  end.

Definition parse_collect (args : list string) : result error (options * list string) :=
  '(l, others) ← Parse collect_formal args; Ok (foldl set_collect collect_defaults l, others).

(** ** [serve] *)

Record serve_options := ServeOptions {
  so_hbr : string;
  so_project_root : string;
  so_transport : string;
  so_http_addr : string;
  so_check : bool;
}.

Definition serve_formal (name : string) : option bool :=
  if existsb (String.eqb name) ["hbr"; "project-root"; "transport"; "http-addr"] then Some false
  else if String.eqb name "check" then Some true
  else None.

Definition serve_defaults : serve_options := ServeOptions "" "" "stdio" ":7473" false.

Definition set_serve (o : serve_options) (s : setting) : serve_options :=
  let '(ServeOptions hbr proot transport addr check) := o in
  match s with
  | SetText name v =>
    if String.eqb name "hbr" then ServeOptions v proot transport addr check
    else if String.eqb name "project-root" then ServeOptions hbr v transport addr check
    else if String.eqb name "transport" then ServeOptions hbr proot v addr check
    else if String.eqb name "http-addr" then ServeOptions hbr proot transport v check
    else o
  | SetBool name v => if String.eqb name "check" then ServeOptions hbr proot transport addr v else o
  end.

Definition parse_serve (args : list string) : result error (serve_options * list string) :=
  '(l, others) ← Parse serve_formal args; Ok (foldl set_serve serve_defaults l, others).

(** ** The subcommands

    [World] is what a run of the process finds: the machine of [collect], what the
    path of the index holds when [serve] starts, and how the transports end. *)

Record world := World {
  w_machine : machine;
  w_files : files;
  w_index : string → path_state;
  (** [None]: the transport ended without an error. *)
  w_stdio : option string;
  w_http : string → option string;
}.

(** What is printed: the usage text, the version, a subcommand that [main] does not
    know, quoted, before the usage text, or a line of the summary of [collect]. *)
Inductive message := MsgUsage | MsgVersion (v : string) | MsgUnknown (cmd : string) | MsgLine (s : string).
Inductive output := Stdout (m : message) | Stderr (m : message).

(** How a process ends: its status, what it printed of these, and the states of the file
    system it went through. *)
Record process := Process { p_status : status; p_output : list output; p_trace : list files }.

Section commands.
Context (Version : string) (w : world).

Definition runCollect_args (args : list string) : run :=
  match parse_collect args with
  | Err _ => Run (Exit 2) [w_files w] []
  | Ok (o, _) => runCollect (w_machine w) Version o (w_files w)
  end.

Definition transport_code (e : option string) : Z := match e with None => 0 | Some _ => 1 end.

(** The exit code of [runServe], the server it built, and the address it listens on. *)
Definition runServe_args (args : list string) : Z * option Reload.state :=
  match parse_serve args with
  | Err _ => (2%Z, None)
  | Ok (o, _) =>
    if String.eqb (so_hbr o) "" then (2%Z, None)
    else
      let path := Abs (m_cwd (w_machine w)) (so_hbr o) in
      match Reload.runServe (w_index w path) with
      | Err _ => (1%Z, None)
      | Ok s =>
        if so_check o then (0%Z, Some s)
        else if String.eqb (so_transport o) "stdio" then (transport_code (w_stdio w), Some s)
        else if String.eqb (so_transport o) "http" then (transport_code (w_http w (so_http_addr o)), Some s)
        else (2%Z, Some s)
      end
  end.

(** [os.Args], the name of the program first. *)
Definition main (args : list string) : process :=
  match args with
  | [] | [_] => Process (Exit 2) [Stderr MsgUsage] [w_files w]
  | _ :: cmd :: rest =>
    if String.eqb cmd "collect" then
      let r := runCollect_args rest in Process (r_status r) (Stdout ∘ MsgLine <$> r_stdout r) (r_trace r)
    else if String.eqb cmd "serve" then Process (Exit (runServe_args rest).1) [] [w_files w]
    else if existsb (String.eqb cmd) ["version"; "--version"; "-v"] then
      Process (Exit 0) [Stdout (MsgVersion Version)] [w_files w]
    else if existsb (String.eqb cmd) ["help"; "-h"; "--help"] then Process (Exit 0) [Stdout MsgUsage] [w_files w]
    else Process (Exit 2) [Stderr (MsgUnknown cmd)] [w_files w]
  end.
End commands.

(** ** Parsing *)

(** A flag's name as it can be written. *)
Definition name_ok (name : string) : Prop :=
  name ≠ "" ∧ HasPrefix name "-" = false ∧ lacks "=" name = true.

Lemma tokenize_dashes a s :
  Ascii.eqb a "-" = false → Ascii.eqb a "=" = false →
  let token := match IndexByte (String a s) "=" with
               | Some i => Named (stake i (String a s)) (Some (sdrop (S i) (String a s)))
               | None => Named (String a s) None
               end in
  tokenize ("--" +:+ String a s) = token ∧ tokenize ("-" +:+ String a s) = token.
Proof.
  intros Hm Heq. assert (Ascii.eqb "-" a = false) as Hm' by by rewrite Ascii.eqb_sym.
  unfold tokenize. change ("--" +:+ String a s) with (String "-" (String "-" (String a s))).
  change ("-" +:+ String a s) with (String "-" (String a s)). cbn [strip_prefix]. rewrite Ascii.eqb_refl.
  assert (TrimPrefix (String "-" (String a s)) "-" = String a s ∧ TrimPrefix (String a s) "-" = String a s) as [E1 E2].
  { split; [done|]. unfold TrimPrefix. cbn [strip_prefix]. by rewrite Hm'. }
  rewrite E1, E2. change (HasPrefix (String a s) "=") with (HasPrefix (String a s) (str1 "=")).
  change (HasPrefix (String a s) "-") with (HasPrefix (String a s) (str1 "-")).
  rewrite !HasPrefix_str1, Hm, Heq. split; [done|]. cbn [String.eqb]. by rewrite Hm.
Qed.

Lemma name_ok_head name :
  name_ok name → ∃ a n, name = String a n ∧ Ascii.eqb a "-" = false ∧ Ascii.eqb a "=" = false.
Proof.
  intros (Hne & Hm & He). destruct name as [|a n]; [done|]. exists a, n. split; [done|].
  change (HasPrefix (String a n) (str1 "-") = false) in Hm. rewrite HasPrefix_str1 in Hm. split; [done|].
  unfold lacks in He. rewrite all_chars_cons in He. apply andb_true_iff in He as [He _]. by apply negb_true_iff in He.
Qed.

Lemma tokenize_name name : name_ok name → tokenize ("--" +:+ name) = Named name None ∧ tokenize ("-" +:+ name) = Named name None.
Proof.
  intros Hok. destruct (name_ok_head _ Hok) as (a & n & -> & Hm & Heq). destruct Hok as (_ & _ & He%IndexByte_None).
  pose proof (tokenize_dashes a n Hm Heq) as H. cbn zeta in H. by rewrite He in H.
Qed.

(** With its value after an equals sign. *)
Lemma tokenize_value name v :
  name_ok name →
  tokenize ("--" +:+ name +:+ "=" +:+ v) = Named name (Some v) ∧ tokenize ("-" +:+ name +:+ "=" +:+ v) = Named name (Some v).
Proof.
  intros Hok. destruct (name_ok_head _ Hok) as (a & n & -> & Hm & Heq). destruct Hok as (_ & _ & He).
  pose proof (tokenize_dashes a (n +:+ "=" +:+ v) Hm Heq) as H. cbn zeta in H.
  change (String a (n +:+ "=" +:+ v)) with (String a n +:+ String "=" v) in H.
  rewrite IndexByte_app in H by done. cbn [IndexByte] in H. rewrite Ascii.eqb_refl in H. cbn [fmap option_fmap option_map] in H.
  rewrite Nat.add_0_r, stake_app, <-Nat.add_1_r, sdrop_all_but in H. exact H.
Qed.

Section forms.
Context (formal : string → option bool).

(** A flag that takes a text can be written in four ways, and takes any text. *)
Lemma Parse_text name v rest :
  name_ok name → formal name = Some false →
  Parse formal (("--" +:+ name) :: v :: rest) = ('(l, others) ← Parse formal rest; Ok (SetText name v :: l, others)).
Proof. intros Hok Hf. cbn [Parse]. by rewrite (proj1 (tokenize_name _ Hok)), Hf. Qed.

Lemma Parse_forms name v rest :
  name_ok name → formal name = Some false →
  ∀ args, args ∈ [[("-" +:+ name); v]; [("--" +:+ name +:+ "=" +:+ v)]; [("-" +:+ name +:+ "=" +:+ v)]] →
  Parse formal (args ++ rest) = Parse formal (("--" +:+ name) :: v :: rest).
Proof.
  intros Hok Hf args. rewrite Parse_text by done. destruct (tokenize_name _ Hok) as [_ H1].
  destruct (tokenize_value _ v Hok) as [H2 H3]. rewrite !elem_of_cons, elem_of_nil.
  intros H. destruct_or! H; subst args; cbn [app Parse]; by rewrite ?H1, ?H2, ?H3, Hf.
Qed.

Lemma Parse_bool name rest :
  name_ok name → formal name = Some true →
  Parse formal (("--" +:+ name) :: rest) = ('(l, others) ← Parse formal rest; Ok (SetBool name true :: l, others)).
Proof. intros Hok Hf. cbn [Parse]. by rewrite (proj1 (tokenize_name _ Hok)), Hf. Qed.

(** A list flag, once for each of its values. *)
Lemma Parse_list name vs rest l others :
  name_ok name → formal name = Some false → Parse formal rest = Ok (l, others) →
  Parse formal ((vs ≫= λ v, [("--" +:+ name); v]) ++ rest) = Ok ((SetText name <$> vs) ++ l, others).
Proof.
  intros Hok Hf Hr. induction vs as [|v vs IH]; [exact Hr|]. cbn [mbind list_bind app]. by rewrite Parse_text, IH.
Qed.
End forms.

(** ** The command lines written back *)

Definition bool_flag (name : string) (b : bool) : list string := if b then ["--" +:+ name] else [].
Definition list_flag (name : string) (vs : list string) : list string := vs ≫= λ v, ["--" +:+ name; v].

Definition print_collect (o : options) : list string :=
  ["--builddir"; o_builddir o; "--project-root"; o_project_root o; "--out"; o_out o] ++
  bool_flag "strict" (o_strict o) ++ bool_flag "replace" (o_replace o) ++
  list_flag "target" (o_targets o) ++ list_flag "include-external" (o_external o).

Definition print_serve (o : serve_options) : list string :=
  ["--hbr"; so_hbr o; "--project-root"; so_project_root o; "--transport"; so_transport o;
   "--http-addr"; so_http_addr o] ++ bool_flag "check" (so_check o).

(** Everything has been read. *)
Definition all_read {A} (r : result Flag.error (A * list string)) : option A :=
  match r with Ok (a, []) => Some a | _ => None end.

Lemma foldl_targets b p out s r ts external vs :
  foldl set_collect (Options b p out s r ts external) (SetText "target" <$> vs) = Options b p out s r (ts ++ vs) external.
Proof.
  revert ts; induction vs as [|v vs IH]; intros ts; [by rewrite app_nil_r|]. cbn [fmap list_fmap foldl set_collect].
  change (foldl set_collect (Options b p out s r (ts ++ [v]) external) (SetText "target" <$> vs) = Options b p out s r (ts ++ v :: vs) external).
  by rewrite IH, <-app_assoc.
Qed.

Lemma foldl_external b p out s r ts external vs :
  foldl set_collect (Options b p out s r ts external) (SetText "include-external" <$> vs) =
    Options b p out s r ts (external ++ vs).
Proof.
  revert external; induction vs as [|v vs IH]; intros external; [by rewrite app_nil_r|]. cbn [fmap list_fmap foldl set_collect].
  change (foldl set_collect (Options b p out s r ts (external ++ [v])) (SetText "include-external" <$> vs) =
    Options b p out s r ts (external ++ v :: vs)).
  by rewrite IH, <-app_assoc.
Qed.

Lemma Parse_bool_flag formal name b rest l others :
  name_ok name → formal name = Some true → Parse formal rest = Ok (l, others) →
  Parse formal (bool_flag name b ++ rest) = Ok ((if b then [SetBool name true] else []) ++ l, others).
Proof. intros Hok Hf Hr. destruct b; [|exact Hr]. cbn [bool_flag app]. by rewrite Parse_bool, Hr. Qed.

Ltac flag_name := split_and!; [discriminate|reflexivity|reflexivity].

#[export] Instance collect_round_trip : RoundTrip print_collect (λ args, all_read (parse_collect args)).
Proof.
  intros [b p out s r ts external]. unfold parse_collect, print_collect.
  cbn [o_builddir o_project_root o_out o_strict o_replace o_targets o_external].
  assert (Parse collect_formal (list_flag "target" ts ++ list_flag "include-external" external) =
    Ok ((SetText "target" <$> ts) ++ (SetText "include-external" <$> external), [])) as H.
  { unfold list_flag. rewrite (Parse_list _ "target" ts _ (SetText "include-external" <$> external) []); [done|flag_name|done|].
    rewrite <-(app_nil_r (external ≫= _)), (Parse_list _ "include-external" external [] [] []); [by rewrite app_nil_r|flag_name|done|done]. }
  apply (Parse_bool_flag _ "replace" r) in H; [|flag_name|done]. apply (Parse_bool_flag _ "strict" s) in H; [|flag_name|done].
  cbn [app]. change "--builddir" with ("--" +:+ "builddir"). change "--project-root" with ("--" +:+ "project-root").
  change "--out" with ("--" +:+ "out"). rewrite !Parse_text by (done || flag_name). rewrite H.
  cbn [mbind result_bind all_read foldl]. f_equal. rewrite !foldl_app.
  change (foldl set_collect (set_collect (set_collect (set_collect collect_defaults (SetText "builddir" b)) (SetText "project-root" p))
            (SetText "out" out))) with (foldl set_collect (Options b p out false false [] [])).
  assert (foldl set_collect (foldl set_collect (Options b p out false false [] []) (if s then [SetBool "strict" true] else []))
            (if r then [SetBool "replace" true] else []) = Options b p out s r [] []) as -> by (by destruct s, r).
  by rewrite foldl_targets, foldl_external.
Qed.

#[export] Instance serve_round_trip : RoundTrip print_serve (λ args, all_read (parse_serve args)).
Proof.
  intros [hbr p t addr check]. unfold parse_serve, print_serve. cbn [so_hbr so_project_root so_transport so_http_addr so_check app].
  assert (Parse serve_formal [] = Ok ([], [])) as H by done.
  apply (Parse_bool_flag _ "check" check) in H; [|flag_name|done]. rewrite app_nil_r in H.
  change "--hbr" with ("--" +:+ "hbr"). change "--project-root" with ("--" +:+ "project-root").
  change "--transport" with ("--" +:+ "transport"). change "--http-addr" with ("--" +:+ "http-addr").
  rewrite !Parse_text by (done || flag_name). rewrite H. by destruct check.
Qed.

(** [main] on the command line of a collection. *)
Lemma main_collect Version w exe o :
  main Version w (exe :: "collect" :: print_collect o) =
    let r := runCollect (w_machine w) Version o (w_files w) in
    Process (r_status r) (Stdout ∘ MsgLine <$> r_stdout r) (r_trace r).
Proof.
  pose proof (collect_round_trip o) as H.
  unfold main. cbn [String.eqb Ascii.eqb Bool.eqb]. unfold runCollect_args. unfold all_read in H.
  destruct (parse_collect (print_collect o)) as [[o' [|]]|]; try done. by injection H as ->.
Qed.

(** ** Properties *)

(** C16: Every choice of options has a command line: printed as flags and parsed again,
    the options of collect and of serve come back — whatever their values, even
    those that look like flags — with no argument left over, and main runs the
    collection they describe. *)
Theorem command_line_round_trip Version w exe :
  (∀ o, all_read (parse_collect (print_collect o)) = Some o) ∧
  (∀ o, all_read (parse_serve (print_serve o)) = Some o) ∧
  ∀ o, main Version w (exe :: "collect" :: print_collect o) =
    let r := runCollect (w_machine w) Version o (w_files w) in
    Process (r_status r) (Stdout ∘ MsgLine <$> r_stdout r) (r_trace r).
Proof.
  split; [exact collect_round_trip|]. split; [exact serve_round_trip|]. intros o. apply main_collect.
Qed.

Lemma build_status m Version o globs intro bd tmp f : r_status (build m Version o globs intro bd tmp f) ∈ [Exit 0; Exit 1; Crashed].
Proof. unfold build. repeat case_match; set_solver. Qed.

Lemma prepare_2 m o : prepare m o = Err 2%Z ↔ o_builddir o = "" ∨ o_project_root o = "" ∨ ∃ e, parse_globs (o_external o) = Err e.
Proof.
  unfold prepare. destruct (parse_globs (o_external o)) as [globs|e]; [|naive_solver].
  destruct (String.eqb_spec (o_builddir o) "") as [|Hb]; [naive_solver|].
  destruct (String.eqb_spec (o_project_root o) "") as [|Hp]; [naive_solver|]. cbn [orb].
  split; [|naive_solver]. repeat case_match; done.
Qed.

Lemma prepare_codes m o code : prepare m o = Err code → code = 1%Z ∨ code = 2%Z.
Proof. unfold prepare. repeat case_match; intros [= <-]; auto. Qed.

(** collect exits with 2 exactly when its command line is wrong — a flag does not
    parse, a required directory is missing, a header pattern is malformed — and then
    it has touched no file; otherwise it ends with 0 or 1, or in a panic. *)
Theorem collect_command_exit Version w args :
  let r := runCollect_args Version w args in
  (r_status r = Exit 2 ↔ match parse_collect args with
                         | Err _ => True
                         | Ok (o, _) => o_builddir o = "" ∨ o_project_root o = "" ∨ ∃ e, parse_globs (o_external o) = Err e
                         end) ∧
  (r_status r = Exit 2 → r_trace r = [w_files w]) ∧
  r_status r ∈ [Exit 0; Exit 1; Exit 2; Crashed].
Proof.
  unfold runCollect_args. destruct (parse_collect args) as [[o others]|e]; [|set_solver].
  unfold runCollect. pose proof (prepare_2 (w_machine w) o) as H2. pose proof (prepare_codes (w_machine w) o) as Hc.
  destruct (prepare (w_machine w) o) as [[[globs intro] bd]|code].
  - assert (∀ r : run, r_status r ∈ [Exit 0; Exit 1; Crashed] →
      (r_status r = Exit 2 ↔ o_builddir o = "" ∨ o_project_root o = "" ∨ ∃ e, parse_globs (o_external o) = Err e) ∧
      (r_status r = Exit 2 → r_trace r = [w_files w]) ∧ r_status r ∈ [Exit 0; Exit 1; Exit 2; Crashed]) as Hr.
    { intros r Hr. rewrite <-H2. assert (r_status r ≠ Exit 2) by (intros E; rewrite E in Hr; set_solver). set_solver. }
    destruct (_ && _); [apply Hr; set_solver|]. destruct (reserveTempIndex _ _ _) as [[tmp f]|]; [|apply Hr; set_solver].
    apply Hr. cbn [r_status]. apply build_status.
  - cbn [r_status r_trace]. rewrite <-H2. split; [split; [by intros [= ->]|by intros [= ->]]|]. split; [done|].
    destruct (Hc code eq_refl) as [->| ->]; set_solver.
Qed.

(** Only an index that passed every check of serve is served, over a transport that
    exists. *)
Theorem serve_command_exit w args :
  (runServe_args w args).1 = 0%Z →
  ∃ o others s, parse_serve args = Ok (o, others) ∧ so_hbr o ≠ "" ∧
    Reload.runServe (w_index w (Abs (m_cwd (w_machine w)) (so_hbr o))) = Ok s ∧ (runServe_args w args).2 = Some s ∧
    (so_check o = true ∨ so_transport o ∈ ["stdio"; "http"]).
Proof.
  unfold runServe_args. destruct (parse_serve args) as [[o others]|]; [|done].
  destruct (String.eqb_spec (so_hbr o) ""); [done|]. destruct (Reload.runServe _) as [s|] eqn:Es; [|done].
  intros H. exists o, others, s. do 3 (split; [done|]). revert H. destruct (so_check o); [by auto|].
  destruct (String.eqb_spec (so_transport o) "stdio"); [set_solver|]. destruct (String.eqb_spec (so_transport o) "http"); [set_solver|done].
Qed.

(** The first argument that is no flag ends the flags: what follows is neither applied
    nor refused. *)
Theorem positional_ends_flags formal x rest : tokenize x = Positional → Parse formal (x :: rest) = Ok ([], x :: rest).
Proof. intros H. cbn [Parse]. by rewrite H. Qed.

Example strict_dropped :
  match parse_collect ["--builddir"; "build"; "--project-root"; "."; "src"; "--strict"] with
  | Ok (o, others) => o_strict o = false ∧ others = ["src"; "--strict"]
  | Err _ => False
  end.
Proof. vm_compute. done. Qed.

Definition ex_world : world :=
  World ex_machine ex_before (λ _, NoFile) None (λ _, None).

Lemma collect_command_exit_witness :
  r_status (runCollect_args "dev" ex_world ["--builddir"; "/p/build"]) = Exit 2 ∧
  r_trace (runCollect_args "dev" ex_world ["--builddir"; "/p/build"]) = [ex_before] ∧
  r_status (runCollect_args "dev" ex_world (print_collect ex_options)) = Exit 0.
Proof.
  destruct (collect_command_exit "dev" ex_world ["--builddir"; "/p/build"]) as (_ & H & _).
  split; [vm_compute; reflexivity|]. split; [apply H|]; vm_compute; reflexivity.
Defined.

Lemma positional_ends_flags_witness :
  Parse collect_formal ["src"; "--strict"] = Ok ([], ["src"; "--strict"]).
Proof. apply positional_ends_flags. reflexivity. Defined.
