(* ===== verification/ServedSources.v ===== *)
(** * What the source tools show of a collected index

    [collect] stores the files of a project ([Sources]), [serve] reads them back
    ([SourceTools]): what comes out is what the files held. *)

From S2P Require Import Prelude GoStrings Paths Store Meson Sources SourceTools SymbolTools Collect EndToEnd.
From Stdlib Require Import ZArith Lia.
Import BlobStore Resolver.

(** The digest tells the files of the machine apart. *)
Definition digests_differ (m : machine) : Prop :=
  ∀ p q c d, m_read m p = Content c → m_read m q = Content d → m_sha256 m c = m_sha256 m d → c = d.

(** The file a path of the index stands for: an external header by its own name, a
    file of the project, or one of the build directory. *)
Definition source_file (proot bdroot path file : string) : Prop :=
  if IsAbs path then file = path
  else file = PathJoin [proot; path] ∨ Rel bdroot file = Some path.

Lemma table_keys_hash ix t k : k ∈ table_keys ix t → is_Some (hash_of ix t k).
Proof. destruct t; cbn; rewrite elem_of_sorted_keys; [by rewrite fmap_is_Some|done|done]. Qed.

Section served.
Context (m : machine) (unzstd : string → option string) `{!RoundTrip (m_zstd m) unzstd}.
Context (Hsha : digests_differ m) (pr : PathResolver) (root : string).

(** A row of a store that came from the files is readable, and reads as its file. *)
Lemma readBlob_file ix f c :
  from_files (m_sha256 m) (m_zstd m) (m_read m) pr root (si_tables ix) →
  wf (m_sha256 m) (m_zstd m) (si_tables ix) → is_Some (blobs (si_tables ix) !! m_sha256 m c) →
  m_read m f = Content c → readBlob unzstd ix (m_sha256 m c) = Ok c.
Proof.
  intros Hf Hw [b Hb] Hr. unfold readBlob. rewrite Hb.
  destruct (ff_blobs _ _ _ _ _ _ Hf _ _ Hb) as (a & d & Ha & Hd & ->).
  by rewrite decode_encode, (Hsha _ _ _ _ Ha Hr Hd).
Qed.

Definition table_file (t : table) (k file : string) : Prop :=
  match t with
  | TSources => file = project_file pr k
  | TGenerated => Rel root file = Some k
  | TExternal => file = k
  end.

Lemma readByColumn_file ix t k :
  from_files (m_sha256 m) (m_zstd m) (m_read m) pr root (si_tables ix) →
  wf (m_sha256 m) (m_zstd m) (si_tables ix) →
  match hash_of ix t k with
  | None => readByColumn unzstd ix t k = Err ErrNoRows
  | Some h => ∃ f c, table_file t k f ∧ m_read m f = Content c ∧ h = m_sha256 m c ∧ readByColumn unzstd ix t k = Ok (c, h)
  end.
Proof.
  intros Hf Hw. unfold readByColumn. destruct (hash_of ix t k) as [h|] eqn:Eh; [|done].
  assert (is_Some (blobs (si_tables ix) !! h) ∧ ∃ f c, table_file t k f ∧ m_read m f = Content c ∧ h = m_sha256 m c)
    as [Hb (f & c & Ht & Hr & ->)].
  { destruct t; cbn in Eh |- *.
    - destruct (sources _ !! k) as [r|] eqn:E; [|done]. injection Eh as <-. split; [by eapply wf_sources|].
      destruct (ff_sources _ _ _ _ _ _ Hf _ _ E) as (c & Hr & Hc). by exists (project_file pr k), c.
    - split; [by eapply wf_generated|]. destruct (ff_generated _ _ _ _ _ _ Hf _ _ Eh) as (f & c & Hk & _ & Hr & Hc).
      by exists f, c.
    - split; [by eapply wf_external|]. destruct (ff_external _ _ _ _ _ _ Hf _ _ Eh) as (c & Hr & Hc). by exists k, c. }
  exists f, c. do 3 (split; [done|]). by rewrite (readBlob_file ix f c).
Qed.

(** What a search finds in a row is in its file. *)
Lemma row_matches_file ix pattern kind prefix files ctx t k x :
  from_files (m_sha256 m) (m_zstd m) (m_read m) pr root (si_tables ix) →
  wf (m_sha256 m) (m_zstd m) (si_tables ix) → k ∈ table_keys ix t →
  x ∈ row_matches unzstd ix None pattern kind prefix files ctx t k →
  ∃ file c i line q, table_file t k file ∧ m_read m file = Content c ∧ file_lines c !! i = Some line ∧
    sm_Path x = k ∧ sm_Line x = Z.of_nat (i + 1) ∧ sm_Column x = Z.of_nat (q + 1) ∧ occurs pattern line q.
Proof.
  intros Hf Hw Hk. apply table_keys_hash in Hk as [h Hh]. pose proof (readByColumn_file ix t k Hf Hw) as H.
  unfold row_matches, readByColumn in *. rewrite Hh in *. destruct H as (f & c & Ht & Hr & -> & Hb). cbn [default].
  destruct (_ || _); [by intros ?%elem_of_nil|]. destruct (readBlob _ _ _) as [c'|]; [|done]. injection Hb as ->.
  intros ([[n col] t'] & -> & Hin)%list_elem_of_fmap. apply blob_hits_literal in Hin as (-> & i & line & q & -> & -> & Hi & Ho).
  by exists f, c, i, line, q.
Qed.

(** Reading by path: the file's content, or no row under the path. *)
Lemma readSourceByPath_file ix path :
  from_files (m_sha256 m) (m_zstd m) (m_read m) pr root (si_tables ix) →
  wf (m_sha256 m) (m_zstd m) (si_tables ix) →
  match readSourceByPath unzstd ix path with
  | Ok (c, h) => ∃ f, source_file (ProjectRoot pr) root path f ∧ m_read m f = Content c ∧ h = m_sha256 m c
  | Err e => e = (if IsAbs path then ErrNoRows else ErrNotIndexed path) ∧
      (IsAbs path = false → sources (si_tables ix) !! path = None)
  end.
Proof.
  intros Hf Hw. unfold readSourceByPath, source_file. change (HasPrefix path "/") with (IsAbs path).
  pose proof (readByColumn_file ix TExternal path Hf Hw) as He.
  pose proof (readByColumn_file ix TSources path Hf Hw) as Hs.
  pose proof (readByColumn_file ix TGenerated path Hf Hw) as Hg.
  destruct (IsAbs path).
  - destruct (hash_of ix TExternal path) as [h|]; [|by rewrite He].
    destruct He as (f & c & Ht & Hr & -> & ->). by exists f.
  - destruct (hash_of ix TSources path) as [h|] eqn:Eh.
    { destruct Hs as (f & c & Ht & Hr & -> & ->). exists f. split; [by left|done]. }
    assert (sources (si_tables ix) !! path = None) as Hno.
    { cbn in Eh. by destruct (sources _ !! path). }
    rewrite Hs. destruct (hash_of ix TGenerated path) as [h|]; [|by rewrite Hg].
    destruct Hg as (f & c & Ht & Hr & -> & ->). exists f. split; [by right|done].
Qed.
End served.

(** The sources of a collected index come from the files, and its hashes are there. *)
Lemma made_from_files m Version o globs intro bd i :
  made m Version o globs intro bd i →
  from_files (m_sha256 m) (m_zstd m) (m_read m) (NewPathResolver (m_cwd m) (o_builddir o) (o_project_root o))
    (BuildDir.Root bd) (xt_sources i) ∧
  wf (m_sha256 m) (m_zstd m) (xt_sources i).
Proof.
  intros [_ _ _ _ [r Hs%Sources_reaches] _]. split.
  - eapply from_files_reaches; [exact Hs|apply from_files_empty].
  - eapply wf_reaches; [exact Hs|apply wf_empty].
Qed.

(** C7: What [read_source] shows of a collected index is what [collect] read: the lines
    asked for of the file the path stands for, under the digest of its content.
    Every stored path can be read, and the only error is that no file is stored
    under the path, which is never so for a source of a target. *)
Theorem read_source_exact m unzstd Version o globs intro bd i path start end_ :
  RoundTrip (m_zstd m) unzstd → digests_differ m → passes m Version o globs intro bd = Val (Ok i) →
  let pr := NewPathResolver (m_cwd m) (o_builddir o) (o_project_root o) in
  match handleReadSource unzstd (ti_sources (tools_of i)) path start end_ with
  | Ok r => ∃ file c, source_file (ProjectRoot pr) (BuildDir.Root bd) path file ∧ m_read m file = Content c ∧
      rs_BlobHash r = m_sha256 m c ∧ (rs_Content r, rs_LineCount r) = sliceLines c start end_
  | Err e => e = (if IsAbs path then ErrNoRows else ErrNotIndexed path) ∧
      ∀ t abs, t ∈ IntroTargets intro → abs ∈ Meson.Sources t → RelPath (ToProjectRelative pr abs) ≠ path
  end.
Proof.
  intros Hz Hsha Hp pr. apply passes_made in Hp as Hm.
  destruct (made_from_files _ _ _ _ _ _ _ Hm) as [Hf Hw]. fold pr in Hf.
  pose proof (readSourceByPath_file m unzstd Hsha pr (BuildDir.Root bd) (ti_sources (tools_of i)) path Hf Hw) as H.
  unfold handleReadSource. destruct (readSourceByPath _ _ path) as [[c h]|e]; cbn [mbind result_bind].
  - destruct H as (f & Hfile & Hr & ->). destruct (sliceLines c start end_) as [body total] eqn:Es.
    exists f, c. by rewrite Es.
  - destruct H as [He Hno]. split; [done|]. intros t abs Ht Ha <-.
    destruct (mk_sources _ _ _ _ _ _ _ Hm) as [[sum hits] Hs]. fold pr in Hs.
    destruct (Sources_stored _ _ _ _ _ _ _ _ _ _ _ _ _ _ _ Hs t abs Ht Ha) as [Hin (c & gen & _ & Hrow)].
    apply ToProjectRelative_relative, Hno in Hin. cbn in Hin. rewrite Hin in Hrow. done.
Qed.

(** On the run of [Collect]: the one source, packed and read back. *)
Lemma read_source_exact_witness :
  RoundTrip (m_zstd ex_machine) Some ∧ digests_differ ex_machine ∧
  ∃ r, handleReadSource Some (ti_sources (tools_of ex_index_tables)) "a.c" 0 0 = Ok r ∧ rs_Content r = "int main;" ∧
    match handleReadSource Some (ti_sources (tools_of ex_index_tables)) "a.c" 0 0 with
    | Ok r => ∃ file c, source_file "/p" "/p/build" "a.c" file ∧ m_read ex_machine file = Content c ∧
        rs_BlobHash r = m_sha256 ex_machine c ∧ (rs_Content r, rs_LineCount r) = sliceLines c 0 0
    | Err _ => False
    end.
Proof.
  assert (RoundTrip (m_zstd ex_machine) Some) as Hz by done.
  assert (digests_differ ex_machine) as Hd by (intros p q c d _ _ H; by simplify_eq/=).
  split; [done|]. split; [done|]. eexists. split; [vm_compute; reflexivity|]. split; [vm_compute; reflexivity|].
  exact (read_source_exact ex_machine Some _ _ _ _ _ _ "a.c" 0 0 Hz Hd ex_passes_ok).
Defined.

(** C8: A literal search of a collected index finds what the files hold.  Unless the scan
    ceiling was reached, every match is a place of the file its path stands for where
    the pattern is; and when nothing was cut off, every place of a source of a target
    where the pattern is — the filters admitting its path — overlaps a match of that
    line that starts no later. *)
Theorem search_source_finds m unzstd Version o globs intro bd i root compile pattern prefix kind ext ctx limit r :
  RoundTrip (m_zstd m) unzstd → digests_differ m → passes m Version o globs intro bd = Val (Ok i) →
  handleSearchSource unzstd (ti_sources (tools_of i)) root compile pattern false "" prefix kind ext ctx limit = Ok r →
  sr_ScanTruncated r = false →
  let pr := NewPathResolver (m_cwd m) (o_builddir o) (o_project_root o) in
  (∀ x, x ∈ sr_Matches r → ∃ t file c n line q,
     table_file pr (BuildDir.Root bd) t (sm_Path x) file ∧ m_read m file = Content c ∧ file_lines c !! n = Some line ∧
     sm_Line x = Z.of_nat (n + 1) ∧ sm_Column x = Z.of_nat (q + 1) ∧ occurs pattern line q) ∧
  (sr_Truncated r = false → ∀ t abs, t ∈ IntroTargets intro → abs ∈ Meson.Sources t →
   let rel := RelPath (ToProjectRelative pr abs) in
   HasPrefix rel prefix = true → matchesKind (ToLower kind) rel false = true →
   ∃ c, m_read m (project_file pr rel) = Content c ∧
     ∀ n line p, file_lines c !! n = Some line → occurs pattern line p →
       ∃ x q, x ∈ sr_Matches r ∧ sm_Path x = rel ∧ sm_Line x = Z.of_nat (n + 1) ∧ sm_Column x = Z.of_nat (q + 1) ∧
         q ≤ p < q + String.length pattern).
Proof.
  intros Hz Hsha Hp Hr Hfull pr. apply passes_made in Hp as Hm.
  destruct (made_from_files _ _ _ _ _ _ _ Hm) as [Hf Hw]. fold pr in Hf.
  destruct (literal_search _ _ _ _ _ _ _ _ _ _ _ Hr Hfull) as (Hne & Hms & Hcut).
  set (ix := ti_sources (tools_of i)) in *. split.
  - intros x Hx. rewrite Hms in Hx. apply elem_of_take in Hx as (j & Hj & _). apply list_elem_of_lookup_2 in Hj.
    apply list_elem_of_bind in Hj as (t & Hj & Ht). apply list_elem_of_bind in Hj as (k & Hj & Hk).
    destruct (row_matches_file m unzstd Hsha pr (BuildDir.Root bd) ix _ _ _ _ _ t k x Hf Hw Hk Hj)
      as (f & c & n & line & q & Hfile & Hc & Hn & -> & Hl & Hcol & Ho).
    by exists t, f, c, n, line, q.
  - intros Htr t abs Ht Ha rel Hprefix Hkind.
    destruct (mk_sources _ _ _ _ _ _ _ Hm) as [[sum hits] Hs]. fold pr in Hs.
    destruct (Sources_stored _ _ _ _ _ _ _ _ _ _ _ _ _ _ _ Hs t abs Ht Ha) as [_ (c & gen & Hc & Hrow)].
    fold rel in Hc, Hrow. exists c. split; [done|]. intros n line p Hn Ho.
    destruct (blob_hits_found pattern c n line p Hne Hn Ho) as (q & Hq & Hb).
    eexists (buildSearchMatch rel c _ false (_, _, pattern)), q. split; [|done].
    rewrite Hms, take_ge by (apply Nat.ltb_ge; congruence). apply list_elem_of_bind. exists TSources. split; [|by left].
    apply list_elem_of_bind. exists rel. split; [|apply elem_of_sorted_keys; by eexists].
    unfold row_matches. rewrite Hprefix, orb_true_r, Hkind. cbn [negb orb wanted].
    change (hash_of ix TSources rel) with (src_blob <$> sources (xt_sources i) !! rel). rewrite Hrow.
    change (default "" (src_blob <$> Some (SourceRow (m_sha256 m c) gen))) with (m_sha256 m c).
    rewrite (readBlob_file m unzstd Hsha pr (BuildDir.Root bd) ix (project_file pr rel) c Hf Hw); [|exact (wf_sources _ _ _ Hw _ _ Hrow)|done].
    by apply list_elem_of_fmap_2.
Qed.

(** The one source holds ["int main;"]: searching for ["main"] finds it at column 5. *)
Lemma search_source_finds_witness :
  RoundTrip (m_zstd ex_machine) Some ∧ digests_differ ex_machine ∧
  ∃ r, handleSearchSource Some (ti_sources (tools_of ex_index_tables)) "/p" (λ _, None) "main" false "" "" "" false 0 5 = Ok r ∧
    sr_ScanTruncated r = false ∧ sm_Column <$> sr_Matches r = [5%Z] ∧
    ∀ x, x ∈ sr_Matches r → ∃ t file c n line q,
      table_file (NewPathResolver (m_cwd ex_machine) "/p/build" "/p") "/p/build" t (sm_Path x) file ∧
      m_read ex_machine file = Content c ∧ file_lines c !! n = Some line ∧ sm_Line x = Z.of_nat (n + 1) ∧
      sm_Column x = Z.of_nat (q + 1) ∧ occurs "main" line q.
Proof.
  assert (RoundTrip (m_zstd ex_machine) Some) as Hz by done.
  assert (digests_differ ex_machine) as Hd by (intros p q c d _ _ H; by simplify_eq/=).
  split; [done|]. split; [done|]. eexists. split; [vm_compute; reflexivity|]. split; [reflexivity|]. split; [reflexivity|].
  eapply (search_source_finds ex_machine Some _ _ _ _ _ _ "/p" (λ _, None) "main" "" "" false 0 5 _ Hz Hd ex_passes_ok);
    [vm_compute; reflexivity|reflexivity].
Defined.
