(* ===== verification/LinkedCalls.v ===== *)
(** * What the tools say of a linked binary

    [Link] reads a binary with nm and objdump, [LinkageTools] and the linked half of
    [CallGraph] answer from the rows: what comes out is what the tools printed, each
    end of a call named by the symbol at its address, or else by its name. *)

From S2P Require Import Prelude GoStrings Paths LinkPlane Store Meson Ingest Link CallGraph DwarfIngest SymbolTools.
From S2P Require Import LinkageTools Collect EndToEnd.
From Stdlib Require Import ZArith Lia.

(** The collected index keeps the tools' promise. *)
Lemma made_keyed m Version o globs intro bd i : made m Version o globs intro bd i → Keyed (graph_of i).
Proof. intros [[H1 H2] [H3 H4] _ _ _ _ _ _ _ _ _ _ _ _ _]%made_intact. by split. Qed.

(** The ids of the targets pass are those of the target rows. *)
Lemma made_target_ids m Version o globs intro bd i name tid :
  made m Version o globs intro bd i →
  (tt_ids (xt_targets i) !! name = Some tid ↔ targetIDByName (graph_of i) name = Ok tid).
Proof.
  intros Hm. pose proof (made_keyed _ _ _ _ _ _ _ Hm) as Hk. destruct Hm as [_ _ Ht _ _ _].
  pose proof (Targets_cases (Resolver.NewPathResolver (m_cwd m) (o_builddir o) (o_project_root o)) intro) as H.
  rewrite Ht in H. destruct H as [_ Hok]. by rewrite (tok_ids _ _ _ Hok), (targetIDByName_Ok (graph_of i)).
Qed.

Lemma made_target_names m Version o globs intro bd i :
  made m Version o globs intro bd i → t_name <$> ix_targets (graph_of i) ≡ₚ Meson.Name <$> Meson.IntroTargets intro.
Proof.
  intros [_ _ Ht _ _ _].
  pose proof (Targets_cases (Resolver.NewPathResolver (m_cwd m) (o_builddir o) (o_project_root o)) intro) as H.
  rewrite Ht in H. destruct H as [_ Hok]. cbn [graph_of ix_targets]. rewrite (tok_rows _ _ _ Hok), t_name_rows by done.
  by rewrite (sort_by_perm Meson.Name).
Qed.

Section binary.
Context (m : machine) (i : index_tables) (bd : BuildDir.BuildDir) (dbn : defs_index).

Definition symbol_names : gmap string Z := (buildSymbolLookup (dt_symbols (xt_dwarf i)) (dt_defs (xt_dwarf i))).1.
Definition symbol_usrs : gmap Z string := (buildSymbolLookup (dt_symbols (xt_dwarf i)) (dt_defs (xt_dwarf i))).2.

(** The identity of the symbol at an address of the binary whose nm output is [nms],
    or else of the symbol of that name. *)
Definition call_end (nms : list Nm.NMSymbol) (mf : option MapFile.MapFile) (addr : Z) (name : string) : option string :=
  id ← (match buildAddrIndex mf dbn (ct_object_to_source (xt_compiler i)) (invert symbol_usrs) symbol_names nms !! addr with
        | Some id => Some id
        | None => symbol_names !! name
        end);
  symbol_usrs !! id.

(** The binary's code calls, or jumps to, [v] from [u]. *)
Definition code_call (t : Meson.Target) (u v : string) : Prop :=
  ∃ nms mf calls c, reading (m_link m) (indexMapFiles bd) t nms mf calls ∧ c ∈ calls ∧
    call_end nms mf (Objdump.CallerAddr c) (Objdump.Caller c) = Some u ∧
    call_end nms mf (Objdump.CalleeAddr c) (Objdump.CalleeStripped c) = Some v.

Lemma usr_of_id s : Keyed (graph_of i) → s ∈ dt_symbols (xt_dwarf i) → symbol_usrs !! s_id s = Some (s_usr s).
Proof.
  intros Hk Hs. destruct (usrByID_dom (dt_symbols (xt_dwarf i)) (dt_defs (xt_dwarf i)) (s_id s)) as [u Hu].
  { by apply list_elem_of_fmap_2. }
  pose proof (usrByID_Some _ _ _ _ Hu) as (s' & Hs' & Hid & <-). unfold symbol_usrs. rewrite Hu. f_equal. f_equal.
  by apply (symbol_by_id (graph_of i)).
Qed.

Lemma linked_code_call t x y s s' :
  Keyed (graph_of i) → s ∈ dt_symbols (xt_dwarf i) → s' ∈ dt_symbols (xt_dwarf i) → s_id s = x → s_id s' = y →
  linked_call (m_link m) (ct_object_to_source (xt_compiler i)) (indexMapFiles bd) dbn symbol_usrs symbol_names t (x, y) ↔
  code_call t (s_usr s) (s_usr s').
Proof.
  intros Hk Hs Hs' <- <-. unfold linked_call, code_call, call_end, edge_ids.
  assert (∀ id z, z ∈ dt_symbols (xt_dwarf i) → symbol_usrs !! id = Some (s_usr z) → id = s_id z) as Hinj.
  { intros id z Hz H. apply (usrByID_Some _ (dt_defs (xt_dwarf i))) in H as (z' & Hz' & <- & E). f_equal. by apply (symbol_by_usr (graph_of i)). }
  split; intros (nms & mf & calls & c & Hr & Hc & H); exists nms, mf, calls, c; (split; [done|]); (split; [done|]).
  - destruct (match buildAddrIndex _ _ _ _ _ _ !! Objdump.CallerAddr c with Some _ => _ | None => _ end) as [a|]; [|done].
    cbn [mbind option_bind] in H |- *.
    destruct (match buildAddrIndex _ _ _ _ _ _ !! Objdump.CalleeAddr c with Some _ => _ | None => _ end) as [b|]; [|done].
    injection H as -> ->. split; by apply usr_of_id.
  - destruct H as [H1 H2].
    destruct (match buildAddrIndex _ _ _ _ _ _ !! Objdump.CallerAddr c with Some _ => _ | None => _ end) as [a|]; [|done].
    cbn [mbind option_bind] in H1, H2 |- *.
    destruct (match buildAddrIndex _ _ _ _ _ _ !! Objdump.CalleeAddr c with Some _ => _ | None => _ end) as [b|]; [|done].
    apply Hinj in H1 as ->, H2 as ->; done.
Qed.
End binary.

(** C6: What [list_linked_callees] says of a target of a collected index is what the
    code of its binary does: the symbols some call or jump of the disassembly goes
    to from the one asked about, each end the symbol at its address, or else of its
    name; nothing of another binary and nothing the linker dropped. *)
Theorem list_linked_callees_exact m Version o globs intro bd i u target l :
  passes m Version o globs intro bd = Val (Ok i) → handleListLinkedCallees (graph_of i) u target = Ok l →
  ∃ dbn, scanBuilddirObjectDefs (env_nm (m_link m)) bd = Some dbn ∧
    ∀ v, v ∈ CallGraph.USR <$> l ↔
      ∃ t, t ∈ Meson.IntroTargets intro ∧ Meson.Name t = target ∧ code_call m i bd dbn t u v.
Proof.
  intros Hm%passes_made. pose proof (made_keyed _ _ _ _ _ _ _ Hm) as Hk.
  pose proof (λ n x, made_target_ids _ _ _ _ _ _ _ n x Hm) as Htid.
  pose proof (fk_edges _ (made_intact _ _ _ _ _ _ _ Hm)) as Hends.
  destruct Hm as [_ _ _ Hl _ _]. apply Link_rows_origin in Hl as (dbn & Hdbn & He & _).
  unfold handleListLinkedCallees, linked_neighbors.
  destruct (symbolIDByUSR (graph_of i) u) as [x|] eqn:Eu; [|done].
  apply (symbolIDByUSR_Ok (graph_of i)) in Eu as (su & Hsu & <- & <-).
  cbn [mbind result_bind]. destruct (targetIDByName (graph_of i) target) as [tid|] eqn:Et; [|done]. intros [= <-].
  exists dbn. split; [done|]. intros v. rewrite list_elem_of_fmap. setoid_rewrite elem_of_neighbor_query. split.
  - intros (r & -> & e & s & Hin & Hkeep & Hs & Hid & _ & ->). cbn [CallGraph.USR ref_of].
    unfold objdump_edge in Hkeep. rewrite !andb_true_iff, Z.eqb_eq, String.eqb_eq, bool_decide_eq_true in Hkeep.
    destruct Hkeep as [[Hx Hsrc] Htg]. apply elem_of_app in Hin as [Hin|Hin].
    { apply list_elem_of_fmap in Hin as (k & -> & _). done. }
    apply He in Hin as (t & tid' & k & Ht & Hi & Hc & ->). cbn in Hx, Hid, Htg. injection Htg as ->.
    exists t. split; [done|]. split.
    + apply Htid, (targetIDByName_Ok (graph_of i)) in Hi as (r1 & Hr1 & <- & E1).
      apply (targetIDByName_Ok (graph_of i)) in Et as (r2 & Hr2 & <- & E2). f_equal.
      apply (target_by_id (graph_of i)); [done..|congruence].
    + destruct k as [a b]. cbn in *. subst a. by apply (linked_code_call m i bd dbn t (s_id su) b su s).
  - intros (t & Ht & <- & Hc). apply Htid in Et.
    assert (∃ s, s ∈ dt_symbols (xt_dwarf i) ∧ s_usr s = v) as (s & Hs & <-).
    { destruct Hc as (nms & mf & calls & c & _ & _ & _ & H). unfold call_end in H. apply bind_Some in H as (id & _ & H).
      apply (usrByID_Some _ (dt_defs (xt_dwarf i))) in H as (s & Hs & _ & Hu). by exists s. }
    apply (linked_code_call m i bd dbn t _ _ su s Hk Hsu Hs eq_refl eq_refl) in Hc.
    exists (ref_of s). split; [done|]. exists (EdgeRow (s_id su) (s_id s) "objdump" (Some tid)), s.
    split; [|split_and!; [|done..]].
    + apply elem_of_app. right. apply He. by exists t, tid, (s_id su, s_id s).
    + unfold objdump_edge. cbn. by rewrite Z.eqb_refl, bool_decide_true.
Qed.

(** The identity of a symbol of a binary, as the pass resolves it. *)
Definition binary_symbol (i : index_tables) (dbn : defs_index) (mf : option MapFile.MapFile) (s : Nm.NMSymbol) : option string :=
  id ← resolveNMSymbol mf dbn (ct_object_to_source (xt_compiler i)) (invert (symbol_usrs i)) (symbol_names i) s;
  symbol_usrs i !! id.

Lemma resolution_row_listed m Version o globs intro bd i dbn mf tid s r :
  made m Version o globs intro bd i →
  (resolution_row mf dbn (ct_object_to_source (xt_compiler i)) (invert (symbol_usrs i)) (symbol_names i) tid (symbol_usrs i) s = Some r ↔
   Nm.LinkageKind s ≠ "" ∧ ∃ v, binary_symbol i dbn mf s = Some v ∧
     let winner := winning_object mf dbn (Nm.Name s) in
     r = LinkResolutionRow tid v winner (Nm.LinkageKind s) (collectLosingObjects (candidates dbn (Nm.Name s)) winner)
           (if String.eqb winner "" then "" else MapFile.ArchiveFor winner)).
Proof.
  intros Hm. unfold resolution_row, binary_symbol. destruct (String.eqb_spec (Nm.LinkageKind s) "") as [|Hk]; [naive_solver|].
  destruct (resolveNMSymbol _ _ _ _ _ s) as [id|] eqn:E; cbn [mbind option_bind]; [|naive_solver].
  apply (resolveNMSymbol_id (dt_symbols (xt_dwarf i)) (dt_defs (xt_dwarf i))) in E.
  apply (usrByID_dom _ (dt_defs (xt_dwarf i))) in E as [v Hv]. unfold symbol_usrs. rewrite Hv. cbn [default]. split.
  - intros [= <-]. split; [done|]. by exists v.
  - intros (_ & v' & [= <-] & ->). done.
Qed.

(** C11: For a target of a collected index [describe_link_resolution] answers from a
    symbol nm lists in its binary and that resolves to the one asked about, with the
    object that won it — the one the map file names, or else a definition in nm's
    listings of the build's objects that no other outranks, the least path among
    equals — and all other objects with a definition there, each once, in path order;
    it knows nothing of the symbol exactly when no listed definition resolves to it. *)
Theorem describe_link_resolution_exact m Version o globs intro bd i u target :
  passes m Version o globs intro bd = Val (Ok i) →
  ∃ dbn, scanBuilddirObjectDefs (env_nm (m_link m)) bd = Some dbn ∧
    let lists t s mf := ∃ nms calls, t ∈ Meson.IntroTargets intro ∧ Meson.Name t = target ∧
      reading (m_link m) (indexMapFiles bd) t nms mf calls ∧ s ∈ nms ∧ Nm.LinkageKind s ≠ "" ∧
      binary_symbol i dbn mf s = Some u in
    match handleDescribeLinkResolution (tools_of i) u target with
    | Ok r => ∃ t s mf, lists t s mf ∧ dl_LinkageKind r = Nm.LinkageKind s ∧
        wins (env_nm (m_link m)) bd mf (Nm.Name s) (dl_WinningObject r) ∧
        losers (env_nm (m_link m)) bd (Nm.Name s) (dl_WinningObject r) (dl_LosingObjects r) ∧
        dl_Reachable r = true
    | Err (ErrNoResolution _ _) => ∀ t s mf, ¬ lists t s mf
    | Err _ => target ∉ Meson.Name <$> Meson.IntroTargets intro
    end.
Proof.
  intros Hm%passes_made. pose proof (made_keyed _ _ _ _ _ _ _ Hm) as Hk.
  pose proof (λ n x, made_target_ids _ _ _ _ _ _ _ n x Hm) as Htid.
  pose proof (made_target_names _ _ _ _ _ _ _ Hm) as Hnames.
  pose proof (λ dbn mf tid s r, resolution_row_listed _ _ _ _ _ _ _ dbn mf tid s r Hm) as Hrow.
  destruct Hm as [_ _ _ Hl _ _]. apply Link_rows_origin in Hl as (dbn & Hdbn & _ & Hr).
  exists dbn. split; [done|]. intros lists.
  unfold handleDescribeLinkResolution, target_id. cbn [tools_of ti_graph].
  destruct (targetIDByName (graph_of i) target) as [tid|e] eqn:Et.
  2: { cbn [mbind result_bind]. rewrite <-Hnames. intros (r & -> & Hin)%list_elem_of_fmap.
       assert (targetIDByName (graph_of i) (t_name r) = Ok (t_id r)) by (apply targetIDByName_Ok; [done|by exists r]). congruence. }
  cbn [mbind result_bind].
  assert (∀ r, r ∈ lt_resolutions (xt_link i) ∧ lr_usr r = u ∧ lr_target r = tid ↔
    ∃ t s mf, lists t s mf ∧ let winner := winning_object mf dbn (Nm.Name s) in
      r = LinkResolutionRow tid u winner (Nm.LinkageKind s) (collectLosingObjects (candidates dbn (Nm.Name s)) winner)
           (if String.eqb winner "" then "" else MapFile.ArchiveFor winner)) as Hlist.
  { intros r. rewrite Hr. split.
    - intros ((t & tid' & Ht & Hi & nms & mf & calls & s & Hrd & Hs & Hrr) & Hu & Htg).
      apply Hrow in Hrr as (Hkind & v & Hv & ->). cbn in Hu, Htg. subst v tid'. exists t, s, mf. split; [|done].
      exists nms, calls. split_and!; try done. apply Htid in Hi.
      apply (targetIDByName_Ok (graph_of i)) in Hi as (r1 & Hr1 & <- & E1), Et as (r2 & Hr2 & <- & E2).
      f_equal. apply (target_by_id (graph_of i)); [done..|congruence].
    - intros (t & s & mf & (nms & calls & Ht & <- & Hrd & Hs & Hkind & Hv) & ->). split; [|done].
      exists t, tid. split; [done|]. split; [by apply Htid|]. exists nms, mf, calls, s. split; [done|]. split; [done|].
      apply Hrow. split; [done|]. by exists u. }
  destruct (List.find _ _) as [r|] eqn:Ef.
  - apply List.find_some in Ef as [Hin [Hu%String.eqb_eq Htg%Z.eqb_eq]%andb_true_iff]. apply list_elem_of_In in Hin.
    destruct (proj1 (Hlist r) (conj Hin (conj Hu Htg))) as (t & s & mf & Hlists & ->). exists t, s, mf. cbn. split; [done|].
    split; [done|]. split; [by apply winning_object_wins|]. split; [by apply collectLosingObjects_losers|].
    apply andb_true_iff. split.
    + destruct Hlists as (nms & calls & _ & _ & _ & _ & _ & Hv). unfold binary_symbol in Hv. apply bind_Some in Hv as (id & _ & Hv).
      apply (usrByID_Some _ (dt_defs (xt_dwarf i))) in Hv as (s' & Hs' & _ & Hu'). apply existsb_exists. exists s'.
      rewrite <-list_elem_of_In, String.eqb_eq. done.
    + change (resolved_in (tools_of i) tid u = true). apply (resolved_in_spec (λ _, None) (tools_of i) ""). eexists. split; [exact Hin|done].
  - intros t s mf Hlists.
    assert (∃ r, r ∈ lt_resolutions (xt_link i) ∧ lr_usr r = u ∧ lr_target r = tid) as (r & Hin & Hu & Htg).
    { eexists. apply Hlist. exists t, s, mf. split; [exact Hlists|reflexivity]. }
    apply list_elem_of_In, (List.find_none _ _ Ef) in Hin. unfold of_target in Hin.
    by rewrite Hu, Htg, String.eqb_refl, Z.eqb_refl in Hin.
Qed.

(** On the run of [Collect]. *)
Lemma list_linked_callees_exact_witness :
  ∃ l, handleListLinkedCallees (graph_of ex_index_tables) "c:@F@main" "prog" = Ok l ∧
    ∃ dbn, scanBuilddirObjectDefs (env_nm (m_link ex_machine)) ex_prepared.2 = Some dbn ∧
    ∀ v, v ∈ CallGraph.USR <$> l ↔
      ∃ t, t ∈ Meson.IntroTargets ex_prepared.1.2 ∧ Meson.Name t = "prog" ∧
        code_call ex_machine ex_index_tables ex_prepared.2 dbn t "c:@F@main" v.
Proof.
  eexists. split; [vm_compute; reflexivity|].
  eapply (list_linked_callees_exact ex_machine "dev" ex_options ex_prepared.1.1 ex_prepared.1.2 ex_prepared.2 ex_index_tables);
    vm_compute; reflexivity.
Defined.

Lemma describe_link_resolution_exact_witness :
  ∃ dbn r, scanBuilddirObjectDefs (env_nm (m_link ex_machine)) ex_prepared.2 = Some dbn ∧
    handleDescribeLinkResolution (tools_of ex_index_tables) "c:@F@main" "prog" = Ok r ∧
    ∃ t s mf, t ∈ Meson.IntroTargets ex_prepared.1.2 ∧ binary_symbol ex_index_tables dbn mf s = Some "c:@F@main" ∧
      dl_LinkageKind r = Nm.LinkageKind s ∧
      losers (env_nm (m_link ex_machine)) ex_prepared.2 (Nm.Name s) (dl_WinningObject r) (dl_LosingObjects r).
Proof.
  destruct (describe_link_resolution_exact ex_machine "dev" ex_options ex_prepared.1.1 ex_prepared.1.2 ex_prepared.2
              ex_index_tables "c:@F@main" "prog" ex_passes_ok) as (dbn & Hd & H).
  cbn zeta in H. destruct (handleDescribeLinkResolution _ _ _) as [r|e] eqn:E; [|exfalso; clear -E; by vm_compute in E].
  exists dbn, r. split; [exact Hd|]. split; [reflexivity|].
  destruct H as (t & s & mf & (nms & calls & Ht & _ & _ & _ & _ & Hs) & Hkind & _ & Hlose & _).
  exists t, s, mf. split; [exact Ht|]. split; [exact Hs|]. split; [exact Hkind|exact Hlose].
Defined.
