(* ===== verification/TakenFunctions.v ===== *)
(** * Which functions an indirect call can reach

    GCC's dumps say of every function of a unit whether its address is taken; the ingest
    merges these flags over units and clones ([Ingest]), and the tools for indirect
    calls ([SymbolTools]) answer from the merged flag.  No function is lost on the way
    and none is made up. *)

From S2P Require Import Prelude GoStrings Paths Cgraph Store Ingest CallGraph DwarfIngest SymbolTools Collect.
From S2P Require Import EndToEnd LinkedCalls.
From Stdlib Require Import ZArith Lia.
Import Resolver.

(** ** The merged flag *)

Definition taken (symbols : symbol_map) (u : string) : Prop :=
  ∃ r, symbols !! u = Some r ∧ rec_addressTaken r = true.

Lemma mergeSymbol_taken m o u :
  taken (mergeSymbol m o) u ↔ taken m u ∨ u = rec_usr o ∧ rec_addressTaken o = true.
Proof.
  unfold taken. setoid_rewrite mergeSymbol_lookup. destruct (decide (u = rec_usr o)) as [->|Hne]; [|naive_solver].
  destruct (m !! rec_usr o) as [p|]; [|naive_solver]. cbn. split.
  - intros (r & [= <-] & [H|H]%orb_true_iff); [left|right]; eauto.
  - intros [(r & [= <-] & H)|[_ H]]; eexists; (split; [done|]); cbn; by rewrite H, ?orb_true_r.
Qed.

Lemma alter_taken fn p m u :
  taken (alter (add_clone fn) p m) u ↔ taken m u ∨ u = p ∧ p ∈ dom m ∧ AddressTaken fn = true.
Proof.
  unfold taken. rewrite elem_of_dom. setoid_rewrite lookup_alter_Some. split.
  - intros (r & [(<- & x & Hx & ->)|[Hne H]] & Ht); [|left; eauto]. cbn in Ht.
    apply orb_true_iff in Ht as [Ht|Ht]; [left|right]; eauto.
  - intros [(r & Hr & Ht)|(-> & [r Hr] & Ht)].
    + destruct (decide (p = u)) as [->|Hne]; [|eauto]. exists (add_clone fn r). split; [eauto|]. cbn. by rewrite Ht.
    + exists (add_clone fn r). split; [eauto|]. cbn. by rewrite Ht, orb_true_r.
Qed.

Lemma recordFor_taken fn tu path pr r : recordFor fn tu path pr = Some r → rec_addressTaken r = AddressTaken fn.
Proof. unfold recordFor. by repeat case_match; intros [= <-]. Qed.

Section unit.
Context (tu : tuData) (cg : Cgraph) (path : string) (pr : PathResolver).

(** Whose a function of a unit is: its own, or, of a clone, its parent's. *)
Inductive attributed : string → string → Prop :=
| attributed_own id fn r :
    Symbols cg !! id = Some fn → recordFor fn tu path pr = Some r → attributed id (rec_usr r)
| attributed_clone id fn u :
    Symbols cg !! id = Some fn → CloneOfID fn ≠ "" → attributed (CloneOfID fn) u → attributed id u.

Definition unit_takes (u : string) : Prop :=
  ∃ id fn, Symbols cg !! id = Some fn ∧ AddressTaken fn = true ∧ attributed id u.

(** What the aggregation of a unit keeps, [m] being the records before it. *)
Record flags_ok (m : symbol_map) (st : agg_state) : Prop := {
  fl_before u : taken m u → taken st.1 u;
  fl_only u : taken st.1 u → taken m u ∨ unit_takes u;
  fl_ids id u : st.2 !! id = Some u →
    u ∈ dom st.1 ∧ attributed id u ∧ ∀ fn, Symbols cg !! id = Some fn → AddressTaken fn = true → taken st.1 u;
}.

Lemma flags_merge m st id fn r :
  flags_ok m st → Symbols cg !! id = Some fn → recordFor fn tu path pr = Some r →
  flags_ok m (mergeSymbol st.1 r, <[id := rec_usr r]> st.2).
Proof.
  intros [Hb Ho Hi] Hfn Hr. pose proof (recordFor_taken _ _ _ _ _ Hr) as Ht.
  assert (attributed id (rec_usr r)) as Ha by by eapply attributed_own.
  split; cbn [fst snd].
  - intros u Hu. apply mergeSymbol_taken. auto.
  - intros u [Hu|[-> Hu]]%mergeSymbol_taken; [auto|]. right. exists id, fn. by rewrite <-Ht.
  - intros id' u. rewrite mergeSymbol_dom, lookup_insert_Some. intros [[<- <-]|[_ H]].
    + split; [set_solver|]. split; [done|]. intros fn' Hfn' Hat. apply mergeSymbol_taken. right. rewrite Ht. naive_solver.
    + apply Hi in H as (Hd & Ha' & Hf). split; [set_solver|]. split; [done|]. intros fn' H1 H2. apply mergeSymbol_taken. eauto.
Qed.

Lemma flags_alter m symbols res id fn p :
  flags_ok m (symbols, res) → Symbols cg !! id = Some fn → attributed id p → p ∈ dom symbols →
  flags_ok m (alter (add_clone fn) p symbols, <[id := p]> res).
Proof.
  intros [Hb Ho Hi] Hfn Ha Hp. cbn [fst snd] in *. split; cbn [fst snd].
  - intros u Hu. apply alter_taken. auto.
  - intros u [Hu|(-> & _ & Hu)]%alter_taken; [auto|]. right. by exists id, fn.
  - intros id' u. rewrite dom_alter_L, lookup_insert_Some. intros [[<- <-]|[_ H]].
    + split; [done|]. split; [done|]. intros fn' Hfn' Hat. apply alter_taken. right. naive_solver.
    + apply Hi in H as (Hd & Ha' & Hf). split; [done|]. split; [done|]. intros fn' H1 H2. apply alter_taken. eauto.
Qed.

Lemma flags_add_symbol m st id : flags_ok m st → flags_ok m (add_symbol tu cg path pr st id).
Proof.
  intros Hst. unfold add_symbol. destruct (Symbols cg !! id) as [fn|] eqn:E; [|done].
  destruct (negb _); [done|]. destruct (recordFor fn tu path pr) eqn:Er; [|done]. by eapply flags_merge.
Qed.

Lemma flags_add_clone m st id : flags_ok m st → flags_ok m (add_clone_symbol tu cg path pr st id).
Proof.
  intros Hst. unfold add_clone_symbol. destruct (Symbols cg !! id) as [fn|] eqn:E; [|done].
  destruct (String.eqb_spec (CloneOfID fn) ""); [done|].
  destruct (st.2 !! CloneOfID fn) as [u|] eqn:Eu.
  - destruct (String.eqb u ""); [by destruct st|]. pose proof (fl_ids _ _ Hst _ _ Eu) as (Hd & Ha & _).
    apply flags_alter; [by destruct st|done| |done]. by eapply attributed_clone.
  - destruct (Symbols cg !! CloneOfID fn) as [pfn|] eqn:Ep; cbn; [|by destruct st].
    destruct (recordFor pfn tu path pr) as [r|] eqn:Er; [|by destruct st].
    pose proof (flags_merge m st _ pfn r Hst Ep Er) as Hm.
    destruct (String.eqb (rec_usr r) ""); [done|]. apply flags_alter; [done|done| |].
    + eapply attributed_clone; [done|done|]. by eapply attributed_own.
    + rewrite mergeSymbol_dom. set_solver.
Qed.

Lemma flags_aggregate m ids : flags_ok m (aggregate_ids tu cg path pr ids m).
Proof.
  unfold aggregate_ids. apply (foldl_inv (flags_ok m)); [|intros; by apply flags_add_clone].
  apply (foldl_inv (flags_ok m)); [|intros; by apply flags_add_symbol].
  split; cbn; [done|by left|]. intros id u H. by rewrite lookup_empty in H.
Qed.

(** The identities do not depend on the records there are. *)
Lemma aggregate_ids_only ids m m' : (aggregate_ids tu cg path pr ids m).2 = (aggregate_ids tu cg path pr ids m').2.
Proof.
  unfold aggregate_ids.
  assert (∀ (f : agg_state → string → agg_state), (∀ a b id, a.2 = b.2 → (f a id).2 = (f b id).2) →
    ∀ l a b, a.2 = b.2 → (foldl f a l).2 = (foldl f b l).2) as Hf.
  { intros f Hs l. induction l as [|x l IH]; [done|]. intros a b H. cbn. by apply IH, Hs. }
  apply Hf; [|apply Hf; [|done]]; intros [a r] [b r'] id; cbn; intros <-.
  - unfold add_clone_symbol. cbn. destruct (Symbols cg !! id) as [fn|]; [|done]. destruct (String.eqb (CloneOfID fn) ""); [done|].
    destruct (r !! CloneOfID fn) as [u|]; [by destruct (String.eqb u "")|].
    destruct (Symbols cg !! CloneOfID fn ≫= _) as [q|]; [by destruct (String.eqb (rec_usr q) "")|done].
  - unfold add_symbol. cbn. destruct (Symbols cg !! id) as [fn|]; [|done]. destruct (negb _); [done|].
    by destruct (recordFor fn tu path pr).
Qed.
End unit.

(** ** The dumps of a build *)

(** A unit's own identities, whatever was aggregated before it. *)
Definition unit_ids (pr : PathResolver) (tu : tuData) : perTUResolve := (aggregateSymbols pr tu ∅).2.

(** Some dump says that the address of a function with identity [u] is taken. *)
Definition dump_takes (pr : PathResolver) (tus : list tuData) (u : string) : Prop :=
  ∃ tu cg, tu ∈ tus ∧ tu_cgraph tu = Some cg ∧ unit_takes tu cg (tu_source_path pr tu) pr u.

(** The address of a function that a unit resolves to [u] is taken in that unit. *)
Definition resolved_taken (pr : PathResolver) (tus : list tuData) (u : string) : Prop :=
  ∃ tu cg id fn, tu ∈ tus ∧ tu_cgraph tu = Some cg ∧ Symbols cg !! id = Some fn ∧ AddressTaken fn = true ∧
    unit_ids pr tu !! id = Some u.

Lemma resolved_taken_takes pr tus u : resolved_taken pr tus u → dump_takes pr tus u.
Proof.
  intros (tu & cg & id & fn & Htu & Hcg & Hfn & Ht & Hid). exists tu, cg. do 2 (split; [done|]). exists id, fn.
  do 2 (split; [done|]). unfold unit_ids, aggregateSymbols in Hid. rewrite Hcg in Hid.
  by apply (fl_ids _ _ _ _ _ _ (flags_aggregate tu cg _ pr ∅ _)) in Hid as (_ & Ha & _).
Qed.

(** After all units the flag of a record is what the dumps say. *)
Lemma aggregate_taken pr tus :
  (∀ u, taken (aggregate_all pr tus).1 u → dump_takes pr tus u) ∧
  (∀ u, resolved_taken pr tus u → taken (aggregate_all pr tus).1 u).
Proof.
  unfold aggregate_all.
  apply (foldl_inv_pre (λ pre (st : symbol_map * gmap string perTUResolve),
    (∀ u, taken st.1 u → dump_takes pr pre u) ∧ (∀ u, resolved_taken pr pre u → taken st.1 u))).
  { split; [intros u (r & Hr & _); cbn in Hr; by rewrite lookup_empty in Hr|].
    intros u (tu & _ & _ & _ & Htu & _). by apply elem_of_nil in Htu. }
  intros pre tu [symbols resolves] _ [Hs Hc]. cbn [fst] in *.
  assert (∀ u, resolved_taken pr (pre ++ [tu]) u → resolved_taken pr pre u ∨ resolved_taken pr [tu] u) as Hlast.
  { intros u (t & cg & id & fn & [Ht|Ht]%elem_of_app & H); [left|right]; by exists t, cg, id, fn. }
  assert (∀ u, dump_takes pr pre u → dump_takes pr (pre ++ [tu]) u) as Hpre.
  { intros u (t & cg & Ht & H). exists t, cg. split; [apply elem_of_app; by left|done]. }
  unfold aggregateSymbols. destruct (tu_cgraph tu) as [cg|] eqn:Ecg.
  - set (path := tu_source_path pr tu). set (ks := sorted_keys _).
    pose proof (flags_aggregate tu cg path pr symbols ks) as [Hb Ho Hi].
    pose proof (aggregate_ids_only tu cg path pr ks symbols ∅) as He.
    destruct (aggregate_ids tu cg path pr ks symbols) as [sy re] eqn:E. cbn [fst snd] in *. split.
    + intros u [Hu|Hu]%Ho; [auto|]. exists tu, cg. split; [apply elem_of_app; right; by left|done].
    + intros u [Hu|(t & cg' & id & fn & Ht & Hcg & Hfn & Hat & Hid)]%Hlast; [auto|].
      apply list_elem_of_singleton in Ht as ->. rewrite Ecg in Hcg. injection Hcg as <-.
      unfold unit_ids, aggregateSymbols in Hid. rewrite Ecg in Hid. fold path ks in Hid. rewrite <-He in Hid.
      apply Hi in Hid as (_ & _ & H). eauto.
  - cbn [fst]. split; [auto|]. intros u [Hu|(t & cg' & id & fn & Ht & Hcg & _)]%Hlast; [auto|].
    apply list_elem_of_singleton in Ht as ->. congruence.
Qed.

(** The rows of the records: the flag goes through the pruning unchanged. *)
Lemma insertSymbols_taken symbols u :
  keyed symbols →
  (∃ s, s ∈ st_symbols (insertSymbols symbols) ∧ s_usr s = u ∧ s_address_taken s = true) ↔ taken symbols u.
Proof.
  intros Hk. unfold insertSymbols.
  assert (∀ (l : list symbolRec) t s, s ∈ st_symbols (foldl insert_symbol t l) ∧ s_address_taken s = true →
    (s ∈ st_symbols t ∧ s_address_taken s = true) ∨ ∃ r, r ∈ l ∧ rec_usr r = s_usr s ∧ rec_addressTaken r = true) as H1.
  { induction l as [|r l IH]; intros t s; cbn [foldl]; [by left|]. intros [[H Ht]|(r' & ? & ? & ?)]%IH.
    - cbn in H. apply elem_of_app in H as [H|H%list_elem_of_singleton]; [by left|]. right. exists r. subst s. cbn in Ht.
      split; [left|done].
    - right. exists r'. split; [by right|done]. }
  assert (∀ (l : list symbolRec) t r, (r ∈ l ∨ ∃ s, s ∈ st_symbols t ∧ s_usr s = rec_usr r ∧ s_address_taken s = rec_addressTaken r) →
    ∃ s, s ∈ st_symbols (foldl insert_symbol t l) ∧ s_usr s = rec_usr r ∧ s_address_taken s = rec_addressTaken r) as H2.
  { induction l as [|x l IH]; intros t r; cbn [foldl]; [by intros [?%elem_of_nil|]|].
    intros [[->|H]%elem_of_cons|(s & Hs & H)]; apply IH.
    - right. eexists. split; [cbn; apply elem_of_app; right; by left|done].
    - by left.
    - right. exists s. split; [cbn; apply elem_of_app; by left|done]. }
  split.
  - intros (s & Hs & <- & Ht). destruct (H1 _ _ _ (conj Hs Ht)) as [[H _]|(r & Hr & Hu & Hat)]; [by apply elem_of_nil in H|].
    apply list_elem_of_omap in Hr as (v & _ & Hv). exists r. split; [|done]. by rewrite <-Hu, (Hk _ _ Hv).
  - intros (r & Hr & Ht). rewrite <-(Hk _ _ Hr), <-Ht. apply H2. left. apply list_elem_of_omap. exists u. split; [|done].
    apply elem_of_sorted_keys. by eexists.
Qed.

Lemma prune_taken symbols refs u : taken (pruneUnreferenced symbols refs) u ↔ taken symbols u.
Proof.
  unfold taken. setoid_rewrite prune_lookup. split; [naive_solver|]. intros (r & Hr & Ht). exists r. split; [|done].
  split; [done|]. unfold keep_rec. rewrite Ht. by destruct (rec_defs r).
Qed.

Lemma compiled_taken pr root tus ct u :
  ingest_tus pr root tus = Ok ct →
  taken (aggregate_all pr tus).1 u ↔
  ∃ s, s ∈ dt_symbols (after_compiler ct) ∧ s_usr s = u ∧ s_address_taken s = true.
Proof.
  pose proof (aggregate_all_ok pr tus) as [Hk _]. unfold ingest_tus. destruct (aggregate_all pr tus) as [symbols resolves].
  cbn [fst] in *. destruct (insertICFGroups _ _ _ _) as [icf|]; [|done]. intros [= <-]. cbn [dt_symbols after_compiler ct_symbols].
  rewrite insertSymbols_taken by by apply prune_keyed. by rewrite prune_taken.
Qed.

Lemma address_taken_any s : address_taken "" s = true ↔ s_kind s = "function" ∧ s_address_taken s = true.
Proof. unfold address_taken, given. cbn [String.eqb orb]. by rewrite andb_true_r, andb_true_iff, String.eqb_eq. Qed.

(** A function listed, or a candidate, is one of the symbol rows with the flag. *)
Lemma listed_taken ix u :
  u ∈ CallGraph.USR <$> (handleListAddressTakenFunctions ix "" "").*1 ↔
  ∃ s, s ∈ ix_symbols (ti_graph ix) ∧ s_usr s = u ∧ s_kind s = "function" ∧ s_address_taken s = true.
Proof.
  rewrite handleListAddressTakenFunctions_spec, <-!list_fmap_compose, list_elem_of_fmap.
  setoid_rewrite (sort_by_perm s_name). setoid_rewrite list_elem_of_In. setoid_rewrite filter_In. setoid_rewrite <-list_elem_of_In.
  setoid_rewrite andb_true_iff. setoid_rewrite address_taken_any. cbn. naive_solver.
Qed.

(** ** Properties *)

(** C12: On a collected index [list_address_taken_functions] names only functions whose
    address some dump of the build takes, and misses none that a unit resolves; what
    [resolve_indirect_call] proposes is among them, and is all of them when the type
    of the call is not known. *)
Theorem address_taken_served m Version o globs intro bd i unzstd root :
  passes m Version o globs intro bd = Val (Ok i) →
  let pr := NewPathResolver (m_cwd m) (o_builddir o) (o_project_root o) in
  let listed := CallGraph.USR <$> (handleListAddressTakenFunctions (tools_of i) "" "").*1 in
  ∃ tus, Forall2 (λ art tu, parseTU (m_text m) (m_gunzip m) art = Ok tu) (BuildDir.Objects bd) tus ∧
    (∀ u, u ∈ listed → dump_takes pr tus u) ∧
    (∀ u, resolved_taken pr tus u → ∃ s, s ∈ dt_symbols (xt_dwarf i) ∧ s_usr s = u ∧ (s_kind s = "function" → u ∈ listed)) ∧
    ∀ site r, handleResolveIndirectCall unzstd (tools_of i) root site = Ok r →
      let proposed := CallGraph.USR ∘ rc_Symbol <$> ri_Candidates r in
      proposed ⊆ listed ∧ (ic_CalleeType (ri_Site r) = "" → listed ⊆ proposed).
Proof.
  intros Hp pr listed. apply passes_made in Hp as Hm. pose proof (made_keyed _ _ _ _ _ _ _ Hm) as Hkey.
  destruct Hm as [Hc Hd _ _ _ _]. fold pr in Hc, Hd.
  unfold Ingest.Compiler in Hc. destruct (mapM_result _ _) as [tus|] eqn:Etus; [|done]. cbn [mbind result_bind] in Hc.
  apply mapM_result_Forall2 in Etus. exists tus. split; [done|].
  assert (∀ u, (∃ s, s ∈ dt_symbols (xt_dwarf i) ∧ s_usr s = u ∧ s_address_taken s = true) ↔ taken (aggregate_all pr tus).1 u) as Hrows.
  { intros u. rewrite (compiled_taken _ _ _ _ _ Hc). apply put_objects_updates in Hd as (infos & _ & _ & ->).
    setoid_rewrite list_elem_of_fmap. split.
    - intros (s & (r & -> & Hr) & <- & Ht). exists r. rewrite sig_steps in *. done.
    - intros (r & Hr & <- & Ht). eexists. split; [by exists r|]. by rewrite sig_steps. }
  destruct (aggregate_taken pr tus) as [Hsound Hcomplete].
  assert (∀ u, u ∈ listed ↔ _) as Hl by exact (listed_taken (tools_of i)). clearbody listed. split; [|split].
  - intros u (s & Hs & Hu & _ & Ht)%Hl. apply Hsound, Hrows. by exists s.
  - intros u (s & Hs & Hu & Ht)%Hcomplete%Hrows. exists s. split; [done|]. split; [done|]. intros Hk.
    apply Hl. by exists s.
  - intros site r Hr. pose proof (resolve_indirect_cases unzstd (tools_of i) root site Hkey) as H. rewrite Hr in H.
    destruct H as (x & s & _ & _ & _ & _ & -> & ->). rewrite <-list_fmap_compose. split.
    + intros u (c & -> & Hc')%list_elem_of_fmap. apply list_elem_of_In, filter_In in Hc' as [Hs Ht]. apply Hl.
      unfold address_taken in Ht. rewrite !andb_true_iff, String.eqb_eq in Ht. exists c. rewrite list_elem_of_In. naive_solver.
    + cbn. intros -> u (c & Hs & <- & Hk & Ht)%Hl. apply list_elem_of_fmap. exists c. split; [done|].
      apply list_elem_of_In, filter_In. split; [by apply list_elem_of_In|]. by apply address_taken_any.
Qed.

(** On the run of [Collect]: [main]'s address is taken, and the one indirect call of
    unknown type can reach it. *)
Lemma address_taken_served_witness :
  CallGraph.USR <$> (handleListAddressTakenFunctions (tools_of ex_index_tables) "" "").*1 = ["c:@F@main"] ∧
  ∃ r tus, handleResolveIndirectCall (λ _, None) (tools_of ex_index_tables) "/p" 1 = Ok r ∧
    Forall2 (λ art tu, parseTU (m_text ex_machine) (m_gunzip ex_machine) art = Ok tu) (BuildDir.Objects ex_prepared.2) tus ∧
    dump_takes (NewPathResolver (m_cwd ex_machine) (o_builddir ex_options) (o_project_root ex_options)) tus "c:@F@main" ∧
    ["c:@F@main"] ⊆ (CallGraph.USR ∘ rc_Symbol <$> ri_Candidates r).
Proof.
  split; [vm_compute; reflexivity|].
  destruct (address_taken_served _ _ _ _ _ _ _ (λ _, None) "/p" ex_passes_ok) as (tus & Ht & Hs & _ & Hr).
  eexists _, tus. split; [vm_compute; reflexivity|]. split; [exact Ht|]. split.
  - apply Hs. vm_compute. left.
  - destruct (Hr 1%Z _ ltac:(vm_compute; reflexivity)) as [_ H]. intros u Hu. apply H; [reflexivity|]. vm_compute. exact Hu.
Defined.
