(* ===== verification/DumpCalls.v ===== *)
(** * What the tools say of the calls in the compiler's dumps

    The rows of the call-graph tables of a collected index, unit by unit of the
    build, and the answers of [list_callers], [list_call_paths] and [explain_call]
    over them. *)

From S2P Require Import Prelude GoStrings Cgraph OptRecord Paths Store Meson Ingest Link CallGraph Inlining.
From S2P Require Import DwarfIngest SourceTools SymbolTools Collect EndToEnd Tools LinkedCalls.
From Stdlib Require Import ZArith Lia.

(** A call that the dump of some unit records as inlined. *)
Definition dump_inlined (pr : Resolver.PathResolver) (tus : list tuData) (u v : string) : Prop :=
  ∃ tu res cg c, tu ∈ tus ∧ (aggregate_all pr tus).2 !! tu_object tu = Some res ∧ tu_cgraph tu = Some cg ∧
    c ∈ tu_calls cg ∧ c.2 = true ∧ resolve_pair res c.1.1 c.1.2 = Some (u, v).

(** An optimization record of a unit about the two, found by their local ids. *)
Definition dump_record (pr : Resolver.PathResolver) (tus : list tuData) (u v : string) (tu : tuData) (r : InlineRecord) : Prop :=
  ∃ res rs, tu ∈ tus ∧ (aggregate_all pr tus).2 !! tu_object tu = Some res ∧ tu_optRec tu = Some rs ∧ r ∈ rs ∧
    default "" (res !! CallerLocalID r) = u ∧ default "" (res !! CalleeLocalID r) = v.

(** ** The compiler's tables, unit by unit *)

Section units.
Context (pr : Resolver.PathResolver) (root : string) (tus : list tuData) (ct : compiler_tables).
Context (Hrun : ingest_tus pr root tus = Ok ct).

Lemma ids_unique u u' x : st_ids (ct_symbols ct) !! u = Some x → st_ids (ct_symbols ct) !! u' = Some x → u = u'.
Proof.
  pose proof (ingest_intact _ _ _ _ Hrun) as [Hrows _ _ _ _ _ _].
  intros (r1 & H1 & <- & E1)%(rows_ids _ Hrows) (r2 & H2 & <- & E2)%(rows_ids _ Hrows).
  apply list_elem_of_lookup in H1 as [n1 H1], H2 as [n2 H2].
  pose proof (rows_numbered _ Hrows _ _ H1). pose proof (rows_numbered _ Hrows _ _ H2). assert (n1 = n2) as -> by lia. congruence.
Qed.

Lemma unit_decisions u v x y :
  st_ids (ct_symbols ct) !! u = Some x → st_ids (ct_symbols ct) !! v = Some y →
  ∃ yes, (yes = true ↔ dump_inlined pr tus u v) ∧
    ∀ b, InlineDecisionRow x y b ∈ ct_inline_decisions ct ↔ dump_call pr tus u v ∧ b = yes.
Proof.
  intros Hu Hv. setoid_rewrite <-(ingest_calls _ _ _ _ _ _ _ _ Hrun Hu Hv). pose proof ids_unique as Hinj. revert Hrun Hu Hv Hinj.
  unfold ingest_tus, dump_inlined. destruct (aggregate_all pr tus) as [symbols resolves]. cbn [fst snd].
  destruct (insertICFGroups _ _ _ _) as [icf|]; [|done]. intros [= <-]. cbn [ct_symbols ct_edges ct_inline_decisions].
  intros Hu Hv Hinj. rewrite insertEdges_tus, insertDecisions_spec. cbn [fst]. set (ids := st_ids _) in *. set (evs := all_edges _ _ _).
  destruct (insert_edges_inv evs) as (_ & _ & Hin & Hflag).
  assert (∀ b, InlineDecisionRow x y b ∈ (λ kv, InlineDecisionRow kv.1.1 kv.1.2 kv.2) <$>
      map_to_list (ea_flag (foldl insert_edge (EdgeAccum [] ∅ ∅ 0) evs)) ↔
    ea_flag (foldl insert_edge (EdgeAccum [] ∅ ∅ 0) evs) !! (x, y) = Some b) as Hrows.
  { intros b. rewrite list_elem_of_fmap, <-elem_of_map_to_list. split; [by intros ([[? ?] ?] & [= -> -> ->] & ?)|]. intros H. by exists ((x, y), b). }
  exists (existsb (λ e, bool_decide (e.1 = (x, y)) && e.2) evs). split.
  2: { intros b. rewrite Hrows, Hflag, Hin. destruct (decide ((x, y) ∈ evs.*1)); naive_solver. }
  enough (existsb (λ e, bool_decide (e.1 = (x, y)) && e.2) evs = true ↔ ∃ tu res cg c, tu ∈ tus ∧ resolves !! tu_object tu = Some res ∧
    tu_cgraph tu = Some cg ∧ c ∈ tu_calls cg ∧ c.2 = true ∧ resolve_pair res c.1.1 c.1.2 = Some (u, v)) as H by exact H.
  rewrite existsb_exists. split.
  - intros ([k yes] & He & [E%bool_decide_eq_true Hy]%andb_true_iff). cbn in E, Hy. subst k yes.
    apply list_elem_of_In, elem_of_all_edges in He as (tu & res & cg & c & H1 & H2 & H3 & H4 & H5 & (u' & v' & Hp & Eu & Ev)%resolve_ids_pair).
    exists tu, res, cg, c. do 5 (split; [done|]). by rewrite (Hinj _ _ _ Hu Eu), (Hinj _ _ _ Hv Ev).
  - intros (tu & res & cg & c & H1 & H2 & H3 & H4 & H5 & H6). exists ((x, y), true).
    rewrite bool_decide_true by done. split; [|done]. apply list_elem_of_In, elem_of_all_edges. exists tu, res, cg, c.
    do 5 (split; [done|]). apply resolve_ids_pair. by exists u, v.
Qed.

(** What a record of a unit becomes. *)
Definition record_values (tu : tuData) (r : InlineRecord) : string * bool * string * string :=
  (Pass r, Inlined r, Reason r, obj_rel root (tu_object tu)).

Lemma unit_records u v x y vals :
  st_ids (ct_symbols ct) !! u = Some x → st_ids (ct_symbols ct) !! v = Some y →
  ((∃ row, row ∈ ct_inline_records ct ∧ ir_caller row = x ∧ ir_callee row = y ∧
      (ir_pass row, ir_inlined row, ir_reason row, ir_object row) = vals) ↔
   ∃ tu r, dump_record pr tus u v tu r ∧ record_values tu r = vals).
Proof.
  intros Hu Hv. pose proof ids_unique as Hinj. revert Hrun Hu Hv Hinj. unfold ingest_tus, dump_record.
  destruct (aggregate_all pr tus) as [symbols resolves]. cbn [fst snd].
  destruct (insertICFGroups _ _ _ _) as [icf|]; [|done]. intros [= <-]. cbn [ct_symbols ct_inline_records].
  intros Hu Hv Hinj. set (ids := st_ids _) in *. rewrite insertInlineRecords_rows. split.
  - intros (row & (tu & Hrow & Htu)%list_elem_of_bind & Hx & Hy & <-).
    destruct (tu_optRec tu) as [rs|] eqn:Eo; [|by apply elem_of_nil in Hrow].
    destruct (resolves !! tu_object tu) as [res|] eqn:Er; [|by apply elem_of_nil in Hrow].
    apply list_elem_of_omap in Hrow as (r & Hr & Hrow). unfold inline_record in Hrow.
    destruct (ids !! default "" (res !! CallerLocalID r)) as [x'|] eqn:Ex; [|done]. cbn [mbind option_bind] in Hrow.
    destruct (ids !! default "" (res !! CalleeLocalID r)) as [y'|] eqn:Ey; [|done]. injection Hrow as <-. cbn in Hx, Hy. subst x' y'.
    exists tu, r. split; [|done]. exists res, rs. do 4 (split; [done|]). split; by eapply Hinj.
  - intros (tu & r & (res & rs & Htu & Er & Eo & Hr & E1 & E2) & <-).
    eexists (Store.InlineRecordRow x y (Pass r) (Inlined r) (Reason r) _ (OptRecord.Line r) (OptRecord.Column r) (obj_rel root (tu_object tu))).
    split; [|done]. apply list_elem_of_bind. exists tu. split; [|done]. rewrite Eo, Er. apply list_elem_of_omap.
    exists r. split; [done|]. unfold inline_record. by rewrite E1, E2, Hu, Hv.
Qed.
End units.

(** The paths of an answer, by identity. *)
Definition answered_paths (resp : ListCallPathsResponse) : list (list string) :=
  (λ x : Z * list SymbolRef, CallGraph.USR <$> x.2) <$> CallGraph.Paths resp.

Section run.
Context (m : machine) (Version : string) (o : options) (globs : list ExternalGlob.ExternalGlob).
Context (intro : Introspection) (bd : BuildDir.BuildDir) (i : index_tables) (tus : list tuData).
Let pr := Resolver.NewPathResolver (m_cwd m) (o_builddir o) (o_project_root o).
Context (Hmade : made m Version o globs intro bd i).
Context (Hrun : ingest_tus pr (BuildDir.Root bd) tus = Ok (xt_compiler i)).

Lemma row_id s : s ∈ dt_symbols (xt_dwarf i) → st_ids (ct_symbols (xt_compiler i)) !! s_usr s = Some (s_id s).
Proof. intros Hs. apply (made_ids _ _ _ _ _ _ _ _ _ Hmade). by exists s. Qed.

Lemma id_row v j : st_ids (ct_symbols (xt_compiler i)) !! v = Some j → ∃ s, s ∈ dt_symbols (xt_dwarf i) ∧ s_usr s = v ∧ s_id s = j.
Proof. apply (made_ids _ _ _ _ _ _ _ _ _ Hmade). Qed.

Lemma row_calls s t :
  s ∈ dt_symbols (xt_dwarf i) → t ∈ dt_symbols (xt_dwarf i) →
  ((s_id s, s_id t) ∈ ct_edges (xt_compiler i) ↔ dump_call pr tus (s_usr s) (s_usr t)).
Proof. intros Hs Ht. apply (ingest_calls pr (BuildDir.Root bd)); [exact Hrun|by apply row_id..]. Qed.

(** Both ends of a recorded call have rows, which are the ends of an edge. *)
Lemma call_rows u v :
  dump_call pr tus u v →
  ∃ s t, s ∈ dt_symbols (xt_dwarf i) ∧ t ∈ dt_symbols (xt_dwarf i) ∧ s_usr s = u ∧ s_usr t = v.
Proof.
  intros Hc. destruct (dump_call_ids _ _ _ _ _ _ Hrun Hc) as [[a Ha] [b Hb]].
  apply id_row in Ha as (s & ? & ? & _), Hb as (t & ? & ? & _). by exists s, t.
Qed.

(** The compiler's edges among those of the index. *)
Lemma graph_calls x y :
  (∃ e, e ∈ ix_edges (graph_of i) ∧ e_source e = "compiler_cgraph" ∧ e_caller e = x ∧ e_callee e = y) ↔
  (x, y) ∈ ct_edges (xt_compiler i).
Proof.
  pose proof (Link_linked _ _ _ _ _ _ _ _ _ (mk_targets _ _ _ _ _ _ _ Hmade) (mk_link _ _ _ _ _ _ _ Hmade)) as [_ Hle _].
  split.
  - intros (e & [([a b] & -> & Hab)%list_elem_of_fmap|He]%elem_of_app & Hsrc & <- & <-); [exact Hab|].
    apply Hle in He as (_ & _ & He & _). congruence.
  - intros Hxy. exists (EdgeRow x y "compiler_cgraph" None). split; [|done]. apply elem_of_app. left.
    apply list_elem_of_fmap. by exists (x, y).
Qed.

Lemma edge_row e x y :
  e ∈ ix_edges (graph_of i) → e_caller e = x → e_callee e = y →
  ∃ s t, s ∈ dt_symbols (xt_dwarf i) ∧ t ∈ dt_symbols (xt_dwarf i) ∧ s_id s = x ∧ s_id t = y.
Proof.
  intros He <- <-. destruct (fk_edges _ (made_intact _ _ _ _ _ _ _ Hmade) e He) as (Hx & Hy & _).
  apply list_elem_of_fmap in Hx as (s & -> & Hs), Hy as (t & -> & Ht). by exists s, t.
Qed.

(** ** Callers and callees *)

Lemma neighbors_rows near far usr l :
  neighbors (graph_of i) near far usr "" = Ok (l, false) →
  ∀ v, v ∈ CallGraph.USR <$> l.*1 ↔ ∃ e s t, e ∈ ix_edges (graph_of i) ∧ e_source e = "compiler_cgraph" ∧
    s ∈ dt_symbols (xt_dwarf i) ∧ t ∈ dt_symbols (xt_dwarf i) ∧ near e = s_id s ∧ far e = s_id t ∧ s_usr s = usr ∧ s_usr t = v.
Proof.
  pose proof (made_keyed _ _ _ _ _ _ _ Hmade) as Hk.
  intros (x & (s & Hs & <- & <-)%(symbolIDByUSR_Ok (graph_of i)) & Hin)%neighbors_ids v.
  rewrite list_elem_of_fmap. setoid_rewrite Hin. setoid_rewrite elem_of_neighbor_query. unfold cgraph_edge.
  setoid_rewrite andb_true_iff. setoid_rewrite Z.eqb_eq. setoid_rewrite String.eqb_eq. split.
  - intros (r & -> & e & t & He & [Hn Hsrc] & Ht & Hf & _ & ->). by exists e, s, t.
  - intros (e & s' & t & He & Hsrc & Hs' & Ht & Hn & Hf & E & <-).
    assert (s' = s) as -> by (by apply (symbol_by_usr (graph_of i))).
    exists (ref_of t). split; [done|]. exists e, t. split_and!; done.
Qed.

Lemma callees_exact u l :
  handleListCallees (graph_of i) u "" = Ok (l, false) → ∀ v, v ∈ CallGraph.USR <$> l.*1 ↔ dump_call pr tus u v.
Proof.
  intros Hl v. rewrite (neighbors_rows _ _ _ _ Hl). split.
  - intros (e & s & t & He & Hsrc & Hs & Ht & Hn & Hf & <- & <-). apply row_calls; [done..|]. apply graph_calls. by exists e.
  - intros Hc. destruct (call_rows u v Hc) as (s & t & Hs & Ht & <- & <-).
    apply row_calls, graph_calls in Hc as (e & He & Hsrc & Hn & Hf); [|done..]. by exists e, s, t.
Qed.

Lemma callers_exact v l :
  handleListCallers (graph_of i) v "" = Ok (l, false) → ∀ u, u ∈ CallGraph.USR <$> l.*1 ↔ dump_call pr tus u v.
Proof.
  intros Hl u. rewrite (neighbors_rows _ _ _ _ Hl). split.
  - intros (e & s & t & He & Hsrc & Hs & Ht & Hn & Hf & <- & <-). apply row_calls; [done..|]. apply graph_calls. by exists e.
  - intros Hc. destruct (call_rows u v Hc) as (s & t & Hs & Ht & <- & <-).
    apply row_calls, graph_calls in Hc as (e & He & Hsrc & Hn & Hf); [|done..]. by exists e, t, s.
Qed.

(** ** Paths *)

(** A call within what the answer is restricted to. *)
Definition call_within (target u v : string) : Prop :=
  dump_call pr tus u v ∧
  (target ≠ "" → ∀ w, w ∈ [u; v] → ∃ s, s ∈ dt_symbols (xt_dwarf i) ∧ s_usr s = w ∧ reachable_in (graph_of i) s target = true).

(** The identity of a row. *)
Definition usr_at (x : Z) : string := default "" (s_usr <$> List.find (λ s, (s_id s =? x)%Z) (dt_symbols (xt_dwarf i))).
Definition is_row (x : Z) : Prop := ∃ s, s ∈ dt_symbols (xt_dwarf i) ∧ s_id s = x.

Lemma usr_at_row s : s ∈ dt_symbols (xt_dwarf i) → usr_at (s_id s) = s_usr s.
Proof.
  pose proof (made_keyed _ _ _ _ _ _ _ Hmade) as Hk. intros Hs. unfold usr_at.
  destruct (List.find _ _) as [t|] eqn:E.
  - apply List.find_some in E as [Ht Hid%Z.eqb_eq]. cbn. f_equal.
    apply (symbol_by_id (graph_of i)); [by apply list_elem_of_In|exact Hs|done].
  - apply list_elem_of_In in Hs. apply (List.find_none _ _ E) in Hs. by rewrite Z.eqb_refl in Hs.
Qed.

Lemma usr_at_inj x y : is_row x → is_row y → usr_at x = usr_at y → x = y.
Proof.
  pose proof (made_keyed _ _ _ _ _ _ _ Hmade) as Hk.
  intros (s & Hs & <-) (t & Ht & <-). rewrite !usr_at_row by done. intros E. f_equal. by apply (symbol_by_usr (graph_of i)).
Qed.

Lemma call_edge_within target x y :
  is_row x → is_row y → (call_edge (graph_of i) target x y ↔ call_within target (usr_at x) (usr_at y)).
Proof.
  pose proof (made_keyed _ _ _ _ _ _ _ Hmade) as Hk.
  intros (s & Hs & <-) (t & Ht & <-). rewrite !usr_at_row by done. unfold call_edge, call_within.
  rewrite graph_calls, row_calls by done. apply and_iff_compat_l.
  assert (∀ z, z ∈ dt_symbols (xt_dwarf i) →
    (∃ a, a ∈ ix_symbols (graph_of i) ∧ s_id a = s_id z ∧ reachable_in (graph_of i) a target = true) ↔
    (∃ a, a ∈ dt_symbols (xt_dwarf i) ∧ s_usr a = s_usr z ∧ reachable_in (graph_of i) a target = true)) as Hz.
  { intros z Hz. split; intros (a & Ha & E & Hr); exists a; (split; [done|]); (split; [|done]); f_equal.
    - by apply (symbol_by_id (graph_of i)).
    - by apply (symbol_by_usr (graph_of i)). }
  split; intros H Hne w [->|[->|[]%elem_of_nil]%elem_of_cons]%elem_of_cons; apply Hz; try done; apply H; set_solver.
Qed.

(** The symbols of a path of ids, as [list_call_paths] shows them. *)
Lemma shown_usr target x y :
  call_edge (graph_of i) target x y ∨ call_edge (graph_of i) target y x →
  is_row x ∧ CallGraph.USR (default (MkSymbolRef "" "" "" "") (path_symbols (graph_of i) target !! x)) = usr_at x.
Proof.
  pose proof (made_keyed _ _ _ _ _ _ _ Hmade) as Hk. intros He.
  assert (∃ s, s ∈ dt_symbols (xt_dwarf i) ∧ s_id s = x ∧ in_target (graph_of i) target s = true) as (s & Hs & <- & Hin).
  { assert ((∃ s, s ∈ dt_symbols (xt_dwarf i) ∧ s_id s = x) ∧ (target ≠ "" → ∃ s, s ∈ dt_symbols (xt_dwarf i) ∧ s_id s = x ∧
      reachable_in (graph_of i) s target = true)) as [(s & Hs & Hx) Hr].
    { destruct He as [[(e & He & _ & Hx & Hy) Ht]|[(e & He & _ & Hy & Hx) Ht]];
        destruct (edge_row e _ _ He eq_refl eq_refl) as (s & t & Hs & Ht' & E1 & E2);
        (split; [|intros Hne; apply Ht; [done|set_solver]]); [exists s|exists t]; by rewrite ?E1, ?E2. }
    unfold in_target. destruct (String.eqb_spec target "") as [|Hne]; [by exists s|].
    destruct (Hr Hne) as (s' & Hs' & Hx' & Hr'). exists s'. by rewrite Hr'. }
  split; [by exists s|]. rewrite usr_at_row by done.
  destruct (path_symbols (graph_of i) target !! s_id s) as [ref|] eqn:E.
  2: { exfalso. apply eq_None_not_Some in E. apply E, path_symbols_dom. by exists s. }
  cbn. unfold path_symbols in E. apply elem_of_list_to_map_2 in E.
  apply list_elem_of_fmap in E as (t & [= Hid ->] & Ht). rewrite elem_of_reverse, list_elem_of_In in Ht.
  apply filter_In in Ht as [Ht _]. apply list_elem_of_In in Ht.
  cbn. f_equal. apply (symbol_by_id (graph_of i)); [exact Ht|exact Hs|done].
Qed.
Lemma path_shown target a b d q :
  a ≠ b → simple_path (call_edge (graph_of i) target) a b d q →
  Forall is_row q ∧
  (λ x, CallGraph.USR (default (MkSymbolRef "" "" "" "") (path_symbols (graph_of i) target !! x))) <$> q = usr_at <$> q.
Proof.
  intros Hne Hq. assert (∀ x, x ∈ q → is_row x ∧
    CallGraph.USR (default (MkSymbolRef "" "" "" "") (path_symbols (graph_of i) target !! x)) = usr_at x) as H.
  { intros x (y & Hy)%(simple_path_step _ _ _ _ _ _ Hne Hq). by apply (shown_usr target x y). }
  clear Hq. induction q as [|x q IH]; [by split; [constructor|]|].
  destruct IH as [H1 H2]; [intros y Hy; apply H; by right|]. destruct (H x) as [Hx E]; [left|].
  split; [by constructor|]. by rewrite !fmap_cons, H2, E.
Qed.

Lemma paths_exact from to depth target resp :
  from ≠ to → handleListCallPaths (graph_of i) from to depth target = Ok resp → Truncated resp = false →
  ∀ p, p ∈ answered_paths resp ↔
       simple_path (call_within target) from to (Z.to_nat (path_depth depth)) p.
Proof.
  pose proof (made_keyed _ _ _ _ _ _ _ Hmade) as Hk. intros Hne Hresp Htr.
  assert (∃ s t, s ∈ dt_symbols (xt_dwarf i) ∧ t ∈ dt_symbols (xt_dwarf i) ∧ s_usr s = from ∧ s_usr t = to ∧
    symbolIDByUSR (graph_of i) from = Ok (s_id s) ∧ symbolIDByUSR (graph_of i) to = Ok (s_id t))
    as (s & t & Hs & Ht & <- & <- & Ea & Eb).
  { unfold handleListCallPaths in Hresp. destruct (symbolIDByUSR (graph_of i) from) as [a|] eqn:Ea; [|done].
    cbn [mbind result_bind] in Hresp. destruct (symbolIDByUSR (graph_of i) to) as [b|] eqn:Eb; [|done].
    apply (symbolIDByUSR_Ok (graph_of i)) in Ea as (s & Hs & <- & <-), Eb as (t & Ht & <- & <-). by exists s, t. }
  assert (s_id s ≠ s_id t) as Hid by (intros E; apply Hne; f_equal; by apply (symbol_by_id (graph_of i))).
  destruct (list_call_paths_answer _ _ _ depth target _ _ Ea Eb Hid) as (full & resp' & Hr & _ & Hf & Hp & Ht').
  rewrite Hresp in Hr. injection Hr as <-. rewrite Htr in Ht'. symmetry in Ht'. apply Nat.ltb_ge in Ht'.
  unfold answered_paths. rewrite Hp, take_ge, <-list_fmap_compose by done. set (d := Z.to_nat _) in *.
  pose proof (λ q Hq, path_shown target _ _ d q Hid Hq) as Hshown.
  assert (∀ q, Forall is_row q → (simple_path (call_edge (graph_of i) target) (s_id s) (s_id t) d q ↔
    simple_path (call_within target) (s_usr s) (s_usr t) d (usr_at <$> q))) as Hmap.
  { intros q Hq. rewrite <-(usr_at_row s Hs), <-(usr_at_row t Ht).
    apply (simple_path_fmap usr_at _ _ is_row); [apply usr_at_inj|apply call_edge_within|exact Hq|by exists s|by exists t]. }
  intros p. rewrite list_elem_of_fmap. cbn [compose]. setoid_rewrite <-list_fmap_compose. cbn [compose snd]. split.
  - intros (q & -> & Hq%Hf). destruct (Hshown q Hq) as [Hrows E]. apply Hmap in Hq; [|exact Hrows]. by rewrite <-E in Hq.
  - intros Hpath. destruct (simple_path_lift usr_at (call_within target) is_row (s_usr s) (s_usr t) d p) as (q & Hq & ->); [|exact Hne|exact Hpath|].
    { intros x y [(a & b & Ha & Hb & <- & <-)%call_rows _]. exists (s_id a), (s_id b).
      rewrite !usr_at_row by done. split; [by exists a|]. by split; [by exists b|]. }
    apply Hmap in Hpath; [|exact Hq]. exists q. destruct (Hshown q Hpath) as [_ E]. split; [by rewrite <-E|]. by apply Hf.
Qed.

(** ** One call explained *)

(** The recorded decision about the two symbols. *)
Lemma decision_rows s t :
  s ∈ dt_symbols (xt_dwarf i) → t ∈ dt_symbols (xt_dwarf i) →
  let ds := List.filter (λ d, (id_caller d =? s_id s)%Z && (id_callee d =? s_id t)%Z) (ct_inline_decisions (xt_compiler i)) in
  let answer := match ds with [] => None | _ => Some (existsb id_inlined ds) end in
  (answer = None ↔ ¬ dump_call pr tus (s_usr s) (s_usr t)) ∧
  ∀ b, answer = Some b → (b = true ↔ dump_inlined pr tus (s_usr s) (s_usr t)).
Proof.
  intros Hs Ht ds answer.
  destruct (unit_decisions _ _ _ _ Hrun _ _ _ _ (row_id s Hs) (row_id t Ht)) as (yes & Hyes & Hall).
  assert (∀ b, InlineDecisionRow (s_id s) (s_id t) b ∈ ds ↔ dump_call pr tus (s_usr s) (s_usr t) ∧ b = yes) as Hd.
  { intros b. rewrite <-Hall. subst ds. rewrite list_elem_of_In, filter_In, <-list_elem_of_In. cbn. rewrite !Z.eqb_refl. naive_solver. }
  assert (∀ d, d ∈ ds → d = InlineDecisionRow (s_id s) (s_id t) (id_inlined d)) as Hids.
  { intros [x y b] [_ [Hx%Z.eqb_eq Hy%Z.eqb_eq]%andb_true_iff]%list_elem_of_In%filter_In. cbn in *. congruence. }
  subst answer. setoid_rewrite <-Hyes. destruct ds as [|d ds'].
  - split; [|done]. split; [intros _ Hc|done]. by apply (elem_of_nil (InlineDecisionRow (s_id s) (s_id t) yes)), Hd.
  - assert (∀ d', d' ∈ d :: ds' → dump_call pr tus (s_usr s) (s_usr t) ∧ id_inlined d' = yes) as Hall'.
    { intros d' Hd'. apply Hd. by rewrite <-(Hids _ Hd'). }
    destruct (Hall' d) as [Hc Hy]; [left|]. split; [split; [done|intros Hn; by destruct (Hn Hc)]|].
    intros b Eb. assert (b = existsb id_inlined (d :: ds')) as -> by congruence.
    rewrite existsb_exists. setoid_rewrite <-list_elem_of_In. split.
    + intros (d' & [_ <-]%Hall' & H). exact H.
    + intros H. exists d. split; [left|congruence].
Qed.

(** The linked call, of one target or of any. *)
Lemma linked_rows dbn s t target :
  (∀ e, e ∈ lt_edges (xt_link i) ↔ ∃ tg tid k, tg ∈ Meson.IntroTargets intro ∧ tt_ids (xt_targets i) !! Meson.Name tg = Some tid ∧
     linked_call (m_link m) (ct_object_to_source (xt_compiler i)) (indexMapFiles bd) dbn (symbol_usrs i) (symbol_names i) tg k ∧
     e = EdgeRow k.1 k.2 "objdump" (Some tid)) →
  s ∈ dt_symbols (xt_dwarf i) → t ∈ dt_symbols (xt_dwarf i) →
  existsb (λ e, (e_caller e =? s_id s)%Z && (e_callee e =? s_id t)%Z && String.eqb (e_source e) "objdump" &&
    (String.eqb target "" || match List.find (λ r, String.eqb (t_name r) target) (ix_targets (graph_of i)) with
                             | Some r => bool_decide (e_target e = Some (t_id r)) | None => false end))
    (ix_edges (graph_of i)) = true ↔
  ∃ tg, tg ∈ Meson.IntroTargets intro ∧ (target = "" ∨ Meson.Name tg = target) ∧ code_call m i bd dbn tg (s_usr s) (s_usr t).
Proof.
  pose proof (made_keyed _ _ _ _ _ _ _ Hmade) as Hk. pose proof (λ n x, made_target_ids _ _ _ _ _ _ _ n x Hmade) as Htid.
  pose proof (made_target_names _ _ _ _ _ _ _ Hmade) as Hnames.
  intros He Hs Ht. rewrite existsb_exists. setoid_rewrite <-list_elem_of_In.
  set (row := List.find _ _). assert (∀ x, t_id <$> row = Some x ↔ targetIDByName (graph_of i) target = Ok x) as Hrow.
  { intros x. unfold targetIDByName. fold row. by destruct row; cbn; split; intros [= ->]. }
  clearbody row.
  split.
  - intros (e & Hin & [[[Hx%Z.eqb_eq Hy%Z.eqb_eq]%andb_true_iff Hsrc%String.eqb_eq]%andb_true_iff Htg]%andb_true_iff).
    apply elem_of_app in Hin as [(k & -> & _)%list_elem_of_fmap|Hin]; [done|].
    apply He in Hin as (tg & tid & [x y] & Hint & Hid & Hc & ->). cbn in Hx, Hy, Htg. subst x y. exists tg. split; [done|]. split.
    + apply orb_true_iff in Htg as [Htg%String.eqb_eq|Htg]; [by left|right].
      assert (targetIDByName (graph_of i) target = Ok tid) as Et.
      { apply Hrow. destruct row; [|done]. apply bool_decide_eq_true in Htg. cbn. by injection Htg as ->. }
      apply Htid, (targetIDByName_Ok (graph_of i)) in Hid as (r1 & Hr1 & <- & E1).
      apply (targetIDByName_Ok (graph_of i)) in Et as (r2 & Hr2 & <- & E2). f_equal.
      apply (target_by_id (graph_of i)); [done..|congruence].
    + by apply (linked_code_call m i bd dbn tg (s_id s) (s_id t) s t).
  - intros (tg & Hint & Htg & Hc).
    assert (∃ tid, targetIDByName (graph_of i) (Meson.Name tg) = Ok tid) as [tid Et].
    { apply (list_elem_of_fmap_2 Meson.Name) in Hint as Hn. rewrite <-Hnames in Hn. apply list_elem_of_fmap in Hn as (r & E & Hr).
      exists (t_id r). apply (targetIDByName_Ok (graph_of i)). by exists r. }
    exists (EdgeRow (s_id s) (s_id t) "objdump" (Some tid)). split.
    + apply elem_of_app. right. apply He. exists tg, tid, (s_id s, s_id t). split; [done|]. split; [by apply Htid|]. split; [|done].
      by apply (linked_code_call m i bd dbn tg (s_id s) (s_id t) s t).
    + cbn. rewrite !Z.eqb_refl. cbn. apply orb_true_iff. destruct Htg as [->|<-]; [by left|right].
      apply Hrow in Et. destruct row as [r|]; [|done]. injection Et as ->. by apply bool_decide_eq_true.
Qed.

(** The records about the two, as they are shown. *)
Definition shown_record (r : InlineRecordRow) : string * bool * string * string :=
  (rr_Pass r, rr_Inlined r, rr_Reason r, rr_Object r).

Lemma sym_row s : s ∈ dt_symbols (xt_dwarf i) → sym (inlining_of i) (s_id s) = Some s.
Proof.
  pose proof (made_keyed _ _ _ _ _ _ _ Hmade) as Hk. intros Hs. unfold sym. destruct (List.find _ _) as [t|] eqn:E.
  - apply List.find_some in E as [Ht Hid%Z.eqb_eq]. f_equal.
    apply (symbol_by_id (graph_of i)); [by apply list_elem_of_In|exact Hs|done].
  - apply list_elem_of_In in Hs. apply (List.find_none _ _ E) in Hs. by rewrite Z.eqb_refl in Hs.
Qed.

Lemma record_rows unzstd root s t :
  s ∈ dt_symbols (xt_dwarf i) → t ∈ dt_symbols (xt_dwarf i) →
  let about r := (ir_caller r =? s_id s)%Z && (ir_callee r =? s_id t)%Z in
  ∀ vals, vals ∈ shown_record <$> omap (record_row unzstd (inlining_of i) root false) (List.filter about (ct_inline_records (xt_compiler i))) ↔
    ∃ tu r, dump_record pr tus (s_usr s) (s_usr t) tu r ∧ record_values (BuildDir.Root bd) tu r = vals.
Proof.
  intros Hs Ht about vals. rewrite <-(unit_records _ _ _ _ Hrun _ _ _ _ vals (row_id s Hs) (row_id t Ht)).
  rewrite list_elem_of_fmap. setoid_rewrite list_elem_of_omap. setoid_rewrite list_elem_of_In. setoid_rewrite filter_In.
  setoid_rewrite <-list_elem_of_In. unfold about. setoid_rewrite andb_true_iff. setoid_rewrite Z.eqb_eq. split.
  - intros (a & -> & row & (Hin & Hx & Hy) & Hr). exists row. split; [done|]. split; [done|]. split; [done|].
    unfold record_row in Hr. rewrite Hx, Hy, (sym_row s Hs), (sym_row t Ht) in Hr. by injection Hr as <-.
  - intros (row & Hin & Hx & Hy & <-).
    eexists. split; [|exists row; split; [done|unfold record_row; rewrite Hx, Hy, (sym_row s Hs), (sym_row t Ht); reflexivity]]. done.
Qed.
End run.

(** ** Properties *)

Lemma cut_fst {A} n (l : list A) : (cut n l).1 = take n l.
Proof.
  unfold cut. cbn zeta. cbn [fst]. rewrite length_take. destruct (Nat.ltb_spec n ((n + 1) `min` length l)) as [H|H].
  - rewrite take_take. by rewrite Nat.min_l by lia.
  - rewrite !take_ge; [done|lia..].
Qed.

(** What an answer shows of its records does not depend on the snippets. *)
Lemma explain_records unzstd ix root u v target limit snippets resp :
  handleExplainCall unzstd ix root u v target limit snippets = Ok resp →
  ∃ a b, symbolIDByUSR (in_index ix) u = Ok a ∧ symbolIDByUSR (in_index ix) v = Ok b ∧
    let rows := shown_record <$> omap (record_row unzstd ix root false)
      (List.filter (λ r, (ir_caller r =? a)%Z && (ir_callee r =? b)%Z) (in_records ix)) in
    shown_record <$> ec_Records resp ⊆ rows ∧
    (ec_Truncated resp = false → length (ec_Records resp) < N.to_nat verdictScanLimit → rows ⊆ shown_record <$> ec_Records resp).
Proof.
  unfold handleExplainCall. destruct (symbolIDByUSR (in_index ix) u) as [a|]; [|done]. cbn [mbind result_bind].
  destruct (symbolIDByUSR (in_index ix) v) as [b|]; [|done]. cbn [mbind result_bind].
  destruct (overallVerdict _). intros [= <-]. exists a, b. split; [done|]. split; [done|].
  cbn [ec_Records ec_Truncated]. unfold pair_records, inlineRecords. cbn [q_limit q_snippets].
  rewrite cut_fst. set (ordered := order_by _ _). set (n := N.to_nat verdictScanLimit). set (lim := query_limit limit).
  assert (∀ (l : list InlineRecordRow), shown_record <$> (if snippets then enrich_record unzstd ix root <$> l else l) = shown_record <$> l) as He.
  { intros l. destruct snippets; [|done]. by rewrite <-list_fmap_compose. }
  assert (length (if snippets then enrich_record unzstd ix root <$> (if lim <? length (take n ordered) then take lim (take n ordered) else take n ordered)
    else (if lim <? length (take n ordered) then take lim (take n ordered) else take n ordered)) =
    length (if lim <? length (take n ordered) then take lim (take n ordered) else take n ordered)) as ->
    by (destruct snippets; [apply length_fmap|done]).
  rewrite He. assert (∀ x, x ∈ ordered ↔ x ∈ omap (record_row unzstd ix root false)
    (List.filter (λ r, (ir_caller r =? a)%Z && (ir_callee r =? b)%Z) (in_records ix))) as Hord.
  { intros x. subst ordered. by rewrite order_by_perm. }
  split.
  - intros x (r & -> & Hr)%list_elem_of_fmap. apply list_elem_of_fmap_2, Hord.
    destruct (lim <? length _); [apply elem_of_take in Hr as (j & Hr & _); apply list_elem_of_lookup_2 in Hr|];
      apply elem_of_take in Hr as (k & Hr & _); by apply list_elem_of_lookup_2 in Hr.
  - intros [Hlim _]%orb_false_iff Hlen x (r & -> & Hr%Hord)%list_elem_of_fmap. rewrite Hlim in Hlen |- *.
    apply list_elem_of_fmap_2. rewrite length_take in Hlen. by rewrite take_ge by lia.
Qed.

(** C5: [list_call_paths] on a collected index: an answer that is not cut lists, between
    two different symbols, exactly the ways through the calls of the compiler's dumps
    that visit no symbol twice and have at most the allowed number of calls, within
    the target asked for. *)
Theorem list_call_paths_exact m Version o globs intro bd i from to depth target resp :
  passes m Version o globs intro bd = Val (Ok i) → from ≠ to →
  handleListCallPaths (graph_of i) from to depth target = Ok resp → Truncated resp = false →
  ∃ tus, Forall2 (λ art tu, parseTU (m_text m) (m_gunzip m) art = Ok tu) (BuildDir.Objects bd) tus ∧
    ∀ p, p ∈ answered_paths resp ↔ simple_path (call_within m o i tus target) from to (Z.to_nat (path_depth depth)) p.
Proof.
  intros Hm%passes_made Hne Hr Ht. destruct (made_units _ _ _ _ _ _ _ Hm) as (tus & Htus & Hrun).
  exists tus. split; [done|]. by apply (paths_exact m Version o globs intro bd i tus Hm Hrun).
Qed.

(** C4: [explain_call] on a collected index: the decision it reports is there exactly when
    some dump records the call, and says "inlined" exactly when some dump does; the
    call is reported as linked exactly when the code of a binary — of the target
    asked for, or of any — makes it; and the records shown are optimization records
    of the units about these two symbols, all of them when the answer is not cut. *)
Theorem explain_call_exact m Version o globs intro bd i unzstd root u v target limit snippets resp :
  passes m Version o globs intro bd = Val (Ok i) →
  handleExplainCall unzstd (inlining_of i) root u v target limit snippets = Ok resp →
  let pr := Resolver.NewPathResolver (m_cwd m) (o_builddir o) (o_project_root o) in
  ∃ tus dbn, Forall2 (λ art tu, parseTU (m_text m) (m_gunzip m) art = Ok tu) (BuildDir.Objects bd) tus ∧
    scanBuilddirObjectDefs (env_nm (m_link m)) bd = Some dbn ∧
    (ec_CgraphEdgeInlined resp = None ↔ ¬ dump_call pr tus u v) ∧
    (∀ b, ec_CgraphEdgeInlined resp = Some b → (b = true ↔ dump_inlined pr tus u v)) ∧
    (ec_LinkedEdge resp = true ↔ ∃ t, t ∈ Meson.IntroTargets intro ∧ (target = "" ∨ Meson.Name t = target) ∧
       code_call m i bd dbn t u v) ∧
    let recorded x := ∃ tu r, dump_record pr tus u v tu r ∧ record_values (BuildDir.Root bd) tu r = x in
    (∀ x, x ∈ shown_record <$> ec_Records resp → recorded x) ∧
    (ec_Truncated resp = false → length (ec_Records resp) < N.to_nat verdictScanLimit →
     ∀ x, recorded x → x ∈ shown_record <$> ec_Records resp).
Proof.
  intros Hm%passes_made Hresp pr. pose proof (made_keyed _ _ _ _ _ _ _ Hm) as Hk.
  destruct (made_units _ _ _ _ _ _ _ Hm) as (tus & Htus & Hrun).
  destruct (Link_rows_origin _ _ _ _ _ _ _ _ (mk_link _ _ _ _ _ _ _ Hm)) as (dbn & Hdbn & He & _). exists tus, dbn.
  split; [done|]. split; [done|].
  destruct (explain_records _ _ _ _ _ _ _ _ _ Hresp) as (a & b & Ea & Eb & Hsound & Hall).
  unfold handleExplainCall in Hresp. rewrite Ea, Eb in Hresp. cbn [mbind result_bind] in Hresp.
  destruct (overallVerdict _) as [verdict reason] in Hresp. apply (f_equal (λ r, match r with Ok r => (ec_CgraphEdgeInlined r, ec_LinkedEdge r) | Err _ => (None, false) end)) in Hresp.
  cbn [ec_CgraphEdgeInlined ec_LinkedEdge inlining_of in_index in_decisions] in Hresp. injection Hresp as <- <-.
  apply (symbolIDByUSR_Ok (graph_of i)) in Ea as (s & Hs & <- & <-), Eb as (t & Ht & <- & <-).
  destruct (decision_rows m Version o globs intro bd i tus Hm Hrun s t Hs Ht) as [H1 H2].
  split; [exact H1|]. split; [exact H2|].
  split; [exact (linked_rows m Version o globs intro bd i Hm dbn s t target He Hs Ht)|].
  pose proof (record_rows m Version o globs intro bd i tus Hm Hrun unzstd root s t Hs Ht) as Hrec. cbn zeta in Hrec |- *.
  split.
  - intros x Hx%Hsound. by apply Hrec.
  - intros Htr Hlen x Hx%Hrec. by apply Hall.
Qed.

(** On the run of [Collect]. *)
Lemma list_call_paths_exact_witness :
  ∃ resp tus, handleListCallPaths (graph_of ex_index_tables) "c:@F@main" "c:a.c@F@helper" 0 "" = Ok resp ∧
    Truncated resp = false ∧ answered_paths resp = [["c:@F@main"; "c:a.c@F@helper"]] ∧
    Forall2 (λ art tu, parseTU (m_text ex_machine) (m_gunzip ex_machine) art = Ok tu) (BuildDir.Objects ex_prepared.2) tus ∧
    simple_path (call_within ex_machine ex_options ex_index_tables tus "") "c:@F@main" "c:a.c@F@helper" 6
      ["c:@F@main"; "c:a.c@F@helper"].
Proof.
  edestruct (list_call_paths_exact ex_machine "dev" ex_options ex_prepared.1.1 ex_prepared.1.2 ex_prepared.2 ex_index_tables
    "c:@F@main" "c:a.c@F@helper" 0 "") as (tus & Htus & H); [vm_compute; reflexivity|discriminate|vm_compute; reflexivity|reflexivity|].
  eexists _, tus. split; [vm_compute; reflexivity|]. split; [reflexivity|]. split; [vm_compute; reflexivity|]. split; [exact Htus|].
  apply H. vm_compute. left.
Defined.

Lemma explain_call_exact_witness :
  ∃ resp tus, handleExplainCall (λ _, None) (inlining_of ex_index_tables) "/p" "c:@F@main" "c:a.c@F@helper" "" 50 false = Ok resp ∧
    ec_CgraphEdgeInlined resp = Some true ∧
    dump_inlined (Resolver.NewPathResolver "/p" "/p/build" "/p") tus "c:@F@main" "c:a.c@F@helper" ∧
    (ec_LinkedEdge resp = true ↔ ∃ dbn t, scanBuilddirObjectDefs (env_nm (m_link ex_machine)) ex_prepared.2 = Some dbn ∧
       t ∈ Meson.IntroTargets ex_prepared.1.2 ∧ code_call ex_machine ex_index_tables ex_prepared.2 dbn t "c:@F@main" "c:a.c@F@helper").
Proof.
  edestruct (explain_call_exact ex_machine "dev" ex_options ex_prepared.1.1 ex_prepared.1.2 ex_prepared.2 ex_index_tables
    (λ _, None) "/p" "c:@F@main" "c:a.c@F@helper" "" 50 false) as (tus & dbn & _ & Hdbn & _ & Hinl & Hlink & _);
    [vm_compute; reflexivity|vm_compute; reflexivity|].
  eexists _, tus. split; [vm_compute; reflexivity|]. split; [reflexivity|]. split; [by apply (Hinl true)|].
  split.
  - intros (t & Ht & _ & Hc)%Hlink. by exists dbn, t.
  - intros (dbn' & t & Hd & Ht & Hc). apply Hlink. exists t. split; [done|]. split; [by left|]. congruence.
Defined.
