(* ===== verification/Session.v ===== *)
(** * From the build to the answer ([cmd/herbarium])

    Both subcommands, one after the other: what a collection that ended well has left
    at the path of the index is what serve starts on, and the answers of the tools,
    called by their names, are about the build that was collected. *)

From S2P Require Import Prelude GoStrings OptRecord Paths Store Meson Ingest CallGraph SourceTools SymbolTools.
From S2P Require Import Reload Preflight Collect EndToEnd Report Tools Command LinkedCalls DumpCalls.
From Stdlib Require Import ZArith Lia.
Import Paths.Resolver.

(** A server whose handles are open on the index [i]. *)
Record serves (s : server) (i : index_tables) : Prop := {
  sv_tables : sv_index s = tools_of i;
  sv_inlining : sv_inline s = inlining_of i;
}.

(** What serve finds at the path of a finished index, if nothing has touched it. *)
Definition finds (w : world) (out : string) (i : index_tables) : Prop :=
  w_index w (Abs (m_cwd (w_machine w)) out) = Database (file_of i).

Lemma serve_check_ok Version w exe out i :
  out ≠ "" → finds w out i → is_Some (match Reload.runServe (Database (file_of i)) with Ok s => Some s | Err _ => None end) →
  p_status (main Version w [exe; "serve"; "--hbr"; out; "--check"]) = Exit 0.
Proof.
  intros Hne Hf [s Hs]. unfold main. cbn [String.eqb Ascii.eqb Bool.eqb]. cbn [p_status]. f_equal.
  assert (parse_serve ["--hbr"; out; "--check"] = Ok (ServeOptions out "" "stdio" ":7473" true, [])) as Hp.
  { unfold parse_serve. change "--hbr" with ("--" +:+ "hbr"). change "--check" with ("--" +:+ "check").
    by rewrite !Parse_text, Parse_bool by (done || by split_and!). }
  unfold runServe_args. rewrite Hp. cbn [so_hbr so_check]. apply String.eqb_neq in Hne. rewrite Hne, Hf.
  by destruct (Reload.runServe _).
Qed.

(** The object files below the directory [root], whose entries are [entries]; Meson's own
    directories at the top do not count. *)
Definition object_file (root : string) (entries : list BuildDir.tree) (p : string) : Prop :=
  ∃ t, t ∈ entries ∧ BuildDir.object_below root t p ∧
    match t with BuildDir.Dir n _ => n ∉ BuildDir.dirsToSkip | BuildDir.File _ => True end.

(** A preparation that ends well has crawled the build directory. *)
Lemma prepare_objects m o globs intro bd :
  prepare m o = Ok (globs, intro, bd) →
  let root := Abs (m_cwd m) (o_builddir o) in
  ∃ entries, m_tree m root = Some entries ∧
    ∀ p, p ∈ BuildDir.Object <$> BuildDir.Objects bd ↔ object_file root entries p.
Proof.
  unfold prepare. destruct (parse_globs _); [|done]. case_match; [done|]. destruct (Meson.Load _ _ _); [|done].
  destruct (filterTargets _ _); [|done]. destruct (m_tree m _) as [entries|]; [|done]. cbn zeta.
  case_match; [|done]. intros [= _ _ <-]. exists entries. split; [done|]. intros p.
  rewrite list_elem_of_fmap. unfold object_file. rewrite <-(BuildDir.Crawl_objects (m_ls m)). naive_solver.
Qed.

(** ** Properties *)

(** C2: Collect, then serve.  When [main] collects and ends well, its preparation has found
    the build directory with all its object files, the description of the build and the
    patterns, and the index its passes make of them is at the destination; [serve
    --check] on it ends well; and there are units — one for each of those objects, its
    dumps read —
    such that a server on this index, called for the tool [list_callees] or
    [list_callers] by its name, gives, when its answer is not cut, exactly the symbols
    that some recorded call joins to the one asked about. *)
Theorem collect_then_serve Version w exe o :
  random_ok (w_machine w) → Base (o_out o) ≠ "/" → o_out o ≠ "" →
  let p := main Version w (exe :: "collect" :: print_collect o) in
  p_status p = Exit 0 →
  ∃ f globs intro bd i tus, last (p_trace p) = Some f ∧ f !! o_out o = Some (Finished i) ∧
    prepare (w_machine w) o = Ok (globs, intro, bd) ∧
    passes (w_machine w) Version o globs intro bd = Val (Ok i) ∧
    (∃ entries, m_tree (w_machine w) (Abs (m_cwd (w_machine w)) (o_builddir o)) = Some entries ∧
       ∀ x, x ∈ BuildDir.Object <$> BuildDir.Objects bd ↔
         object_file (Abs (m_cwd (w_machine w)) (o_builddir o)) entries x) ∧
    Forall2 (λ art tu, parseTU (m_text (w_machine w)) (m_gunzip (w_machine w)) art = Ok tu) (BuildDir.Objects bd) tus ∧
    (∀ w', finds w' (o_out o) i → p_status (main Version w' [exe; "serve"; "--hbr"; o_out o; "--check"]) = Exit 0) ∧
    let pr := NewPathResolver (m_cwd (w_machine w)) (o_builddir o) (o_project_root o) in
    ∀ s, serves s i →
      (∀ u l, callTool s "list_callees" [("caller_usr", JStr u)] = Some (Neighbors_ (Ok (l, false))) →
         ∀ v, v ∈ CallGraph.USR <$> l.*1 ↔ dump_call pr tus u v) ∧
      (∀ v l, callTool s "list_callers" [("callee_usr", JStr v)] = Some (Neighbors_ (Ok (l, false))) →
         ∀ u, u ∈ CallGraph.USR <$> l.*1 ↔ dump_call pr tus u v).
Proof.
  intros Hr Hb Hne p. subst p. rewrite main_collect. cbn zeta. cbn [p_status p_trace]. intros He.
  destruct (runCollect_index _ _ _ _ Hr Hb He) as (f & globs & intro & bd & i & s & Hl & Hf & Hp & Hpass & _).
  pose proof (run_passes_made _ _ _ _ _ _ _ _ Hpass) as [Hm _].
  destruct (made_units _ _ _ _ _ _ _ Hm) as (tus & Htus & Hrun). exists f, globs, intro, bd, i, tus.
  do 3 (split; [done|]). split; [apply passes_run; by exists s|]. split; [by eapply prepare_objects|].
  split; [done|]. split.
  { intros w' Hw. apply (serve_check_ok _ _ _ _ i); [done|done|]. by eapply runServe_made. }
  intros sv [Hsv _]. split.
  - intros u l Hcall. apply (callees_exact _ _ _ _ _ _ _ tus Hm Hrun).
    injection Hcall as Hcall. by rewrite Hsv in Hcall.
  - intros v l Hcall. apply (callers_exact _ _ _ _ _ _ _ tus Hm Hrun).
    injection Hcall as Hcall. by rewrite Hsv in Hcall.
Qed.

(** On the run of [Collect]: collected, checked, and asked for the callees of [main] and
    the callers of [helper]. *)
Lemma collect_then_serve_witness :
  let p := main "dev" ex_world ("herbarium" :: "collect" :: print_collect ex_options) in
  p_status p = Exit 0 ∧
  p_status (main "dev" (World ex_machine ∅ (λ _, Database (file_of ex_index_tables)) None (λ _, None))
              ["herbarium"; "serve"; "--hbr"; "/tmp/x.hbr"; "--check"]) = Exit 0 ∧
  ∃ tus l k, callTool ex_server "list_callees" [("caller_usr", JStr "c:@F@main")] = Some (Neighbors_ (Ok (l, false))) ∧
    callTool ex_server "list_callers" [("callee_usr", JStr "c:a.c@F@helper")] = Some (Neighbors_ (Ok (k, false))) ∧
    CallGraph.USR <$> l.*1 = ["c:a.c@F@helper"] ∧ CallGraph.USR <$> k.*1 = ["c:@F@main"] ∧
    ∀ v, v ∈ CallGraph.USR <$> l.*1 ↔ dump_call (NewPathResolver "/p" "/p/build" "/p") tus "c:@F@main" v.
Proof.
  assert (random_ok (w_machine ex_world)) as Hr by (intros n; apply Nat2Z.is_nonneg).
  assert (p_status (main "dev" ex_world ("herbarium" :: "collect" :: print_collect ex_options)) = Exit 0) as He
    by (vm_compute; reflexivity).
  assert ((last (p_trace (main "dev" ex_world ("herbarium" :: "collect" :: print_collect ex_options))) ≫= λ f, f !! "/tmp/x.hbr") =
    Some (Finished ex_index_tables)) as Hi by (vm_compute; reflexivity).
  destruct (collect_then_serve "dev" ex_world "herbarium" ex_options Hr) as (f & globs & intro & bd & i & tus & Hl & Hf & _ & _ & _ & _ & Hs & Ht);
    [by_decide|by_decide|exact He|].
  rewrite Hl in Hi. change (f !! o_out ex_options = Some (Finished ex_index_tables)) in Hi. rewrite Hf in Hi.
  assert (i = ex_index_tables) as -> by congruence.
  split; [exact He|]. split; [apply Hs; reflexivity|]. exists tus. eexists _, _.
  split; [vm_compute; reflexivity|]. split; [vm_compute; reflexivity|]. split; [vm_compute; reflexivity|]. split; [vm_compute; reflexivity|].
  apply (Ht ex_server); [split; reflexivity|vm_compute; reflexivity].
Defined.
